(* ===== verification/_CoqProject ===== *)
-Q . S2P
Prelude.v
Wire.v
GoLib.v
Json.v
GoTime.v
Naming.v
Recovery.v
Record.v
RecordLifecycle.v
RecordProperties.v
RecordCodec.v
Admission.v
Merkle.v
Claim.v
ClaimWire.v
ClaimWinner.v
EpochCodec.v
EpochBuild.v
EpochProof.v
EpochDisk.v
EpochDurable.v
EpochJournal.v
EpochStore.v
Authority.v
EpochStoreProof.v
EpochInstall.v
AuthorityProof.v
AuthorityTyped.v
AuthorityPrepare.v
AuthorityWitness.v
GoNet.v
StateView.v
NamespaceView.v
Resolution.v
ResolutionProof.v
ResolutionEnd.v
ResolutionControl.v
ResolutionWitness.v
NetEpoch.v
NetEpochProof.v
NetEpochDecision.v
NetEpochChain.v
NetSource.v
NetState.v
NetStateCodec.v
NetStateProof.v
NetStateWave.v
NetStateMachine.v
NetStateServe.v
NetStateLoss.v
ResolutionTrust.v
NetEpochWitness.v
NetStateWitness.v
NetStateClock.v
