(* ===== verification/Prelude.v ===== *)
(** * Ardents Network: a verification of the Namespace and the Network State

    The program (module github.com/dianabuilds/ardents-network, below src/) is a
    network of nodes that publish and resolve Services under human-readable
    Service Names.  This library models its Namespace: the names, the signed
    Records that bind a name to a target, the quorum that can recover a lost
    Authority, the work challenges that admit claims, the ordering of competing
    claims, the Name Authority that accepts changes, the threshold-attested Epochs
    that make Records current and let a client check one name with a short proof,
    and the private protocol by which clients look names up and submit changes.
    It also models the Network State below it: the signed Network Epochs by which
    nodes agree on who they are, and the node that accepts, fetches, stores and
    recovers them.

    ** How the parts work together

    A holder submits work ([admission]) to have a claim commitment entered in an
    Epoch's log; the close of the Epoch selects one winner per name ([claim]).
    The winner's first Record, and every later transition of it ([record], with
    [recovery] for quorum changes of Authority), is signed by its holder, accepted
    by the Name Authority's control ([authority]) and appended to a pending
    journal.  An installation collects them on top of the current
    snapshot, a threshold of materialization authorities signs the result, and
    the store commits it as an immutable generation ([epoch]).  A client
    selects a Relay and a Gateway from the Network State ([state]) and asks the
    Gateway, through the Relay and in messages of one fixed size, for the proof
    that [Lookup] makes; it checks it with [VerifyBinding] against the authorities
    of that state ([resolution], with the views of [namespace]).  Control
    operations travel the same way to the Name Authority behind the Gateway.

    The Network State itself ([netstate]) is a chain of Epochs, each signed by a
    threshold of pinned authorities and committing to the Node Records that it
    accepts.  A node takes the next Epoch from a file or from two independent
    sources, verifies it against the one it shows, and records in a journal what it
    has seen, so that after a restart it neither goes back nor forgets a conflict
    ([running]).  What it shows is the view that resolution starts from.

    ** The files

    - Prelude: Go's bytes, strings, fixed arrays, machine integers, errors and
      results, record update, byte order, and the generic lemmas and tactics
      ([goprop], [inv_ok], [peel], [unwire]) the other files share.
    - Wire: byte decoders as a parser monad, with [Reads] for what an encoding
      decodes to.
    - GoLib: the functions of Go's standard library that the code calls.  SHA-256,
      HMAC, Ed25519 and Unicode lower-casing are the fields of the class [GoLib],
      over which every model is parametric; nothing is assumed of them.  Where a
      theorem needs a hash to be injective it says which listed inputs collide
      otherwise ([Collision]).  [sample_golib] instantiates them for the witnesses.
    - GoTime: instants in nanoseconds and durations, with Go's conversions.
    - Json: encoding/json as the code uses it, codecs of structs with the law that
      what is marshalled is read back.
    - GoNet: the address literals of package net.
    - Naming: internal/naming, names, Service Links and the label wire.
    - Recovery: internal/naming/namespace/recovery.
    - Record, RecordLifecycle, RecordProperties: the transitions of
      internal/naming/namespace/record, lemmas on each, and theorems over whole
      histories of a name.
    - RecordCodec: the wire, signatures and bindings of the same package.
    - Admission: internal/naming/namespace/admission, with concurrent callers as
      a step relation.
    - Merkle: the Merkle trees of the claim and epoch packages, over an abstract
      branch function.
    - Claim, ClaimWire, ClaimWinner: internal/naming/namespace/claim, its JSON
      proofs, and the use of a winner.
    - EpochCodec, EpochBuild, EpochProof: the wire, the materialization and the
      proofs of internal/naming/namespace/epoch.
    - EpochDisk, EpochDurable: its durable root; mutating operations are lists of
      file-system actions, and a crash leaves a prefix of them with the next one
      torn.
    - EpochJournal: its pending journal.
    - EpochStore, EpochStoreProof, EpochInstall: the store, its installations and
      lookups over the durable root.
    - Authority: internal/naming/namespace/authority, its operations, submissions,
      transitions and the durable control; AuthorityProof on what a submission may
      do and what survives a crash, AuthorityTyped on the fields of the Records,
      AuthorityPrepare on prepared submissions, AuthorityWitness a control at work.
    - StateView: the resolution view of internal/network/state.
    - NamespaceView: internal/naming/namespace, the views of Gateway and client.
    - Resolution: internal/naming/resolution; ResolutionProof on the messages and
      the Gateway, ResolutionEnd on a lookup from end to end, ResolutionControl on
      a control operation from end to end, ResolutionWitness one network at work.
    - NetEpoch: internal/network/state, the verification of an Epoch and of stored
      chains of them; NetEpochProof, NetEpochDecision and NetEpochChain on what an
      accepted Epoch means, ResolutionTrust on resolving from it, NetEpochWitness a
      network of signed Epochs.
    - NetSource: internal/network/source, the messages between a node and a source
      and their exchange over an established connection.
    - NetState: the running state of internal/network/state, calls in a state monad
      over the node and a disk that fails at a chosen step; NetStateCodec on its
      control file, NetStateProof and NetStateWave on what every call keeps,
      NetStateMachine on histories of a node as a step relation, with interleaved
      fetches, crashes and restarts, NetStateServe on a refresh from another node,
      NetStateLoss on disks that cannot be opened again, NetStateWitness one node at
      work, NetStateClock a node whose clock is set back.

    Each Go package is a Module; its structs are Records, its functions
    Definitions under their Go names.  Fallible functions return [result];
    methods that change an object return its next state, or the file-system
    actions to perform.  Integers are [Z] with the wrap-around of their Go type
    written out ([u64], [i64], ...).

    ** What is proved

    - Names: [Parse] accepts exactly the declarative grammar; the label wire
      round-trips, but is not injective.
    - Recovery: [Authorize] accepts exactly a quorum of distinct participants.
    - Records: every transition preserves validity and is a compare-and-swap;
      only the holder, a matured recovery or a reclaim changes the Authority; a
      recovery takes at least 72 hours; leases stay inside their parents'; advancing
      with the clock never fails and depends on what happened in between only in
      the revision.
    - Codecs: decoders accept exactly the encodings of well-formed values.
    - Admission: under any interleaving a challenge is admitted twice only by a
      call with a stale clock reading, and never when the calls run in the order of
      their readings; the spent set is bounded, an issued challenge can be used.
    - Claims: an opened winner is the lowest ordinal of its name in the committed
      log; it yields at most one Record however callers interleave.
    - Epochs: a verified binding is what the record lifecycle resolves from the
      attested corpus; the proofs that [Lookup] makes verify exactly while the
      name is available; commits survive crashes at any point; Epochs only grow;
      installations never roll a name back.  These hold up to the bound of 64
      generations, and what happens beyond it is proved too.
    - Authority: an accepted submission was admitted and authorized for exactly the
      change it makes; the control always equals what its store rebuilds, also
      after a crash at any point; a prepared submission is accepted.
    - Resolution: a resolved name has the binding that the attested corpus gives
      it, whatever Relay and Gateway did; an honest Gateway answers a lookup with
      exactly its store's binding and a control operation with exactly the
      authority's decision; every answer has one size; a nonce is taken once.
    - Network State: an accepted Epoch has a quorum, extends the one before and
      shows exactly the records it commits to; equal digests are equal views; a
      resolver trusts exactly the pinned authorities; a served inclusion proof is
      accepted; stored chains load within a fixed number of rounds; the control
      file is read back exactly; one honest source is enough for a refresh; through
      calls, disk failures, crashes and restarts a node whose clock is not set back
      while it runs never shows an earlier Epoch and never forgets a conflict, and
      a history shows that a clock set back can bring an earlier Epoch back.
    - Defects: the theorems of kind "error" and the findings of the manifest.

    ** Bounds and fuel

    Loops are structural where the code's are.  The remaining ones have fuel
    that cannot run out before the loop's own exit: 127 rounds up a lineage that
    stops at depth 126, one round per leaf for trees, 32 rounds for shifting a
    32-bit index, one round per Record for chunks, 65
    generations for a chain of at most 64 Epochs.  [Solve], the search for a work
    nonce, takes its fuel as an argument and is [None] without a result; the
    theorems that use it say with which fuel it succeeds.

    ** Not modelled

    Closed Route profiles and local roles of the Network State, the TLS below an
    exchange with a source, its timeouts and its listener; the endpoint, node, service, route,
    custody, release, contributor, application and command packages, which are
    outside the Namespace and the Network State; OHTTP, HTTP and the entropy source,
    which are arguments of the clients and the Relay; the claiming of a fresh
    directory, file locks and I/O errors other than a crash in the durable root.
    Mutexes are modelled where interleaving matters (admission, claim winners, the
    running Network State) and otherwise make each method atomic: the calls of one
    store follow one another, also those of [CommitLegacy], which the code does not
    keep apart; a Gateway's request is one step, with one reading of the clock. *)

From Stdlib Require Export ZArith Lia.
From Stdlib Require Strings.Byte.
From stdpp Require Export base tactics list gmap strings sorting.

Export Corelib.Init.Byte(byte(..)).
#[export] Set Default Goal Selector "!".
Global Open Scope Z_scope.
Declare Scope go_scope.
Delimit Scope go_scope with go.

(** ** Bytes, strings and byte slices

    A Go [string] and a Go [[]byte] are both modelled as a list of bytes, so
    that the conversions between them are the identity. *)

#[global] Instance byte_eq_dec : EqDecision byte := Byte.byte_eq_dec.

#[global] Program Instance byte_countable : Countable byte :=
  inj_countable Byte.to_N Byte.of_N _.
Next Obligation. apply Byte.of_to_N. Qed.

Notation bytes := (list byte).
Notation gostring := (list byte).

(** A string literal of the source. *)
Definition str (s : string) : gostring := String.list_byte_of_string s.
Arguments str : simpl never.

(** [len] as a Go [int]. *)
Definition len {A} (l : list A) : Z := Z.of_nat (length l).
Arguments len {A} l : simpl never.

Definition byte_val (b : byte) : Z := Z.of_N (Byte.to_N b).
Definition byte_of (z : Z) : byte :=
  default x00 (Byte.of_N (Z.to_N (z mod 256))).
Arguments byte_val : simpl never.
Arguments byte_of : simpl never.

(** Boolean equality on any type with decidable equality. *)
Notation "x ==? y" := (bool_decide (x = y)) (at level 70, no associativity) : go_scope.
Notation "x !=? y" := (negb (bool_decide (x = y))) (at level 70, no associativity) : go_scope.

(** ** Errors

    [New] is [errors.New]; [Fmt] is [fmt.Errorf] without a [%w] operand and
    [Wrap] is one whose [%w] operand is the inner error; [Transition] is the record package's [transitionError],
    whose reason is either a fixed text or the text of another error behind a
    fixed prefix. *)

Inductive error :=
| New (text : string)
| Fmt (format : string)
| Wrap (format : string) (inner : error)
| Transition (action : gostring) (reason : reason)
with reason :=
| Text (text : string)
| TextOf (prefix : string) (e : error).

(** [errors.Is] against a sentinel made by [errors.New]. *)
Fixpoint errors_Is (e : error) (sentinel : string) : bool :=
  match e with
  | New t => bool_decide (t = sentinel)
  | Fmt _ => false
  | Wrap _ e' => errors_Is e' sentinel
  | Transition _ _ => false
  end.

(** The pair [(value, error)] of a fallible Go function, with the value only
    available when the error is nil. *)
Inductive result (A : Type) :=
| Ok (a : A)
| Err (e : error).
Arguments Ok {A} a.
Arguments Err {A} e.

#[global] Instance result_ret : MRet result := fun A a => Ok a.
#[global] Instance result_bind : MBind result := fun A B f r =>
  match r with Ok a => f a | Err e => Err e end.

Definition is_ok {A} (r : result A) : bool :=
  match r with Ok _ => true | Err _ => false end.
Definition is_err {A} (r : result A) : bool := negb (is_ok r).

(** [reject e when c; k] is Go's [if c { return ..., e }] followed by [k]. *)
Notation "'reject' e 'when' c ; k" := (if c%go then Err e else k%go)
  (at level 100, e at level 99, c at level 99, k at level 200, right associativity,
   format "'[v' 'reject'  e  'when'  c ; '/' k ']'") : go_scope.

Open Scope go_scope.

(** ** Machine integers *)

Definition u8 (z : Z) : Z := z mod 2 ^ 8.
Definition u16 (z : Z) : Z := z mod 2 ^ 16.
Definition u32 (z : Z) : Z := z mod 2 ^ 32.
Definition u64 (z : Z) : Z := z mod 2 ^ 64.
Definition i64 (z : Z) : Z := (z + 2 ^ 63) mod 2 ^ 64 - 2 ^ 63.

Definition in_u8 (z : Z) : Prop := 0 <= z < 2 ^ 8.
Definition in_u32 (z : Z) : Prop := 0 <= z < 2 ^ 32.
Definition in_u64 (z : Z) : Prop := 0 <= z < 2 ^ 64.
Definition in_i64 (z : Z) : Prop := - 2 ^ 63 <= z < 2 ^ 63.

(** ** Big-endian encoding (encoding/binary) *)

Fixpoint be_bytes (n : nat) (z : Z) : bytes :=
  match n with
  | O => []
  | S n' => be_bytes n' (z / 256) ++ [byte_of z]
  end.

Definition be_val (l : bytes) : Z := foldl (fun acc b => acc * 256 + byte_val b) 0 l.

Arguments be_bytes : simpl never.
Arguments be_val : simpl never.

Definition AppendUint16 (out : bytes) (v : Z) : bytes := out ++ be_bytes 2 v.
Definition AppendUint32 (out : bytes) (v : Z) : bytes := out ++ be_bytes 4 v.
Definition AppendUint64 (out : bytes) (v : Z) : bytes := out ++ be_bytes 8 v.

(** ** Fixed-size arrays [[n]byte] *)

Record array (n : nat) := Array {
  array_bytes :> bytes;
  array_len : bool_decide (length array_bytes = n)
}.
Arguments Array {n} _ _.
Arguments array_bytes {n} _.
Arguments array_len {n} _.

(** A proof of a true test in normal form, so that arrays built in different ways
    evaluate to the same term. *)
Definition truth {b : bool} : Is_true b -> Is_true b :=
  match b with true => fun _ => I | false => fun H => H end.

(** [var a [n]byte; copy(a[:], l)] *)
Definition to_array (n : nat) (l : bytes) : array n :=
  Array (resize n x00 l) (truth (bool_decide_pack _ (length_resize l n x00))).

Definition zero (n : nat) : array n := to_array n [].
Notation zero32 := (zero 32).

(** ** Byte-wise comparison ([bytes.Compare] and string order) *)

Fixpoint bytes_compare (l r : bytes) : comparison :=
  match l, r with
  | [], [] => Eq
  | [], _ :: _ => Lt
  | _ :: _, [] => Gt
  | a :: l', b :: r' =>
      match byte_val a ?= byte_val b with
      | Eq => bytes_compare l' r'
      | c => c
      end
  end.

Definition bytes_ltb (l r : bytes) : bool :=
  match bytes_compare l r with Lt => true | _ => false end.

(** [bytes.Compare(l, r) >= 0] *)
Definition bytes_geb (l r : bytes) : bool := negb (bytes_ltb l r).

(** ** Record update

    [Eta R] names every field of [R] once; [r <| f := v |>] then replaces one
    field, as an assignment to a copied Go struct does. *)

Class Eta (R : Type) := eta : R -> R.
Class Update {R E : Type} (proj : R -> E) := update : (E -> E) -> R -> R.
Definition set {R E} (proj : R -> E) {u : Update proj} (f : E -> E) (r : R) : R := update f r.
Arguments set {R E} proj {u} f r /.
Arguments update {R E} proj {Update} f r /.

Ltac build_update R proj :=
  let f := fresh "f" in
  let r := fresh "r" in
  intros f r;
  let b := eval hnf in (eta (R := R) r) in
  match b with
  | context C [proj r] => let b' := context C [f (proj r)] in exact b'
  end.

#[global] Hint Extern 0 (@Update ?R ?E ?proj) => build_update R proj : typeclass_instances.

Notation "r <| f := v |>" := (set f (fun _ => v) r)
  (at level 1, left associativity, f constr at level 1, v constr at level 200, format "r  <| f  :=  v |>") : go_scope.

(** ** Automation

    [goprop] turns boolean tests of the code into propositions; [inv_ok] walks
    a hypothesis [... = Ok x] through the guards and binds it passed. *)

Create HintDb go discriminated.
Create HintDb gobool.

#[global] Hint Rewrite andb_true_iff orb_false_iff negb_true_iff negb_false_iff
  Z.leb_le Z.ltb_lt Z.leb_gt Z.ltb_ge Z.eqb_eq Z.eqb_neq Nat.eqb_eq Nat.eqb_neq
  @bool_decide_eq_true @bool_decide_eq_false : gobool.

Ltac goprop := autorewrite with gobool in *; destruct_and?.

(** Decide the comparisons of two literal strings. *)
Ltac literals :=
  repeat match goal with
  | |- context [bool_decide (str ?a = str ?b)] =>
      let v := eval vm_compute in (bool_decide (str a = str b)) in
      change (bool_decide (str a = str b)) with v; cbn [orb andb negb]; cbv iota
  | H : context [bool_decide (str ?a = str ?b)] |- _ =>
      let v := eval vm_compute in (bool_decide (str a = str b)) in
      change (bool_decide (str a = str b)) with v in H; cbn [orb andb negb] in H; cbv iota in H
  end.

Ltac inv_ok1 :=
  match goal with
  | H : Ok _ = Ok _ |- _ => apply (inj Ok) in H
  | H : Err _ = Ok _ |- _ => discriminate H
  | H : Ok _ = Err _ |- _ => discriminate H
  | H : (if ?c then Err _ else _) = Ok _ |- _ => destruct c eqn:?; [discriminate H|]
  | H : (if ?c then _ else Err _) = Ok _ |- _ => destruct c eqn:?; [|discriminate H]
  | H : mbind _ ?r = Ok _ |- _ =>
      let E := fresh "Hok" in
      destruct r eqn:E; [change (mbind ?f (Ok ?a)) with (f a) in H; cbv beta in H | discriminate H]
  | H : match ?r with Ok _ => _ | Err _ => _ end = Ok _ |- _ =>
      let E := fresh "Hok" in destruct r eqn:E; [|discriminate H]
  end.
Ltac inv_ok := repeat inv_ok1.

#[global] Instance Ok_inj {A} : Inj (=) (=) (@Ok A).
Proof. intros x y H. by injection H. Qed.

(** ** Machine integer lemmas *)

Lemma u64_range z : in_u64 (u64 z).
Proof. apply Z.mod_pos_bound. lia. Qed.

Lemma u64_id z : in_u64 z -> u64 z = z.
Proof. apply Z.mod_small. Qed.

Lemma i64_range z : in_i64 (i64 z).
Proof. unfold in_i64, i64. pose proof (Z.mod_pos_bound (z + 2 ^ 63) (2 ^ 64)). lia. Qed.

Lemma i64_id z : in_i64 z -> i64 z = z.
Proof. unfold in_i64, i64. intros. rewrite Z.mod_small; lia. Qed.

(** Converting [int64 -> uint64 -> int64] is the identity. *)
Lemma i64_u64 z : in_i64 z -> i64 (u64 z) = z.
Proof.
  unfold in_i64, i64, u64. intros. rewrite Zplus_mod_idemp_l, Z.mod_small; lia.
Qed.

Lemma i64_inj_mod a b : in_i64 a -> in_i64 b -> u64 a = u64 b -> a = b.
Proof. intros Ha Hb E. rewrite <- (i64_u64 a Ha), <- (i64_u64 b Hb). by rewrite E. Qed.

#[export] Hint Resolve u64_range i64_range : go.

(** ** Byte lemmas *)

Lemma byte_val_range b : 0 <= byte_val b < 256.
Proof. unfold byte_val. pose proof (Byte.to_N_bounded b). lia. Qed.

Lemma byte_of_val b : byte_of (byte_val b) = b.
Proof.
  unfold byte_of. rewrite Z.mod_small by apply byte_val_range.
  unfold byte_val. by rewrite N2Z.id, Byte.of_to_N.
Qed.

Lemma byte_val_of z : byte_val (byte_of z) = z mod 256.
Proof.
  unfold byte_of, byte_val. pose proof (Z.mod_pos_bound z 256 eq_refl).
  destruct (Byte.of_N _) as [b|] eqn:E; simpl.
  - apply Byte.to_of_N in E. rewrite E. lia.
  - apply Byte.of_N_None_iff in E. lia.
Qed.

Lemma byte_of_mod z : byte_of (z mod 256) = byte_of z.
Proof. unfold byte_of. by rewrite Z.mod_mod. Qed.

#[global] Instance byte_val_inj : Inj (=) (=) byte_val.
Proof. intros a b E. by rewrite <- (byte_of_val a), E, byte_of_val. Qed.

(** ** Big-endian lemmas *)

Lemma length_be_bytes n z : length (be_bytes n z) = n.
Proof.
  revert z. induction n as [|n IH]; intros z; [done|].
  unfold be_bytes; fold be_bytes. rewrite length_app, IH. simpl. lia.
Qed.

Lemma be_val_snoc l b : be_val (l ++ [b]) = be_val l * 256 + byte_val b.
Proof. unfold be_val. by rewrite foldl_app. Qed.

Lemma be_val_range l : 0 <= be_val l < 256 ^ len l.
Proof.
  unfold len. induction l as [|b l IH] using rev_ind; [done|].
  rewrite be_val_snoc, length_app, Nat2Z.inj_add, Z.pow_add_r by lia.
  pose proof (byte_val_range b). simpl (256 ^ Z.of_nat (length [b])). lia.
Qed.

Lemma be_val_bytes n z : be_val (be_bytes n z) = z mod 256 ^ Z.of_nat n.
Proof.
  revert z. induction n as [|n IH]; intros z; [by rewrite Z.mod_1_r|].
  unfold be_bytes; fold be_bytes. rewrite be_val_snoc, IH, byte_val_of, Nat2Z.inj_succ.
  rewrite Z.pow_succ_r by lia.
  rewrite Z.rem_mul_r; lia.
Qed.

Lemma be_bytes_val l : be_bytes (length l) (be_val l) = l.
Proof.
  induction l as [|b l IH] using rev_ind; [done|].
  rewrite length_app, Nat.add_comm. simpl (length [b] + _)%nat.
  unfold be_bytes; fold be_bytes. rewrite be_val_snoc.
  pose proof (byte_val_range b).
  rewrite Z.div_add_l, Z.div_small, Z.add_0_r, IH by lia. f_equal.
  rewrite <- byte_of_mod, Z.add_comm, Z.mod_add, Z.mod_small by lia.
  by rewrite byte_of_val.
Qed.

Lemma be_bytes_mod n z : be_bytes n (z mod 256 ^ Z.of_nat n) = be_bytes n z.
Proof. rewrite <- be_val_bytes, <- (length_be_bytes n z) at 1. apply be_bytes_val. Qed.

Lemma be_val_bytes8 z : be_val (be_bytes 8 z) = u64 z.
Proof. rewrite be_val_bytes. done. Qed.

Lemma be_val_bytes4 z : be_val (be_bytes 4 z) = u32 z.
Proof. rewrite be_val_bytes. done. Qed.

Lemma be_val_bytes2 z : be_val (be_bytes 2 z) = u16 z.
Proof. rewrite be_val_bytes. done. Qed.

(** ** Array lemmas *)

Lemma array_length {n} (a : array n) : length a = n.
Proof. exact (bool_decide_unpack _ (array_len a)). Qed.

Lemma len_array {n} (a : array n) : len a = Z.of_nat n.
Proof. unfold len. by rewrite array_length. Qed.

Lemma array_eq {n} (a b : array n) : array_bytes a = array_bytes b -> a = b.
Proof.
  destruct a as [la Ha], b as [lb Hb]. simpl. intros ->. f_equal. apply proof_irrel.
Qed.

#[global] Instance array_bytes_inj {n} : Inj (=) (=) (@array_bytes n).
Proof. intros a b. apply array_eq. Qed.

#[global] Instance array_eq_dec {n} : EqDecision (array n).
Proof.
  refine (fun a b => cast_if (decide (array_bytes a = array_bytes b))).
  - by apply array_eq.
  - congruence.
Defined.

Lemma to_array_id {n} (a : array n) : to_array n a = a.
Proof. apply array_eq. simpl. rewrite <- (array_length a) at 1. apply resize_all. Qed.

Lemma to_array_bytes n l : length l = n -> array_bytes (to_array n l) = l.
Proof. intros <-. apply resize_all. Qed.

#[global] Program Instance array_countable {n} : Countable (array n) :=
  inj_countable' array_bytes (to_array n) _.
Next Obligation. intros n a. apply to_array_id. Qed.

(** ** Comparison lemmas *)

Lemma bytes_compare_refl l : bytes_compare l l = Eq.
Proof. induction l as [|b l IH]; simpl; [done|]. by rewrite Z.compare_refl. Qed.

Lemma bytes_compare_eq l r : bytes_compare l r = Eq -> l = r.
Proof.
  revert r. induction l as [|a l IH]; intros [|b r]; simpl; try done.
  destruct (Z.compare_spec (byte_val a) (byte_val b)); try done.
  intros E. f_equal; [by apply (inj byte_val)|by apply IH].
Qed.

Lemma bytes_compare_antisym l r : bytes_compare r l = CompOpp (bytes_compare l r).
Proof.
  revert r. induction l as [|a l IH]; intros [|b r]; simpl; try done.
  rewrite Z.compare_antisym. destruct (byte_val a ?= byte_val b); simpl; auto.
Qed.

Lemma bytes_compare_lt_trans l r s :
  bytes_compare l r = Lt -> bytes_compare r s = Lt -> bytes_compare l s = Lt.
Proof.
  revert r s. induction l as [|a l IH]; intros [|b r] [|c s]; simpl; try done.
  destruct (Z.compare_spec (byte_val a) (byte_val b)),
    (Z.compare_spec (byte_val b) (byte_val c)),
    (Z.compare_spec (byte_val a) (byte_val c)); try done; try lia; eauto.
Qed.

Definition bytes_lt (l r : bytes) : Prop := bytes_ltb l r = true.

Lemma bytes_ltb_lt l r : bytes_ltb l r = true <-> bytes_compare l r = Lt.
Proof. unfold bytes_ltb. by destruct (bytes_compare l r). Qed.

#[global] Instance bytes_lt_trans : Transitive bytes_lt.
Proof.
  intros l r s. unfold bytes_lt. rewrite !bytes_ltb_lt. apply bytes_compare_lt_trans.
Qed.

#[global] Instance bytes_lt_irrefl : Irreflexive bytes_lt.
Proof. intros l. unfold complement, bytes_lt, bytes_ltb. by rewrite bytes_compare_refl. Qed.

Lemma bytes_lt_total l r : bytes_lt l r \/ l = r \/ bytes_lt r l.
Proof.
  unfold bytes_lt, bytes_ltb. rewrite (bytes_compare_antisym l r).
  destruct (bytes_compare l r) eqn:E; auto. right; left. by apply bytes_compare_eq.
Qed.

Lemma bytes_geb_true l r : bytes_geb l r = true <-> l = r \/ bytes_lt r l.
Proof.
  unfold bytes_geb. rewrite negb_true_iff.
  destruct (bytes_lt_total l r) as [H|[H|H]].
  - rewrite H. split; [done|]. intros [->|H']; [by destruct (bytes_lt_irrefl r)|].
    destruct (bytes_lt_irrefl l). by transitivity r.
  - subst. split; [by left|]. intros _.
    destruct (bytes_ltb r r) eqn:E; [by destruct (bytes_lt_irrefl r)|done].
  - split; [by right|]. intros _. destruct (bytes_ltb l r) eqn:E; [|done].
    destruct (bytes_lt_irrefl l). by transitivity r.
Qed.

Lemma bytes_geb_false l r : bytes_geb l r = false <-> bytes_lt l r.
Proof. unfold bytes_geb, bytes_lt. by rewrite negb_false_iff. Qed.

(** ** Length lemmas *)

Lemma len_nil {A} : len (@nil A) = 0.
Proof. done. Qed.

Lemma len_cons {A} (a : A) l : len (a :: l) = 1 + len l.
Proof. unfold len. simpl length. lia. Qed.

Lemma len_app {A} (l r : list A) : len (l ++ r) = len l + len r.
Proof. unfold len. rewrite length_app. lia. Qed.

Lemma len_nonneg {A} (l : list A) : 0 <= len l.
Proof. unfold len. lia. Qed.

Lemma len_zero_nil {A} (l : list A) : len l = 0 -> l = [].
Proof. destruct l; [done|]. rewrite len_cons. pose proof (len_nonneg l). lia. Qed.

Lemma len_be_bytes n z : len (be_bytes n z) = Z.of_nat n.
Proof. unfold len. by rewrite length_be_bytes. Qed.

#[global] Hint Rewrite @len_nil @len_cons @len_app @len_array len_be_bytes : len.

(** ** List lemmas *)

Lemma forallb_true {A} (f : A -> bool) l : forallb f l = true <-> Forall (fun x => f x = true) l.
Proof. rewrite forallb_forall, Forall_forall. by setoid_rewrite list_elem_of_In. Qed.

(** ** Injectivity of concatenated encodings *)

Lemma be_bytes_inj n a b :
  0 <= a < 256 ^ Z.of_nat n -> 0 <= b < 256 ^ Z.of_nat n -> be_bytes n a = be_bytes n b -> a = b.
Proof. intros Ha Hb E%(f_equal be_val). rewrite !be_val_bytes, !Z.mod_small in E; done. Qed.

Lemma be_bytes8_inj a b : in_u64 a -> in_u64 b -> be_bytes 8 a = be_bytes 8 b -> a = b.
Proof. exact (be_bytes_inj 8 a b). Qed.

Lemma be_bytes8_inj_i64 a b : in_i64 a -> in_i64 b -> be_bytes 8 a = be_bytes 8 b -> a = b.
Proof. intros Ha Hb E%(f_equal be_val). rewrite !be_val_bytes8 in E. by apply i64_inj_mod. Qed.

Lemma be_bytes4_inj a b : in_u32 a -> in_u32 b -> be_bytes 4 a = be_bytes 4 b -> a = b.
Proof. exact (be_bytes_inj 4 a b). Qed.

Lemma byte_of_inj a b : in_u8 a -> in_u8 b -> byte_of a = byte_of b -> a = b.
Proof. intros Ha Hb E%(f_equal byte_val). rewrite !byte_val_of, !Z.mod_small in E; done. Qed.

(** Peel the first component of two equal concatenations whose first components
    have the same length. *)
Lemma app_peel {A} (k1 k2 l1 l2 : list A) :
  length k1 = length k2 -> k1 ++ l1 = k2 ++ l2 -> k1 = k2 /\ l1 = l2.
Proof. intros Hl E. by apply app_inj_1. Qed.

Lemma app_peel_len {A} (k1 k2 l1 l2 : list A) :
  len k1 = len k2 -> k1 ++ l1 = k2 ++ l2 -> k1 = k2 /\ l1 = l2.
Proof. intros Hl. apply app_peel. unfold len in Hl. lia. Qed.

Ltac wire_len := rewrite ?length_be_bytes, ?array_length; done.

(** [peel E]: split [E : fixed ++ rest = fixed' ++ rest'] into its first
    component and the rest. *)
Ltac peel E :=
  let H := fresh "Hw" in
  apply app_peel in E as [H E]; [|wire_len].

(** [unwire]: turn equalities of encoded fixed-width fields into equalities of
    the fields, using the range hypotheses in the context. *)
Ltac unwire := repeat match goal with
  | H : be_bytes 8 _ = be_bytes 8 _ |- _ =>
      first [apply be_bytes8_inj in H; [|assumption|assumption]
            |apply be_bytes8_inj_i64 in H; [|assumption|assumption]]
  | H : be_bytes 4 _ = be_bytes 4 _ |- _ => apply be_bytes4_inj in H; [|assumption|assumption]
  | H : byte_of _ = byte_of _ |- _ => apply byte_of_inj in H; [|assumption|assumption]
  | H : array_bytes _ = array_bytes _ |- _ => apply array_eq in H
  end.

Lemma default_Some {A} (d a : A) o : o = Some a -> default d o = a.
Proof. by intros ->. Qed.

Lemma len_map {A B} (f : A -> B) l : len (map f l) = len l.
Proof. unfold len. by rewrite List.length_map. Qed.
#[global] Hint Rewrite @len_map : len.
