(* ===== verification/Wire.v ===== *)
(** * Decoders over byte slices

    The cursors of the wire codecs ([raw] with an [offset]) are modelled by the
    bytes that remain after the offset, so that a cursor method is a decoder: a
    function from the remaining bytes to its value and what remains then.
    [Reads p enc v] says that [p] reads [v] from [enc] and nothing beyond it. *)

From S2P Require Import Prelude.

Definition decoder (A : Type) : Type := bytes -> result (A * bytes).

#[global] Instance decoder_ret : MRet decoder := fun A a rest => Ok (a, rest).
#[global] Instance decoder_bind : MBind decoder := fun A B f p rest =>
  match p rest with
  | Ok (a, rest') => f a rest'
  | Err e => Err e
  end.

Definition decode_fail {A} (e : error) : decoder A := fun _ => Err e.

(** Replace the error of a decoder. *)
Definition or_error {A} (e : error) (p : decoder A) : decoder A := fun rest =>
  match p rest with Ok r => Ok r | Err _ => Err e end.

(** [n] bytes, or the error when fewer remain. *)
Definition take_bytes (n : Z) (e : error) : decoder bytes := fun rest =>
  if len rest <? n then Err e else Ok (take (Z.to_nat n) rest, drop (Z.to_nat n) rest).

(** A big-endian integer of [n] bytes. *)
Definition take_uint (n : Z) (e : error) : decoder Z := fun rest =>
  match take_bytes n e rest with Ok (l, rest') => Ok (be_val l, rest') | Err e' => Err e' end.

Definition take_array (n : nat) (e : error) : decoder (array n) := fun rest =>
  match take_bytes (Z.of_nat n) e rest with
  | Ok (l, rest') => Ok (to_array n l, rest')
  | Err e' => Err e'
  end.

(** [count] values one after the other. *)
Fixpoint take_many {A} (count : nat) (p : decoder A) : decoder (list A) :=
  match count with
  | O => mret []
  | S n => fun rest =>
      match p rest with
      | Err e => Err e
      | Ok (a, rest') =>
          match take_many n p rest' with
          | Err e => Err e
          | Ok (l, rest'') => Ok (a :: l, rest'')
          end
      end
  end.

Definition Reads {A} (p : decoder A) (enc : bytes) (v : A) : Prop :=
  forall rest, p (enc ++ rest) = Ok (v, rest).

(** A decoder consumes a prefix: what it read, followed by what remains, is its
    input. *)
Definition Consumes {A} (p : decoder A) (enc : A -> bytes) : Prop :=
  forall raw v rest, p raw = Ok (v, rest) -> raw = enc v ++ rest.

Section Reads.

Lemma reads_ret {A} (v : A) : Reads (mret v) [] v.
Proof. intros rest. done. Qed.

Lemma reads_bind {A B} (p : decoder A) (k : A -> decoder B) e1 e2 v w :
  Reads p e1 v -> Reads (k v) e2 w -> Reads (p ≫= k) (e1 ++ e2) w.
Proof.
  intros Hp Hk rest. unfold mbind, decoder_bind. rewrite <- app_assoc, Hp. apply Hk.
Qed.

Lemma reads_or_error {A} e (p : decoder A) enc v : Reads p enc v -> Reads (or_error e p) enc v.
Proof. intros Hp rest. unfold or_error. by rewrite Hp. Qed.

Lemma reads_take_bytes n e enc : len enc = n -> Reads (take_bytes n e) enc enc.
Proof.
  intros <- rest. unfold take_bytes. rewrite len_app.
  pose proof (len_nonneg rest). rewrite (proj2 (Z.ltb_ge _ _)) by lia.
  unfold len. rewrite Nat2Z.id, take_app_length, drop_app_length. done.
Qed.

Lemma reads_take_uint n e v :
  0 <= v < 256 ^ Z.of_nat n -> Reads (take_uint (Z.of_nat n) e) (be_bytes n v) v.
Proof.
  intros Hv rest. unfold take_uint. rewrite reads_take_bytes by apply len_be_bytes.
  by rewrite be_val_bytes, Z.mod_small.
Qed.

Lemma reads_uint64 e v : in_u64 v -> Reads (take_uint 8 e) (be_bytes 8 v) v.
Proof. exact (reads_take_uint 8 e v). Qed.

(** An [int64] goes over the wire as the [uint64] with the same bits. *)
Lemma reads_uint64_wrap e z : Reads (take_uint 8 e) (be_bytes 8 z) (u64 z).
Proof.
  intros rest. unfold take_uint. rewrite reads_take_bytes by apply len_be_bytes.
  by rewrite be_val_bytes8.
Qed.

Lemma reads_uint32 e v : in_u32 v -> Reads (take_uint 4 e) (be_bytes 4 v) v.
Proof. exact (reads_take_uint 4 e v). Qed.

Lemma reads_uint16 e v : 0 <= v < 2 ^ 16 -> Reads (take_uint 2 e) (be_bytes 2 v) v.
Proof. exact (reads_take_uint 2 e v). Qed.

Lemma reads_array n e (a : array n) : Reads (take_array n e) a a.
Proof.
  intros rest. unfold take_array. rewrite reads_take_bytes by apply len_array.
  by rewrite to_array_id.
Qed.

Lemma reads_many {A B} (p : decoder A) (enc : B -> bytes) (f : B -> A) bs :
  (forall b, b ∈ bs -> Reads p (enc b) (f b)) ->
  Reads (take_many (length bs) p) (concat (map enc bs)) (map f bs).
Proof.
  induction bs as [|b bs IH]; intros Hp rest; [done|]. cbn [length take_many map concat].
  rewrite <- app_assoc, (Hp b) by left. rewrite IH; [done|]. intros b' Hb. apply Hp. by right.
Qed.

(** A decoded prefix without a remainder. *)
Lemma reads_all {A} (p : decoder A) enc v : Reads p enc v -> p enc = Ok (v, []).
Proof. intros Hp. rewrite <- (app_nil_r enc) at 1. apply Hp. Qed.

Lemma take_bytes_ok n e raw l rest :
  take_bytes n e raw = Ok (l, rest) -> 0 <= n -> raw = l ++ rest /\ len l = n.
Proof.
  unfold take_bytes. destruct (Z.ltb_spec (len raw) n); [done|]. intros [= <- <-] Hn.
  split; [by rewrite take_drop|]. unfold len in *. rewrite length_take. lia.
Qed.

Lemma take_uint_ok n e raw v rest :
  take_uint n e raw = Ok (v, rest) -> 0 <= n ->
  raw = be_bytes (Z.to_nat n) v ++ rest /\ 0 <= v < 256 ^ n.
Proof.
  unfold take_uint. destruct (take_bytes n e raw) as [[l rest']|] eqn:E; [|done].
  intros [= <- <-] Hn. apply take_bytes_ok in E as [-> Hl]; [|done].
  replace (Z.to_nat n) with (length l) by (unfold len in Hl; lia).
  rewrite be_bytes_val, <- Hl. split; [done|apply be_val_range].
Qed.

Lemma take_array_ok n e raw (a : array n) rest :
  take_array n e raw = Ok (a, rest) -> raw = a ++ rest.
Proof.
  unfold take_array. destruct (take_bytes _ e raw) as [[l rest']|] eqn:E; [|done].
  intros [= <- <-]. apply take_bytes_ok in E as [-> Hl]; [|lia].
  rewrite to_array_bytes; [done|]. unfold len in Hl. lia.
Qed.

Lemma bind_ok {A B} (p : decoder A) (k : A -> decoder B) raw v rest :
  (p ≫= k) raw = Ok (v, rest) ->
  exists a rest', p raw = Ok (a, rest') /\ k a rest' = Ok (v, rest).
Proof. unfold mbind, decoder_bind. destruct (p raw) as [[a rest']|]; [eauto|done]. Qed.

Lemma or_error_ok {A} e (p : decoder A) raw v rest :
  or_error e p raw = Ok (v, rest) -> p raw = Ok (v, rest).
Proof. unfold or_error. by destruct (p raw) as [[]|]. Qed.

Lemma take_many_Forall {A} (P : A -> Prop) (p : decoder A) n raw l rest :
  (forall raw v rest, p raw = Ok (v, rest) -> P v) ->
  take_many n p raw = Ok (l, rest) -> Forall P l /\ length l = n.
Proof.
  intros Hp. revert raw l rest. induction n as [|n IH]; intros raw l rest; cbn [take_many].
  { intros [= <- <-]. by split; [constructor|]. }
  destruct (p raw) as [[a rest']|] eqn:E; [|done].
  destruct (take_many n p rest') as [[l' rest'']|] eqn:E'; [|done]. intros [= <- <-].
  apply IH in E' as [Hl Hn]. split; [constructor; eauto|simpl; lia].
Qed.

Lemma take_uint_shorter n e raw v rest :
  take_uint n e raw = Ok (v, rest) -> 0 <= n -> len rest <= len raw.
Proof.
  intros E Hn. apply take_uint_ok in E as [-> _]; [|done]. autorewrite with len. lia.
Qed.

Lemma take_many_shorter {A} (p : decoder A) n raw l rest :
  (forall raw v rest, p raw = Ok (v, rest) -> len rest <= len raw) ->
  take_many n p raw = Ok (l, rest) -> len rest <= len raw.
Proof.
  intros Hp. revert raw l rest. induction n as [|n IH]; intros raw l rest; cbn [take_many].
  { by intros [= <- <-]. }
  destruct (p raw) as [[a rest']|] eqn:E; [|done].
  destruct (take_many n p rest') as [[l' rest'']|] eqn:E'; [|done]. intros [= <- <-].
  apply IH in E'. apply Hp in E. lia.
Qed.

End Reads.

(** [inv_decode]: walk a hypothesis [... raw = Ok (v, rest)] through its binds. *)
Ltac inv_decode1 :=
  match goal with
  | H : (_ ≫= _) _ = Ok (_, _) |- _ =>
      let a := fresh "v" in let r := fresh "rest" in let E := fresh "Hd" in
      apply bind_ok in H as (a & r & E & H); cbv beta in H
  | H : or_error _ _ _ = Ok (_, _) |- _ => apply or_error_ok in H
  | H : (if ?c then decode_fail _ else _) _ = Ok _ |- _ => destruct c eqn:?; [discriminate H|]
  | H : decode_fail _ _ = Ok _ |- _ => discriminate H
  end.
Ltac inv_decode := repeat inv_decode1.
