(* ===== verification/GoLib.v ===== *)
(** * The Go standard library and the cryptographic primitives

    What the Namespace code uses of [strings], [encoding/hex] and [time], with
    the primitives whose internals are irrelevant to it ([crypto/sha256],
    [crypto/hmac], [crypto/ed25519], and the Unicode lower-case table) behind
    one interface class. *)

From S2P Require Import Prelude.

(** ** Primitives *)

Class GoLib := {
  (** [strings.Map(unicode.ToLower, s)], reached only when [s] is not ASCII. *)
  unicode_ToLower : gostring -> gostring;
  (** [sha256.Sum256] *)
  sha256 : bytes -> array 32;
  (** [hmac.New(sha256.New, key)] written once and summed. *)
  hmac_sha256 : bytes -> bytes -> array 32;
  (** [ed25519.Verify(public, message, signature)] for a 32-byte public key. *)
  ed25519_Verify : bytes -> bytes -> bytes -> bool;
  (** [ed25519.Sign(private, message)] for a 64-byte private key. *)
  ed25519_Sign : bytes -> bytes -> array 64
}.

(** A small concrete instance, used to evaluate the model on examples. *)
Definition sample_digest (l : bytes) : array 32 :=
  to_array 32 ([x00; x00; x00; x01] ++ reverse l).

Definition sample_golib : GoLib := {|
  unicode_ToLower s := s;
  sha256 := sample_digest;
  hmac_sha256 key message := sample_digest (key ++ message);
  ed25519_Verify public message signature :=
    bool_decide (signature = public ++ sample_digest message);
  ed25519_Sign private message :=
    to_array 64 (drop 32 private ++ sample_digest message)
|}.

(** Two of the listed inputs of one digest function collide.  The list is what
    makes the statement say something: some two byte strings always collide. *)
Definition Collision (h : bytes -> array 32) (inputs : list bytes) : Prop :=
  exists x y, x ∈ inputs /\ y ∈ inputs /\ x <> y /\ h x = h y.

Lemma collision_or_equal h x y inputs :
  x ∈ inputs -> y ∈ inputs -> h x = h y -> x = y \/ Collision h inputs.
Proof. intros Hx Hy E. destruct (decide (x = y)); [by left|]. right. by exists x, y. Qed.

Lemma collision_pair h x y : h x = h y -> x = y \/ Collision h [x; y].
Proof. apply collision_or_equal; set_solver. Qed.

Lemma collision_mono h inputs inputs' : inputs ⊆ inputs' -> Collision h inputs -> Collision h inputs'.
Proof. intros Hs (x & y & Hx & Hy & Hne & E). exists x, y. auto. Qed.

Lemma Forall_or_collision {A} h (P : A -> Prop) (f : A -> list bytes) l :
  (forall x, x ∈ l -> P x \/ Collision h (f x)) -> Forall P l \/ Collision h (concat (map f l)).
Proof.
  induction l as [|x l IH]; intros Hl; [by left|]. simpl.
  destruct (Hl x) as [Hx|Hc]; [set_solver| |right; eapply collision_mono, Hc; set_solver].
  destruct IH as [Hall|Hc]; [set_solver|left; by constructor|right; eapply collision_mono, Hc; set_solver].
Qed.

(** ** strings *)

Definition HasPrefix (s prefix : gostring) : bool := bool_decide (prefix `prefix_of` s).
Definition HasSuffix (s suffix : gostring) : bool := bool_decide (suffix `suffix_of` s).

Fixpoint Contains (s sub : gostring) : bool :=
  HasPrefix s sub || match s with [] => false | _ :: s' => Contains s' sub end.

(** [strings.Split] for a one-byte separator. *)
Fixpoint Split (s : gostring) (sep : byte) : list gostring :=
  match s with
  | [] => [[]]
  | c :: s' =>
      if c ==? sep then [] :: Split s' sep
      else match Split s' sep with
           | h :: t => (c :: h) :: t
           | [] => [[c]]
           end
  end.

(** [strings.Join] for a one-byte separator. *)
Fixpoint Join (ls : list gostring) (sep : byte) : gostring :=
  match ls with
  | [] => []
  | [l] => l
  | l :: ls' => l ++ sep :: Join ls' sep
  end.

Definition lower_byte (c : byte) : byte :=
  if (65 <=? byte_val c) && (byte_val c <=? 90) then byte_of (byte_val c + 32) else c.

(** [strings.ToLower]: the ASCII fast path, or the Unicode mapping. *)
Definition ToLower `{GoLib} (s : gostring) : gostring :=
  if forallb (fun c => byte_val c <? 128) s then map lower_byte s else unicode_ToLower s.

(** ** encoding/hex *)

Definition hex_digit (v : Z) : byte :=
  if v <? 10 then byte_of (48 + v) else byte_of (87 + v).

Fixpoint hex_EncodeToString (l : bytes) : gostring :=
  match l with
  | [] => []
  | b :: l' => hex_digit (byte_val b / 16) :: hex_digit (byte_val b mod 16) :: hex_EncodeToString l'
  end.

Definition hex_value (c : byte) : option Z :=
  let v := byte_val c in
  if (48 <=? v) && (v <=? 57) then Some (v - 48)
  else if (97 <=? v) && (v <=? 102) then Some (v - 87)
  else if (65 <=? v) && (v <=? 70) then Some (v - 55)
  else None.

(** [hex.DecodeString]: the decoded bytes, or [None] for its error. *)
Fixpoint hex_DecodeString (s : gostring) : option bytes :=
  match s with
  | [] => Some []
  | [_] => None
  | a :: b :: s' =>
      match hex_value a, hex_value b, hex_DecodeString s' with
      | Some x, Some y, Some l => Some (byte_of (16 * x + y) :: l)
      | _, _, _ => None
      end
  end.

(** The bytes [hex.DecodeString] returns together with its error: the prefix
    decoded before the first offending character. *)
Fixpoint hex_DecodePrefix (s : gostring) : bytes :=
  match s with
  | a :: b :: s' =>
      match hex_value a, hex_value b with
      | Some x, Some y => byte_of (16 * x + y) :: hex_DecodePrefix s'
      | _, _ => []
      end
  | _ => []
  end.

(** ** Lemmas on strings *)

Lemma HasPrefix_true s p : HasPrefix s p = true <-> exists t, s = p ++ t.
Proof. unfold HasPrefix. by rewrite bool_decide_eq_true. Qed.

Lemma HasSuffix_true s p : HasSuffix s p = true <-> exists t, s = t ++ p.
Proof. unfold HasSuffix. by rewrite bool_decide_eq_true. Qed.

Lemma Contains_true s sub : Contains s sub = true <-> exists u v, s = u ++ sub ++ v.
Proof.
  induction s as [|c s IH]; simpl; rewrite orb_true_iff, HasPrefix_true.
  - split.
    + intros [[t E]|?]; [|done]. by exists [], t.
    + intros ([|a u] & v & E); [left; by exists v|done].
  - rewrite IH. split.
    + intros [[t E]|(u & v & ->)]; [by exists [], t|by exists (c :: u), v].
    + intros ([|a u] & v & E); simplify_eq/=; [left; by exists v|right; by exists u, v].
Qed.

Lemma Contains_false s sub : Contains s sub = false <-> forall u v, s <> u ++ sub ++ v.
Proof.
  rewrite <- not_true_iff_false, Contains_true. naive_solver.
Qed.

Lemma Split_nonempty s sep : Split s sep <> [].
Proof. destruct s; simpl; [done|]. case_bool_decide; [done|]. by destruct (Split s sep). Qed.

Lemma Join_cons l ls sep : ls <> [] -> Join (l :: ls) sep = l ++ sep :: Join ls sep.
Proof. by destruct ls. Qed.

Lemma Join_Split s sep : Join (Split s sep) sep = s.
Proof.
  induction s as [|c s IH]; [done|]. cbn [Split].
  pose proof (Split_nonempty s sep). case_bool_decide; subst.
  - rewrite Join_cons by done. by rewrite IH.
  - destruct (Split s sep) as [|h [|h' t]] eqn:E; [done| |]; simpl in *; congruence.
Qed.

Lemma Split_no_sep l sep : sep ∉ l -> Split l sep = [l].
Proof.
  induction l as [|c l IH]; [done|]. rewrite not_elem_of_cons. intros [Hc Hl]. cbn [Split].
  rewrite bool_decide_eq_false_2 by congruence. by rewrite IH.
Qed.

Lemma Split_app l t sep : sep ∉ l -> Split (l ++ sep :: t) sep = l :: Split t sep.
Proof.
  induction l as [|c l IH]; cbn [Split app].
  - by rewrite bool_decide_eq_true_2.
  - rewrite not_elem_of_cons. intros [Hc Hl].
    rewrite bool_decide_eq_false_2 by congruence. by rewrite IH.
Qed.

Lemma Split_Join ls sep :
  ls <> [] -> Forall (fun l => sep ∉ l) ls -> Split (Join ls sep) sep = ls.
Proof.
  intros Hne Hall. induction Hall as [|l ls Hl Hall IH]; [done|].
  destruct ls as [|l' ls].
  - by apply Split_no_sep.
  - rewrite Join_cons, Split_app, IH by done. done.
Qed.

Lemma Split_elem_no_sep s sep : Forall (fun l => sep ∉ l) (Split s sep).
Proof.
  induction s as [|c s IH]; cbn [Split].
  - constructor; [set_solver|constructor].
  - case_bool_decide.
    + constructor; [set_solver|done].
    + destruct IH; repeat constructor; try done; set_solver.
Qed.

Lemma len_Join ls sep :
  ls <> [] -> len (Join ls sep) + 1 = foldr (fun l n => 1 + len l + n) 0 ls.
Proof.
  induction ls as [|l ls IH]; [done|]. intros _. destruct ls as [|l' ls].
  - simpl. lia.
  - specialize (IH ltac:(done)). rewrite Join_cons by done. rewrite len_app, len_cons.
    cbn [foldr] in *. lia.
Qed.

Lemma Split_app_sep u v sep : Split (u ++ sep :: v) sep = Split u sep ++ Split v sep.
Proof.
  induction u as [|c u IH]; cbn [Split app].
  - by rewrite bool_decide_eq_true_2.
  - case_bool_decide; [by rewrite IH|]. rewrite IH.
    pose proof (Split_nonempty u sep). by destruct (Split u sep).
Qed.

(** ** Lemmas on hex *)

Lemma hex_value_digit v : 0 <= v < 16 -> hex_value (hex_digit v) = Some v.
Proof.
  intros Hv. destruct v as [|p|p]; [done| |lia].
  do 5 (try (destruct p as [p|p|]; try done); try lia).
Qed.

Lemma nibble_range b : 0 <= byte_val b / 16 < 16 /\ 0 <= byte_val b mod 16 < 16.
Proof.
  pose proof (byte_val_range b). split; [|by apply Z.mod_pos_bound].
  split; [apply Z.div_pos; lia|apply Z.div_lt_upper_bound; lia].
Qed.

Lemma hex_Decode_Encode l : hex_DecodeString (hex_EncodeToString l) = Some l.
Proof.
  induction l as [|b l IH]; [done|]. cbn [hex_EncodeToString hex_DecodeString].
  destruct (nibble_range b). rewrite !hex_value_digit, IH by done.
  rewrite <- Z.div_mod by lia. by rewrite byte_of_val.
Qed.

#[global] Instance hex_Encode_inj : Inj (=) (=) hex_EncodeToString.
Proof. intros a b E. apply (f_equal hex_DecodeString) in E. rewrite !hex_Decode_Encode in E. by simplify_eq. Qed.

Lemma len_hex_Encode l : len (hex_EncodeToString l) = 2 * len l.
Proof. induction l as [|b l IH]; [done|]. cbn [hex_EncodeToString]. rewrite !len_cons. lia. Qed.

Lemma hex_DecodePrefix_Encode l : hex_DecodePrefix (hex_EncodeToString l) = l.
Proof.
  induction l as [|b l IH]; [done|]. cbn [hex_EncodeToString hex_DecodePrefix].
  destruct (nibble_range b). rewrite !hex_value_digit, IH by done.
  rewrite <- Z.div_mod by lia. by rewrite byte_of_val.
Qed.

Lemma Join_app ls rs sep :
  ls <> [] -> rs <> [] -> Join (ls ++ rs) sep = Join ls sep ++ sep :: Join rs sep.
Proof.
  intros Hl Hr. induction ls as [|l ls IH]; [done|]. destruct ls as [|l' ls].
  - simpl app at 1. by rewrite Join_cons.
  - simpl app at 1. rewrite !Join_cons by done. change (l' :: ls ++ rs) with ((l' :: ls) ++ rs).
    rewrite IH, (Join_cons l (l' :: ls)) by done. by rewrite <- app_assoc.
Qed.
