(* ===== verification/Json.v ===== *)
(** * Canonical JSON

    The part of Go's encoding/json that the sources use: [json.Marshal] of
    structs of strings, integers, byte slices, byte arrays and lists, and strict
    decoding followed by a comparison with the re-encoding ([decodeCanonical] and
    its siblings).  Because of that comparison only input that [json.Marshal]
    could have printed is ever accepted, so the parsers read the printed form:
    no white space, fields in order, only the printer's own escapes.

    A [codec] prints and parses one type; a struct is a list of [field]s.  The
    theorems: each codec reads back what it printed. *)

From S2P Require Import Prelude.

Module json.

Record codec (A : Type) := Codec { print : A -> bytes; parse : bytes -> option (A * bytes) }.
Arguments Codec {A}.
Arguments print {A}.
Arguments parse {A}.

(** ** Literals *)

Fixpoint literal (l raw : bytes) : option bytes :=
  match l, raw with
  | [], _ => Some raw
  | c :: l, d :: raw => if c ==? d then literal l raw else None
  | _ :: _, [] => None
  end.

Definition quote : byte := byte_of 34.
Definition backslash : byte := byte_of 92.

(** ** Integers *)

Definition isDigit (c : byte) : bool := (48 <=? byte_val c) && (byte_val c <=? 57).

Fixpoint digits (fuel : nat) (n : Z) : bytes :=
  match fuel with
  | O => []
  | S fuel => if n <? 10 then [byte_of (48 + n)] else digits fuel (n / 10) ++ [byte_of (48 + n mod 10)]
  end.

Definition value (l : bytes) : Z := foldl (fun acc c => acc * 10 + (byte_val c - 48)) 0 l.

Fixpoint spanDigits (raw : bytes) : bytes * bytes :=
  match raw with
  | c :: rest => if isDigit c then let '(l, rest) := spanDigits rest in (c :: l, rest) else ([], raw)
  | [] => ([], [])
  end.

Definition minus : byte := byte_of 45.

(** A 64-bit integer has at most 20 digits. *)
Definition print_int (z : Z) : bytes := if z <? 0 then minus :: digits 20 (- z) else digits 20 z.

Definition parse_int (low high : Z) (raw : bytes) : option (Z * bytes) :=
  let '(sign, raw) := match raw with
                      | c :: rest => if c ==? minus then (-1, rest) else (1, raw)
                      | [] => (1, raw)
                      end in
  let '(l, rest) := spanDigits raw in
  let z := sign * value l in
  if (l ==? []) || (z <? low) || (high <? z) then None else Some (z, rest).

Definition integer (low high : Z) : codec Z := Codec print_int (parse_int low high).
Definition int64 : codec Z := integer (- 2 ^ 63) (2 ^ 63 - 1).
Definition uint64 : codec Z := integer 0 (2 ^ 64 - 1).
Definition uint32 : codec Z := integer 0 (2 ^ 32 - 1).
Definition uint8 : codec Z := integer 0 255.

(** ** Strings *)

Definition hexLow (v : Z) : byte := byte_of (if v <? 10 then 48 + v else 87 + v).

(** One ASCII byte as [json.Marshal] prints it, with HTML escaping. *)
Definition escape (c : byte) : bytes :=
  let v := byte_val c in
  if (v =? 34) || (v =? 92) then [backslash; c]
  else if v =? 8 then [backslash; byte_of 98]
  else if v =? 12 then [backslash; byte_of 102]
  else if v =? 10 then [backslash; byte_of 110]
  else if v =? 13 then [backslash; byte_of 114]
  else if v =? 9 then [backslash; byte_of 116]
  else if (v <? 32) || (v =? 60) || (v =? 62) || (v =? 38)
  then [backslash] ++ str "u00" ++ [hexLow (v / 16); hexLow (v mod 16)]
  else [c].

Definition between (low high : Z) (c : byte) : bool := (low <=? byte_val c) && (byte_val c <=? high).
Definition continuation : byte -> bool := between 128 191.

(** The width of the valid multi-byte UTF-8 sequence at the front, if any. *)
Definition utf8Width (raw : bytes) : option nat :=
  match raw with
  | a :: b :: rest =>
      if between 194 223 a then if continuation b then Some 2%nat else None
      else
        match rest with
        | c :: rest =>
            if (between 224 224 a && between 160 191 b || between 225 236 a && continuation b ||
                between 237 237 a && between 128 159 b || between 238 239 a && continuation b)
            then if continuation c then Some 3%nat else None
            else
              match rest with
              | d :: _ =>
                  if (between 240 240 a && between 144 191 b || between 241 243 a && continuation b ||
                      between 244 244 a && between 128 143 b) && continuation c && continuation d
                  then Some 4%nat else None
              | [] => None
              end
        | [] => None
        end
  | _ => None
  end.

(** The line and paragraph separators, U+2028 and U+2029. *)
Definition separator (raw : bytes) : option byte :=
  match raw with
  | a :: b :: c :: _ =>
      if (byte_val a =? 226) && (byte_val b =? 128) && between 168 169 c
      then Some (byte_of (byte_val c - 112)) else None
  | _ => None
  end.

(** [keep] bytes of a rune are copied, [drop] bytes were already printed. *)
Fixpoint printBody (keep drop : nat) (s : bytes) : bytes :=
  match s with
  | [] => []
  | c :: rest =>
      match keep, drop with
      | S keep, _ => c :: printBody keep 0 rest
      | O, S drop => printBody 0 drop rest
      | O, O =>
          if byte_val c <? 128 then escape c ++ printBody 0 0 rest
          else
            match utf8Width s with
            | None => [backslash] ++ str "ufffd" ++ printBody 0 0 rest
            | Some width =>
                match separator s with
                | Some last => [backslash] ++ str "u202" ++ [last] ++ printBody 0 2 rest
                | None => c :: printBody (width - 1) 0 rest
                end
            end
      end
  end.

Definition hexDigit (c : byte) : option Z :=
  if between 48 57 c then Some (byte_val c - 48)
  else if between 97 102 c then Some (byte_val c - 87) else None.

Definition unescape (c : byte) : option byte :=
  let v := byte_val c in
  if (v =? 34) || (v =? 92) then Some c
  else if v =? 98 then Some (byte_of 8)
  else if v =? 102 then Some (byte_of 12)
  else if v =? 110 then Some (byte_of 10)
  else if v =? 114 then Some (byte_of 13)
  else if v =? 116 then Some (byte_of 9) else None.

Fixpoint parseBody (raw : bytes) : option (bytes * bytes) :=
  match raw with
  | [] => None
  | c :: rest =>
      if c ==? quote then Some ([], rest)
      else if c ==? backslash then
        match rest with
        | e :: rest =>
            if byte_val e =? 117 then
              match rest with
              | h1 :: h2 :: h3 :: h4 :: rest =>
                  match hexDigit h1, hexDigit h2, hexDigit h3, hexDigit h4 with
                  | Some a, Some b, Some c, Some d =>
                      let v := a * 4096 + b * 256 + c * 16 + d in
                      let rune :=
                        if v <? 128 then Some [byte_of v]
                        else if v =? 8232 then Some [byte_of 226; byte_of 128; byte_of 168]
                        else if v =? 8233 then Some [byte_of 226; byte_of 128; byte_of 169]
                        else if v =? 65533 then Some [byte_of 239; byte_of 191; byte_of 189] else None in
                      match rune, parseBody rest with
                      | Some rune, Some (s, rest) => Some (rune ++ s, rest)
                      | _, _ => None
                      end
                  | _, _, _, _ => None
                  end
              | _ => None
              end
            else
              match unescape e, parseBody rest with
              | Some c, Some (s, rest) => Some (c :: s, rest)
              | _, _ => None
              end
        | [] => None
        end
      else
        match parseBody rest with
        | Some (s, rest) => Some (c :: s, rest)
        | None => None
        end
  end.

Definition text : codec gostring :=
  Codec (fun s => quote :: printBody 0 0 s ++ [quote])
    (fun raw => match literal [quote] raw with Some raw => parseBody raw | None => None end).

(** ** Byte slices: standard base64 with padding *)

Definition sextet (v : Z) : byte :=
  byte_of (if v <? 26 then 65 + v else if v <? 52 then 71 + v else if v <? 62 then v - 4
           else if v =? 62 then 43 else 47).

Definition padding : byte := byte_of 61.

Fixpoint base64 (l : bytes) : bytes :=
  match l with
  | a :: b :: c :: rest =>
      let v := byte_val a * 65536 + byte_val b * 256 + byte_val c in
      sextet (v / 262144) :: sextet (v / 4096 mod 64) :: sextet (v / 64 mod 64) :: sextet (v mod 64) :: base64 rest
  | [a; b] =>
      let v := byte_val a * 1024 + byte_val b * 4 in
      [sextet (v / 4096); sextet (v / 64 mod 64); sextet (v mod 64); padding]
  | [a] =>
      let v := byte_val a * 16 in [sextet (v / 64); sextet (v mod 64); padding; padding]
  | [] => []
  end.

Definition sextetValue (c : byte) : option Z :=
  let v := byte_val c in
  if between 65 90 c then Some (v - 65)
  else if between 97 122 c then Some (v - 71)
  else if between 48 57 c then Some (v + 4)
  else if v =? 43 then Some 62 else if v =? 47 then Some 63 else None.

(** The base64 text up to the closing quote. *)
Fixpoint parse64 (raw : bytes) : option (bytes * bytes) :=
  match raw with
  | c :: rest =>
      if c ==? quote then Some ([], rest)
      else
        match rest with
        | d :: e :: f :: rest =>
            match sextetValue c, sextetValue d with
            | Some a, Some b =>
                if e ==? padding then
                  match literal [padding; quote] (f :: rest) with
                  | Some rest => Some ([byte_of ((a * 64 + b) / 16)], rest)
                  | None => None
                  end
                else
                  match sextetValue e with
                  | None => None
                  | Some g =>
                      if f ==? padding then
                        match literal [quote] rest with
                        | Some rest =>
                            let v := (a * 4096 + b * 64 + g) / 4 in
                            Some ([byte_of (v / 256); byte_of (v mod 256)], rest)
                        | None => None
                        end
                      else
                        match sextetValue f, parse64 rest with
                        | Some h, Some (l, rest) =>
                            let v := a * 262144 + b * 4096 + g * 64 + h in
                            Some (byte_of (v / 65536) :: byte_of (v / 256 mod 256) :: byte_of (v mod 256) :: l, rest)
                        | _, _ => None
                        end
                  end
            | _, _ => None
            end
        | _ => None
        end
  | [] => None
  end.

Definition slice : codec bytes :=
  Codec (fun l => quote :: base64 l ++ [quote])
    (fun raw => match literal [quote] raw with Some raw => parse64 raw | None => None end).

(** ** Lists, arrays and nil slices *)

Definition comma : byte := byte_of 44.
Definition openList : byte := byte_of 91.
Definition closeList : byte := byte_of 93.

Fixpoint printItems {A} (c : codec A) (l : list A) : bytes :=
  match l with
  | [] => [closeList]
  | [x] => c.(print) x ++ [closeList]
  | x :: rest => c.(print) x ++ comma :: printItems c rest
  end.

(** Every item takes at least its separator, so the length of the input is
    enough fuel. *)
Fixpoint parseItems {A} (fuel : nat) (c : codec A) (raw : bytes) : option (list A * bytes) :=
  match fuel with
  | O => None
  | S fuel =>
      match c.(parse) raw with
      | None => None
      | Some (x, rest) =>
          match rest with
          | d :: rest =>
              if d ==? closeList then Some ([x], rest)
              else if d ==? comma then
                match parseItems fuel c rest with
                | Some (l, rest) => Some (x :: l, rest)
                | None => None
                end
              else None
          | [] => None
          end
      end
  end.

Definition list_ {A} (c : codec A) : codec (list A) :=
  Codec (fun l => openList :: printItems c l)
    (fun raw =>
       match literal [openList] raw with
       | None => None
       | Some raw =>
           match literal [closeList] raw with
           | Some rest => Some ([], rest)
           | None => parseItems (length raw) c raw
           end
       end).

(** A codec through a partial inverse. *)
Definition via {A B} (c : codec A) (to : B -> A) (from : A -> option B) : codec B :=
  Codec (fun b => c.(print) (to b))
    (fun raw => match c.(parse) raw with
                | Some (a, rest) => match from a with Some b => Some (b, rest) | None => None end
                | None => None
                end).

(** [[n]byte] prints as a list of numbers. *)
Definition array_ (n : nat) : codec (array n) :=
  via (list_ uint8) (fun a => map byte_val (array_bytes a))
    (fun l => if bool_decide (length l = n) then Some (to_array n (map byte_of l)) else None).

(** A slice that may be nil. *)
Definition nullable {A} (c : codec A) : codec (option A) :=
  Codec (fun o => match o with Some a => c.(print) a | None => str "null" end)
    (fun raw =>
       match literal (str "null") raw with
       | Some rest => Some (None, rest)
       | None => match c.(parse) raw with Some (a, rest) => Some (Some a, rest) | None => None end
       end).

(** ** Structs *)

Record field (R : Type) := Field {
  field_type : Type;
  field_name : string;
  omitted : R -> bool;
  field_codec : codec field_type;
  get : R -> field_type;
  put : field_type -> R -> R
}.
Arguments Field {R field_type}.
Arguments field_type {R}.
Arguments field_name {R}.
Arguments omitted {R}.
Arguments field_codec {R}.
Arguments get {R}.
Arguments put {R}.

Definition openStruct : byte := byte_of 123.
Definition closeStruct : byte := byte_of 125.

Definition key (name : string) : bytes := quote :: str name ++ [quote; byte_of 58].

(** The fields that are printed, each with its key. *)
Fixpoint printFields {R} (first : bool) (fs : list (field R)) (r : R) : bytes :=
  match fs with
  | [] => [closeStruct]
  | f :: fs =>
      if f.(omitted) r then printFields first fs r
      else (if first then [] else [comma]) ++ key f.(field_name) ++ f.(field_codec).(print) (f.(get) r) ++
           printFields false fs r
  end.

(** A field whose key does not come next keeps its zero value. *)
Fixpoint parseFields {R} (first : bool) (fs : list (field R)) (r : R) (raw : bytes) : option (R * bytes) :=
  match fs with
  | [] => match literal [closeStruct] raw with Some rest => Some (r, rest) | None => None end
  | f :: fs =>
      match literal ((if first then [] else [comma]) ++ key f.(field_name)) raw with
      | None => parseFields first fs r raw
      | Some raw =>
          match f.(field_codec).(parse) raw with
          | Some (v, rest) => parseFields false fs (f.(put) v r) rest
          | None => None
          end
      end
  end.

(** A struct over its zero value. *)
Definition struct {R} (zero : R) (fs : list (field R)) : codec R :=
  Codec (fun r => openStruct :: printFields true fs r)
    (fun raw => match literal [openStruct] raw with Some raw => parseFields true fs zero raw | None => None end).

(** [json.Marshal]. *)
Definition Marshal {A} (c : codec A) (v : A) : bytes := c.(print) v.

(** Strict decoding, the check for trailing input, and the comparison with the
    re-encoding. *)
Definition decodeCanonical {A} (c : codec A) (raw : bytes) : option A :=
  match c.(parse) raw with
  | Some (v, []) => if Marshal c v ==? raw then Some v else None
  | _ => None
  end.

(** ** Reading back what was printed *)

(** What may follow a value: nothing that continues a number. *)
Definition ends (rest : bytes) : Prop :=
  match rest with c :: _ => isDigit c = false | [] => True end.

Definition Lawful {A} (c : codec A) (P : A -> Prop) : Prop :=
  forall v rest, P v -> ends rest -> c.(parse) (c.(print) v ++ rest) = Some (v, rest).

Lemma literal_spec l raw rest : literal l raw = Some rest <-> raw = l ++ rest.
Proof.
  revert raw. induction l as [|c l IH]; intros raw; cbn [literal app].
  - split; [by intros [= <-]|by intros ->].
  - destruct raw as [|d raw]; [done|]. case_bool_decide as E.
    + subst d. rewrite IH. split; [by intros ->|by intros [= ->]].
    + split; [done|]. intros [= -> _]. done.
Qed.

Lemma literal_app l rest : literal l (l ++ rest) = Some rest.
Proof. by apply literal_spec. Qed.

Lemma byte_of_range v : 0 <= v < 256 -> byte_val (byte_of v) = v.
Proof. intros Hv. rewrite byte_val_of. by apply Z.mod_small. Qed.

Lemma digit_char v : 0 <= v < 10 -> isDigit (byte_of (48 + v)) = true /\ byte_val (byte_of (48 + v)) - 48 = v.
Proof.
  intros Hv. unfold isDigit. rewrite byte_of_range by lia. split; [|lia].
  apply andb_true_iff. split; apply Z.leb_le; lia.
Qed.

Lemma value_snoc l c : value (l ++ [c]) = value l * 10 + (byte_val c - 48).
Proof. unfold value. by rewrite foldl_app. Qed.

Lemma digits_spec fuel n :
  0 <= n < 10 ^ Z.of_nat fuel -> (0 < fuel)%nat ->
  Forall (fun c => isDigit c = true) (digits fuel n) /\ value (digits fuel n) = n /\ digits fuel n <> [].
Proof.
  revert n. induction fuel as [|fuel IH]; intros n Hn Hf; [lia|]. cbn [digits].
  destruct (Z.ltb_spec n 10) as [Hlt|Hge].
  - destruct (digit_char n) as [Hd Hv]; [lia|]. split_and!; [by constructor| |done]. unfold value. simpl. lia.
  - rewrite Nat2Z.inj_succ, Z.pow_succ_r in Hn by lia.
    assert (0 <= n / 10 < 10 ^ Z.of_nat fuel) as Hq by (split; [apply Z.div_pos; lia|apply Z.div_lt_upper_bound; lia]).
    destruct fuel as [|fuel]; [simpl in Hn; lia|]. destruct (IH (n / 10) Hq ltac:(lia)) as (Hall & Hv & Hne).
    pose proof (Z.mod_pos_bound n 10 ltac:(lia)) as Hm. destruct (digit_char (n mod 10)) as [Hd Hdv]; [lia|].
    split_and!.
    + apply Forall_app. split; [done|]. by constructor.
    + rewrite value_snoc, Hv, Hdv. pose proof (Z.div_mod n 10 ltac:(lia)). lia.
    + by destruct (digits (S fuel) (n / 10)).
Qed.

Lemma spanDigits_app l rest : Forall (fun c => isDigit c = true) l -> ends rest -> spanDigits (l ++ rest) = (l, rest).
Proof.
  intros Hl Hr. induction Hl as [|c l Hc Hl IH]; cbn [app spanDigits].
  - destruct rest as [|c rest]; [done|]. cbn in *. by rewrite Hr.
  - by rewrite Hc, IH.
Qed.

Lemma integer_lawful low high :
  - 2 ^ 63 <= low -> high < 2 ^ 64 -> Lawful (integer low high) (fun z => low <= z <= high).
Proof.
  intros Hlow Hhigh z rest Hz Hr. cbn [integer print parse]. unfold print_int, parse_int.
  assert (forall n, 0 <= n < 10 ^ 20 -> exists c l, digits 20 n = c :: l /\ c <> minus /\
    spanDigits ((c :: l) ++ rest) = (c :: l, rest) /\ value (c :: l) = n) as Hd.
  { intros n Hn. destruct (digits_spec 20 n Hn ltac:(lia)) as (Hall & Hv & Hne).
    destruct (digits 20 n) as [|c l]; [done|]. exists c, l. split_and!; try done.
    - apply Forall_cons in Hall as [Hc _]. intros ->. by vm_compute in Hc.
    - by apply spanDigits_app. }
  destruct (Z.ltb_spec z 0) as [Hneg|Hpos].
  - destruct (Hd (- z)) as (c & l & -> & _ & Hs & Hv); [lia|]. cbn [app] in *.
    rewrite bool_decide_eq_true_2 by done. rewrite Hs, Hv.
    rewrite bool_decide_eq_false_2, (proj2 (Z.ltb_ge _ _)), (proj2 (Z.ltb_ge _ _)) by (done || lia). cbn [orb].
    do 2 f_equal. lia.
  - destruct (Hd z) as (c & l & -> & Hc & Hs & Hv); [lia|]. cbn [app].
    rewrite bool_decide_eq_false_2 by done. cbn [app] in Hs. rewrite Hs, Hv.
    rewrite bool_decide_eq_false_2, (proj2 (Z.ltb_ge _ _)), (proj2 (Z.ltb_ge _ _)) by (done || lia). cbn [orb].
    do 2 f_equal. lia.
Qed.

(** ** Strings *)

Definition ascii (c : byte) : bool := byte_val c <? 128.

Lemma all_bytes (f : byte -> bool) :
  forallb (fun n => f (byte_of (Z.of_nat n))) (seq 0 256) = true -> forall c, f c = true.
Proof.
  intros Hall c. rewrite forallb_true, Forall_forall in Hall.
  pose proof (byte_val_range c) as Hr. rewrite <- (byte_of_val c).
  rewrite <- (Z2Nat.id (byte_val c)) by lia. apply Hall, elem_of_seq. lia.
Qed.

(** Every escape of an ASCII byte parses back, whatever follows. *)
Definition escapeReads (c : byte) : bool :=
  if ascii c then
    match escape c with
    | [d] => (d ==? c) && (d !=? quote) && (d !=? backslash)
    | [b; e] => (b ==? backslash) && (byte_val e !=? 117) && (unescape e ==? Some c)
    | [b; u; h1; h2; h3; h4] =>
        (b ==? backslash) && (byte_val u =? 117) &&
        match hexDigit h1, hexDigit h2, hexDigit h3, hexDigit h4 with
        | Some w, Some x, Some y, Some z =>
            let v := w * 4096 + x * 256 + y * 16 + z in (v <? 128) && (byte_of v ==? c)
        | _, _, _, _ => false
        end
    | _ => false
    end
  else true.

Lemma escapeReads_all c : escapeReads c = true.
Proof. revert c. apply all_bytes. vm_compute. reflexivity. Qed.

Lemma parseBody_escape c s raw rest :
  ascii c = true -> parseBody raw = Some (s, rest) -> parseBody (escape c ++ raw) = Some (c :: s, rest).
Proof.
  intros Ha Hp. pose proof (escapeReads_all c) as He. unfold escapeReads in He. rewrite Ha in He.
  destruct (escape c) as [|b1 [|b2 [|b3 [|b4 [|b5 [|b6 [|b7 l]]]]]]]; try done; goprop; cbn [app].
  - subst b1. cbn [parseBody]. by rewrite !bool_decide_eq_false_2, Hp by done.
  - subst b1. cbn [parseBody]. rewrite bool_decide_eq_false_2, bool_decide_eq_true_2 by done.
    rewrite (proj2 (Z.eqb_neq _ _)) by done.
    match goal with X : unescape b2 = Some c |- _ => rewrite X end. by rewrite Hp.
  - subst b1. destruct (hexDigit b3) as [w|] eqn:E3; [|done]. destruct (hexDigit b4) as [x|] eqn:E4; [|done].
    destruct (hexDigit b5) as [y|] eqn:E5; [|done]. destruct (hexDigit b6) as [z|] eqn:E6; [|done]. goprop.
    cbn [parseBody]. rewrite bool_decide_eq_false_2, bool_decide_eq_true_2 by done.
    rewrite (proj2 (Z.eqb_eq _ _)) by done. rewrite E3, E4, E5, E6. cbn zeta.
    rewrite (proj2 (Z.ltb_lt _ _)), Hp by lia. cbn. by subst c.
Qed.

Lemma text_lawful : Lawful text (Forall (fun c => ascii c = true)).
Proof.
  intros s rest Hs _. cbn [text print parse]. cbn [app]. rewrite <- app_assoc.
  change (quote :: printBody 0 0 s ++ [quote] ++ rest) with ([quote] ++ (printBody 0 0 s ++ [quote] ++ rest)).
  rewrite literal_app. induction Hs as [|c s Hc Hs IH]; [done|]. cbn [printBody].
  unfold ascii in Hc. rewrite Hc, <- app_assoc. by apply parseBody_escape.
Qed.

(** ** Base64 *)

Definition sextetReads (v : nat) : bool :=
  let c := sextet (Z.of_nat v) in
  (sextetValue c ==? Some (Z.of_nat v)) && (c !=? quote) && (c !=? padding).

Lemma sextet_reads v : 0 <= v < 64 -> sextetValue (sextet v) = Some v /\ sextet v <> quote /\ sextet v <> padding.
Proof.
  intros Hv. assert (forallb sextetReads (seq 0 64) = true) as Hall by (vm_compute; reflexivity).
  rewrite forallb_true, Forall_forall in Hall. specialize (Hall (Z.to_nat v)).
  rewrite elem_of_seq in Hall. specialize (Hall ltac:(lia)). unfold sextetReads in Hall.
  rewrite Z2Nat.id in Hall by lia. goprop. done.
Qed.

Ltac euclid := Z.to_euclidean_division_equations; lia.

Lemma parse64_three a b c l rest :
  parse64 (base64 l ++ quote :: rest) = Some (l, rest) ->
  parse64 (base64 (a :: b :: c :: l) ++ quote :: rest) = Some (a :: b :: c :: l, rest).
Proof.
  intros IH. cbn [base64 app].
  pose proof (byte_val_range a). pose proof (byte_val_range b). pose proof (byte_val_range c).
  set (v := byte_val a * 65536 + byte_val b * 256 + byte_val c).
  assert (0 <= v < 16777216) as Hv by lia.
  destruct (sextet_reads (v / 262144)) as (E1 & N1 & _); [euclid|].
  destruct (sextet_reads (v / 4096 mod 64)) as (E2 & _ & _); [euclid|].
  destruct (sextet_reads (v / 64 mod 64)) as (E3 & _ & N3); [euclid|].
  destruct (sextet_reads (v mod 64)) as (E4 & _ & N4); [euclid|].
  cbn [parse64]. rewrite (bool_decide_eq_false_2 _ N1), E1, E2, (bool_decide_eq_false_2 _ N3), E3.
  rewrite (bool_decide_eq_false_2 _ N4), E4, IH. cbn zeta.
  replace (v / 262144 * 262144 + v / 4096 mod 64 * 4096 + v / 64 mod 64 * 64 + v mod 64) with v by euclid.
  assert (v / 65536 = byte_val a) as -> by (unfold v; euclid).
  assert (v / 256 mod 256 = byte_val b) as -> by (unfold v; euclid).
  assert (v mod 256 = byte_val c) as -> by (unfold v; euclid).
  by rewrite !byte_of_val.
Qed.

Lemma parse64_two a b rest : parse64 (base64 [a; b] ++ quote :: rest) = Some ([a; b], rest).
Proof.
  cbn [base64 app]. pose proof (byte_val_range a). pose proof (byte_val_range b).
  set (v := byte_val a * 1024 + byte_val b * 4). assert (0 <= v < 262144) as Hv by lia.
  destruct (sextet_reads (v / 4096)) as (E1 & N1 & _); [euclid|].
  destruct (sextet_reads (v / 64 mod 64)) as (E2 & _ & _); [euclid|].
  destruct (sextet_reads (v mod 64)) as (E3 & _ & N3); [euclid|].
  cbn [parse64]. rewrite (bool_decide_eq_false_2 _ N1), E1, E2, (bool_decide_eq_false_2 _ N3), E3.
  rewrite bool_decide_eq_true_2 by done. cbn [literal]. rewrite bool_decide_eq_true_2 by done.
  replace (v / 4096 * 4096 + v / 64 mod 64 * 64 + v mod 64) with v by euclid.
  assert (v / 4 / 256 = byte_val a) as -> by (unfold v; euclid).
  assert ((v / 4) mod 256 = byte_val b) as -> by (unfold v; euclid).
  by rewrite !byte_of_val.
Qed.

Lemma parse64_one a rest : parse64 (base64 [a] ++ quote :: rest) = Some ([a], rest).
Proof.
  cbn [base64 app]. pose proof (byte_val_range a).
  set (v := byte_val a * 16). assert (0 <= v < 4096) as Hv by lia.
  destruct (sextet_reads (v / 64)) as (E1 & N1 & _); [euclid|].
  destruct (sextet_reads (v mod 64)) as (E2 & _ & _); [euclid|].
  cbn [parse64]. rewrite (bool_decide_eq_false_2 _ N1), E1, E2, bool_decide_eq_true_2 by done.
  change (padding :: quote :: rest) with ([padding; quote] ++ rest). rewrite literal_app.
  replace (v / 64 * 64 + v mod 64) with v by euclid.
  assert (v / 16 = byte_val a) as -> by (unfold v; euclid). by rewrite byte_of_val.
Qed.

Lemma slice_lawful : Lawful slice (fun _ => True).
Proof.
  intros l rest _ _. cbn [slice print parse app]. rewrite <- app_assoc. cbn [app].
  change (quote :: base64 l ++ quote :: rest) with ([quote] ++ (base64 l ++ quote :: rest)). rewrite literal_app.
  induction l as [l IH] using (induction_ltof1 _ (@length byte)). unfold ltof in IH.
  destruct l as [|a [|b [|c l]]]; [done|apply parse64_one|apply parse64_two|].
  apply parse64_three, IH. cbn. lia.
Qed.

(** ** Lists, arrays and nil slices *)

Lemma printItems_more {A} (c : codec A) x y l :
  printItems c (x :: y :: l) = print c x ++ comma :: printItems c (y :: l).
Proof. done. Qed.

Lemma printItems_length {A} (c : codec A) l : (length l <= length (printItems c l))%nat.
Proof.
  induction l as [|x l IH]; [cbn; lia|]. destruct l as [|y l]; [cbn; rewrite length_app; cbn; lia|].
  rewrite printItems_more, length_app. cbn [length] in *. lia.
Qed.

Lemma parseItems_print {A} (c : codec A) P fuel l rest :
  Lawful c P -> Forall P l -> l <> [] -> (length l <= fuel)%nat ->
  parseItems fuel c (printItems c l ++ rest) = Some (l, rest).
Proof.
  intros Hc Hl. revert fuel. induction Hl as [|x l Hx Hl IH]; intros fuel Hne Hf; [done|].
  destruct fuel as [|fuel]; [cbn in Hf; lia|]. cbn [parseItems]. destruct l as [|y l].
  - cbn [printItems]. rewrite <- app_assoc, Hc by done. cbn [app]. by rewrite bool_decide_eq_true_2.
  - rewrite printItems_more, <- app_assoc. cbn [app]. rewrite Hc by done.
    rewrite bool_decide_eq_false_2, bool_decide_eq_true_2 by done.
    rewrite IH by (done || cbn in *; lia). done.
Qed.

(** Nothing an item prints starts like the end of the list. *)
Definition Starts {A} (c : codec A) (P : A -> Prop) (bad : byte) : Prop :=
  forall v, P v -> match c.(print) v with [] => False | d :: _ => d <> bad end.

Lemma list_lawful {A} (c : codec A) P :
  Lawful c P -> Starts c P closeList -> Lawful (list_ c) (Forall P).
Proof.
  intros Hc Hs l rest Hl _. cbn [list_ print parse app].
  change (openList :: printItems c l ++ rest) with ([openList] ++ (printItems c l ++ rest)). rewrite literal_app.
  destruct l as [|x l]; [done|].
  destruct (literal [closeList] (printItems c (x :: l) ++ rest)) as [r|] eqn:E.
  - exfalso. apply literal_spec in E. apply Forall_cons in Hl as [Hx _]. specialize (Hs x Hx).
    destruct (print c x) as [|d p] eqn:Ep; [done|]. destruct l; cbn [printItems] in E; rewrite Ep in E;
      cbn [app] in E; congruence.
  - apply (parseItems_print _ P); try done. rewrite length_app. pose proof (printItems_length c (x :: l)). lia.
Qed.

Lemma integer_starts low high bad : isDigit bad = false -> bad <> minus -> - 2 ^ 63 <= low -> high < 2 ^ 64 ->
  Starts (integer low high) (fun z => low <= z <= high) bad.
Proof.
  intros Hb Hm Hlow Hhigh z Hz. cbn [integer print]. unfold print_int. destruct (Z.ltb_spec z 0) as [Hn|Hn].
  - congruence.
  - destruct (digits_spec 20 z) as (Hall & _ & Hne); [lia..|]. destruct (digits 20 z) as [|c l]; [done|].
    apply Forall_cons in Hall as [Hc _]. congruence.
Qed.

Lemma array_lawful n : Lawful (array_ n) (fun _ => True).
Proof.
  intros a rest _ Hr. unfold array_, via. cbn [print parse].
  rewrite (list_lawful uint8 (fun z => 0 <= z <= 255)); [|apply integer_lawful; lia|apply integer_starts; done| |done].
  - rewrite bool_decide_eq_true_2 by (by rewrite length_map, array_length).
    assert (map byte_of (map byte_val a) = a) as ->; [|by rewrite to_array_id].
    rewrite map_map. rewrite <- (map_id a) at 2. apply map_ext. intros c. apply byte_of_val.
  - apply Forall_fmap, Forall_forall. intros c _. cbn. pose proof (byte_val_range c). lia.
Qed.

Lemma nullable_lawful {A} (c : codec A) P :
  Lawful c P -> Starts c P (byte_of 110) -> Lawful (nullable c) (fun o => match o with Some a => P a | None => True end).
Proof.
  intros Hc Hs [a|] rest Ha Hr; cbn [nullable print parse].
  - destruct (literal (str "null") (print c a ++ rest)) as [r|] eqn:E.
    + exfalso. apply literal_spec in E. specialize (Hs a Ha). destruct (print c a) as [|d p]; [done|].
      cbn [app] in E. injection E as E _. done.
    + by rewrite Hc.
  - by rewrite literal_app.
Qed.

Lemma list_starts {A} (c : codec A) P bad : openList <> bad -> Starts (list_ c) P bad.
Proof. by intros Hb l _. Qed.

Lemma struct_starts {R} (zero : R) fs P bad : openStruct <> bad -> Starts (struct zero fs) P bad.
Proof. by intros Hb l _. Qed.

Lemma slice_starts P bad : quote <> bad -> Starts slice P bad.
Proof. by intros Hb l _. Qed.

Lemma nullable_starts {A} (c : codec A) P bad :
  byte_of 110 <> bad -> Starts c P bad ->
  Starts (nullable c) (fun o => match o with Some a => P a | None => True end) bad.
Proof. intros Hb Hs [a|] Ha; [by apply Hs|done]. Qed.

Lemma uint8_lawful : Lawful uint8 (fun z => 0 <= z <= 255).
Proof. by apply integer_lawful. Qed.

Lemma uint32_lawful : Lawful uint32 in_u32.
Proof. intros z rest Hz. apply integer_lawful; [done..|]. unfold in_u32 in Hz. lia. Qed.

Lemma uint64_lawful : Lawful uint64 in_u64.
Proof. intros z rest Hz. apply integer_lawful; [done..|]. unfold in_u64 in Hz. lia. Qed.

Lemma int64_lawful : Lawful int64 in_i64.
Proof. intros z rest Hz. apply integer_lawful; [done..|]. unfold in_i64 in Hz. lia. Qed.

(** ** Structs *)

Definition quoteFree (name : string) : bool := forallb (fun c => c !=? quote) (str name).

Lemma split_at_quote (a b : bytes) x y :
  Forall (fun c => c <> quote) a -> Forall (fun c => c <> quote) b ->
  a ++ quote :: x = b ++ quote :: y -> a = b.
Proof.
  intros Ha. revert b. induction Ha as [|c a Hc Ha IH]; intros b Hb E; destruct Hb as [|d b Hd Hb]; cbn in E; try done.
  - congruence.
  - congruence.
  - injection E as -> E. f_equal. by apply IH.
Qed.

Lemma quoteFree_Forall name : quoteFree name = true -> Forall (fun c => c <> quote) (str name).
Proof. intros Hq%forallb_true. eapply Forall_impl; [exact Hq|]. intros c Hc. by goprop. Qed.

Lemma str_inj (a b : string) : str a = str b -> a = b.
Proof.
  intros E. rewrite <- (String.string_of_list_byte_of_string a), <- (String.string_of_list_byte_of_string b).
  unfold str in E. by rewrite E.
Qed.

Lemma key_clash a b x r :
  quoteFree a = true -> quoteFree b = true -> key a ++ x = key b ++ r -> a = b.
Proof.
  intros Ha%quoteFree_Forall Hb%quoteFree_Forall E. unfold key in E. cbn [app] in E. injection E as E.
  rewrite <- !app_assoc in E. cbn [app] in E. by apply split_at_quote, str_inj in E.
Qed.

Definition rebuild {R} (fs : list (field R)) (r z : R) : R :=
  foldl (fun z f => if f.(omitted) r then z else f.(put) (f.(get) r) z) z fs.

(** The fields that [r] prints can be read back one by one. *)
Definition Readable {R} (r : R) (f : field R) : Prop :=
  f.(omitted) r = false -> forall rest, ends rest ->
  f.(field_codec).(parse) (f.(field_codec).(print) (f.(get) r) ++ rest) = Some (f.(get) r, rest).

Definition separator_of (first : bool) : bytes := if first then [] else [comma].

Lemma printFields_front {R} first (fs : list (field R)) r rest :
  (exists rest', printFields first fs r ++ rest = closeStruct :: rest') \/
  (exists f rest', f ∈ fs /\ printFields first fs r ++ rest = separator_of first ++ key f.(field_name) ++ rest').
Proof.
  induction fs as [|f fs IH]; [left; by eexists|]. cbn [printFields]. destruct (omitted f r).
  - destruct IH as [?|(g & rest' & Hg & E)]; [by left|right]. exists g, rest'. split; [by right|done].
  - right. exists f. eexists. split; [by left|]. rewrite <- !app_assoc. done.
Qed.

Lemma ends_fields {R} (fs : list (field R)) r rest : ends (printFields false fs r ++ rest).
Proof. by destruct (printFields_front false fs r rest) as [[? ->]|(? & ? & _ & ->)]. Qed.

Lemma parseFields_print {R} first (fs : list (field R)) (r z : R) rest :
  NoDup (map field_name fs) -> Forall (fun f => quoteFree f.(field_name) = true) fs -> Forall (Readable r) fs ->
  parseFields first fs z (printFields first fs r ++ rest) = Some (rebuild fs r z, rest).
Proof.
  revert first z. induction fs as [|f fs IH]; intros first z Hnd Hq Hr; [done|].
  cbn [map] in Hnd. apply NoDup_cons in Hnd as [Hnin Hnd]. apply Forall_cons in Hq as [Hqf Hq].
  apply Forall_cons in Hr as [Hf Hr]. cbn [parseFields printFields].
  change (rebuild (f :: fs) r z) with (rebuild fs r (if omitted f r then z else put f (get f r) z)).
  fold (separator_of first). destruct (omitted f r) eqn:Eo.
  - destruct (literal _ _) as [x|] eqn:El; [|by apply IH]. exfalso. apply literal_spec in El.
    destruct (printFields_front first fs r rest) as [[rest' E]|(g & rest' & Hg & E)]; rewrite E in El.
    + destruct first; cbn in El; discriminate.
    + rewrite <- app_assoc in El. apply app_inv_head in El.
      apply key_clash in El; [|by rewrite Forall_forall in Hq; apply Hq|done].
      apply Hnin. rewrite <- El. by apply list_elem_of_fmap_2.
  - rewrite <- !app_assoc, (app_assoc (separator_of first)), literal_app. rewrite Hf by (done || apply ends_fields).
    by apply IH.
Qed.

Lemma struct_lawful {R} (zero : R) (fs : list (field R)) (P : R -> Prop) :
  NoDup (map field_name fs) -> Forall (fun f => quoteFree f.(field_name) = true) fs ->
  (forall r, P r -> Forall (Readable r) fs /\ rebuild fs r zero = r) ->
  Lawful (struct zero fs) P.
Proof.
  intros Hnd Hq Hp r rest Hr _. destruct (Hp r Hr) as [Hf Hb]. cbn [struct print parse app].
  change (openStruct :: printFields true fs r ++ rest) with ([openStruct] ++ (printFields true fs r ++ rest)).
  rewrite literal_app, parseFields_print by done. by rewrite Hb.
Qed.

Lemma lawful_readable {R A} (r : R) name om (c : codec A) g (p : A -> R -> R) (P : A -> Prop) :
  Lawful c P -> P (g r) -> Readable r (Field name om c g p).
Proof. intros Hc Hp _ rest Hr. by apply Hc. Qed.

Create HintDb json.
#[export] Hint Resolve slice_lawful array_lawful text_lawful uint8_lawful uint32_lawful uint64_lawful int64_lawful
  list_lawful nullable_lawful list_starts struct_starts slice_starts nullable_starts : json.
#[export] Hint Extern 1 (_ <> _) => discriminate : json.

Lemma required_length {R} first (fs : list (field R)) r f :
  f ∈ fs -> f.(omitted) r = false ->
  (length (f.(field_codec).(print) (f.(get) r)) <= length (printFields first fs r))%nat.
Proof.
  intros Hf Ho. revert first. induction fs as [|g fs IH]; intros first; [by apply not_elem_of_nil in Hf|].
  apply elem_of_cons in Hf as [<-|Hf]; cbn [printFields].
  - rewrite Ho, !length_app. lia.
  - specialize (IH Hf). destruct (omitted g r); [apply IH|]. rewrite !length_app. specialize (IH false). lia.
Qed.

Definition printedAlike {R} (r : R) (f g : field R) : Prop :=
  f.(field_name) = g.(field_name) /\ f.(omitted) r = g.(omitted) r /\
  f.(field_codec).(print) (f.(get) r) = g.(field_codec).(print) (g.(get) r).

Lemma printFields_ext {R} first (fs gs : list (field R)) r :
  Forall2 (printedAlike r) fs gs -> printFields first fs r = printFields first gs r.
Proof.
  intros Hfg. revert first. induction Hfg as [|f g fs gs (En & Eo & Ep) Hfg IH]; intros first; [done|].
  cbn [printFields]. by rewrite En, Eo, Ep, !IH.
Qed.

Lemma item_length {A} (c : codec A) l x : x ∈ l -> (length (c.(print) x) < length (printItems c l))%nat.
Proof.
  induction l as [|y l IH]; intros Hx; [by apply not_elem_of_nil in Hx|]. destruct l as [|z l].
  - apply list_elem_of_singleton in Hx as ->. cbn. rewrite length_app. cbn. lia.
  - rewrite printItems_more, length_app. cbn [length]. apply elem_of_cons in Hx as [->|Hx]; [lia|]. specialize (IH Hx). lia.
Qed.

Lemma printItems_ext {A} (c c' : codec A) l :
  Forall (fun x => c.(print) x = c'.(print) x) l -> printItems c l = printItems c' l.
Proof.
  induction 1 as [|x l Hx Hl IH]; [done|]. destruct l as [|y l]; [cbn; by rewrite Hx|].
  by rewrite !printItems_more, Hx, IH.
Qed.

(** ** What a parser can return *)

Definition Typed {A} (c : codec A) (P : A -> Prop) : Prop :=
  forall raw v rest, c.(parse) raw = Some (v, rest) -> P v.

Lemma integer_typed low high : Typed (integer low high) (fun z => low <= z <= high).
Proof.
  intros raw z rest. cbn [integer parse]. unfold parse_int. destruct (match raw with [] => _ | _ => _ end) as [sign raw'].
  destruct (spanDigits raw') as [l rest']. destruct (_ || _) eqn:E; [done|]. rewrite !orb_false_iff in E.
  intros [= <- _]. goprop. lia.
Qed.

(** A struct keeps an invariant that its zero value has and every field's put
    preserves. *)
Lemma parseFields_typed {R} (I : R -> Prop) first (fs : list (field R)) (r r' : R) raw rest :
  (forall f, f ∈ fs -> forall raw v rest, f.(field_codec).(parse) raw = Some (v, rest) -> forall r, I r -> I (f.(put) v r)) ->
  I r -> parseFields first fs r raw = Some (r', rest) -> I r'.
Proof.
  revert first r raw. induction fs as [|f fs IH]; intros first r raw Hf Hr; cbn [parseFields].
  { destruct (literal _ raw); [|done]. by intros [= <- _]. }
  assert (forall g, g ∈ fs -> forall raw v rest, g.(field_codec).(parse) raw = Some (v, rest) -> forall r, I r -> I (g.(put) v r))
    as Hfs by (intros g Hg; apply Hf; by right).
  destruct (literal _ raw) as [raw'|]; [|by apply IH].
  destruct (parse (field_codec f) raw') as [[v rest']|] eqn:Ep; [|done]. apply IH; [done|].
  by eapply (Hf f ltac:(by left)).
Qed.

Lemma struct_typed {R} (zero : R) (fs : list (field R)) (I : R -> Prop) :
  I zero ->
  (forall f, f ∈ fs -> forall raw v rest, f.(field_codec).(parse) raw = Some (v, rest) -> forall r, I r -> I (f.(put) v r)) ->
  Typed (struct zero fs) I.
Proof.
  intros Hz Hf raw v rest. cbn [struct parse]. destruct (literal _ raw); [|done]. by apply parseFields_typed.
Qed.

Lemma decodeCanonical_typed {A} (c : codec A) P raw v : Typed c P -> decodeCanonical c raw = Some v -> P v.
Proof.
  intros Ht. unfold decodeCanonical. destruct (parse c raw) as [[x [|]]|] eqn:Ep; try done. case_bool_decide; [|done].
  intros [= <-]. by eapply Ht.
Qed.

(** What decodes canonically is what prints to the input. *)
Lemma decodeCanonical_complete {A} (c : codec A) P v :
  Lawful c P -> P v -> decodeCanonical c (Marshal c v) = Some v.
Proof.
  intros Hc Hp. unfold decodeCanonical, Marshal. pose proof (Hc v [] Hp I) as E. rewrite app_nil_r in E.
  by rewrite E, bool_decide_eq_true_2.
Qed.

Lemma decodeCanonical_sound {A} (c : codec A) raw v : decodeCanonical c raw = Some v -> Marshal c v = raw.
Proof.
  unfold decodeCanonical. destruct (parse c raw) as [[x [|]]|]; try done. case_bool_decide; [|done]. by intros [= <-].
Qed.

End json.
