(* ===== verification/GoTime.v ===== *)
(** * Durations and instants (package time)

    A [time.Duration] is its signed 64-bit count of nanoseconds; a [time.Time]
    is its distance from the Unix epoch in nanoseconds. *)

From Stdlib Require Import Floats.SpecFloat.
From S2P Require Import Prelude.

Definition Millisecond : Z := 1000000.
Definition Second : Z := 1000 * Millisecond.
Definition Hour : Z := 3600 * Second.

(** [d.Milliseconds()]: integer division truncates toward zero. *)
Definition Milliseconds (d : Z) : Z := Z.quot d Millisecond.

(** binary64 arithmetic, from the IEEE 754 specification in the library. *)
Definition f64_of_Z (z : Z) : spec_float := binary_normalize 53 1024 z 0 false.

Definition f64_trunc (f : spec_float) : Z :=
  match f with
  | S754_finite s m e =>
      let v := if 0 <=? e then Zpos m * 2 ^ e else Z.quot (Zpos m) (2 ^ (- e)) in
      if s then - v else v
  | _ => 0
  end.

(** [d.Seconds()]: [float64(d / Second) + float64(d % Second) / 1e9]. *)
Definition Seconds (d : Z) : spec_float :=
  SFadd 53 1024 (f64_of_Z (Z.quot d Second))
    (SFdiv 53 1024 (f64_of_Z (Z.rem d Second)) (f64_of_Z 1000000000)).

(** [int64(d.Seconds())] *)
Definition wholeSeconds (d : Z) : Z := f64_trunc (Seconds d).

(** [t.Unix()], [t.UnixMilli()], [t.IsZero()], [t.Add(d)], [time.UnixMilli(ms)] *)
Definition Unix (t : Z) : Z := t / Second.
Definition UnixMilli (t : Z) : Z := i64 (Unix t * 1000 + (t mod Second) / Millisecond).
Definition IsZero (t : Z) : bool := t =? - 62135596800 * Second.
Definition Add (t d : Z) : Z := t + d.
Definition OfUnixMilli (ms : Z) : Z := ms * Millisecond.

(** [t.UnixNano()]; [time.Unix(0, ns)] is [ns] itself. *)
Definition UnixNano (t : Z) : Z := i64 t.

Lemma UnixMilli_floor t : in_i64 (t / Millisecond) -> UnixMilli t = t / Millisecond.
Proof.
  intros Hr. unfold UnixMilli, Unix.
  replace (t / Second * 1000 + t mod Second / Millisecond) with (t / Millisecond);
    [by apply i64_id|].
  unfold Second, Millisecond. Z.div_mod_to_equations. lia.
Qed.

Lemma Unix_UnixMilli t : in_i64 (t / Millisecond) -> Unix t = UnixMilli t / 1000.
Proof.
  intros Hr. rewrite UnixMilli_floor by done. unfold Unix, Second, Millisecond.
  by rewrite Z.div_div, Z.mul_comm by lia.
Qed.

Example wholeSeconds_hour : wholeSeconds Hour = 3600.
Proof. vm_compute. reflexivity. Qed.

Example wholeSeconds_fraction : wholeSeconds (90 * Second + 999 * Millisecond) = 90.
Proof. vm_compute. reflexivity. Qed.
