(* ===== verification/Naming.v ===== *)
(** * Canonical Service Names

    internal/naming/name.go and internal/naming/wire.go: parsing, the ancestor
    test, the textual Service Link and the length-prefixed wire format. The
    abstract side is [CanonicalName], a grammar on label lists; the theorems
    relate the parser, the formatter and the two codecs to it. *)

From S2P Require Import Prelude GoLib.

(** ** name.go *)

Definition SchemaVersion : Z := 1.
Definition serviceLinkScheme : gostring := str "ardents://".
Definition maxLabelLength : Z := 63.
Definition maxNameLength : Z := 253.
Definition maxNameDepth : Z := 127.

Definition dot : byte := x2e.
Definition hyphen : byte := x2d.

Definition errRootAllDigit : string := "root label must not be all-digit (R-041)".

Section Names.
Context `{GoLib}.

(** The character test of the label loop: [a-z], [0-9] or a hyphen. *)
Definition canonical_char (c : byte) : bool :=
  let v := byte_val c in
  negb ((128 <=? v) ||
        negb (((97 <=? v) && (v <=? 122)) || ((48 <=? v) && (v <=? 57)) || (v =? 45))).

(** One iteration of the loop over the segments. *)
Definition parseSegment (segment : gostring) : result gostring :=
  reject (New "label is empty") when (segment ==? []);
  reject (Fmt "label exceeds bytes") when (maxLabelLength <? len segment);
  reject (New "label contains uppercase rune") when (segment !=? ToLower segment);
  reject (Fmt "label must not start or end with -")
    when (HasPrefix segment [hyphen] || HasSuffix segment [hyphen]);
  reject (Fmt "label must not contain consecutive hyphens")
    when (Contains segment [hyphen; hyphen]);
  reject (Fmt "label contains non-canonical character")
    when (negb (forallb canonical_char segment));
  Ok segment.

Fixpoint parseSegments (segments labels : list gostring) : result (list gostring) :=
  match segments with
  | [] => Ok labels
  | segment :: rest =>
      label ← parseSegment segment;
      parseSegments rest (labels ++ [label])
  end.

Definition isAllDigit (label : gostring) : bool :=
  if label ==? [] then false
  else forallb (fun c => negb ((byte_val c <? 48) || (57 <? byte_val c))) label.

Definition parseLabels (text : gostring) : result (list gostring) :=
  reject (New "empty Service Name") when (text ==? []);
  reject (New "name must contain dot-separated labels without empty segments")
    when (HasPrefix text [dot] || HasSuffix text [dot] || Contains text [dot; dot]);
  labels ← parseSegments (Split text dot) [];
  reject (New "namespace depth exceeds Stage 6 bound") when (maxNameDepth <? len labels);
  reject (New errRootAllDigit) when (isAllDigit (default [] (last labels)));
  Ok labels.

(** The loop that sums label lengths and the dots between them. *)
Fixpoint totalLength (labels : list gostring) : Z :=
  match labels with
  | [] => 0
  | [l] => len l
  | l :: rest => len l + 1 + totalLength rest
  end.

Definition joinDots (labels : list gostring) : gostring := Join labels dot.

Definition parseName (raw : gostring) (allowServiceLink : bool) : result gostring :=
  reject (New "invalid Service Name: empty input") when (raw ==? []);
  reject (New "serialized Service Name exceeds Stage 6 bound")
    when (len serviceLinkScheme + maxNameLength <? len raw);
  text ← (if allowServiceLink then
            reject (New "invalid Service Name: missing ardents:// scheme")
              when (negb (HasPrefix raw serviceLinkScheme));
            Ok (drop (length serviceLinkScheme) raw)
          else
            reject (New "invalid Service Name: must not contain URL scheme")
              when (Contains raw (str "://"));
            Ok raw);
  reject (New "serialized Service Name exceeds Stage 6 bound") when (maxNameLength <? len text);
  match parseLabels text with
  | Err e => Err (Wrap "invalid Service Name" e)
  | Ok labels =>
      reject (New "namespace depth exceeds Stage 6 bound") when (maxNameDepth <? len labels);
      reject (New "serialized Service Name exceeds Stage 6 bound")
        when (maxNameLength <? totalLength labels);
      Ok (joinDots labels)
  end.

Definition Parse (raw : gostring) : result gostring := parseName raw false.
Definition ParseServiceLink (raw : gostring) : result gostring := parseName raw true.

Definition FormatServiceLink (name : gostring) : result gostring :=
  parsed ← Parse name;
  Ok (serviceLinkScheme ++ parsed).

Definition labelsOf (name : gostring) : result (list gostring) :=
  parsed ← Parse name;
  parseLabels parsed.

Definition IsDescendant (child parent : gostring) : bool :=
  match parseName child false with
  | Err _ => false
  | Ok parsedChild =>
      match parseName parent false with
      | Err _ => false
      | Ok parsedParent =>
          if parsedChild ==? parsedParent then false
          else HasSuffix parsedChild (dot :: parsedParent)
      end
  end.

(** ** wire.go *)

Definition errWireTooShort : string := "naming wire: input shorter than schema_version prefix".
Definition errWireBadVersion : string :=
  "naming wire: schema_version does not match frozen Stage 6 profile".
Definition errWireLabelLength : string :=
  "naming wire: declared label length exceeds Stage 6 bound".
Definition errWireLabelTrunc : string :=
  "naming wire: input truncated before label body completes".
Definition errWireEmpty : string := "naming wire: decoded name is empty".
Definition errWireTooLong : string := "naming wire: input exceeds Stage 6 bound".
Definition errWireBadAllDigit : string := "naming wire: root label is all-digit (R-041)".

(** The label loop of [EncodeWire]; [out] is the buffer being appended to. *)
Fixpoint encodeLabels (labels : list gostring) (out : bytes) : result bytes :=
  match labels with
  | [] => Ok out
  | label :: rest =>
      reject (Fmt "naming wire: label has invalid length")
        when ((len label =? 0) || (255 <? len label));
      encodeLabels rest (out ++ byte_of (len label) :: label)
  end.

Definition EncodeWire (name : gostring) : result bytes :=
  reject (New "naming wire: empty name") when (name ==? []);
  labels ← labelsOf name;
  encodeLabels labels (be_bytes 2 SchemaVersion).

(** The label loop of [DecodeWire] on the bytes after the version. The fuel is
    the length of the input, and every iteration consumes at least one byte. *)
Fixpoint decodeLabels (fuel : nat) (input : bytes) (labels : list gostring)
  : result (list gostring) :=
  match input with
  | [] => Ok labels
  | size :: rest =>
      match fuel with
      | O => Ok labels
      | S fuel' =>
          let n := byte_val size in
          reject (Wrap "naming wire label length" (New errWireLabelLength))
            when ((n =? 0) || (maxLabelLength <? n));
          reject (New errWireLabelTrunc) when (len rest <? n);
          decodeLabels fuel' (drop (Z.to_nat n) rest) (labels ++ [take (Z.to_nat n) rest])
      end
  end.

Definition DecodeWire (input : bytes) : result gostring :=
  reject (New errWireTooShort) when (len input <? 2);
  reject (New errWireTooLong) when (3 + maxNameLength <? len input);
  reject (Wrap "naming wire version" (New errWireBadVersion))
    when (negb (be_val (take 2 input) =? SchemaVersion));
  labels ← decodeLabels (length input) (drop 2 input) [];
  reject (New errWireEmpty) when (len labels =? 0);
  match Parse (joinDots labels) with
  | Ok parsed => Ok parsed
  | Err e =>
      if errors_Is e errRootAllDigit then Err (New errWireBadAllDigit)
      else Err (Wrap "naming wire" e)
  end.

End Names.

(** ** The abstract grammar *)

Definition label_char (c : byte) : Prop :=
  97 <= byte_val c <= 122 \/ 48 <= byte_val c <= 57 \/ c = hyphen.

Record CanonicalLabel (l : gostring) : Prop := {
  cl_nonempty : l <> [];
  cl_short : len l <= maxLabelLength;
  cl_chars : Forall label_char l;
  cl_head : head l <> Some hyphen;
  cl_last : last l <> Some hyphen;
  cl_single : forall u v, l <> u ++ [hyphen; hyphen] ++ v
}.

(** [ls] are the labels, leaf first, of a name whose text is [s]. *)
Record CanonicalName (s : gostring) (ls : list gostring) : Prop := {
  cn_text : s = Join ls dot;
  cn_nonempty : ls <> [];
  cn_labels : Forall CanonicalLabel ls;
  cn_root : forall r, last ls = Some r -> exists c, c ∈ r /\ ~ 48 <= byte_val c <= 57;
  cn_bound : len s <= maxNameLength
}.

Section NameLemmas.
Context `{GoLib}.

Lemma canonical_char_true c : canonical_char c = true <-> label_char c.
Proof.
  unfold canonical_char, label_char.
  rewrite negb_true_iff, orb_false_iff, negb_false_iff, !orb_true_iff, !andb_true_iff,
    !Z.leb_le, Z.leb_gt, Z.eqb_eq.
  assert (byte_val c = 45 <-> c = hyphen) as ->.
  { split; [|by intros ->]. intros E. by apply (inj byte_val). }
  destruct (decide (c = hyphen)) as [->|]; [|intuition (congruence || lia)].
  change (byte_val hyphen) with 45. intuition lia.
Qed.

Lemma label_char_not_dot c : label_char c -> c <> dot.
Proof. unfold label_char. intros Hc ->. change (byte_val dot) with 46 in Hc. destruct Hc as [?|[?|?]]; [lia|lia|done]. Qed.

Lemma label_char_lower c : label_char c -> byte_val c < 128 /\ lower_byte c = c.
Proof.
  unfold label_char, lower_byte. intros Hc.
  assert (97 <= byte_val c <= 122 \/ 48 <= byte_val c <= 57 \/ byte_val c = 45) as Hv
    by (destruct Hc as [?|[?| ->]]; auto).
  destruct ((65 <=? byte_val c) && (byte_val c <=? 90)) eqn:E; [|split; [lia|done]].
  rewrite andb_true_iff, !Z.leb_le in E. lia.
Qed.

Lemma ToLower_label l : Forall label_char l -> ToLower l = l.
Proof.
  intros Hl. unfold ToLower.
  replace (forallb _ l) with true.
  - induction Hl as [|c l Hc Hl IH]; simpl; [done|]. rewrite IH. f_equal. by apply label_char_lower.
  - symmetry. apply forallb_true. eapply Forall_impl; [done|].
    intros c Hc. by apply Z.ltb_lt, label_char_lower.
Qed.

Lemma HasPrefix_single s c : HasPrefix s [c] = false <-> head s <> Some c.
Proof.
  rewrite <- not_true_iff_false, HasPrefix_true. destruct s as [|a s]; simpl.
  - naive_solver.
  - split.
    + intros Hn E. apply Hn. exists s. by simplify_eq.
    + intros Hn [t E]. by simplify_eq.
Qed.

Lemma HasSuffix_single s c : HasSuffix s [c] = false <-> last s <> Some c.
Proof.
  rewrite <- not_true_iff_false, HasSuffix_true, last_Some. done.
Qed.

Lemma parseSegment_ok s s' : parseSegment s = Ok s' <-> s' = s /\ CanonicalLabel s.
Proof.
  unfold parseSegment. split.
  - intros Hp. inv_ok. subst. split; [done|]. goprop.
    rewrite HasPrefix_single, HasSuffix_single, Contains_false in *.
    constructor; try done.
    rewrite forallb_true in *. eapply Forall_impl; [done|]. apply canonical_char_true.
  - intros [-> [Hne Hshort Hchars Hhead Hlast Hsingle]].
    rewrite (bool_decide_eq_false_2 (s = [])) by done.
    replace (maxLabelLength <? len s) with false by (symmetry; apply Z.ltb_ge; lia).
    rewrite (bool_decide_eq_true_2 (s = ToLower s)) by (by rewrite ToLower_label). simpl.
    rewrite (proj2 (HasPrefix_single _ _)), (proj2 (HasSuffix_single _ _)) by done. simpl.
    rewrite (proj2 (Contains_false _ _)) by done.
    replace (forallb canonical_char s) with true; [done|].
    symmetry. apply forallb_true. eapply Forall_impl; [done|]. apply canonical_char_true.
Qed.

Lemma parseSegments_ok segs acc r :
  parseSegments segs acc = Ok r <-> r = acc ++ segs /\ Forall CanonicalLabel segs.
Proof.
  revert acc. induction segs as [|s segs IH]; intros acc; cbn [parseSegments].
  - rewrite app_nil_r. split; [intros; inv_ok; auto|]. intros [-> _]. done.
  - split.
    + intros Hp. inv_ok. apply parseSegment_ok in Hok as [-> Hs]. apply IH in Hp as [-> Hall].
      rewrite <- app_assoc. split; [done|by constructor].
    + intros [-> Hall]. inversion Hall; subst.
      rewrite (proj2 (parseSegment_ok s s)) by done. simpl. apply IH.
      rewrite <- app_assoc. done.
Qed.

Lemma CanonicalLabel_no_dot l : CanonicalLabel l -> dot ∉ l.
Proof.
  intros Hl Hin. apply cl_chars in Hl. rewrite Forall_forall in Hl.
  by eapply label_char_not_dot; [apply Hl|].
Qed.

Lemma isAllDigit_false l :
  l <> [] -> isAllDigit l = false <-> exists c, c ∈ l /\ ~ 48 <= byte_val c <= 57.
Proof.
  intros Hne. unfold isAllDigit. rewrite bool_decide_eq_false_2 by done.
  rewrite <- not_true_iff_false, forallb_true. setoid_rewrite negb_true_iff.
  setoid_rewrite orb_false_iff. setoid_rewrite Z.ltb_ge. split.
  - intros Hn%not_Forall_Exists; [by apply Exists_exists in Hn|apply _].
  - intros (c & Hc & Hd) Hall. rewrite Forall_forall in Hall. by apply Hd, Hall.
Qed.

Lemma Join_no_empty_segment ls :
  ls <> [] -> Forall CanonicalLabel ls -> [] ∉ Split (Join ls dot) dot.
Proof.
  intros Hne Hall. rewrite Split_Join; [|done|].
  - intros Hin. rewrite Forall_forall in Hall. by apply (cl_nonempty _ (Hall _ Hin)).
  - eapply Forall_impl; [done|apply CanonicalLabel_no_dot].
Qed.

Lemma parseLabels_ok text ls :
  parseLabels text = Ok ls <->
  text = Join ls dot /\ ls <> [] /\ Forall CanonicalLabel ls /\ len ls <= maxNameDepth /\
  isAllDigit (default [] (last ls)) = false.
Proof.
  unfold parseLabels. split.
  - intros Hp. inv_ok. subst. apply parseSegments_ok in Hok as [-> Hall]. goprop.
    cbn [app] in *. rewrite Join_Split. repeat split; try done; apply Split_nonempty.
  - intros (-> & Hne & Hall & Hdepth & Hroot).
    pose proof (Join_no_empty_segment ls Hne Hall) as Hseg.
    rewrite (bool_decide_eq_false_2 (Join ls dot = [])).
    2:{ intros E. rewrite E in Hseg. set_solver. }
    destruct (HasPrefix (Join ls dot) [dot] || HasSuffix (Join ls dot) [dot] ||
              Contains (Join ls dot) [dot; dot]) eqn:E.
    { destruct Hseg. rewrite !orb_true_iff, HasPrefix_true, HasSuffix_true, Contains_true in E.
      destruct E as [[[t ->]|[t ->]]|(u & v & ->)]; simpl; rewrite ?Split_app_sep.
      - set_solver.
      - set_solver.
      - simpl. set_solver. }
    rewrite Split_Join; [|done|by eapply Forall_impl; [|apply CanonicalLabel_no_dot]].
    rewrite (proj2 (parseSegments_ok ls [] ls)) by done. simpl.
    replace (maxNameDepth <? len ls) with false by (symmetry; apply Z.ltb_ge; lia).
    by rewrite Hroot.
Qed.

Lemma totalLength_Join ls : totalLength ls = len (Join ls dot).
Proof.
  induction ls as [|l ls IH]; [done|]. destruct ls as [|l' ls]; [done|].
  rewrite Join_cons by done. rewrite len_app, len_cons. cbn [totalLength] in *. lia.
Qed.

Lemma labels_depth ls :
  ls <> [] -> Forall CanonicalLabel ls -> 2 * len ls <= len (Join ls dot) + 1.
Proof.
  intros Hne Hall. rewrite len_Join by done. clear Hne.
  induction Hall as [|l ls Hl Hall IH]; [done|]. rewrite len_cons. cbn [foldr].
  pose proof (len_nonneg l). pose proof (cl_nonempty _ Hl).
  assert (len l <> 0) by (intros E; by apply len_zero_nil in E). lia.
Qed.

Lemma CanonicalName_parseLabels s ls : CanonicalName s ls -> parseLabels s = Ok ls.
Proof.
  intros [-> Hne Hall Hroot Hbound]. apply parseLabels_ok.
  pose proof (labels_depth ls Hne Hall). unfold maxNameDepth, maxNameLength in *.
  repeat split; try done; [lia|].
  destruct (last ls) as [r|] eqn:E; [|by rewrite last_None in E]. simpl.
  apply isAllDigit_false; [|by apply Hroot].
  apply last_Some_elem_of in E. rewrite Forall_forall in Hall. by apply cl_nonempty, Hall.
Qed.

Lemma parseLabels_CanonicalName s ls :
  len s <= maxNameLength -> parseLabels s = Ok ls -> CanonicalName s ls.
Proof.
  intros Hb (-> & Hne & Hall & _ & Hroot)%parseLabels_ok. constructor; try done.
  intros r Hr. rewrite Hr in Hroot. simpl in Hroot. apply isAllDigit_false; [|done].
  apply last_Some_elem_of in Hr. rewrite Forall_forall in Hall. by apply cl_nonempty, Hall.
Qed.

Lemma CanonicalName_unique s ls ls' : CanonicalName s ls -> CanonicalName s ls' -> ls = ls'.
Proof. intros H1%CanonicalName_parseLabels H2%CanonicalName_parseLabels. congruence. Qed.

Lemma CanonicalName_Split s ls : CanonicalName s ls -> Split s dot = ls.
Proof.
  intros [-> Hne Hall _ _]. apply Split_Join; [done|].
  eapply Forall_impl; [done|apply CanonicalLabel_no_dot].
Qed.

Lemma Join_elem ls c : c ∈ Join ls dot -> c = dot \/ exists l, l ∈ ls /\ c ∈ l.
Proof.
  induction ls as [|l ls IH]; [set_solver|]. destruct ls as [|l' ls].
  - simpl. intros. right. exists l. set_solver.
  - rewrite Join_cons by done. rewrite elem_of_app, elem_of_cons.
    intros [?|[?|?]]; [right; exists l; set_solver|by left|].
    destruct IH as [?|(l0 & ? & ?)]; [done|by left|right; exists l0; set_solver].
Qed.

Lemma CanonicalName_no_scheme s ls : CanonicalName s ls -> Contains s (str "://") = false.
Proof.
  intros [-> Hne Hall _ _]. apply Contains_false. intros u v E.
  assert (x3a ∈ Join ls dot) as Hin by (rewrite E; set_solver).
  apply Join_elem in Hin as [?|(l & Hl & Hc)]; [done|].
  rewrite Forall_forall in Hall. apply Hall, cl_chars in Hl. rewrite Forall_forall in Hl.
  specialize (Hl _ Hc). unfold label_char in Hl. change (byte_val x3a) with 58 in Hl.
  destruct Hl as [?|[?|?]]; [lia|lia|done].
Qed.

Lemma CanonicalName_nonempty s ls : CanonicalName s ls -> s <> [].
Proof.
  intros [-> Hne Hall _ _] E. apply (Join_no_empty_segment ls Hne Hall). rewrite E. set_solver.
Qed.

Lemma parseName_link_ok raw n :
  ParseServiceLink raw = Ok n <->
  raw = serviceLinkScheme ++ n /\ exists ls, CanonicalName n ls.
Proof.
  unfold ParseServiceLink, parseName. split.
  - intros Hp. inv_ok. subst. goprop.
    match goal with Hp : HasPrefix _ _ = true |- _ => apply HasPrefix_true in Hp as [t ->] end.
    rewrite drop_app_length in *. pose proof Hok0 as Hl.
    apply parseLabels_ok in Hl as [-> _]. split; [done|]. eexists.
    by apply parseLabels_CanonicalName.
  - intros [-> [ls Hn]]. pose proof (cn_bound _ _ Hn).
    rewrite bool_decide_eq_false_2 by (by destruct n).
    replace (_ <? len (serviceLinkScheme ++ n)) with false
      by (symmetry; apply Z.ltb_ge; rewrite len_app; lia).
    rewrite (proj2 (HasPrefix_true _ _)) by eauto. simpl negb. cbv iota.
    change (mbind ?f (Ok ?a)) with (f a). cbv beta. rewrite drop_app_length.
    replace (maxNameLength <? len n) with false by (symmetry; apply Z.ltb_ge; lia).
    pose proof (CanonicalName_parseLabels _ _ Hn) as Hl. rewrite Hl.
    apply parseLabels_ok in Hl as (_ & _ & _ & Hd & _).
    replace (maxNameDepth <? len ls) with false by (symmetry; apply Z.ltb_ge; lia).
    rewrite totalLength_Join. unfold joinDots. rewrite <- (cn_text _ _ Hn).
    replace (maxNameLength <? len n) with false by (symmetry; apply Z.ltb_ge; lia). done.
Qed.

Lemma Parse_ok raw n : Parse raw = Ok n <-> n = raw /\ exists ls, CanonicalName raw ls.
Proof.
  unfold Parse, parseName. split.
  - intros Hp. inv_ok. subst. goprop. pose proof Hok0 as Hl.
    apply parseLabels_ok in Hl as [-> _]. split; [done|]. eexists.
    by apply parseLabels_CanonicalName.
  - intros [-> [ls Hn]]. pose proof (cn_bound _ _ Hn).
    rewrite bool_decide_eq_false_2 by (by eapply CanonicalName_nonempty).
    change (len serviceLinkScheme) with 10.
    replace (_ <? len raw) with false by (symmetry; apply Z.ltb_ge; lia).
    rewrite (CanonicalName_no_scheme _ _ Hn).
    change (mbind ?f (Ok ?a)) with (f a). cbv beta.
    replace (maxNameLength <? len raw) with false by (symmetry; apply Z.ltb_ge; lia).
    pose proof (CanonicalName_parseLabels _ _ Hn) as Hl. rewrite Hl.
    apply parseLabels_ok in Hl as (_ & _ & _ & Hd & _).
    replace (maxNameDepth <? len ls) with false by (symmetry; apply Z.ltb_ge; lia).
    rewrite totalLength_Join. unfold joinDots. rewrite <- (cn_text _ _ Hn).
    replace (maxNameLength <? len raw) with false by (symmetry; apply Z.ltb_ge; lia). done.
Qed.

Lemma IsDescendant_true child parent :
  IsDescendant child parent = true <->
  exists pre ls, pre <> [] /\ CanonicalName parent ls /\ CanonicalName child (pre ++ ls).
Proof.
  unfold IsDescendant. split.
  - destruct (parseName child false) as [c|] eqn:Hc; [|done].
    destruct (parseName parent false) as [p|] eqn:Hp; [|done].
    apply Parse_ok in Hc as [-> [lc Hc]]. apply Parse_ok in Hp as [-> [lp Hp]].
    case_bool_decide; [done|]. intros [t ->]%HasSuffix_true.
    exists (Split t dot), lp. split_and!; [apply Split_nonempty|done|].
    pose proof (CanonicalName_Split _ _ Hc) as Hs. rewrite Split_app_sep in Hs.
    rewrite (CanonicalName_Split _ _ Hp) in Hs. by rewrite Hs.
  - intros (pre & ls & Hpre & Hp & Hc). fold (Parse child) (Parse parent).
    rewrite (proj2 (Parse_ok child child)), (proj2 (Parse_ok parent parent)) by eauto.
    pose proof (cn_text _ _ Hc) as ->. pose proof (cn_text _ _ Hp) as ->.
    rewrite Join_app by (done || apply Hp). rewrite bool_decide_eq_false_2.
    + apply HasSuffix_true. eauto.
    + intros E%(f_equal length). rewrite length_app in E. simpl in E. lia.
Qed.

End NameLemmas.

(** ** Wire format lemmas *)

Definition wire_label (l : gostring) : bytes := byte_of (len l) :: l.
Definition wire_labels (ls : list gostring) : bytes := concat (map wire_label ls).

(** A label the wire loop accepts: between 1 and 63 bytes of anything. *)
Definition wire_sized (l : gostring) : Prop := 1 <= len l <= maxLabelLength.

Section WireLemmas.
Context `{GoLib}.

Lemma CanonicalLabel_sized l : CanonicalLabel l -> wire_sized l.
Proof.
  intros [Hne Hs _ _ _ _]. split; [|done]. pose proof (len_nonneg l).
  assert (len l <> 0) by (intros E; by apply len_zero_nil in E). lia.
Qed.

Lemma encodeLabels_ok ls out :
  Forall wire_sized ls -> encodeLabels ls out = Ok (out ++ wire_labels ls).
Proof.
  intros Hall. revert out. induction Hall as [|l ls Hl Hall IH]; intros out; cbn [encodeLabels].
  - by rewrite app_nil_r.
  - unfold wire_sized, maxLabelLength in Hl.
    replace ((len l =? 0) || (255 <? len l)) with false
      by (symmetry; rewrite orb_false_iff, Z.eqb_neq, Z.ltb_ge; lia).
    rewrite IH. unfold wire_labels. simpl. by rewrite <- app_assoc.
Qed.

Lemma decodeLabels_complete ls fuel acc :
  Forall wire_sized ls -> (length (wire_labels ls) <= fuel)%nat ->
  decodeLabels fuel (wire_labels ls) acc = Ok (acc ++ ls).
Proof.
  intros Hall. revert fuel acc. induction Hall as [|l ls Hl Hall IH]; intros fuel acc Hf.
  { destruct fuel; simpl; by rewrite app_nil_r. }
  change (wire_labels (l :: ls)) with (byte_of (len l) :: l ++ wire_labels ls) in *.
  destruct fuel as [|fuel]; [simpl in Hf; lia|]. cbn [decodeLabels].
  unfold wire_sized, maxLabelLength in Hl. rewrite byte_val_of, Z.mod_small by lia.
  replace ((len l =? 0) || (maxLabelLength <? len l)) with false
    by (symmetry; rewrite orb_false_iff, Z.eqb_neq, Z.ltb_ge; unfold maxLabelLength; lia).
  replace (len (l ++ wire_labels ls) <? len l) with false
    by (symmetry; rewrite Z.ltb_ge, len_app; pose proof (len_nonneg (wire_labels ls)); lia).
  unfold len at 1 2. rewrite !Nat2Z.id, drop_app_length, take_app_length.
  rewrite IH; [by rewrite <- app_assoc|].
  simpl in Hf. rewrite length_app in Hf. lia.
Qed.

Lemma decodeLabels_sound fuel input acc r :
  (length input <= fuel)%nat -> decodeLabels fuel input acc = Ok r ->
  exists ls, r = acc ++ ls /\ input = wire_labels ls /\ Forall wire_sized ls.
Proof.
  revert input acc. induction fuel as [|fuel IH]; intros input acc Hf Hd.
  { destruct input; [|simpl in Hf; lia]. simpl in Hd. inv_ok. exists [].
    subst. by rewrite app_nil_r. }
  destruct input as [|size rest]; cbn [decodeLabels] in Hd.
  { inv_ok. exists []. subst. by rewrite app_nil_r. }
  inv_ok. goprop. pose proof (byte_val_range size).
  apply IH in Hd as (ls & -> & Hrest & Hall).
  2:{ rewrite length_drop. simpl in Hf. lia. }
  assert (len (take (Z.to_nat (byte_val size)) rest) = byte_val size) as Hlen.
  { unfold len in *. rewrite length_take. lia. }
  exists (take (Z.to_nat (byte_val size)) rest :: ls). split_and!.
  - by rewrite <- app_assoc.
  - change (wire_labels (?l :: ls)) with (byte_of (len l) :: l ++ wire_labels ls).
    rewrite <- Hrest, Hlen, byte_of_val, take_drop. done.
  - constructor; [unfold wire_sized; lia|done].
Qed.

Lemma len_wire_labels ls : len (wire_labels ls) = foldr (fun l n => 1 + len l + n) 0 ls.
Proof.
  induction ls as [|l ls IH]; [done|].
  change (wire_labels (l :: ls)) with (byte_of (len l) :: l ++ wire_labels ls).
  rewrite len_cons, len_app. cbn [foldr]. lia.
Qed.

Lemma CanonicalName_EncodeWire s ls :
  CanonicalName s ls -> EncodeWire s = Ok (be_bytes 2 SchemaVersion ++ wire_labels ls).
Proof.
  intros Hn. unfold EncodeWire, labelsOf.
  rewrite bool_decide_eq_false_2 by (by eapply CanonicalName_nonempty).
  rewrite (proj2 (Parse_ok s s)) by eauto.
  change (mbind ?f (Ok ?a)) with (f a). cbv beta.
  rewrite (CanonicalName_parseLabels _ _ Hn).
  change (mbind ?f (Ok ?a)) with (f a). cbv beta.
  apply encodeLabels_ok. eapply Forall_impl; [apply Hn|apply CanonicalLabel_sized].
Qed.

(** Exactly the inputs [DecodeWire] accepts, and the name it returns. *)
Lemma DecodeWire_ok w n :
  DecodeWire w = Ok n <->
  exists ls, w = be_bytes 2 SchemaVersion ++ wire_labels ls /\ ls <> [] /\
    Forall wire_sized ls /\ n = Join ls dot /\ exists ls', CanonicalName n ls'.
Proof.
  unfold DecodeWire. split.
  - intros Hd. inv_ok. goprop.
    assert (exists ls, a = ls /\ w = be_bytes 2 SchemaVersion ++ wire_labels ls /\
              Forall wire_sized ls) as (ls & -> & Hw & Hall).
    { apply decodeLabels_sound in Hok as (ls & -> & Hrest & Hall); [|rewrite length_drop; lia].
      exists ls. split_and!; [done| |done]. rewrite <- Hrest, <- (take_drop 2 w) at 1. f_equal.
      match goal with Hv : be_val _ = SchemaVersion |- _ => rewrite <- Hv end.
      symmetry. replace 2%nat with (length (take 2 w)) at 1; [apply be_bytes_val|].
      rewrite length_take. unfold len in *. lia. }
    destruct (Parse (joinDots ls)) eqn:Hp; [|by destruct (errors_Is _ _)]. inv_ok. subst a.
    apply Parse_ok in Hp as [-> Hn]. exists ls. split_and!; try done.
    intros ->. done.
  - intros (ls & -> & Hne & Hall & -> & ls' & Hn).
    pose proof (cn_bound _ _ Hn) as Hb. pose proof (len_Join ls dot Hne) as Hj.
    pose proof (len_wire_labels ls) as Hw. pose proof (len_nonneg (wire_labels ls)).
    unfold maxNameLength in *.
    assert (len (be_bytes 2 SchemaVersion ++ wire_labels ls) = 2 + len (wire_labels ls)) as Hlen
      by (by rewrite len_app, len_be_bytes).
    rewrite Hlen.
    replace (2 + len (wire_labels ls) <? 2) with false by (symmetry; apply Z.ltb_ge; lia).
    replace (3 + 253 <? 2 + len (wire_labels ls)) with false by (symmetry; apply Z.ltb_ge; lia).
    rewrite take_app_le, drop_app_ge by (by rewrite length_be_bytes).
    rewrite take_ge by (by rewrite length_be_bytes). rewrite length_be_bytes, be_val_bytes2.
    change (negb (u16 SchemaVersion =? SchemaVersion)) with false. cbv iota.
    rewrite Nat.sub_diag, drop_0.
    rewrite decodeLabels_complete; [|done|rewrite length_app; lia].
    change (mbind ?f (Ok ?a)) with (f a). cbv beta. cbn [app].
    replace (len ls =? 0) with false.
    2:{ symmetry. apply Z.eqb_neq. intros E. by apply len_zero_nil in E. }
    unfold joinDots. by rewrite (proj2 (Parse_ok _ _)) by eauto.
Qed.

End WireLemmas.

(** ** Properties *)

Section NameTheorems.
Context `{GoLib}.

(** C20: [Parse] accepts exactly the canonical Service Names of the abstract
    grammar (dot-separated labels of 1 to 63 lower-case alphanumerics and single
    inner hyphens, root not all digits, at most 253 bytes) and returns the input
    unchanged, for every byte string. *)
Theorem Parse_refines_grammar (raw n : gostring) :
  Parse raw = Ok n <-> n = raw /\ exists ls, CanonicalName raw ls.
Proof. apply Parse_ok. Qed.

(** The textual Service Link is a bijection on canonical names: formatting a
    parsed name and parsing the link gives the name back, and every accepted
    link is the one formatted from its name. *)
Theorem ServiceLink_roundtrip (raw link name : gostring) :
  (FormatServiceLink name = Ok link -> ParseServiceLink link = Ok name) /\
  (ParseServiceLink raw = Ok name -> FormatServiceLink name = Ok raw).
Proof.
  unfold FormatServiceLink. split.
  - intros Hf. inv_ok. apply Parse_ok in Hok as [-> Hn]. subst link. by apply parseName_link_ok.
  - intros [-> Hn]%parseName_link_ok. by rewrite (proj2 (Parse_ok name name)).
Qed.

(** Every canonical name encodes, in its length plus three bytes, to a wire
    form that decodes to the same name. *)
Theorem EncodeWire_DecodeWire (name : gostring) :
  Parse name = Ok name ->
  exists w, EncodeWire name = Ok w /\ DecodeWire w = Ok name /\ len w = len name + 3.
Proof.
  intros [_ [ls Hn]]%Parse_ok. exists (be_bytes 2 SchemaVersion ++ wire_labels ls).
  pose proof (cn_nonempty _ _ Hn) as Hne. split_and!.
  - by apply CanonicalName_EncodeWire.
  - apply DecodeWire_ok. exists ls. split_and!; try done; [| |by exists ls].
    + eapply Forall_impl; [apply Hn|apply CanonicalLabel_sized].
    + apply Hn.
  - rewrite len_app, len_be_bytes, len_wire_labels, <- (len_Join ls dot), (cn_text _ _ Hn) by done. lia.
Qed.

(** An accepted wire input is the schema version followed by length-prefixed
    labels whose dot-join is the returned canonical name; when no label carries a
    dot of its own, it is the canonical encoding of that name. *)
Theorem DecodeWire_sound (w : bytes) (name : gostring) :
  DecodeWire w = Ok name ->
  exists ls, w = be_bytes 2 SchemaVersion ++ wire_labels ls /\ name = Join ls dot /\
    Parse name = Ok name /\
    (Forall (fun l => dot ∉ l) ls -> EncodeWire name = Ok w).
Proof.
  intros (ls & -> & Hne & Hall & -> & ls' & Hn)%DecodeWire_ok. exists ls. split_and!; try done.
  - apply Parse_ok. eauto.
  - intros Hdot. rewrite (CanonicalName_EncodeWire _ ls') by done.
    by rewrite <- (CanonicalName_Split _ _ Hn), Split_Join.
Qed.

(** [IsDescendant child parent] holds exactly when both are canonical and the
    labels of the child are one or more labels followed by those of the parent. *)
Theorem IsDescendant_labels (child parent : gostring) :
  IsDescendant child parent = true <->
  exists pre ls, pre <> [] /\ CanonicalName parent ls /\ CanonicalName child (pre ++ ls).
Proof.
  apply IsDescendant_true.
Qed.

(** C30: The wire format is not injective: for any label pair that forms a
    canonical name, the two-label encoding and the single "label" that already
    contains the dot are different inputs that [DecodeWire] maps to the same
    name, although only the first is what [EncodeWire] produces. *)
Theorem DecodeWire_not_injective (leaf root : gostring) :
  CanonicalName (leaf ++ dot :: root) [leaf; root] ->
  len (leaf ++ dot :: root) <= maxLabelLength ->
  let name := leaf ++ dot :: root in
  let w1 := be_bytes 2 SchemaVersion ++ wire_labels [leaf; root] in
  let w2 := be_bytes 2 SchemaVersion ++ wire_labels [name] in
  w1 <> w2 /\ EncodeWire name = Ok w1 /\ DecodeWire w1 = Ok name /\ DecodeWire w2 = Ok name.
Proof.
  intros Hn Hlen. cbv zeta. pose proof (cn_labels _ _ Hn) as Hall.
  inversion_clear Hall as [|?? Hl Hr]. inversion_clear Hr as [|?? Hr' _].
  apply CanonicalLabel_sized in Hl, Hr'. unfold wire_sized, maxLabelLength in *.
  rewrite len_app, len_cons in Hlen. split_and!.
  - intros E%app_inv_head%(f_equal head). simpl in E. simplify_eq.
    apply (f_equal byte_val) in E. rewrite !byte_val_of, !Z.mod_small in E.
    + rewrite len_app, len_cons in E. lia.
    + rewrite len_app, len_cons. lia.
    + lia.
  - by apply CanonicalName_EncodeWire.
  - apply DecodeWire_ok. exists [leaf; root]. repeat split; try done; [|by exists [leaf; root]].
    repeat constructor; unfold wire_sized, maxLabelLength; lia.
  - apply DecodeWire_ok. exists [leaf ++ dot :: root]. repeat split; try done; [|by exists [leaf; root]].
    repeat constructor; unfold wire_sized, maxLabelLength; rewrite len_app, len_cons; lia.
Qed.

End NameTheorems.

(** ** Witnesses *)

Section NameWitnesses.
#[local] Existing Instance sample_golib.

Lemma Parse_reflect raw : Parse raw = Ok raw -> CanonicalName raw (Split raw dot).
Proof. intros [_ [ls Hn]]%Parse_ok. by rewrite (CanonicalName_Split _ _ Hn). Qed.

Lemma ServiceLink_roundtrip_witness :
  ParseServiceLink (str "ardents://mail.example-1") = Ok (str "mail.example-1") /\
  FormatServiceLink (str "mail.example-1") = Ok (str "ardents://mail.example-1").
Proof.
  split.
  - apply (ServiceLink_roundtrip [] (str "ardents://mail.example-1") (str "mail.example-1")).
    vm_compute. reflexivity.
  - apply (ServiceLink_roundtrip (str "ardents://mail.example-1") [] (str "mail.example-1")).
    vm_compute. reflexivity.
Defined.

Lemma EncodeWire_DecodeWire_witness :
  exists w, EncodeWire (str "mail.example-1") = Ok w /\
    DecodeWire w = Ok (str "mail.example-1") /\ len w = len (str "mail.example-1") + 3.
Proof. apply (EncodeWire_DecodeWire (str "mail.example-1")). vm_compute. reflexivity. Defined.

Definition sample_wire : bytes := be_bytes 2 1 ++ x01 :: x61 :: [x01; x62].

Lemma DecodeWire_sound_witness :
  exists ls, sample_wire = be_bytes 2 SchemaVersion ++ wire_labels ls /\
    str "a.b" = Join ls dot /\ Parse (str "a.b") = Ok (str "a.b") /\
    (Forall (fun l => dot ∉ l) ls -> EncodeWire (str "a.b") = Ok sample_wire).
Proof. apply (DecodeWire_sound sample_wire (str "a.b")). vm_compute. reflexivity. Defined.

Lemma DecodeWire_not_injective_witness :
  let w1 := be_bytes 2 SchemaVersion ++ wire_labels [str "a"; str "b"] in
  let w2 := be_bytes 2 SchemaVersion ++ wire_labels [str "a.b"] in
  w1 <> w2 /\ EncodeWire (str "a.b") = Ok w1 /\ DecodeWire w1 = Ok (str "a.b") /\
  DecodeWire w2 = Ok (str "a.b").
Proof.
  apply (DecodeWire_not_injective (str "a") (str "b")).
  - apply (Parse_reflect (str "a.b")). vm_compute. reflexivity.
  - vm_compute. discriminate.
Defined.

End NameWitnesses.
