(* ===== verification/Recovery.v ===== *)
(** * Recovery Policy authorization

    internal/naming/namespace/recovery: the policy and proof types, the
    canonical transcripts, the quorum check [Authorize] with its binary search
    over the sorted participants, and the sealed [Authorization] fact that the
    Name lifecycle consumes. *)

From S2P Require Import Prelude GoLib GoTime Naming.

(** [sort.Search(n, f)]: the loop keeps [i <= j], and [j - i] shrinks on every
    iteration, so [j - i] iterations are enough fuel. *)
Fixpoint sort_Search_loop (fuel : nat) (f : nat -> bool) (i j : nat) : nat :=
  match fuel with
  | O => i
  | S fuel' =>
      if (i <? j)%nat then
        let h := ((i + j) / 2)%nat in
        if f h then sort_Search_loop fuel' f i h else sort_Search_loop fuel' f (S h) j
      else i
  end.

Definition sort_Search (n : nat) (f : nat -> bool) : nat := sort_Search_loop n f 0 n.

(** ** Binary search *)

Section Search.
Context (n : nat) (f : nat -> bool).
Hypothesis monotone : forall i j, (i <= j < n)%nat -> f i = true -> f j = true.

Lemma sort_Search_loop_spec fuel i j :
  (j - i <= fuel)%nat -> (i <= j <= n)%nat ->
  (forall k, (k < i)%nat -> f k = false) -> (forall k, (j <= k < n)%nat -> f k = true) ->
  let r := sort_Search_loop fuel f i j in
  (r <= n)%nat /\ (forall k, (k < r)%nat -> f k = false) /\ (forall k, (r <= k < n)%nat -> f k = true).
Proof.
  revert i j. induction fuel as [|fuel IH]; intros i j Hf Hij Hlo Hhi; simpl.
  { assert (i = j) by lia. subst. auto with lia. }
  destruct (Nat.ltb_spec i j) as [Hlt|Hge].
  2:{ assert (i = j) by lia. subst. auto with lia. }
  pose proof (Nat.div_mod_eq (i + j) 2). pose proof (Nat.mod_upper_bound (i + j) 2).
  change (fst (Nat.divmod (i + j) 1 0 1)) with ((i + j) / 2)%nat.
  set (h := ((i + j) / 2)%nat) in *.
  destruct (f h) eqn:Hh; apply IH; try lia; intros k Hk; auto.
  - destruct (decide (k < j)%nat); [apply (monotone h); [lia|done]|apply Hhi; lia].
  - destruct (f k) eqn:Hfk; [|done]. rewrite (monotone k h) in Hh; [done|lia|done].
Qed.

(** [sort.Search] finds the first index where a monotone predicate holds. *)
Lemma sort_Search_spec :
  let r := sort_Search n f in
  (r <= n)%nat /\ (forall k, (k < r)%nat -> f k = false) /\ (forall k, (r <= k < n)%nat -> f k = true).
Proof. apply sort_Search_loop_spec; [lia|lia|lia|lia]. Qed.

End Search.

(** The search of [Authorize] hits the signer exactly when it is one of the
    strictly sorted participants. *)
Lemma sort_Search_member (ps : list (array 32)) (x : array 32) :
  StronglySorted (fun a b : array 32 => bytes_lt a b) ps ->
  ps !! sort_Search (length ps) (fun i =>
    match (ps !! i : option (array 32)) with Some p => bytes_geb p x | None => false end) = Some x
  <-> x ∈ ps.
Proof.
  intros Hs. set (f := fun i => _).
  assert (forall i j (p q : array 32), ps !! i = Some p -> ps !! j = Some q -> (i < j)%nat -> bytes_lt p q) as Hlt.
  { induction Hs as [|a ps Hs IH Ha]; intros [|i] [|j] p q; simpl; try done; try lia.
    - intros [= ->] Hq _. rewrite Forall_forall in Ha. by eapply Ha, list_elem_of_lookup_2.
    - intros. eapply IH; eauto with lia. }
  assert (forall i j, (i <= j < length ps)%nat -> f i = true -> f j = true) as Hmono.
  { intros i j Hij. unfold f. destruct (lookup_lt_is_Some_2 ps j) as [q Hq]; [lia|].
    destruct (lookup_lt_is_Some_2 ps i) as [p Hp]; [lia|]. rewrite Hp, Hq, !bytes_geb_true.
    destruct (decide (i = j)) as [->|]; [by simplify_eq|].
    assert (bytes_lt p q) by (eapply Hlt; eauto with lia).
    intros [E|?]; right; [by rewrite <- E|by transitivity (p : bytes)]. }
  destruct (sort_Search_spec (length ps) f Hmono) as (Hr & Hlo & Hhi).
  set (r := sort_Search (length ps) f) in *. split.
  - apply list_elem_of_lookup_2.
  - intros [k Hk]%list_elem_of_lookup. pose proof (lookup_lt_Some _ _ _ Hk).
    assert (f k = true) as Hfk. { unfold f. rewrite Hk. apply bytes_geb_true. by left. }
    destruct (decide (k < r)%nat); [by rewrite Hlo in Hfk|].
    destruct (decide (k = r)) as [->|]; [done|].
    destruct (lookup_lt_is_Some_2 ps r) as [p Hp]; [lia|].
    assert (f r = true) as Hfr by (apply Hhi; lia). unfold f in Hfr. rewrite Hp in Hfr.
    assert (bytes_lt p x) by (eapply Hlt; eauto with lia).
    apply bytes_geb_true in Hfr as [->%(inj array_bytes)|?]; [done|].
    destruct (bytes_lt_irrefl x). by transitivity (p : bytes).
Qed.

Module recovery.

(** ** recovery_contract.go *)

Definition maximumPolicyProofBytes : Z := 2 * 1024.

Record RecoveryPolicy := MkPolicy {
  Network : array 32;
  Name : gostring;
  Generation : Z;
  Revision : Z;
  CurrentAuthority : array 32;
  Threshold : Z;
  Participants : list (array 32);
  Delay : Z
}.

Record Signature := MkSignature { Signer : array 32; Bytes : bytes }.

Record RecoveryProof := MkProof {
  ProofOperation : gostring;
  ProofPolicyDigest : array 32;
  ProofOperationID : array 32;
  ProofSuccessor : array 32;
  ProofStartedAt : Z;
  ProofCompletesAt : Z;
  Signatures : list Signature
}.

Record Authorization := MkAuthorization {
  Operation : gostring;
  PolicyDigest : array 32;
  PolicyRevision : Z;
  OperationID : array 32;
  Successor : array 32;
  StartedAt : Z;
  CompletesAt : Z;
  ValidSigners : Z;
  seal : array 32
}.

#[global] Instance eta_authorization : Eta Authorization := fun a =>
  MkAuthorization a.(Operation) a.(PolicyDigest) a.(PolicyRevision) a.(OperationID)
    a.(Successor) a.(StartedAt) a.(CompletesAt) a.(ValidSigners) a.(seal).

(** The zero value [Authorization{}]. *)
Definition zeroAuthorization : Authorization :=
  MkAuthorization [] zero32 0 zero32 zero32 0 0 0 zero32.

Section Recovery.
Context `{GoLib}.

(** ** recovery_transcript.go *)

Definition appendBytes (out value : bytes) : bytes := AppendUint32 out (len value) ++ value.
Definition appendText (out : bytes) (value : gostring) : bytes := appendBytes out value.

(** The loop of [validPolicy]: [prev] is the participant before this one. *)
Fixpoint validParticipants (authority : array 32) (prev : option (array 32))
  (participants : list (array 32)) : bool :=
  match participants with
  | [] => true
  | participant :: rest =>
      if (participant ==? zero32) || (participant ==? authority) ||
         match prev with Some p => bytes_geb p participant | None => false end
      then false
      else validParticipants authority (Some participant) rest
  end.

Definition validPolicy (policy : RecoveryPolicy) : bool :=
  match Parse policy.(Name) with
  | Err _ => false
  | Ok name =>
      if (name !=? policy.(Name)) || (policy.(Network) ==? zero32) ||
         (policy.(Generation) =? 0) || (policy.(Revision) =? 0) ||
         (policy.(CurrentAuthority) ==? zero32) || (policy.(Threshold) <? 2) ||
         (len policy.(Participants) <? policy.(Threshold)) ||
         (8 <? len policy.(Participants)) ||
         (policy.(Delay) <? 72 * Hour) || (30 * 24 * Hour <? policy.(Delay))
      then false
      else validParticipants policy.(CurrentAuthority) None policy.(Participants)
  end.

Definition policyTranscript (policy : RecoveryPolicy) (wire : bytes) : bytes :=
  let out := appendText [] (str "ardents-name-recovery-policy-v1") in
  let out := out ++ policy.(Network) in
  let out := appendBytes out wire in
  let out := AppendUint64 out policy.(Generation) in
  let out := AppendUint64 out policy.(Revision) in
  let out := out ++ policy.(CurrentAuthority) in
  let out := out ++ [byte_of policy.(Threshold); byte_of (len policy.(Participants))] in
  let out := out ++ concat (map array_bytes policy.(Participants)) in
  AppendUint64 out (Milliseconds policy.(Delay)).

Definition Digest (policy : RecoveryPolicy) : array 32 :=
  if negb (validPolicy policy) then zero32
  else match Parse policy.(Name) with
       | Err _ => zero32
       | Ok name =>
           match EncodeWire name with
           | Err _ => zero32
           | Ok wire => sha256 (policyTranscript policy wire)
           end
       end.

(** [None] is the nil slice returned on a name error. *)
Definition Transcript (policy : RecoveryPolicy) (proof : RecoveryProof) : option bytes :=
  let domain := if proof.(ProofOperation) ==? str "cancel"
                then str "ardents-name-recovery-cancel-v1"
                else str "ardents-name-recovery-initiate-v1" in
  match Parse policy.(Name) with
  | Err _ => None
  | Ok name =>
      match EncodeWire name with
      | Err _ => None
      | Ok wire =>
          let out := appendText [] domain in
          let out := out ++ policy.(Network) in
          let out := appendBytes out wire in
          let out := AppendUint64 out policy.(Generation) in
          let out := out ++ proof.(ProofPolicyDigest) in
          let out := out ++ proof.(ProofOperationID) in
          let out := out ++ proof.(ProofSuccessor) in
          let out := AppendUint64 out proof.(ProofStartedAt) in
          Some (AppendUint64 out proof.(ProofCompletesAt))
      end
  end.

Definition sealTranscript (value : Authorization) : bytes :=
  let out := appendText [] (str "ardents-name-recovery-authorization-v1") in
  let out := appendText out value.(Operation) in
  let out := out ++ value.(PolicyDigest) in
  let out := AppendUint64 out value.(PolicyRevision) in
  let out := out ++ value.(OperationID) in
  let out := out ++ value.(Successor) in
  let out := AppendUint64 out value.(StartedAt) in
  let out := AppendUint64 out value.(CompletesAt) in
  out ++ [byte_of value.(ValidSigners)].

Definition authorizationSeal (value : Authorization) : array 32 := sha256 (sealTranscript value).

Definition Verified (authorization : Authorization) : bool :=
  (authorization.(seal) !=? zero32) && (authorization.(seal) ==? authorizationSeal authorization).

(** ** recovery_authorize.go *)

Definition logicalSize (policy : RecoveryPolicy) (proof : RecoveryProof) : Z :=
  32 + len policy.(Name) + 90 + len policy.(Participants) * 32 + len proof.(ProofOperation) +
  len proof.(Signatures) * (32 + 64).

(** The loop over the signatures; [prev] is the signer before this one. *)
Fixpoint checkSignatures (policy : RecoveryPolicy) (transcript : bytes)
  (prev : option (array 32)) (signatures : list Signature) : result unit :=
  match signatures with
  | [] => Ok tt
  | signed :: rest =>
      reject (New "recovery signers are duplicate or non-canonical")
        when (match prev with Some p => bytes_geb p signed.(Signer) | None => false end);
      let participant := sort_Search (length policy.(Participants)) (fun i =>
        match (policy.(Participants) !! i : option (array 32)) with
        | Some p => bytes_geb p signed.(Signer)
        | None => false
        end) in
      reject (New "recovery signature is invalid")
        when (match (policy.(Participants) !! participant : option (array 32)) with
              | None => true
              | Some p =>
                  (p !=? signed.(Signer)) || negb (len signed.(Bytes) =? 64) ||
                  negb (ed25519_Verify signed.(Signer) transcript signed.(Bytes))
              end);
      checkSignatures policy transcript (Some signed.(Signer)) rest
  end.

Definition Authorize (policy : RecoveryPolicy) (proof : RecoveryProof) : result Authorization :=
  reject (New "invalid Recovery Policy") when (negb (validPolicy policy));
  reject (New "recovery operation is invalid")
    when ((proof.(ProofOperation) !=? str "initiate") && (proof.(ProofOperation) !=? str "cancel"));
  reject (New "recovery proof does not match the effective policy")
    when ((proof.(ProofPolicyDigest) !=? Digest policy) || (proof.(ProofOperationID) ==? zero32) ||
          (proof.(ProofSuccessor) ==? zero32) || (proof.(ProofStartedAt) <=? 0) ||
          negb (i64 (proof.(ProofCompletesAt) - proof.(ProofStartedAt)) =? Milliseconds policy.(Delay)) ||
          (len proof.(Signatures) <? policy.(Threshold)) ||
          (len policy.(Participants) <? len proof.(Signatures)) ||
          (maximumPolicyProofBytes <? logicalSize policy proof));
  let transcript := default [] (Transcript policy proof) in
  _ ← checkSignatures policy transcript None proof.(Signatures);
  let authorization :=
    MkAuthorization proof.(ProofOperation) proof.(ProofPolicyDigest) policy.(Revision)
      proof.(ProofOperationID) proof.(ProofSuccessor) proof.(ProofStartedAt)
      proof.(ProofCompletesAt) (u8 (len proof.(Signatures))) zero32 in
  Ok (authorization <| seal := authorizationSeal authorization |>).

End Recovery.

(** ** Lemmas *)

Definition before (a b : array 32) : Prop := bytes_lt a b.

#[global] Instance before_trans : Transitive before.
Proof. intros a b c. unfold before. apply bytes_lt_trans. Qed.

Lemma before_NoDup l : StronglySorted before l -> NoDup l.
Proof.
  induction 1 as [|a l Hs IH Ha]; constructor; [|done]. intros Hin.
  rewrite Forall_forall in Ha. by destruct (bytes_lt_irrefl a (Ha _ Hin)).
Qed.

Section Lemmas.
Context `{GoLib}.

Lemma validParticipants_sorted authority prev ps :
  validParticipants authority prev ps = true ->
  Forall (fun p => p <> zero32 /\ p <> authority) ps /\
  Sorted before (match prev with Some p => p :: ps | None => ps end).
Proof.
  revert prev. induction ps as [|p ps IH]; intros prev; cbn [validParticipants].
  { intros _. split; [constructor|]. destruct prev; repeat constructor. }
  destruct (_ || _) eqn:E; [done|]. intros [Hall Hs]%IH.
  rewrite !orb_false_iff, !bool_decide_eq_false in E. destruct E as [[Hz Ha] Hp].
  split; [by constructor|]. destruct prev as [q|]; [|done].
  constructor; [done|]. constructor. by apply bytes_geb_false.
Qed.

Lemma validPolicy_true policy :
  validPolicy policy = true ->
  Parse policy.(Name) = Ok policy.(Name) /\ policy.(Network) <> zero32 /\
  policy.(Generation) <> 0 /\ policy.(Revision) <> 0 /\ policy.(CurrentAuthority) <> zero32 /\
  2 <= policy.(Threshold) <= len policy.(Participants) /\ len policy.(Participants) <= 8 /\
  72 * Hour <= policy.(Delay) <= 30 * 24 * Hour /\
  Forall (fun p => p <> zero32 /\ p <> policy.(CurrentAuthority)) policy.(Participants) /\
  StronglySorted before policy.(Participants).
Proof.
  unfold validPolicy. destruct (Parse policy.(Name)) as [n|] eqn:Hn; [|done].
  destruct (_ || _) eqn:E; [done|]. intros [Hall Hs]%validParticipants_sorted.
  rewrite !orb_false_iff in E. goprop. subst n. split_and!; try done; try lia.
  by apply Sorted_StronglySorted; [apply _|].
Qed.

(** The loop accepts exactly strictly increasing signer lists all of whose
    signers are participants with a valid 64-byte signature. *)
Definition validSignature (policy : RecoveryPolicy) (transcript : bytes) (s : Signature) : Prop :=
  s.(Signer) ∈ policy.(Participants) /\ len s.(Bytes) = 64 /\
  ed25519_Verify s.(Signer) transcript s.(Bytes) = true.

Lemma checkSignatures_ok policy transcript prev sigs :
  StronglySorted before policy.(Participants) ->
  checkSignatures policy transcript prev sigs = Ok tt <->
  Sorted before (match prev with Some p => p :: map Signer sigs | None => map Signer sigs end) /\
  Forall (validSignature policy transcript) sigs.
Proof.
  intros Hps. revert prev. induction sigs as [|s sigs IH]; intros prev; cbn [checkSignatures map].
  { split; [intros _|done]. split; [destruct prev; repeat constructor|constructor]. }
  pose proof (sort_Search_member _ s.(Signer) Hps) as Hm.
  set (r := sort_Search _ _) in *.
  assert (match (policy.(Participants) !! r : option (array 32)) with
          | None => true
          | Some p => (p !=? s.(Signer)) || negb (len s.(Bytes) =? 64) ||
              negb (ed25519_Verify s.(Signer) transcript s.(Bytes))
          end = false <-> validSignature policy transcript s) as Hv.
  { unfold validSignature. rewrite <- Hm. destruct (policy.(Participants) !! r) as [p|].
    - rewrite !orb_false_iff, !negb_false_iff, bool_decide_eq_true, Z.eqb_eq.
      split; [intros [[-> ?] ?]; auto|]. intros ([= ->] & ? & ?). auto.
    - split; [done|]. by intros [? _]. }
  split.
  - intros Hc. inv_ok. apply IH in Hc as [Hs Hall]. pose proof (proj1 Hv eq_refl).
    split; [|by constructor]. destruct prev as [q|]; [|done].
    constructor; [done|]. constructor. by apply bytes_geb_false.
  - intros [Hs Hall]. inversion_clear Hall as [|?? Hs1 Hall'].
    replace (match prev with Some p => bytes_geb p s.(Signer) | None => false end) with false.
    + rewrite (proj2 Hv) by done. apply IH. split; [|done].
      by destruct prev; [inversion_clear Hs|].
    + destruct prev as [q|]; [|done]. inversion_clear Hs as [|?? _ Hh]. inversion_clear Hh.
      symmetry. by apply bytes_geb_false.
Qed.

End Lemmas.

(** ** Properties *)

(** What a proof must bind to be accepted under [policy], apart from the quorum. *)
Record Bound `{GoLib} (policy : RecoveryPolicy) (proof : RecoveryProof) : Prop := {
  bound_operation : proof.(ProofOperation) = str "initiate" \/ proof.(ProofOperation) = str "cancel";
  bound_digest : proof.(ProofPolicyDigest) = Digest policy;
  bound_id : proof.(ProofOperationID) <> zero32;
  bound_successor : proof.(ProofSuccessor) <> zero32;
  bound_started : 0 < proof.(ProofStartedAt);
  bound_delay : i64 (proof.(ProofCompletesAt) - proof.(ProofStartedAt)) = Milliseconds policy.(Delay);
  bound_size : logicalSize policy proof <= maximumPolicyProofBytes
}.

(** A quorum: distinct participants, at least [Threshold] of them, each with a
    valid signature over the transcript. *)
Record Quorum `{GoLib} (policy : RecoveryPolicy) (proof : RecoveryProof) : Prop := {
  quorum_sorted : StronglySorted before (map Signer proof.(Signatures));
  quorum_size : policy.(Threshold) <= len proof.(Signatures) <= len policy.(Participants);
  quorum_valid :
    Forall (validSignature policy (default [] (Transcript policy proof))) proof.(Signatures)
}.

(** The authorization fact derived from an accepted proof. *)
Definition authorizationOf `{GoLib} (policy : RecoveryPolicy) (proof : RecoveryProof) : Authorization :=
  let a := MkAuthorization proof.(ProofOperation) proof.(ProofPolicyDigest) policy.(Revision)
      proof.(ProofOperationID) proof.(ProofSuccessor) proof.(ProofStartedAt)
      proof.(ProofCompletesAt) (u8 (len proof.(Signatures))) zero32 in
  a <| seal := authorizationSeal a |>.

Section Theorems.
Context `{GoLib}.

Lemma Authorize_ok policy proof a :
  Authorize policy proof = Ok a <->
  validPolicy policy = true /\ Bound policy proof /\ Quorum policy proof /\
  a = authorizationOf policy proof.
Proof.
  unfold Authorize, authorizationOf. split.
  - intros Ha. inv_ok. rewrite !orb_false_iff in *. goprop.
    destruct (validPolicy_true policy) as (_ & _ & _ & _ & _ & _ & _ & _ & _ & Hps); [done|].
    destruct a0. apply checkSignatures_ok in Hok as [Hs Hall]; [|done].
    split_and!; [done| | |done].
    + constructor; try done.
      match goal with Hop : _ && _ = false |- _ =>
        rewrite andb_false_iff, !negb_false_iff, !bool_decide_eq_true in Hop; tauto end.
    + constructor; [by apply Sorted_StronglySorted; [apply _|]|lia|done].
  - intros (Hv & [Hop Hd Hid Hsucc Hst Hdel Hsize] & [Hs Hq Hall] & ->). rewrite Hv. simpl negb. cbv iota.
    replace (_ && _) with false.
    2:{ symmetry. rewrite andb_false_iff, !negb_false_iff, !bool_decide_eq_true. tauto. }
    replace (_ || _) with false.
    2:{ symmetry. rewrite !orb_false_iff, !negb_false_iff, !bool_decide_eq_true, !bool_decide_eq_false,
          Z.eqb_eq, Z.leb_gt, !Z.ltb_ge. lia || (repeat split; try done; lia). }
    destruct (validPolicy_true policy Hv) as (_ & _ & _ & _ & _ & _ & _ & _ & _ & Hps).
    rewrite (proj2 (checkSignatures_ok _ _ _ _ Hps)); [done|].
    split; [by apply StronglySorted_Sorted|done].
Qed.

Lemma Authorize_times policy proof a :
  Authorize policy proof = Ok a ->
  0 < a.(StartedAt) /\ i64 (a.(CompletesAt) - a.(StartedAt)) = Milliseconds policy.(Delay) /\
  a.(OperationID) <> zero32 /\ a.(Successor) <> zero32 /\ a.(PolicyDigest) = Digest policy /\
  a.(PolicyRevision) = policy.(Revision).
Proof. intros (_ & [] & _ & ->)%Authorize_ok. by repeat split. Qed.

(** C21: [Authorize] accepts exactly the proofs that bind the policy digest, a
    fresh operation, a successor and the policy delay, and carry a quorum of
    strictly ordered participant signatures over the canonical transcript; the
    result is the sealed fact built from them. *)
Theorem Authorize_refines_quorum (policy : RecoveryPolicy) (proof : RecoveryProof) (a : Authorization) :
  Authorize policy proof = Ok a <->
  validPolicy policy = true /\ Bound policy proof /\ Quorum policy proof /\
  a = authorizationOf policy proof.
Proof. apply Authorize_ok. Qed.

(** Every accepted recovery proof was signed by at least two, and at least
    [Threshold], distinct participants, none of which is the current Authority,
    and its waiting period is the 72 hours to 30 days of its policy. *)
Theorem Authorize_distinct_signers (policy : RecoveryPolicy) (proof : RecoveryProof) (a : Authorization) :
  Authorize policy proof = Ok a ->
  exists signers : list (array 32),
    NoDup signers /\ 2 <= policy.(Threshold) <= len signers /\
    (forall s, s ∈ signers ->
       s ∈ policy.(Participants) /\ s <> policy.(CurrentAuthority) /\
       exists sig, len sig = 64 /\
         ed25519_Verify s (default [] (Transcript policy proof)) sig = true) /\
    72 * Hour <= policy.(Delay) <= 30 * 24 * Hour /\
    i64 (a.(CompletesAt) - a.(StartedAt)) = Milliseconds policy.(Delay).
Proof.
  intros Ha. destruct (Authorize_times _ _ _ Ha) as (_ & Hdelay & _).
  apply Authorize_ok in Ha as (Hv & _ & [Hs Hq Hall] & _).
  apply validPolicy_true in Hv as (_ & _ & _ & _ & _ & Ht & _ & Hd & Hp & _).
  exists (map Signer proof.(Signatures)). rewrite len_map.
  split_and!; try done; try lia.
  - by apply before_NoDup.
  - intros s (sig & -> & Hin)%list_elem_of_fmap.
    rewrite Forall_forall in Hall. rewrite Forall_forall in Hp. destruct (Hall _ Hin) as (Hm & Hl & Hver).
    split_and!; [done|by apply Hp|by exists sig.(Bytes)].
Qed.

(** The Go types of the fields of an [Authorization]. *)
Definition Typed (a : Authorization) : Prop :=
  len a.(Operation) < 2 ^ 32 /\ in_u64 a.(PolicyRevision) /\ in_i64 a.(StartedAt) /\
  in_i64 a.(CompletesAt) /\ in_u8 a.(ValidSigners).

Lemma sealTranscript_inj a b :
  Typed a -> Typed b -> sealTranscript a = sealTranscript b -> a <| seal := b.(seal) |> = b.
Proof.
  intros (Ho & Hr & Hs & Hc & Hv) (Ho' & Hr' & Hs' & Hc' & Hv').
  unfold sealTranscript, appendText, appendBytes, AppendUint32, AppendUint64.
  rewrite <- !app_assoc. cbn [app]. intros E. peel E. apply app_inv_head in E. peel E.
  apply be_bytes4_inj in Hw0; [|unfold in_u32; split; [apply len_nonneg|done]..].
  apply app_peel_len in E as [Hop E]; [|done]. do 6 peel E. injection E as E.
  unwire. destruct a, b; simpl in *; by subst.
Qed.

(** A sealed authorization cannot be altered: two verified values with the
    same seal are equal, unless their two seal transcripts are a SHA-256
    collision. *)
Theorem Verified_tamper_evident (a b : Authorization) :
  Typed a -> Typed b -> Verified a = true -> Verified b = true -> a.(seal) = b.(seal) ->
  a = b \/ Collision sha256 [sealTranscript a; sealTranscript b].
Proof.
  unfold Verified. rewrite !andb_true_iff, !bool_decide_eq_true. intros Ta Tb [_ Ha] [_ Hb] E.
  destruct (collision_pair sha256 (sealTranscript a) (sealTranscript b)) as [Ht|Hc]; [| |by right].
  - unfold authorizationSeal in *. congruence.
  - left. rewrite <- (sealTranscript_inj a b) by done. rewrite <- E. by destruct a.
Qed.

End Theorems.

(** ** Witnesses *)

Section Witnesses.
#[local] Existing Instance sample_golib.

Definition key (v : Z) : array 32 := to_array 32 (be_bytes 32 v).

Definition samplePolicy : RecoveryPolicy :=
  MkPolicy (key 1) (str "example") 1 1 (key 100) 2 [key 10; key 11; key 12] (72 * Hour).

Definition unsignedProof (operation : gostring) (started : Z) : RecoveryProof :=
  MkProof operation (Digest samplePolicy) (key 7) (key 101) started
    (started + 72 * 3600 * 1000) [].

Definition sampleProof (operation : gostring) (started : Z) : RecoveryProof :=
  let p := unsignedProof operation started in
  let message := default [] (Transcript samplePolicy p) in
  MkProof p.(ProofOperation) p.(ProofPolicyDigest) p.(ProofOperationID) p.(ProofSuccessor)
    p.(ProofStartedAt) p.(ProofCompletesAt)
    [MkSignature (key 10) (key 10 ++ sha256 message); MkSignature (key 12) (key 12 ++ sha256 message)].

Definition sampleAuthorization : Authorization :=
  authorizationOf samplePolicy (sampleProof (str "initiate") 5000).

Lemma sampleAuthorize :
  Authorize samplePolicy (sampleProof (str "initiate") 5000) = Ok sampleAuthorization.
Proof. vm_compute. reflexivity. Qed.

Lemma Authorize_distinct_signers_witness :
  exists signers : list (array 32),
    NoDup signers /\ 2 <= samplePolicy.(Threshold) <= len signers /\
    (forall s, s ∈ signers ->
       s ∈ samplePolicy.(Participants) /\ s <> samplePolicy.(CurrentAuthority) /\
       exists sig, len sig = 64 /\
         ed25519_Verify s (default [] (Transcript samplePolicy (sampleProof (str "initiate") 5000))) sig
         = true) /\
    72 * Hour <= samplePolicy.(Delay) <= 30 * 24 * Hour /\
    i64 (sampleAuthorization.(CompletesAt) - sampleAuthorization.(StartedAt))
    = Milliseconds samplePolicy.(Delay).
Proof.
  apply (Authorize_distinct_signers samplePolicy (sampleProof (str "initiate") 5000)).
  vm_compute. reflexivity.
Defined.

Lemma Verified_tamper_evident_witness :
  sampleAuthorization = sampleAuthorization \/
  Collision sha256 [sealTranscript sampleAuthorization; sealTranscript sampleAuthorization].
Proof.
  assert (Typed sampleAuthorization) as Ht by (vm_compute; intuition congruence).
  apply (Verified_tamper_evident sampleAuthorization sampleAuthorization Ht Ht);
    vm_compute; reflexivity.
Defined.

End Witnesses.
End recovery.
