(* ===== verification/Record.v ===== *)
(** * The Name Record and its lifecycle

    internal/naming/namespace/record: the Record and transition-input types,
    validation, the Lease, publication, authority and recovery transitions and
    their dispatcher [apply], parent lineages, and the resolution decision. *)

From S2P Require Import Prelude GoLib GoTime Naming Recovery.

Module record.

(** ** lease_transition.go: data *)

Record Policy := MkPolicy { DefaultLeaseDuration : Z; DefaultGraceDuration : Z }.

Definition leaseActive : gostring := str "active".
Definition leaseGrace : gostring := str "grace".
Definition leaseReleased : gostring := str "released".
Definition consistencyCurrent : gostring := str "current".
Definition consistencyConflict : gostring := str "conflict".
Definition consistencyFork : gostring := str "fork".
Definition consistencyUnavailable : gostring := str "unavailable".
Definition recoveryStable : gostring := str "stable".
Definition recoveryPending : gostring := str "recovery-pending".

(** [Record]: one immutable revision inside one Name Generation. *)
Record NameRecord := MkRecord {
  Name : gostring;
  Generation : Z;
  Revision : Z;
  Lease : gostring;
  Consistency : gostring;
  Recovery : gostring;
  Authority : gostring;
  Target : array 32;
  RecordNotAfter : Z;
  ParentName : gostring;
  ParentGeneration : Z;
  LeaseExpiresAt : Z;
  GraceExpiresAt : Z;
  RecoveryExpiresAt : Z;
  RecoveryStartedAt : Z;
  RecoveryOperation : array 32;
  RecoverySuccessor : array 32;
  RecoveryPolicy : array 32;
  RecoveryPolicyRev : Z;
  RecoveryPolicyDelay : Z;
  PendingPolicy : array 32;
  PendingPolicyRev : Z;
  PendingPolicyDelay : Z;
  PolicyActivatesAt : Z;
  Continuity : Z;
  ConflictIdentifier : gostring
}.

#[global] Instance eta_NameRecord : Eta NameRecord := fun r =>
  MkRecord r.(Name) r.(Generation) r.(Revision) r.(Lease) r.(Consistency) r.(Recovery)
    r.(Authority) r.(Target) r.(RecordNotAfter) r.(ParentName) r.(ParentGeneration)
    r.(LeaseExpiresAt) r.(GraceExpiresAt) r.(RecoveryExpiresAt) r.(RecoveryStartedAt)
    r.(RecoveryOperation) r.(RecoverySuccessor) r.(RecoveryPolicy) r.(RecoveryPolicyRev)
    r.(RecoveryPolicyDelay) r.(PendingPolicy) r.(PendingPolicyRev) r.(PendingPolicyDelay)
    r.(PolicyActivatesAt) r.(Continuity) r.(ConflictIdentifier).

#[global] Instance NameRecord_eq_dec : EqDecision NameRecord.
Proof. solve_decision. Defined.

(** [Op]: one transition input. *)
Record Op := MkOp {
  op_Kind : gostring;
  op_Name : gostring;
  op_Generation : Z;
  op_ClaimOrdinal : Z;
  op_ExpectedGeneration : Z;
  op_ExpectedRevision : Z;
  op_Authority : gostring;
  op_Target : array 32;
  op_RecordNotAfter : Z;
  op_Parents : list NameRecord;
  op_LeaseDuration : Z;
  op_GraceDuration : Z;
  op_ConflictContext : gostring;
  op_SuccessorAuthority : gostring;
  op_PolicyDigest : array 32;
  op_PolicyRevision : Z;
  op_PolicyDelay : Z;
  op_PolicyActivatesAt : Z;
  op_RecoveryAuthorization : recovery.Authorization
}.

#[global] Instance eta_Op : Eta Op := fun o =>
  MkOp o.(op_Kind) o.(op_Name) o.(op_Generation) o.(op_ClaimOrdinal) o.(op_ExpectedGeneration)
    o.(op_ExpectedRevision) o.(op_Authority) o.(op_Target) o.(op_RecordNotAfter) o.(op_Parents)
    o.(op_LeaseDuration) o.(op_GraceDuration) o.(op_ConflictContext) o.(op_SuccessorAuthority)
    o.(op_PolicyDigest) o.(op_PolicyRevision) o.(op_PolicyDelay) o.(op_PolicyActivatesAt)
    o.(op_RecoveryAuthorization).

(** The zero value [Op{}]. *)
Definition zeroOp : Op :=
  MkOp [] [] 0 0 0 0 [] zero32 0 [] 0 0 [] [] zero32 0 0 0 recovery.zeroAuthorization.

Definition opClaim : gostring := str "claim".
Definition opRenew : gostring := str "renew".
Definition opRelease : gostring := str "release".
Definition opAdvance : gostring := str "advance".
Definition opConflict : gostring := str "conflict".
Definition opPublish : gostring := str "publish".
Definition opRotate : gostring := str "rotate".
Definition opTransfer : gostring := str "transfer".
Definition opScheduleRecoveryPolicy : gostring := str "schedule-recovery-policy".
Definition opActivateRecoveryPolicy : gostring := str "activate-recovery-policy".
Definition opStartRecovery : gostring := str "start-recovery".
Definition opCancelRecovery : gostring := str "cancel-recovery".
Definition opCompleteRecovery : gostring := str "complete-recovery".
Definition opResumeRecovery : gostring := str "resume-recovery".

Definition minimumRecoveryDelay : Z := 72 * Hour.
Definition maximumRecoveryDelay : Z := 30 * 24 * Hour.

Section Lifecycle.
Context `{GoLib}.

(** ** record_validation.go *)

Definition validOperationName (raw : gostring) : result unit :=
  name ← Parse raw;
  reject (New "service name is not canonical") when (name !=? raw);
  Ok tt.

Definition validStates (record : NameRecord) : bool :=
  let lease := (record.(Lease) ==? leaseActive) || (record.(Lease) ==? leaseGrace) ||
               (record.(Lease) ==? leaseReleased) in
  let consistency :=
    (record.(Consistency) ==? consistencyCurrent) || (record.(Consistency) ==? consistencyConflict) ||
    (record.(Consistency) ==? consistencyFork) || (record.(Consistency) ==? consistencyUnavailable) in
  let recovery := (record.(Recovery) ==? recoveryStable) || (record.(Recovery) ==? recoveryPending) in
  lease && consistency && recovery.

Definition validRecordLifetimes (record : NameRecord) : bool :=
  if ((record.(Lease) ==? leaseActive) || (record.(Lease) ==? leaseGrace)) &&
     ((record.(LeaseExpiresAt) <=? 0) || (record.(GraceExpiresAt) <? record.(LeaseExpiresAt)))
  then false
  else if (record.(Lease) ==? leaseReleased) &&
          (negb (record.(LeaseExpiresAt) =? 0) || negb (record.(GraceExpiresAt) =? 0))
  then false
  else if record.(Recovery) ==? recoveryStable then
    (record.(RecoveryExpiresAt) =? 0) && (record.(RecoveryStartedAt) =? 0) &&
    (record.(RecoveryOperation) ==? zero32) && (record.(RecoverySuccessor) ==? zero32)
  else
    (record.(RecoveryStartedAt) <? record.(RecoveryExpiresAt)) && (0 <? record.(RecoveryStartedAt)) &&
    (record.(RecoveryOperation) !=? zero32) && (record.(RecoverySuccessor) !=? zero32) &&
    (record.(RecoveryPolicy) !=? zero32) && (0 <? record.(RecoveryPolicyRev)) &&
    (i64 (record.(RecoveryExpiresAt) - record.(RecoveryStartedAt)) =? record.(RecoveryPolicyDelay)).

Definition validRecoveryBindings (record : NameRecord) : bool :=
  if (record.(RecoveryPolicyRev) =? 0) &&
     ((record.(RecoveryPolicy) !=? zero32) || negb (record.(RecoveryPolicyDelay) =? 0))
  then false
  else if (0 <? record.(RecoveryPolicyRev)) &&
          ((record.(RecoveryPolicyDelay) <? Milliseconds minimumRecoveryDelay) ||
           (Milliseconds maximumRecoveryDelay <? record.(RecoveryPolicyDelay)))
  then false
  else if record.(PendingPolicyRev) =? 0 then
    (record.(PendingPolicy) ==? zero32) && (record.(PendingPolicyDelay) =? 0) &&
    (record.(PolicyActivatesAt) =? 0)
  else
    (record.(RecoveryPolicyRev) <? record.(PendingPolicyRev)) &&
    (Milliseconds minimumRecoveryDelay <=? record.(PendingPolicyDelay)) &&
    (record.(PendingPolicyDelay) <=? Milliseconds maximumRecoveryDelay) &&
    (0 <? record.(PolicyActivatesAt)).

Definition hasRequiredParent (record : NameRecord) : bool :=
  negb (Contains record.(Name) [dot]) || (record.(ParentName) !=? []).

(** record_wire.go: [validateRecord] *)
Definition validateRecord (record : NameRecord) : result unit :=
  reject (New "name record identity is invalid")
    when (is_err (Parse record.(Name)) || (record.(Generation) =? 0) || (record.(Revision) =? 0));
  reject (New "name record state or binding is invalid")
    when (negb (validStates record) || negb (validRecordLifetimes record) ||
          negb (hasRequiredParent record) || (record.(RecordNotAfter) <? 0) ||
          (record.(Authority) ==? []));
  reject (New "name record parent binding is incomplete")
    when (negb (eqb (record.(ParentName) ==? []) (record.(ParentGeneration) =? 0)));
  reject (New "name record parent is not an ancestor")
    when ((record.(ParentName) !=? []) &&
          match Parse record.(Name), Parse record.(ParentName) with
          | Ok child, Ok parent => negb (IsDescendant child parent)
          | _, _ => true
          end);
  reject (New "current record contains conflict evidence")
    when ((record.(Consistency) ==? consistencyCurrent) && (record.(ConflictIdentifier) !=? []));
  reject (New "conflict record is missing evidence identifier")
    when ((record.(Consistency) ==? consistencyConflict) && (record.(ConflictIdentifier) ==? []));
  reject (New "name record recovery binding is invalid")
    when (negb (validRecoveryBindings record));
  Ok tt.

Definition Validate (value : NameRecord) : result unit := validateRecord value.

(** The non-nil record is returned to the caller, which goes on to read it. *)
Definition requireCurrent (current : option NameRecord) (op : Op) (action : gostring)
  : result NameRecord :=
  match current with
  | None => Err (Transition action (Text "name is unclaimed"))
  | Some record =>
      reject (Transition action (Text "record name mismatch"))
        when (record.(Name) !=? op.(op_Name));
      match validateRecord record with
      | Err e => Err (Transition action (TextOf "current record is invalid: " e))
      | Ok _ =>
          reject (Transition action (Text "generation or revision is stale"))
            when (negb (op.(op_ExpectedGeneration) =? record.(Generation)) ||
                  negb (op.(op_ExpectedRevision) =? record.(Revision)));
          Ok record
      end
  end.

(** ** record_resolution.go *)

Definition liveLease (current : NameRecord) (now : Z) : bool * string :=
  if negb (validStates current) then (false, "invalid naming state")
  else if current.(Consistency) !=? consistencyCurrent then (false, "name consistency is not current")
  else if current.(Recovery) !=? recoveryStable then (false, "recovery is pending")
  else if current.(Lease) ==? leaseActive then
    if now <=? current.(LeaseExpiresAt) then (true, "")
    else if now <=? current.(GraceExpiresAt) then (true, "")
    else (false, "grace period has expired")
  else if current.(Lease) ==? leaseGrace then
    if now <=? current.(GraceExpiresAt) then (true, "")
    else (false, "grace period has expired")
  else if current.(Lease) ==? leaseReleased then (false, "name is released")
  else (false, "invalid Lease state").

Definition leaseWarning (current : NameRecord) (now : Z) : string :=
  if (current.(Lease) ==? leaseGrace) ||
     ((current.(Lease) ==? leaseActive) && (current.(LeaseExpiresAt) <? now) &&
      (now <=? current.(GraceExpiresAt)))
  then "name is in grace and should be treated as volatile"
  else "".

(** ** record_parent.go *)

(** The loop over the lineage; [prev] is the record before this one. *)
Fixpoint lineageLoop (prev : option NameRecord) (childName : gostring)
  (parents : list NameRecord) (now : Z) : result unit :=
  match parents with
  | [] => Ok tt
  | parent :: rest =>
      reject (New "parent lineage contains an invalid record")
        when (is_err (validateRecord parent));
      match Parse parent.(Name) with
      | Err _ => Err (New "parent lineage does not contain the child")
      | Ok parentName =>
          reject (New "parent lineage does not contain the child")
            when (negb (IsDescendant childName parentName));
          reject (New "parent lineage generation is discontinuous")
            when (match prev with
                  | Some p => (p.(ParentName) !=? parent.(Name)) ||
                              negb (p.(ParentGeneration) =? parent.(Generation))
                  | None => false
                  end);
          reject (New "parent lineage is not resolvable")
            when (negb (liveLease parent now).1);
          lineageLoop (Some parent) parentName rest now
      end
  end.

Definition validateParents (child : gostring) (parents : list NameRecord) (now : Z)
  : result (option NameRecord) :=
  match parents with
  | [] =>
      reject (New "hierarchical Service Name requires its parent lineage")
        when (Contains child [dot]);
      Ok None
  | first :: _ =>
      childName ← Parse child;
      _ ← lineageLoop None childName parents now;
      reject (New "parent lineage does not reach a root")
        when (default [] (ParentName <$> last parents) !=? []);
      Ok (Some first)
  end.

Definition ValidateParents (child : gostring) (parents : list NameRecord) (now : Z) : result unit :=
  _ ← validateParents child parents now; Ok tt.

Definition sameParent (record : NameRecord) (parent : option NameRecord) : bool :=
  if record.(ParentName) ==? [] then
    match parent with None => record.(ParentGeneration) =? 0 | Some _ => false end
  else match parent with
       | None => false
       | Some p => (record.(ParentName) ==? p.(Name)) &&
                   (record.(ParentGeneration) =? p.(Generation))
       end.

Definition min (a b : Z) : Z := if a <? b then a else b.

(** ** claim_transition.go *)

Definition applyClaim (current : option NameRecord) (now : Z) (op : Op)
  (leaseDuration graceDuration : Z) : result NameRecord :=
  reject (Transition opClaim (Text "authority is required")) when (op.(op_Authority) ==? []);
  reject (Transition opClaim (Text "generation is required")) when (op.(op_Generation) =? 0);
  _ ← match current with
      | None =>
          reject (Transition opClaim (Text "first claim must create generation 1 from empty state"))
            when (negb (op.(op_Generation) =? 1) || negb (op.(op_ExpectedGeneration) =? 0) ||
                  negb (op.(op_ExpectedRevision) =? 0));
          Ok tt
      | Some _ =>
          record ← requireCurrent current op opClaim;
          reject (Transition opClaim (Text "name is not released"))
            when (record.(Lease) !=? leaseReleased);
          reject (Transition opClaim (Text "reclaim must create the next generation"))
            when (negb (op.(op_Generation) =? u64 (record.(Generation) + 1)));
          Ok tt
      end;
  match validateParents op.(op_Name) op.(op_Parents) now with
  | Err e => Err (Transition opClaim (TextOf "" e))
  | Ok parent =>
      let leaseEnd := i64 (now + wholeSeconds leaseDuration) in
      let graceEnd := i64 (leaseEnd + wholeSeconds graceDuration) in
      let '(parentName, parentGeneration, leaseEnd, graceEnd) :=
        match parent with
        | None => ([], 0, leaseEnd, graceEnd)
        | Some p => (p.(Name), p.(Generation), min leaseEnd p.(LeaseExpiresAt),
                     min graceEnd p.(GraceExpiresAt))
        end in
      reject (Transition opClaim (Text "lease does not fit inside the parent lifetime"))
        when ((leaseEnd <=? now) || (graceEnd <? leaseEnd));
      let continuity :=
        match current with Some record => u64 (record.(Continuity) + 1) | None => 1 end in
      Ok (MkRecord op.(op_Name) op.(op_Generation) 1 leaseActive consistencyCurrent recoveryStable
            op.(op_Authority) zero32 0 parentName parentGeneration leaseEnd graceEnd
            0 0 zero32 zero32 zero32 0 0 zero32 0 0 0 continuity [])
  end.

Definition applyRenew (current : option NameRecord) (now : Z) (op : Op)
  (leaseDuration graceDuration : Z) : result NameRecord :=
  record ← requireCurrent current op opRenew;
  reject (Transition opRenew (Text "lease cannot be renewed"))
    when ((record.(Lease) !=? leaseActive) && (record.(Lease) !=? leaseGrace));
  reject (Transition opRenew (Text "lease lifetime has elapsed"))
    when (record.(GraceExpiresAt) <? now);
  reject (Transition opRenew (Text "non-current or recovering record cannot be renewed"))
    when ((record.(Consistency) !=? consistencyCurrent) || (record.(Recovery) !=? recoveryStable));
  reject (Transition opRenew (Text "authority mismatch"))
    when (op.(op_Authority) !=? record.(Authority));
  match validateParents op.(op_Name) op.(op_Parents) now with
  | Err e => Err (Transition opRenew (TextOf "" e))
  | Ok parent =>
      reject (Transition opRenew (Text "parent generation does not match the record binding"))
        when (negb (sameParent record parent));
      let leaseEnd := i64 (now + wholeSeconds leaseDuration) in
      let graceEnd := i64 (leaseEnd + wholeSeconds graceDuration) in
      let '(leaseEnd, graceEnd) :=
        match parent with
        | None => (leaseEnd, graceEnd)
        | Some p => (min leaseEnd p.(LeaseExpiresAt), min graceEnd p.(GraceExpiresAt))
        end in
      reject (Transition opRenew (Text "renewal does not fit inside the parent lifetime"))
        when ((leaseEnd <=? now) || (graceEnd <? leaseEnd));
      Ok (record <| Revision := u64 (record.(Revision) + 1) |> <| Lease := leaseActive |>
            <| LeaseExpiresAt := leaseEnd |> <| GraceExpiresAt := graceEnd |>)
  end.

(** ** lease_lifecycle.go *)

(** [Lease = released] with both deadlines cleared. *)
Definition release (record : NameRecord) : NameRecord :=
  record <| Lease := leaseReleased |> <| LeaseExpiresAt := 0 |> <| GraceExpiresAt := 0 |>.

Definition applyRelease (current : option NameRecord) (op : Op) : result NameRecord :=
  record ← requireCurrent current op opRelease;
  reject (Transition opRelease (Text "authority mismatch"))
    when (op.(op_Authority) !=? record.(Authority));
  reject (Transition opRelease (Text "name is already released"))
    when (record.(Lease) ==? leaseReleased);
  reject (Transition opRelease (Text "non-current consistency cannot force release"))
    when (record.(Consistency) !=? consistencyCurrent);
  reject (Transition opRelease (Text "recovery-pending record cannot be released"))
    when (record.(Recovery) !=? recoveryStable);
  Ok (release (record <| Revision := u64 (record.(Revision) + 1) |>)).

Definition applyAdvance (current : option NameRecord) (seconds : Z) (op : Op) : result NameRecord :=
  record ← requireCurrent current op opAdvance;
  reject (Transition opAdvance (Text "pending recovery requires threshold completion"))
    when (record.(Recovery) ==? recoveryPending);
  let bumped := record <| Revision := u64 (record.(Revision) + 1) |> in
  if record.(Lease) ==? leaseActive then
    if seconds <=? record.(LeaseExpiresAt) then Ok record
    else if (0 <? record.(GraceExpiresAt)) && (seconds <=? record.(GraceExpiresAt))
    then Ok (bumped <| Lease := leaseGrace |>)
    else Ok (release bumped)
  else if record.(Lease) ==? leaseGrace then
    if seconds <=? record.(GraceExpiresAt) then Ok record
    else Ok (release bumped)
  else if record.(Lease) ==? leaseReleased then Ok record
  else Err (Transition opAdvance (Text "invalid Lease state")).

(** ** transition_conflict.go *)

Definition applyConflict (current : option NameRecord) (op : Op) : result NameRecord :=
  record ← requireCurrent current op opConflict;
  reject (Transition opConflict (Text "released names cannot enter conflict"))
    when (record.(Lease) ==? leaseReleased);
  reject (Transition opConflict (Text "consistency is already non-current"))
    when (record.(Consistency) !=? consistencyCurrent);
  reject (Transition opConflict (Text "conflict context is required"))
    when (op.(op_ConflictContext) ==? []);
  Ok (record <| Revision := u64 (record.(Revision) + 1) |> <| Consistency := consistencyConflict |>
        <| ConflictIdentifier := op.(op_ConflictContext) |>).

(** ** record_target.go *)

Definition leaseNotAfter (record : NameRecord) : Z :=
  if (record.(Lease) ==? leaseActive) || (record.(Lease) ==? leaseGrace)
  then record.(GraceExpiresAt) else record.(LeaseExpiresAt).

Definition lineageNotAfter (record : NameRecord) (parents : list NameRecord) : Z :=
  foldl (fun bound parent => if leaseNotAfter parent <? bound then leaseNotAfter parent else bound)
    (leaseNotAfter record) parents.

Definition applyPublish (current : option NameRecord) (now : Z) (op : Op) : result NameRecord :=
  record ← requireCurrent current op opPublish;
  reject (Transition opPublish (Text "authority mismatch"))
    when (op.(op_Authority) !=? record.(Authority));
  reject (Transition opPublish (Text "Service Target is required")) when (op.(op_Target) ==? zero32);
  reject (Transition opPublish (Text "Service Target is unchanged"))
    when (record.(Target) ==? op.(op_Target));
  reject (Transition opPublish (Text "Record validity has elapsed"))
    when (op.(op_RecordNotAfter) <=? i64 (now * 1000));
  reject (Transition opPublish (Text (liveLease record now).2)) when (negb (liveLease record now).1);
  reject (Transition opPublish (Text "parent lineage is missing or stale"))
    when (match validateParents op.(op_Name) op.(op_Parents) now with
          | Err _ => true
          | Ok parent => negb (sameParent record parent)
          end);
  reject (Transition opPublish (Text "Record validity exceeds Lease lineage"))
    when (i64 (lineageNotAfter record op.(op_Parents) * 1000) <? op.(op_RecordNotAfter));
  Ok (record <| Revision := u64 (record.(Revision) + 1) |> <| Target := op.(op_Target) |>
        <| RecordNotAfter := op.(op_RecordNotAfter) |>).

(** ** recovery_lifecycle.go *)

Definition applyRotate (current : option NameRecord) (now : Z) (op : Op) : result NameRecord :=
  record ← requireCurrent current op op.(op_Kind);
  reject (Transition op.(op_Kind) (Text "current and successor authorities are invalid"))
    when ((op.(op_Authority) !=? record.(Authority)) || (op.(op_SuccessorAuthority) ==? []) ||
          (op.(op_SuccessorAuthority) ==? record.(Authority)));
  reject (Transition op.(op_Kind) (Text (liveLease record now).2))
    when (negb (liveLease record now).1);
  Ok (record <| Revision := u64 (record.(Revision) + 1) |>
        <| Authority := op.(op_SuccessorAuthority) |>).

Definition applyRecoveryPolicy (current : option NameRecord) (seconds milliseconds : Z) (op : Op)
  : result NameRecord :=
  record ← requireCurrent current op op.(op_Kind);
  result ←
    (if op.(op_Kind) ==? opScheduleRecoveryPolicy then
       reject (Transition op.(op_Kind) (Text "policy change requires a live current Lease"))
         when (negb (liveLease record seconds).1);
       reject (Transition op.(op_Kind) (Text "policy change is invalid or already pending"))
         when ((op.(op_Authority) !=? record.(Authority)) ||
               negb (record.(PendingPolicyRev) =? 0) ||
               negb (op.(op_PolicyRevision) =? u64 (record.(RecoveryPolicyRev) + 1)) ||
               (op.(op_PolicyDelay) <? minimumRecoveryDelay) ||
               (maximumRecoveryDelay <? op.(op_PolicyDelay)) ||
               negb (op.(op_PolicyActivatesAt) =?
                       i64 (milliseconds + Milliseconds op.(op_PolicyDelay))) ||
               ((op.(op_PolicyDigest) ==? zero32) && (record.(RecoveryPolicy) ==? zero32)));
       Ok (record <| PendingPolicy := op.(op_PolicyDigest) |>
             <| PendingPolicyRev := op.(op_PolicyRevision) |>
             <| PendingPolicyDelay := Milliseconds op.(op_PolicyDelay) |>
             <| PolicyActivatesAt := op.(op_PolicyActivatesAt) |>)
     else if op.(op_Kind) ==? opActivateRecoveryPolicy then
       reject (Transition op.(op_Kind) (Text "policy change is not eligible"))
         when ((record.(PendingPolicyRev) =? 0) || (milliseconds <? record.(PolicyActivatesAt)) ||
               (record.(Recovery) !=? recoveryStable));
       Ok (record <| RecoveryPolicy := record.(PendingPolicy) |>
             <| RecoveryPolicyRev := record.(PendingPolicyRev) |>
             <| RecoveryPolicyDelay := record.(PendingPolicyDelay) |>
             <| PendingPolicy := zero32 |> <| PendingPolicyRev := 0 |>
             <| PendingPolicyDelay := 0 |> <| PolicyActivatesAt := 0 |>)
     else Ok record);
  Ok (result <| Revision := u64 (result.(Revision) + 1) |>).

Definition matchingPendingRecovery (current : NameRecord) (authorization : recovery.Authorization)
  (operation : gostring) : bool :=
  recovery.Verified authorization && (authorization.(recovery.Operation) ==? operation) &&
  (authorization.(recovery.PolicyDigest) ==? current.(RecoveryPolicy)) &&
  (authorization.(recovery.PolicyRevision) =? current.(RecoveryPolicyRev)) &&
  (authorization.(recovery.OperationID) ==? current.(RecoveryOperation)) &&
  (authorization.(recovery.Successor) ==? current.(RecoverySuccessor)) &&
  (authorization.(recovery.StartedAt) =? current.(RecoveryStartedAt)) &&
  (authorization.(recovery.CompletesAt) =? current.(RecoveryExpiresAt)).

Definition clearPendingRecovery (record : NameRecord) : NameRecord :=
  record <| Recovery := recoveryStable |> <| RecoveryOperation := zero32 |>
    <| RecoverySuccessor := zero32 |> <| RecoveryStartedAt := 0 |> <| RecoveryExpiresAt := 0 |>.

Definition completePendingRecovery (record : NameRecord) : NameRecord :=
  clearPendingRecovery
    (record <| Authority := hex_EncodeToString record.(RecoverySuccessor) |>
       <| Target := zero32 |> <| RecordNotAfter := 0 |>
       <| Consistency := consistencyUnavailable |>).

Definition applyRecovery (current : option NameRecord) (seconds milliseconds : Z) (op : Op)
  : result NameRecord :=
  record ← requireCurrent current op op.(op_Kind);
  let authorization := op.(op_RecoveryAuthorization) in
  result ←
    (if op.(op_Kind) ==? opStartRecovery then
       reject (Transition op.(op_Kind) (Text "recovery requires a live current Lease"))
         when (negb (liveLease record seconds).1);
       reject (Transition op.(op_Kind) (Text "recovery authorization is invalid"))
         when (negb (recovery.Verified authorization) ||
               (authorization.(recovery.Operation) !=? str "initiate") ||
               (record.(RecoveryPolicy) ==? zero32) ||
               (authorization.(recovery.PolicyDigest) !=? record.(RecoveryPolicy)) ||
               negb (authorization.(recovery.PolicyRevision) =? record.(RecoveryPolicyRev)) ||
               (milliseconds <? authorization.(recovery.StartedAt)) ||
               (30 * Milliseconds Second <? i64 (milliseconds - authorization.(recovery.StartedAt))) ||
               (hex_EncodeToString authorization.(recovery.Successor) ==? record.(Authority)));
       Ok (record <| Recovery := recoveryPending |>
             <| RecoveryOperation := authorization.(recovery.OperationID) |>
             <| RecoverySuccessor := authorization.(recovery.Successor) |>
             <| RecoveryStartedAt := authorization.(recovery.StartedAt) |>
             <| RecoveryExpiresAt := authorization.(recovery.CompletesAt) |>)
     else if op.(op_Kind) ==? opCancelRecovery then
       reject (Transition op.(op_Kind) (Text "recovery cancellation is invalid"))
         when (negb (matchingPendingRecovery record authorization (str "cancel")) ||
               (record.(RecoveryExpiresAt) <=? milliseconds) ||
               (record.(Authority) ==? hex_EncodeToString record.(RecoverySuccessor)));
       Ok (clearPendingRecovery record)
     else if op.(op_Kind) ==? opCompleteRecovery then
       reject (Transition op.(op_Kind) (Text "recovery is not eligible for completion"))
         when (negb (matchingPendingRecovery record authorization (str "initiate")) ||
               (milliseconds <? record.(RecoveryExpiresAt)) ||
               (record.(Authority) ==? hex_EncodeToString record.(RecoverySuccessor)));
       Ok (completePendingRecovery record)
     else if op.(op_Kind) ==? opResumeRecovery then
       reject (Transition op.(op_Kind) (Text "fresh successor Record is invalid"))
         when ((record.(Recovery) !=? recoveryStable) ||
               (record.(Consistency) !=? consistencyUnavailable) ||
               (record.(Target) !=? zero32) || (op.(op_Authority) !=? record.(Authority)) ||
               (op.(op_Target) ==? zero32) || (op.(op_RecordNotAfter) <=? milliseconds) ||
               (i64 (leaseNotAfter record * 1000) <? op.(op_RecordNotAfter)));
       Ok (record <| Target := op.(op_Target) |> <| RecordNotAfter := op.(op_RecordNotAfter) |>
             <| Consistency := consistencyCurrent |>)
     else Ok record);
  Ok (result <| Revision := u64 (result.(Revision) + 1) |>).

(** ** lease_transition.go: dispatch *)

Definition apply (current : option NameRecord) (seconds milliseconds : Z) (op : Op) (policy : Policy)
  : result NameRecord :=
  let leaseDuration := op.(op_LeaseDuration) in
  let leaseDuration :=
    if leaseDuration <=? 0 then policy.(DefaultLeaseDuration) else leaseDuration in
  let graceDuration := op.(op_GraceDuration) in
  let graceDuration :=
    if graceDuration <=? 0 then policy.(DefaultGraceDuration) else graceDuration in
  let leaseDuration := if leaseDuration <=? 0 then Hour else leaseDuration in
  let graceDuration := if graceDuration <? 0 then 0 else graceDuration in
  match validOperationName op.(op_Name) with
  | Err e => Err (Transition op.(op_Kind) (TextOf "" e))
  | Ok _ =>
      let kind := op.(op_Kind) in
      if kind ==? opClaim then applyClaim current seconds op leaseDuration graceDuration
      else if kind ==? opRenew then applyRenew current seconds op leaseDuration graceDuration
      else if kind ==? opRelease then applyRelease current op
      else if kind ==? opAdvance then applyAdvance current seconds op
      else if kind ==? opConflict then applyConflict current op
      else if kind ==? opPublish then applyPublish current seconds op
      else if (kind ==? opRotate) || (kind ==? opTransfer) then applyRotate current seconds op
      else if (kind ==? opScheduleRecoveryPolicy) || (kind ==? opActivateRecoveryPolicy)
      then applyRecoveryPolicy current seconds milliseconds op
      else if (kind ==? opStartRecovery) || (kind ==? opCancelRecovery) ||
              (kind ==? opCompleteRecovery) || (kind ==? opResumeRecovery)
      then applyRecovery current seconds milliseconds op
      else Err (Transition kind (Text "operation is unavailable in S6.1"))
  end.

Definition applyAt (current : option NameRecord) (now : Z) (op : Op) (policy : Policy)
  : result NameRecord :=
  apply current (Unix now) (UnixMilli now) op policy.

Definition ApplyLegacy (current : option NameRecord) (now : Z) (op : Op) (policy : Policy)
  : result NameRecord :=
  apply current now (i64 (now * 1000)) op policy.

Definition ApplyAtLegacy (current : option NameRecord) (now : Z) (op : Op) (policy : Policy)
  : result NameRecord :=
  applyAt current now op policy.

End Lifecycle.
End record.
