(* ===== verification/RecordLifecycle.v ===== *)
(** * Properties of the Name Record lifecycle

    The declarative reading [Valid] of [validateRecord], the transition
    invariants of [apply] and its handlers, and the trace property that no
    recovery completes before its waiting period. *)

From S2P Require Import Prelude GoLib GoTime Naming Recovery Record.
Import record.

(** ** Declarative validity *)

Definition lease_ok (r : NameRecord) : Prop :=
  ((r.(Lease) = leaseActive \/ r.(Lease) = leaseGrace) /\
   0 < r.(LeaseExpiresAt) <= r.(GraceExpiresAt)) \/
  (r.(Lease) = leaseReleased /\ r.(LeaseExpiresAt) = 0 /\ r.(GraceExpiresAt) = 0).

Definition recovery_ok (r : NameRecord) : Prop :=
  (r.(Recovery) = recoveryStable /\ r.(RecoveryExpiresAt) = 0 /\ r.(RecoveryStartedAt) = 0 /\
   r.(RecoveryOperation) = zero32 /\ r.(RecoverySuccessor) = zero32) \/
  (r.(Recovery) = recoveryPending /\ 0 < r.(RecoveryStartedAt) < r.(RecoveryExpiresAt) /\
   r.(RecoveryOperation) <> zero32 /\ r.(RecoverySuccessor) <> zero32 /\
   r.(RecoveryPolicy) <> zero32 /\ 0 < r.(RecoveryPolicyRev) /\
   i64 (r.(RecoveryExpiresAt) - r.(RecoveryStartedAt)) = r.(RecoveryPolicyDelay)).

Definition policy_ok (r : NameRecord) : Prop :=
  (r.(RecoveryPolicyRev) = 0 -> r.(RecoveryPolicy) = zero32 /\ r.(RecoveryPolicyDelay) = 0) /\
  (0 < r.(RecoveryPolicyRev) ->
     Milliseconds minimumRecoveryDelay <= r.(RecoveryPolicyDelay)
     <= Milliseconds maximumRecoveryDelay) /\
  (r.(PendingPolicyRev) = 0 ->
     r.(PendingPolicy) = zero32 /\ r.(PendingPolicyDelay) = 0 /\ r.(PolicyActivatesAt) = 0) /\
  (r.(PendingPolicyRev) <> 0 ->
     r.(RecoveryPolicyRev) < r.(PendingPolicyRev) /\
     Milliseconds minimumRecoveryDelay <= r.(PendingPolicyDelay)
     <= Milliseconds maximumRecoveryDelay /\ 0 < r.(PolicyActivatesAt)).

Definition consistency_ok (r : NameRecord) : Prop :=
  (r.(Consistency) = consistencyCurrent /\ r.(ConflictIdentifier) = []) \/
  (r.(Consistency) = consistencyConflict /\ r.(ConflictIdentifier) <> []) \/
  r.(Consistency) = consistencyFork \/ r.(Consistency) = consistencyUnavailable.

Definition parent_ok `{GoLib} (r : NameRecord) : Prop :=
  (r.(ParentName) = [] /\ r.(ParentGeneration) = 0 /\ Contains r.(Name) [dot] = false) \/
  (r.(ParentName) <> [] /\ r.(ParentGeneration) <> 0 /\ IsDescendant r.(Name) r.(ParentName) = true).

Record Valid `{GoLib} (r : NameRecord) : Prop := {
  valid_name : Parse r.(Name) = Ok r.(Name);
  valid_generation : r.(Generation) <> 0;
  valid_revision : r.(Revision) <> 0;
  valid_authority : r.(Authority) <> [];
  valid_not_after : 0 <= r.(RecordNotAfter);
  valid_lease : lease_ok r;
  valid_consistency : consistency_ok r;
  valid_recovery : recovery_ok r;
  valid_policy : policy_ok r;
  valid_parent : parent_ok r
}.

(** Distinctness of the state constants. *)
Lemma lease_states_distinct :
  leaseActive <> leaseGrace /\ leaseActive <> leaseReleased /\ leaseGrace <> leaseReleased.
Proof. by vm_compute. Qed.

Lemma consistency_states_distinct :
  consistencyCurrent <> consistencyConflict /\ consistencyCurrent <> consistencyFork /\
  consistencyCurrent <> consistencyUnavailable /\ consistencyConflict <> consistencyFork /\
  consistencyConflict <> consistencyUnavailable.
Proof. by vm_compute. Qed.

Lemma recovery_states_distinct : recoveryStable <> recoveryPending.
Proof. by vm_compute. Qed.

(** [states] adds the distinctness facts to the context. *)
Ltac states :=
  pose proof lease_states_distinct; pose proof consistency_states_distinct;
  pose proof recovery_states_distinct; destruct_and?.

Section ValidLemmas.
Context `{GoLib}.

Lemma Parse_is_ok s : is_err (Parse s) = false <-> Parse s = Ok s.
Proof.
  unfold is_err. rewrite negb_false_iff. split; [|by intros ->].
  destruct (Parse s) as [n|] eqn:E; [|done]. by apply Parse_ok in E as [-> _].
Qed.

Lemma guard_true (b c : bool) : (if b then false else c) = true <-> b = false /\ c = true.
Proof. destruct b; intuition congruence. Qed.

Lemma validStates_true r :
  validStates r = true <->
  (r.(Lease) = leaseActive \/ r.(Lease) = leaseGrace \/ r.(Lease) = leaseReleased) /\
  (r.(Consistency) = consistencyCurrent \/ r.(Consistency) = consistencyConflict \/
   r.(Consistency) = consistencyFork \/ r.(Consistency) = consistencyUnavailable) /\
  (r.(Recovery) = recoveryStable \/ r.(Recovery) = recoveryPending).
Proof. unfold validStates. rewrite !andb_true_iff, !orb_true_iff, !bool_decide_eq_true. tauto. Qed.

Lemma lease_ok_iff r :
  lease_ok r <->
  (r.(Lease) = leaseActive \/ r.(Lease) = leaseGrace \/ r.(Lease) = leaseReleased) /\
  ((r.(Lease) ==? leaseActive) || (r.(Lease) ==? leaseGrace)) &&
    ((r.(LeaseExpiresAt) <=? 0) || (r.(GraceExpiresAt) <? r.(LeaseExpiresAt))) = false /\
  (r.(Lease) ==? leaseReleased) &&
    (negb (r.(LeaseExpiresAt) =? 0) || negb (r.(GraceExpiresAt) =? 0)) = false.
Proof.
  unfold lease_ok. destruct lease_states_distinct as (? & ? & ?).
  rewrite !andb_false_iff, !orb_false_iff, !negb_false_iff, !bool_decide_eq_false,
    !Z.eqb_eq, Z.leb_gt, Z.ltb_ge. intuition congruence.
Qed.

Lemma recovery_ok_iff r :
  recovery_ok r <->
  (r.(Recovery) = recoveryStable \/ r.(Recovery) = recoveryPending) /\
  (if r.(Recovery) ==? recoveryStable then
    (r.(RecoveryExpiresAt) =? 0) && (r.(RecoveryStartedAt) =? 0) &&
    (r.(RecoveryOperation) ==? zero32) && (r.(RecoverySuccessor) ==? zero32)
  else
    (r.(RecoveryStartedAt) <? r.(RecoveryExpiresAt)) && (0 <? r.(RecoveryStartedAt)) &&
    (r.(RecoveryOperation) !=? zero32) && (r.(RecoverySuccessor) !=? zero32) &&
    (r.(RecoveryPolicy) !=? zero32) && (0 <? r.(RecoveryPolicyRev)) &&
    (i64 (r.(RecoveryExpiresAt) - r.(RecoveryStartedAt)) =? r.(RecoveryPolicyDelay))) = true.
Proof.
  unfold recovery_ok. pose proof recovery_states_distinct. case_bool_decide as E;
    rewrite !andb_true_iff, ?negb_true_iff, ?bool_decide_eq_true, ?bool_decide_eq_false,
      !Z.eqb_eq, ?Z.ltb_lt; intuition congruence.
Qed.

Lemma validStates_lifetimes_true r :
  validStates r = true /\ validRecordLifetimes r = true <->
  lease_ok r /\ recovery_ok r /\
  (r.(Consistency) = consistencyCurrent \/ r.(Consistency) = consistencyConflict \/
   r.(Consistency) = consistencyFork \/ r.(Consistency) = consistencyUnavailable).
Proof.
  unfold validRecordLifetimes.
  rewrite validStates_true, lease_ok_iff, recovery_ok_iff, !guard_true. tauto.
Qed.

Lemma validRecoveryBindings_true r : validRecoveryBindings r = true <-> policy_ok r.
Proof.
  unfold validRecoveryBindings, policy_ok. rewrite !guard_true.
  rewrite !andb_false_iff, !orb_false_iff, !negb_false_iff, bool_decide_eq_true,
    Z.eqb_neq, !Z.ltb_ge, Z.eqb_eq.
  destruct (Z.eqb_spec r.(PendingPolicyRev) 0) as [E|E];
    rewrite !andb_true_iff, ?bool_decide_eq_true, ?Z.eqb_eq, ?Z.ltb_lt, ?Z.leb_le;
    split; intros; destruct_and?; destruct_or?; split_and?; intros; try tauto; try lia;
    destruct (decide (r.(RecoveryPolicyRev) = 0)); auto.
Qed.

Lemma consistency_ok_iff r :
  consistency_ok r <->
  (r.(Consistency) = consistencyCurrent \/ r.(Consistency) = consistencyConflict \/
   r.(Consistency) = consistencyFork \/ r.(Consistency) = consistencyUnavailable) /\
  (r.(Consistency) ==? consistencyCurrent) && (r.(ConflictIdentifier) !=? []) = false /\
  (r.(Consistency) ==? consistencyConflict) && (r.(ConflictIdentifier) ==? []) = false.
Proof.
  unfold consistency_ok. destruct consistency_states_distinct as (? & ? & ? & ? & ?).
  rewrite !andb_false_iff, !negb_false_iff, bool_decide_eq_true, !bool_decide_eq_false.
  intuition congruence.
Qed.

Lemma parent_ok_iff r :
  Parse r.(Name) = Ok r.(Name) ->
  parent_ok r <->
  hasRequiredParent r = true /\
  negb (eqb (r.(ParentName) ==? []) (r.(ParentGeneration) =? 0)) = false /\
  (r.(ParentName) !=? []) &&
    match Parse r.(Name), Parse r.(ParentName) with
    | Ok child, Ok parent => negb (IsDescendant child parent)
    | _, _ => true
    end = false.
Proof.
  intros Hn. unfold parent_ok, hasRequiredParent. rewrite Hn.
  rewrite orb_true_iff, !negb_true_iff, negb_false_iff, eqb_true_iff, andb_false_iff,
    negb_false_iff, bool_decide_eq_true, bool_decide_eq_false.
  destruct (decide (r.(ParentName) = [])) as [E|E].
  - rewrite bool_decide_eq_true_2 by done.
    destruct (Z.eqb_spec r.(ParentGeneration) 0); intuition congruence.
  - rewrite bool_decide_eq_false_2 by done.
    assert (false = (r.(ParentGeneration) =? 0) <-> r.(ParentGeneration) <> 0) as ->
      by (destruct (Z.eqb_spec r.(ParentGeneration) 0); intuition congruence).
    destruct (Parse r.(ParentName)) as [p|] eqn:Hp.
    + apply Parse_ok in Hp as [-> _]. rewrite negb_false_iff. tauto.
    + assert (IsDescendant r.(Name) r.(ParentName) <> true); [|intuition congruence].
      intros (pre & ls & _ & Hc & _)%IsDescendant_true.
      rewrite (proj2 (Parse_ok _ _)) in Hp by eauto. done.
Qed.

(** [Valid] is exactly what [validateRecord] accepts. *)
Lemma validateRecord_ok r : validateRecord r = Ok tt <-> Valid r.
Proof.
  unfold validateRecord. split.
  - intros Hv. inv_ok. rewrite !orb_false_iff, ?negb_false_iff, ?Parse_is_ok in *. destruct_and?.
    destruct (proj1 (validStates_lifetimes_true r)) as (Hl & Hr & Hc); [done|].
    constructor; try done; try (goprop; done).
    + apply consistency_ok_iff. auto.
    + by apply validRecoveryBindings_true.
    + apply parent_ok_iff; [done|]. rewrite negb_false_iff. auto.
  - intros [Hn Hg Hr Ha Hna Hl Hc Hrec Hp Hpar].
    apply consistency_ok_iff in Hc as (Hc & -> & ->).
    apply parent_ok_iff in Hpar as (Hreq & -> & ->); [|done].
    destruct (proj2 (validStates_lifetimes_true r)) as [Hs Ht]; [done|].
    rewrite (proj2 (Parse_is_ok _) Hn), Hs, Ht, Hreq, (proj2 (validRecoveryBindings_true r) Hp).
    rewrite (proj2 (Z.eqb_neq _ _) Hg), (proj2 (Z.eqb_neq _ _) Hr), (proj2 (Z.ltb_ge _ _) Hna).
    by rewrite bool_decide_eq_false_2.
Qed.

Lemma requireCurrent_ok current op action r :
  requireCurrent current op action = Ok r <->
  current = Some r /\ r.(Name) = op.(op_Name) /\ Valid r /\
  op.(op_ExpectedGeneration) = r.(Generation) /\ op.(op_ExpectedRevision) = r.(Revision).
Proof.
  unfold requireCurrent. destruct current as [c|]; [|naive_solver]. split.
  - intros Hc. inv_ok. subst c. destruct a. apply validateRecord_ok in Hok.
    rewrite orb_false_iff in *. goprop. auto.
  - intros ([= ->] & Hn & Hv & Hg & Hr). rewrite bool_decide_eq_true_2 by done. simpl.
    rewrite (proj2 (validateRecord_ok r) Hv), Hg, Hr, !Z.eqb_refl. done.
Qed.

Lemma liveLease_true r now :
  (liveLease r now).1 = true <->
  r.(Consistency) = consistencyCurrent /\ r.(Recovery) = recoveryStable /\
  (r.(Lease) = leaseActive /\ (now <= r.(LeaseExpiresAt) \/ now <= r.(GraceExpiresAt)) \/
   r.(Lease) = leaseGrace /\ now <= r.(GraceExpiresAt)).
Proof.
  unfold liveLease. destruct lease_states_distinct as (Hag & Har & Hgr).
  destruct (validStates r) eqn:Hs; simpl negb; cbv iota.
  - destruct (decide (r.(Consistency) = consistencyCurrent)) as [Ec|Ec];
      [rewrite (bool_decide_eq_true_2 _ Ec)
      |rewrite (bool_decide_eq_false_2 _ Ec); split; [done|by intros [? _]]].
    destruct (decide (r.(Recovery) = recoveryStable)) as [Er|Er];
      [rewrite (bool_decide_eq_true_2 _ Er)
      |rewrite (bool_decide_eq_false_2 _ Er); split; [done|by intros (_ & ? & _)]].
    simpl negb. cbv iota.
    apply validStates_true in Hs as ([El|[El|El]] & _ & _); rewrite El.
    + rewrite bool_decide_eq_true_2 by done.
      destruct (Z.leb_spec now r.(LeaseExpiresAt)), (Z.leb_spec now r.(GraceExpiresAt));
        simpl; intuition lia.
    + rewrite bool_decide_eq_false_2 by done. rewrite bool_decide_eq_true_2 by done.
      destruct (Z.leb_spec now r.(GraceExpiresAt)); simpl; intuition (congruence || lia).
    + rewrite !bool_decide_eq_false_2, bool_decide_eq_true_2 by done. simpl.
      intuition congruence.
  - split; [done|]. intros (Hc & Hr & Hl). rewrite (proj2 (validStates_true r)) in Hs; [done|].
    tauto.
Qed.

(** A live valid Record is inside its grace boundary. *)
Lemma liveLease_Valid r now :
  Valid r -> (liveLease r now).1 = true ->
  now <= r.(GraceExpiresAt) /\ 0 < r.(LeaseExpiresAt) <= r.(GraceExpiresAt) /\
  r.(Consistency) = consistencyCurrent /\ r.(Recovery) = recoveryStable /\
  r.(Lease) <> leaseReleased.
Proof.
  intros Hv (Hc & Hr & Hl)%liveLease_true. destruct (valid_lease r Hv) as [[? ?]|(Hrel & _)].
  - states. destruct Hl as [[? [?|?]]|[? ?]]; repeat split; try done; try lia; congruence.
  - states. destruct Hl as [[? _]|[? _]]; congruence.
Qed.

Lemma lineageLoop_ok prev child parents now :
  lineageLoop prev child parents now = Ok tt ->
  Forall (fun p => Valid p /\ (liveLease p now).1 = true) parents /\
  match parents with [] => True | p :: _ => IsDescendant child p.(Name) = true end.
Proof.
  revert prev child. induction parents as [|p parents IH]; intros prev child; cbn [lineageLoop].
  { intros _. split; [constructor|done]. }
  intros Hl. inv_ok. apply Parse_ok in Hok as [-> _]. apply IH in Hl as [Hall _].
  rewrite negb_false_iff in *. split; [|done]. constructor; [|done]. split; [|done].
  apply validateRecord_ok. unfold is_err in *. by destruct (validateRecord p) as [[]|].
Qed.

Lemma validateParents_ok child parents now parent :
  validateParents child parents now = Ok parent ->
  Forall (fun p => Valid p /\ (liveLease p now).1 = true) parents /\
  match parent with
  | None => parents = [] /\ Contains child [dot] = false
  | Some p => head parents = Some p /\ IsDescendant child p.(Name) = true
  end.
Proof.
  unfold validateParents. destruct parents as [|p parents]; intros Hp; inv_ok; subst parent.
  - repeat constructor.
  - apply Parse_ok in Hok as [-> _]. destruct a0. by apply lineageLoop_ok in Hok0 as [? ?].
Qed.

Lemma validateParents_Some child parents now p :
  validateParents child parents now = Ok (Some p) ->
  Valid p /\ (liveLease p now).1 = true /\ IsDescendant child p.(Name) = true.
Proof.
  intros (Hall & Hh & Hd)%validateParents_ok. destruct parents; simplify_eq/=.
  by inversion Hall as [|?? [? ?]].
Qed.

(** ** Dispatch *)

(** The handler [apply] selected, with the durations it was given. *)
Lemma apply_cases current s ms op policy r :
  apply current s ms op policy = Ok r ->
  Parse op.(op_Name) = Ok op.(op_Name) /\
  ((op.(op_Kind) = opClaim /\ exists ld gd, applyClaim current s op ld gd = Ok r) \/
   (op.(op_Kind) = opRenew /\ exists ld gd, applyRenew current s op ld gd = Ok r) \/
   (op.(op_Kind) = opRelease /\ applyRelease current op = Ok r) \/
   (op.(op_Kind) = opAdvance /\ applyAdvance current s op = Ok r) \/
   (op.(op_Kind) = opConflict /\ applyConflict current op = Ok r) \/
   (op.(op_Kind) = opPublish /\ applyPublish current s op = Ok r) \/
   ((op.(op_Kind) = opRotate \/ op.(op_Kind) = opTransfer) /\ applyRotate current s op = Ok r) \/
   ((op.(op_Kind) = opScheduleRecoveryPolicy \/ op.(op_Kind) = opActivateRecoveryPolicy) /\
    applyRecoveryPolicy current s ms op = Ok r) \/
   ((op.(op_Kind) = opStartRecovery \/ op.(op_Kind) = opCancelRecovery \/
     op.(op_Kind) = opCompleteRecovery \/ op.(op_Kind) = opResumeRecovery) /\
    applyRecovery current s ms op = Ok r)).
Proof.
  unfold apply, validOperationName. intros Ha. inv_ok. split.
  { apply Parse_ok in Hok0 as [-> ?]. done. }
  repeat match type of Ha with
  | (if ?b then _ else _) = Ok _ => destruct b eqn:?
  end; try discriminate; rewrite ?orb_true_iff, ?bool_decide_eq_true in *; eauto 15.
  do 8 right. split; [tauto|done].
Qed.

(** ** What each handler guarantees when it succeeds *)

Definition within (r : NameRecord) (parent : option NameRecord) : Prop :=
  match parent with
  | None => r.(ParentName) = [] /\ r.(ParentGeneration) = 0
  | Some p => r.(ParentName) = p.(Name) /\ r.(ParentGeneration) = p.(Generation) /\
              r.(LeaseExpiresAt) <= p.(LeaseExpiresAt) /\ r.(GraceExpiresAt) <= p.(GraceExpiresAt)
  end.

Lemma min_le_r a b : min a b <= b.
Proof. unfold min. destruct (Z.ltb_spec a b); lia. Qed.

Lemma sameParent_true r parent :
  sameParent r parent = true ->
  match parent with
  | None => r.(ParentName) = [] /\ r.(ParentGeneration) = 0
  | Some p => r.(ParentName) = p.(Name) /\ r.(ParentGeneration) = p.(Generation)
  end.
Proof. unfold sameParent. intros Hs. case_bool_decide; destruct parent; goprop; done. Qed.

Lemma applyClaim_ok current s op ld gd r :
  applyClaim current s op ld gd = Ok r ->
  exists parent,
    validateParents op.(op_Name) op.(op_Parents) s = Ok parent /\
    op.(op_Authority) <> [] /\ op.(op_Generation) <> 0 /\
    match current with
    | None => op.(op_Generation) = 1
    | Some c => requireCurrent current op opClaim = Ok c /\ c.(Lease) = leaseReleased /\
                op.(op_Generation) = u64 (c.(Generation) + 1)
    end /\
    s < r.(LeaseExpiresAt) <= r.(GraceExpiresAt) /\ within r parent /\
    r = MkRecord op.(op_Name) op.(op_Generation) 1 leaseActive consistencyCurrent recoveryStable
          op.(op_Authority) zero32 0 r.(ParentName) r.(ParentGeneration)
          r.(LeaseExpiresAt) r.(GraceExpiresAt) 0 0 zero32 zero32 zero32 0 0 zero32 0 0 0
          match current with Some c => u64 (c.(Continuity) + 1) | None => 1 end [].
Proof.
  unfold applyClaim. intros Hc. inv_ok.
  exists a0. split; [done|].
  assert (Hcur : match current with
    | None => op.(op_Generation) = 1
    | Some c => requireCurrent current op opClaim = Ok c /\ c.(Lease) = leaseReleased /\
                op.(op_Generation) = u64 (c.(Generation) + 1)
    end).
  { clear Hc. destruct current as [c|]; inv_ok.
    - pose proof (proj1 (requireCurrent_ok _ _ _ _) Hok1) as ([= ->] & _). goprop. done.
    - goprop. done. }
  destruct a0 as [p|]; inv_ok; subst r; goprop; simpl;
    repeat split; try done; try lia; apply min_le_r.
Qed.

Lemma applyRenew_ok current s op ld gd r :
  applyRenew current s op ld gd = Ok r ->
  exists c parent,
    requireCurrent current op opRenew = Ok c /\
    validateParents op.(op_Name) op.(op_Parents) s = Ok parent /\
    (c.(Lease) = leaseActive \/ c.(Lease) = leaseGrace) /\ s <= c.(GraceExpiresAt) /\
    c.(Consistency) = consistencyCurrent /\ c.(Recovery) = recoveryStable /\
    op.(op_Authority) = c.(Authority) /\
    s < r.(LeaseExpiresAt) <= r.(GraceExpiresAt) /\ within r parent /\
    r = c <| Revision := u64 (c.(Revision) + 1) |> <| Lease := leaseActive |>
          <| LeaseExpiresAt := r.(LeaseExpiresAt) |> <| GraceExpiresAt := r.(GraceExpiresAt) |>.
Proof.
  unfold applyRenew. intros Hc. inv_ok. exists a, a0.
  rewrite !andb_false_iff in *. goprop.
  apply sameParent_true in Heqb3.
  destruct a0 as [p|]; inv_ok; subst r; goprop; simpl;
    repeat split; try done; try lia; try apply min_le_r; apply Heqb3.
Qed.

Lemma applyRelease_ok current op r :
  applyRelease current op = Ok r ->
  exists c, requireCurrent current op opRelease = Ok c /\ op.(op_Authority) = c.(Authority) /\
    c.(Lease) <> leaseReleased /\ c.(Consistency) = consistencyCurrent /\
    c.(Recovery) = recoveryStable /\
    r = release (c <| Revision := u64 (c.(Revision) + 1) |>).
Proof. unfold applyRelease. intros Hc. inv_ok. exists a. goprop. done. Qed.

Lemma applyAdvance_ok current s op r :
  applyAdvance current s op = Ok r ->
  exists c, requireCurrent current op opAdvance = Ok c /\ c.(Recovery) = recoveryStable /\
    let bumped := c <| Revision := u64 (c.(Revision) + 1) |> in
    ((r = c /\ (c.(Lease) = leaseReleased \/
               c.(Lease) = leaseActive /\ s <= c.(LeaseExpiresAt) \/
               c.(Lease) = leaseGrace /\ s <= c.(GraceExpiresAt))) \/
     (r = bumped <| Lease := leaseGrace |> /\ c.(Lease) = leaseActive /\
      c.(LeaseExpiresAt) < s <= c.(GraceExpiresAt)) \/
     (r = release bumped /\ c.(Lease) <> leaseReleased /\ c.(GraceExpiresAt) < s)).
Proof.
  unfold applyAdvance. intros Hc. inv_ok. exists a.
  pose proof (proj1 (requireCurrent_ok _ _ _ _) Hok) as (_ & _ & Hv & _).
  split; [done|]. split.
  { goprop. destruct (valid_recovery _ Hv) as [[? _]|[? _]]; done. }
  pose proof (valid_lease _ Hv) as Hl. destruct lease_states_distinct as (Hag & Har & Hgr).
  destruct Hl as [[[El|El] Ht]|(El & Ht & Ht')]; rewrite El in *.
  - rewrite bool_decide_eq_true_2 in Hc by done.
    destruct (Z.leb_spec s a.(LeaseExpiresAt)); [inv_ok; subst; eauto 10|].
    destruct (Z.leb_spec s a.(GraceExpiresAt)), (Z.ltb_spec 0 a.(GraceExpiresAt)); try lia;
      simpl in Hc; inv_ok; subst; eauto 10.
  - rewrite bool_decide_eq_false_2, bool_decide_eq_true_2 in Hc by done.
    destruct (Z.leb_spec s a.(GraceExpiresAt)); inv_ok; subst; eauto 10.
  - rewrite !bool_decide_eq_false_2, bool_decide_eq_true_2 in Hc by done. inv_ok; subst; eauto 10.
Qed.

Lemma applyConflict_ok current op r :
  applyConflict current op = Ok r ->
  exists c, requireCurrent current op opConflict = Ok c /\ c.(Lease) <> leaseReleased /\
    c.(Consistency) = consistencyCurrent /\ op.(op_ConflictContext) <> [] /\
    r = c <| Revision := u64 (c.(Revision) + 1) |> <| Consistency := consistencyConflict |>
          <| ConflictIdentifier := op.(op_ConflictContext) |>.
Proof. unfold applyConflict. intros Hc. inv_ok. exists a. goprop. done. Qed.

Lemma applyPublish_ok current s op r :
  applyPublish current s op = Ok r ->
  exists c parent, requireCurrent current op opPublish = Ok c /\
    validateParents op.(op_Name) op.(op_Parents) s = Ok parent /\ sameParent c parent = true /\
    op.(op_Authority) = c.(Authority) /\ op.(op_Target) <> zero32 /\ c.(Target) <> op.(op_Target) /\
    i64 (s * 1000) < op.(op_RecordNotAfter) <= i64 (lineageNotAfter c op.(op_Parents) * 1000) /\
    (liveLease c s).1 = true /\
    r = c <| Revision := u64 (c.(Revision) + 1) |> <| Target := op.(op_Target) |>
          <| RecordNotAfter := op.(op_RecordNotAfter) |>.
Proof.
  unfold applyPublish. intros Hc. inv_ok.
  destruct (validateParents op.(op_Name) op.(op_Parents) s) as [parent|] eqn:E; [|done].
  exists a, parent. goprop. done.
Qed.

Lemma applyRotate_ok current s op r :
  applyRotate current s op = Ok r ->
  exists c, requireCurrent current op op.(op_Kind) = Ok c /\ op.(op_Authority) = c.(Authority) /\
    op.(op_SuccessorAuthority) <> [] /\ op.(op_SuccessorAuthority) <> c.(Authority) /\
    (liveLease c s).1 = true /\
    r = c <| Revision := u64 (c.(Revision) + 1) |> <| Authority := op.(op_SuccessorAuthority) |>.
Proof. unfold applyRotate. intros Hc. inv_ok. exists a. goprop. done. Qed.

(** The tests on the operation kind in [applyRecoveryPolicy] and [applyRecovery]. *)
Lemma policy_kinds : opActivateRecoveryPolicy <> opScheduleRecoveryPolicy.
Proof. by vm_compute. Qed.

Lemma recovery_kinds :
  opCancelRecovery <> opStartRecovery /\ opCompleteRecovery <> opStartRecovery /\
  opCompleteRecovery <> opCancelRecovery /\ opResumeRecovery <> opStartRecovery /\
  opResumeRecovery <> opCancelRecovery /\ opResumeRecovery <> opCompleteRecovery.
Proof. by vm_compute. Qed.

Lemma schedule_ok current s ms op r :
  op.(op_Kind) = opScheduleRecoveryPolicy -> applyRecoveryPolicy current s ms op = Ok r ->
  exists c, requireCurrent current op op.(op_Kind) = Ok c /\ (liveLease c s).1 = true /\
    op.(op_Authority) = c.(Authority) /\ c.(PendingPolicyRev) = 0 /\
    op.(op_PolicyRevision) = u64 (c.(RecoveryPolicyRev) + 1) /\
    minimumRecoveryDelay <= op.(op_PolicyDelay) <= maximumRecoveryDelay /\
    op.(op_PolicyActivatesAt) = i64 (ms + Milliseconds op.(op_PolicyDelay)) /\
    r = c <| PendingPolicy := op.(op_PolicyDigest) |>
          <| PendingPolicyRev := op.(op_PolicyRevision) |>
          <| PendingPolicyDelay := Milliseconds op.(op_PolicyDelay) |>
          <| PolicyActivatesAt := op.(op_PolicyActivatesAt) |>
          <| Revision := u64 (c.(Revision) + 1) |>.
Proof.
  intros Hk. unfold applyRecoveryPolicy. rewrite (bool_decide_eq_true_2 _ Hk). intros Hc. inv_ok.
  exists a. goprop. subst a0 r. done.
Qed.

Lemma activate_ok current s ms op r :
  op.(op_Kind) = opActivateRecoveryPolicy -> applyRecoveryPolicy current s ms op = Ok r ->
  exists c, requireCurrent current op op.(op_Kind) = Ok c /\ c.(PendingPolicyRev) <> 0 /\
    c.(PolicyActivatesAt) <= ms /\ c.(Recovery) = recoveryStable /\
    r = c <| RecoveryPolicy := c.(PendingPolicy) |>
          <| RecoveryPolicyRev := c.(PendingPolicyRev) |>
          <| RecoveryPolicyDelay := c.(PendingPolicyDelay) |>
          <| PendingPolicy := zero32 |> <| PendingPolicyRev := 0 |>
          <| PendingPolicyDelay := 0 |> <| PolicyActivatesAt := 0 |>
          <| Revision := u64 (c.(Revision) + 1) |>.
Proof.
  intros Hk. unfold applyRecoveryPolicy. rewrite !Hk, (bool_decide_eq_false_2 _ policy_kinds).
  rewrite bool_decide_eq_true_2 by done. intros Hc. inv_ok. exists a. goprop. subst a0 r. done.
Qed.

Lemma start_ok current s ms op r :
  op.(op_Kind) = opStartRecovery -> applyRecovery current s ms op = Ok r ->
  let a := op.(op_RecoveryAuthorization) in
  exists c, requireCurrent current op op.(op_Kind) = Ok c /\ (liveLease c s).1 = true /\
    recovery.Verified a = true /\ a.(recovery.Operation) = str "initiate" /\
    c.(RecoveryPolicy) <> zero32 /\ a.(recovery.PolicyDigest) = c.(RecoveryPolicy) /\
    a.(recovery.PolicyRevision) = c.(RecoveryPolicyRev) /\ a.(recovery.StartedAt) <= ms /\
    i64 (ms - a.(recovery.StartedAt)) <= 30000 /\
    hex_EncodeToString a.(recovery.Successor) <> c.(Authority) /\
    r = c <| Recovery := recoveryPending |> <| RecoveryOperation := a.(recovery.OperationID) |>
          <| RecoverySuccessor := a.(recovery.Successor) |>
          <| RecoveryStartedAt := a.(recovery.StartedAt) |>
          <| RecoveryExpiresAt := a.(recovery.CompletesAt) |>
          <| Revision := u64 (c.(Revision) + 1) |>.
Proof.
  intros Hk Hc a. unfold applyRecovery in Hc. rewrite (bool_decide_eq_true_2 _ Hk) in Hc. inv_ok.
  fold a in Hok0. inv_ok. exists a0. goprop. subst a1 r. done.
Qed.

Lemma matchingPendingRecovery_true c a operation :
  matchingPendingRecovery c a operation = true <->
  recovery.Verified a = true /\ a.(recovery.Operation) = operation /\
  a.(recovery.PolicyDigest) = c.(RecoveryPolicy) /\
  a.(recovery.PolicyRevision) = c.(RecoveryPolicyRev) /\
  a.(recovery.OperationID) = c.(RecoveryOperation) /\
  a.(recovery.Successor) = c.(RecoverySuccessor) /\
  a.(recovery.StartedAt) = c.(RecoveryStartedAt) /\
  a.(recovery.CompletesAt) = c.(RecoveryExpiresAt).
Proof.
  unfold matchingPendingRecovery. rewrite !andb_true_iff, !bool_decide_eq_true, !Z.eqb_eq. tauto.
Qed.

Lemma cancel_ok current s ms op r :
  op.(op_Kind) = opCancelRecovery -> applyRecovery current s ms op = Ok r ->
  exists c, requireCurrent current op op.(op_Kind) = Ok c /\
    matchingPendingRecovery c op.(op_RecoveryAuthorization) (str "cancel") = true /\
    ms < c.(RecoveryExpiresAt) /\
    r = clearPendingRecovery c <| Revision := u64 (c.(Revision) + 1) |>.
Proof.
  intros Hk. unfold applyRecovery. destruct recovery_kinds as (H1 & _).
  rewrite !Hk, (bool_decide_eq_false_2 _ H1), bool_decide_eq_true_2 by done.
  intros Hc. inv_ok. exists a. goprop. subst a0 r. done.
Qed.

Lemma complete_ok current s ms op r :
  op.(op_Kind) = opCompleteRecovery -> applyRecovery current s ms op = Ok r ->
  exists c, requireCurrent current op op.(op_Kind) = Ok c /\
    matchingPendingRecovery c op.(op_RecoveryAuthorization) (str "initiate") = true /\
    c.(RecoveryExpiresAt) <= ms /\
    r = completePendingRecovery c <| Revision := u64 (c.(Revision) + 1) |>.
Proof.
  intros Hk. unfold applyRecovery. destruct recovery_kinds as (_ & H1 & H2 & _).
  rewrite !Hk, (bool_decide_eq_false_2 _ H1), (bool_decide_eq_false_2 _ H2).
  rewrite bool_decide_eq_true_2 by done.
  intros Hc. inv_ok. exists a. goprop. subst a0 r. done.
Qed.

Lemma resume_ok current s ms op r :
  op.(op_Kind) = opResumeRecovery -> applyRecovery current s ms op = Ok r ->
  exists c, requireCurrent current op op.(op_Kind) = Ok c /\
    c.(Recovery) = recoveryStable /\ c.(Consistency) = consistencyUnavailable /\
    c.(Target) = zero32 /\ op.(op_Authority) = c.(Authority) /\ op.(op_Target) <> zero32 /\
    ms < op.(op_RecordNotAfter) <= i64 (leaseNotAfter c * 1000) /\
    r = c <| Target := op.(op_Target) |> <| RecordNotAfter := op.(op_RecordNotAfter) |>
          <| Consistency := consistencyCurrent |> <| Revision := u64 (c.(Revision) + 1) |>.
Proof.
  intros Hk. unfold applyRecovery. destruct recovery_kinds as (_ & _ & _ & H1 & H2 & H3).
  rewrite !Hk, (bool_decide_eq_false_2 _ H1), (bool_decide_eq_false_2 _ H2),
    (bool_decide_eq_false_2 _ H3), bool_decide_eq_true_2 by done.
  intros Hc. inv_ok. exists a. goprop. subst a0 r. done.
Qed.

End ValidLemmas.
