(* ===== verification/RecordProperties.v ===== *)
(** * Guarantees of the Name Record lifecycle

    What every successful transition of [apply] keeps: validity of the Record,
    the compare-and-swap version discipline, who may change the Authority, the
    parent bounds of a Lease, the time lock of a recovery over whole histories,
    and the behaviour of the clock-driven [advance]. *)

From S2P Require Import Prelude GoLib GoTime Naming Recovery Record RecordLifecycle.
Import record.

Section Preservation.
Context `{GoLib}.

(** The clock and the counters are away from the end of their machine range.
    A start is made with an authorization [recovery.Authorize] issued for a
    policy with the delay the Record carries, and a resumption is made on a
    Record that carries no conflict evidence. *)
Record Headroom (current : option NameRecord) (s ms : Z) (op : Op) : Prop := {
  room_s : 0 <= s;
  room_s_ms : s * 1000 < 2 ^ 63;
  room_ms : 0 <= ms < 2 ^ 63 - Milliseconds maximumRecoveryDelay;
  room_revision : forall c, current = Some c -> 0 <= c.(Revision) < 2 ^ 64 - 1;
  room_policy : forall c, current = Some c -> 0 <= c.(RecoveryPolicyRev) < 2 ^ 64 - 1;
  room_pending : forall c, current = Some c -> 0 <= c.(PendingPolicyRev);
  room_start : forall c, current = Some c -> op.(op_Kind) = opStartRecovery ->
    exists policy proof,
      recovery.Authorize policy proof = Ok op.(op_RecoveryAuthorization) /\
      in_i64 proof.(recovery.ProofStartedAt) /\ in_i64 proof.(recovery.ProofCompletesAt) /\
      c.(RecoveryPolicyDelay) = Milliseconds policy.(recovery.Delay);
  room_resume : forall c, current = Some c -> op.(op_Kind) = opResumeRecovery ->
    c.(ConflictIdentifier) = []
}.

Lemma bump_nonzero n : 0 <= n < 2 ^ 64 - 1 -> u64 (n + 1) <> 0.
Proof. intros Hn. rewrite u64_id; unfold in_u64; lia. Qed.

Lemma Parse_nonempty s : Parse s = Ok s -> s <> [].
Proof. intros Hs ->. by vm_compute in Hs. Qed.

Lemma Authorize_delay policy proof a :
  recovery.Authorize policy proof = Ok a ->
  72 * Hour <= policy.(recovery.Delay) <= 30 * 24 * Hour.
Proof.
  intros (Hv & _)%recovery.Authorize_ok.
  by apply recovery.validPolicy_true in Hv as (_ & _ & _ & _ & _ & _ & _ & ? & _).
Qed.

(** An issued authorization starts after zero and completes its delay later. *)
Lemma Authorize_interval policy proof a :
  recovery.Authorize policy proof = Ok a ->
  in_i64 proof.(recovery.ProofStartedAt) -> in_i64 proof.(recovery.ProofCompletesAt) ->
  a.(recovery.StartedAt) < 2 ^ 63 - Milliseconds maximumRecoveryDelay ->
  0 < a.(recovery.StartedAt) /\
  a.(recovery.CompletesAt) = a.(recovery.StartedAt) + Milliseconds policy.(recovery.Delay) /\
  259200000 <= Milliseconds policy.(recovery.Delay) <= 2592000000.
Proof.
  intros Ha Hs Hc Hroom. pose proof (Authorize_delay _ _ _ Ha) as Hd.
  apply recovery.Authorize_ok in Ha as (_ & [_ _ _ _ Hpos Hdel _] & _ & ->). simpl in *.
  change (Milliseconds maximumRecoveryDelay) with 2592000000 in Hroom.
  assert (259200000 <= Milliseconds policy.(recovery.Delay) <= 2592000000) as Hm.
  { unfold Milliseconds, Millisecond, Hour, Second, Millisecond in *.
    Z.quot_rem_to_equations. lia. }
  split; [done|]. split; [|done]. revert Hdel. unfold in_i64, i64 in *.
  Z.div_mod_to_equations. lia.
Qed.

Lemma Valid_claim current s op ld gd r :
  0 <= s -> Parse op.(op_Name) = Ok op.(op_Name) -> applyClaim current s op ld gd = Ok r -> Valid r.
Proof.
  intros Hs Hn (parent & Hp & Ha & Hg & _ & Ht & Hw & ->)%applyClaim_ok. simpl in *.
  constructor; simpl; try done; try lia.
  - left. simpl. split; [by left|lia].
  - by left.
  - left. done.
  - unfold parent_ok; simpl. destruct parent as [p|].
    + apply validateParents_Some in Hp as (Hv & _ & Hd). destruct Hw as (-> & -> & _).
      right. split; [by apply Parse_nonempty, valid_name|]. split; [by apply valid_generation|done].
    + apply validateParents_ok in Hp as (_ & _ & Hc). destruct Hw as [-> ->]. by left.
Qed.

Lemma Valid_renew current s op ld gd r :
  0 <= s -> (forall c, current = Some c -> 0 <= c.(Revision) < 2 ^ 64 - 1) ->
  applyRenew current s op ld gd = Ok r -> Valid r.
Proof.
  intros Hs Hrev (c & parent & Hc & _ & _ & _ & _ & _ & _ & Ht & _ & ->)%applyRenew_ok.
  apply requireCurrent_ok in Hc as (-> & _ & [Vn Vg Vr Va Vna Vl Vc Vrec Vp Vpar] & _). simpl in *.
  constructor; simpl; try done.
  - by apply bump_nonzero, Hrev.
  - left. simpl. split; [by left|lia].
Qed.

Lemma Valid_schedule current s ms op r :
  op.(op_Kind) = opScheduleRecoveryPolicy -> Headroom current s ms op ->
  applyRecoveryPolicy current s ms op = Ok r -> Valid r.
Proof.
  intros Hk [Rs Rsm Rms Rrev Rpol Rpend Rstart Rres] (c & Hc & Hl & _ & Hp0 & Hrev & Hd & Hact & ->)%schedule_ok; [|done].
  apply requireCurrent_ok in Hc as (-> & _ & [Vn Vg Vr Va Vna Vl Vc Vrec Vp Vpar] & _). specialize (Rpol _ eq_refl).
  constructor; simpl; try done.
  - by apply bump_nonzero, Rrev.
  - destruct Vp as (Hp1 & Hp2 & _). unfold policy_ok; simpl.
    assert (0 < Milliseconds op.(op_PolicyDelay) <= Milliseconds maximumRecoveryDelay) as Hm.
    { split; [|by apply Z.quot_le_mono; [done|lia]]. unfold Milliseconds. apply Z.quot_str_pos.
      revert Hd. unfold minimumRecoveryDelay, Hour, Second, Millisecond. lia. }
    rewrite Hrev, Hact, (u64_id (_ + 1)) by (unfold in_u64; lia).
    rewrite i64_id by (unfold in_i64; lia).
    split; [done|]. split; [done|]. split; [intros; exfalso; lia|]. intros _.
    repeat split; try lia. by apply Z.quot_le_mono; [done|lia].
Qed.

Lemma Valid_start current s ms op r :
  op.(op_Kind) = opStartRecovery -> Headroom current s ms op ->
  applyRecovery current s ms op = Ok r -> Valid r.
Proof.
  intros Hk [Rs Rsm Rms Rrev Rpol Rpend Rstart Rres] (c & Hc & Hl & _ & _ & Hnz & _ & _ & Hst & _ & _ & ->)%start_ok; [|done].
  apply requireCurrent_ok in Hc as (-> & _ & [Vn Vg Vr Va Vna Vl Vc Vrec Vp Vpar] & _). specialize (Rpol _ eq_refl).
  destruct (Rstart _ eq_refl Hk) as (policy & proof & Ha & Hs & Hcm & Hdel).
  destruct (Authorize_interval _ _ _ Ha Hs Hcm) as (Hpos & Hint & Hms); [lia|].
  apply recovery.Authorize_times in Ha as (_ & Hi64 & Hid & Hsucc & _).
  constructor; simpl; try done.
  - by apply bump_nonzero, Rrev.
  - right. simpl. destruct Vp as (Hp1 & _).
    assert (c.(RecoveryPolicyRev) <> 0) by (intros E; by destruct (Hp1 E)).
    repeat split; try done; lia.
Qed.

(** [keep Hc Hv]: use the validity of the current Record, which [requireCurrent]
    checked, for every field the transition leaves alone. *)
Ltac keep Hc :=
  apply requireCurrent_ok in Hc as (-> & _ & [Vn Vg Vr Va Vna Vl Vc Vrec Vp Vpar] & _);
  constructor; simpl; try done; try (apply bump_nonzero; auto).

Lemma Valid_lease_ops current s op r :
  (forall c, current = Some c -> 0 <= c.(Revision) < 2 ^ 64 - 1) ->
  applyRelease current op = Ok r \/ applyAdvance current s op = Ok r -> Valid r.
Proof.
  intros Rrev [(c & Hc & _ & _ & _ & _ & ->)%applyRelease_ok|Ha].
  { keep Hc. by right. }
  apply applyAdvance_ok in Ha as (c & Hc & _ & [(-> & _)|[(-> & El & Ht)|(-> & _)]]).
  - by apply requireCurrent_ok in Hc as (_ & _ & ? & _).
  - keep Hc. destruct lease_states_distinct as (Hag & Har & Hgr).
    destruct Vl as [[_ ?]|[? _]]; [|congruence]. left; simpl. by split; [right|].
  - keep Hc. by right.
Qed.

Lemma Valid_authority_ops current s op r :
  0 <= s -> s * 1000 < 2 ^ 63 ->
  (forall c, current = Some c -> 0 <= c.(Revision) < 2 ^ 64 - 1) ->
  applyConflict current op = Ok r \/ applyPublish current s op = Ok r \/
  applyRotate current s op = Ok r -> Valid r.
Proof.
  intros Hs Hms Rrev [(c & Hc & _ & _ & Hctx & ->)%applyConflict_ok|
    [(c & p & Hc & _ & _ & _ & _ & _ & Ht & _ & ->)%applyPublish_ok|
     (c & Hc & _ & Hsucc & _ & _ & ->)%applyRotate_ok]]; keep Hc.
  - right. by left.
  - rewrite i64_id in Ht by (unfold in_i64; lia). lia.
Qed.

Lemma Valid_activate current s ms op r :
  op.(op_Kind) = opActivateRecoveryPolicy -> Headroom current s ms op ->
  applyRecoveryPolicy current s ms op = Ok r -> Valid r.
Proof.
  intros Hk [Rs Rsm Rms Rrev Rpol Rpend Rstart Rres] (c & Hc & Hp & _ & Hst & ->)%activate_ok; [|done].
  keep Hc.
  - destruct Vrec as [Hr|[Hr _]]; [by left|].
    destruct recovery_states_distinct. congruence.
  - unfold policy_ok; simpl. destruct Vp as (_ & _ & _ & Hpend).
    destruct (Hpend Hp) as (_ & Hd & _).
    split; [by intros E|]. split; [done|]. split; [done|]. intros E. by destruct E.
Qed.

Lemma hex_nonempty {n} (a : array (S n)) : hex_EncodeToString a <> [].
Proof.
  intros E%(f_equal len). rewrite len_hex_Encode, len_array, len_nil in E. lia.
Qed.

Lemma Valid_recovery_ops current s ms op r :
  Headroom current s ms op ->
  op.(op_Kind) = opCancelRecovery \/ op.(op_Kind) = opCompleteRecovery \/
  op.(op_Kind) = opResumeRecovery ->
  applyRecovery current s ms op = Ok r -> Valid r.
Proof.
  intros [Rs Rsm Rms Rrev Rpol Rpend Rstart Rres] [Hk|[Hk|Hk]].
  - intros (c & Hc & _ & _ & ->)%cancel_ok; [|done]. keep Hc. by left.
  - intros (c & Hc & _ & _ & ->)%complete_ok; [|done]. keep Hc.
    + apply hex_nonempty.
    + do 3 right. done.
    + by left.
  - intros (c & Hc & _ & _ & _ & _ & _ & Ht & ->)%resume_ok; [|done]. keep Hc; [lia|].
    left. simpl. auto.
Qed.

Lemma apply_Valid current s ms op policy r :
  Headroom current s ms op -> apply current s ms op policy = Ok r -> Valid r.
Proof.
  intros Hroom (Hn & Hcases)%apply_cases. pose proof Hroom as [Rs Rsm Rms Rrev _ _ _ _].
  pose proof (Valid_lease_ops current s op r Rrev).
  pose proof (Valid_authority_ops current s op r Rs Rsm Rrev).
  destruct Hcases as [(_ & ld & gd & Hc)|[(_ & ld & gd & Hc)|[(_ & Hc)|[(_ & Hc)|
    [(_ & Hc)|[(_ & Hc)|[(_ & Hc)|[([Hk|Hk] & Hc)|([Hk|Hk] & Hc)]]]]]]]];
    eauto using Valid_claim, Valid_renew, Valid_schedule, Valid_activate, Valid_start,
      Valid_recovery_ops.
Qed.

(** C18: Every successful transition of a Name Record yields a Record that
    [validateRecord] (and so the wire codec) accepts, for all fourteen
    operations, as long as clocks and counters are away from their machine
    limits, a recovery starts with an authorization issued for the Record's
    delay and is resumed on a Record without conflict evidence. *)
Theorem apply_preserves_validity current s ms op policy r :
  Headroom current s ms op -> apply current s ms op policy = Ok r -> validateRecord r = Ok tt.
Proof. intros Hr Ha. apply validateRecord_ok. by eapply apply_Valid. Qed.

End Preservation.

Section Transitions.
Context `{GoLib}.

(** The outcome of one transition on an existing Record: nothing changed (only
    [advance] may do that), one more revision of the same generation, or the
    first revision of the next generation of a released name. *)
Inductive Outcome (op : Op) (c r : NameRecord) : Prop :=
| outcome_same : op.(op_Kind) = opAdvance -> r = c -> Outcome op c r
| outcome_revision : r.(Name) = c.(Name) -> r.(Generation) = c.(Generation) ->
    r.(Revision) = u64 (c.(Revision) + 1) -> Outcome op c r
| outcome_reclaim : op.(op_Kind) = opClaim -> c.(Lease) = leaseReleased ->
    r.(Name) = c.(Name) -> r.(Generation) = u64 (c.(Generation) + 1) -> r.(Revision) = 1 ->
    Outcome op c r.

(** The transition system of one existing Record: a constructor per kind of
    change, with the guards the handlers enforce. *)
Inductive Step (s ms : Z) (op : Op) (c : NameRecord) : NameRecord -> Prop :=
| step_reclaim r parent :
    op.(op_Kind) = opClaim -> c.(Lease) = leaseReleased ->
    r.(Name) = c.(Name) -> r.(Authority) = op.(op_Authority) -> r.(Recovery) = recoveryStable ->
    r.(Generation) = u64 (c.(Generation) + 1) -> r.(Revision) = 1 ->
    validateParents op.(op_Name) op.(op_Parents) s = Ok parent -> within r parent ->
    s < r.(LeaseExpiresAt) <= r.(GraceExpiresAt) -> Step s ms op c r
| step_renew leaseEnd graceEnd :
    op.(op_Kind) = opRenew -> op.(op_Authority) = c.(Authority) ->
    c.(Recovery) = recoveryStable -> s < leaseEnd <= graceEnd ->
    Step s ms op c (c <| Revision := u64 (c.(Revision) + 1) |> <| Lease := leaseActive |>
                      <| LeaseExpiresAt := leaseEnd |> <| GraceExpiresAt := graceEnd |>)
| step_release :
    op.(op_Kind) = opRelease -> op.(op_Authority) = c.(Authority) ->
    c.(Recovery) = recoveryStable ->
    Step s ms op c (release (c <| Revision := u64 (c.(Revision) + 1) |>))
| step_advance_none :
    op.(op_Kind) = opAdvance -> c.(Recovery) = recoveryStable -> Step s ms op c c
| step_advance_grace :
    op.(op_Kind) = opAdvance -> c.(Recovery) = recoveryStable ->
    Step s ms op c (c <| Revision := u64 (c.(Revision) + 1) |> <| Lease := leaseGrace |>)
| step_advance_release :
    op.(op_Kind) = opAdvance -> c.(Recovery) = recoveryStable -> c.(GraceExpiresAt) < s ->
    Step s ms op c (release (c <| Revision := u64 (c.(Revision) + 1) |>))
| step_conflict :
    op.(op_Kind) = opConflict -> c.(Consistency) = consistencyCurrent ->
    Step s ms op c (c <| Revision := u64 (c.(Revision) + 1) |>
                      <| Consistency := consistencyConflict |>
                      <| ConflictIdentifier := op.(op_ConflictContext) |>)
| step_publish :
    op.(op_Kind) = opPublish -> op.(op_Authority) = c.(Authority) -> (liveLease c s).1 = true ->
    Step s ms op c (c <| Revision := u64 (c.(Revision) + 1) |> <| Target := op.(op_Target) |>
                      <| RecordNotAfter := op.(op_RecordNotAfter) |>)
| step_rotate :
    op.(op_Kind) = opRotate \/ op.(op_Kind) = opTransfer ->
    op.(op_Authority) = c.(Authority) -> (liveLease c s).1 = true ->
    Step s ms op c (c <| Revision := u64 (c.(Revision) + 1) |>
                      <| Authority := op.(op_SuccessorAuthority) |>)
| step_schedule :
    op.(op_Kind) = opScheduleRecoveryPolicy -> op.(op_Authority) = c.(Authority) ->
    (liveLease c s).1 = true ->
    Step s ms op c (c <| PendingPolicy := op.(op_PolicyDigest) |>
                      <| PendingPolicyRev := op.(op_PolicyRevision) |>
                      <| PendingPolicyDelay := Milliseconds op.(op_PolicyDelay) |>
                      <| PolicyActivatesAt := op.(op_PolicyActivatesAt) |>
                      <| Revision := u64 (c.(Revision) + 1) |>)
| step_activate :
    op.(op_Kind) = opActivateRecoveryPolicy -> c.(PolicyActivatesAt) <= ms ->
    c.(Recovery) = recoveryStable ->
    Step s ms op c (c <| RecoveryPolicy := c.(PendingPolicy) |>
                      <| RecoveryPolicyRev := c.(PendingPolicyRev) |>
                      <| RecoveryPolicyDelay := c.(PendingPolicyDelay) |>
                      <| PendingPolicy := zero32 |> <| PendingPolicyRev := 0 |>
                      <| PendingPolicyDelay := 0 |> <| PolicyActivatesAt := 0 |>
                      <| Revision := u64 (c.(Revision) + 1) |>)
| step_start (a := op.(op_RecoveryAuthorization)) :
    op.(op_Kind) = opStartRecovery -> (liveLease c s).1 = true ->
    recovery.Verified a = true -> a.(recovery.Operation) = str "initiate" ->
    a.(recovery.PolicyDigest) = c.(RecoveryPolicy) ->
    a.(recovery.PolicyRevision) = c.(RecoveryPolicyRev) ->
    a.(recovery.StartedAt) <= ms -> i64 (ms - a.(recovery.StartedAt)) <= 30000 ->
    Step s ms op c (c <| Recovery := recoveryPending |>
                      <| RecoveryOperation := a.(recovery.OperationID) |>
                      <| RecoverySuccessor := a.(recovery.Successor) |>
                      <| RecoveryStartedAt := a.(recovery.StartedAt) |>
                      <| RecoveryExpiresAt := a.(recovery.CompletesAt) |>
                      <| Revision := u64 (c.(Revision) + 1) |>)
| step_cancel :
    op.(op_Kind) = opCancelRecovery ->
    matchingPendingRecovery c op.(op_RecoveryAuthorization) (str "cancel") = true ->
    ms < c.(RecoveryExpiresAt) ->
    Step s ms op c (clearPendingRecovery c <| Revision := u64 (c.(Revision) + 1) |>)
| step_complete :
    op.(op_Kind) = opCompleteRecovery ->
    matchingPendingRecovery c op.(op_RecoveryAuthorization) (str "initiate") = true ->
    c.(RecoveryExpiresAt) <= ms ->
    Step s ms op c (completePendingRecovery c <| Revision := u64 (c.(Revision) + 1) |>)
| step_resume :
    op.(op_Kind) = opResumeRecovery -> op.(op_Authority) = c.(Authority) ->
    c.(Recovery) = recoveryStable -> c.(Consistency) = consistencyUnavailable ->
    Step s ms op c (c <| Target := op.(op_Target) |> <| RecordNotAfter := op.(op_RecordNotAfter) |>
                      <| Consistency := consistencyCurrent |>
                      <| Revision := u64 (c.(Revision) + 1) |>).

(** [apply] refines the transition system, after [requireCurrent] accepted the
    expected version. *)
Lemma apply_Step c s ms op policy r :
  apply (Some c) s ms op policy = Ok r ->
  (exists action, requireCurrent (Some c) op action = Ok c) /\ Step s ms op c r.
Proof.
  assert (forall action c', requireCurrent (Some c) op action = Ok c' -> c' = c) as Hsame
    by (intros action c' (? & _)%requireCurrent_ok; congruence).
  intros (_ & Hcases)%apply_cases.
  destruct Hcases as [(Hk & ld & gd & Hc)|[(Hk & ld & gd & Hc)|[(Hk & Hc)|[(Hk & Hc)|
    [(Hk & Hc)|[(Hk & Hc)|[(Hk & Hc)|[([Hk|Hk] & Hc)|([Hk|[Hk|[Hk|Hk]]] & Hc)]]]]]]]].
  1: { apply applyClaim_ok in Hc as (p & Hp & _ & _ & (Hc & Hl & Hg) & Ht & Hw & Hr).
       split; [by eexists|]. apply requireCurrent_ok in Hc as (_ & Hn & _).
       eapply step_reclaim; try done; rewrite Hr; done. }
  1: apply applyRenew_ok in Hc as (c' & p & Hc & _ & _ & _ & _ & Hst & Ha & Ht & _ & ->).
  2: apply applyRelease_ok in Hc as (c' & Hc & Ha & _ & _ & Hst & ->).
  3: apply applyAdvance_ok in Hc as (c' & Hc & Hst & [[-> _]|[[-> _]|(-> & _ & Ht)]]).
  6: apply applyConflict_ok in Hc as (c' & Hc & _ & Hcur & _ & ->).
  7: apply applyPublish_ok in Hc as (c' & p & Hc & _ & _ & Ha & _ & _ & _ & Hl & ->).
  8: apply applyRotate_ok in Hc as (c' & Hc & Ha & _ & _ & Hl & ->).
  9: apply (schedule_ok _ _ _ _ _ Hk) in Hc as (c' & Hc & Hl & Ha & _ & _ & _ & _ & ->).
  10: apply (activate_ok _ _ _ _ _ Hk) in Hc as (c' & Hc & _ & Hms & Hst & ->).
  11: apply (start_ok _ _ _ _ _ Hk) in Hc
    as (c' & Hc & Hl & Hv & Ho & _ & Hd & Hr & Hlo & Hhi & _ & ->).
  12: apply (cancel_ok _ _ _ _ _ Hk) in Hc as (c' & Hc & Hm & Ht & ->).
  13: apply (complete_ok _ _ _ _ _ Hk) in Hc as (c' & Hc & Hm & Ht & ->).
  14: apply (resume_ok _ _ _ _ _ Hk) in Hc as (c' & Hc & Hst & Hu & _ & Ha & _ & _ & ->).
  all: pose proof (Hsame _ _ Hc); subst c'; split; [by eexists|].
  all: by constructor.
Qed.

(** A transition on an existing Record succeeds only when it names exactly
    the current name, generation and revision, and then either leaves the
    Record untouched ([advance] only), creates the next revision of the same
    generation, or, for a claim on a released name, the first revision of the
    next generation. *)
Theorem apply_compare_and_swap c s ms op policy r :
  apply (Some c) s ms op policy = Ok r ->
  c.(Name) = op.(op_Name) /\ op.(op_ExpectedGeneration) = c.(Generation) /\
  op.(op_ExpectedRevision) = c.(Revision) /\ Outcome op c r.
Proof.
  intros ((action & Hc) & Hs)%apply_Step. apply requireCurrent_ok in Hc as (_ & Hn & _ & Hg & Hr).
  split_and!; try done. destruct Hs;
    [by apply outcome_reclaim|idtac|idtac|by apply outcome_same|idtac..]; by apply outcome_revision.
Qed.

(** C26: The Authority of a name changes in three ways only: its current holder
    rotates or transfers it while the Lease is live; a quorum authorization that
    matches the pending recovery completes at or after its deadline, and then
    the new Authority is the recovery successor; or the name was released and a
    claim opens its next generation. *)
Theorem apply_authority_change c s ms op policy r :
  apply (Some c) s ms op policy = Ok r -> r.(Authority) <> c.(Authority) ->
  ((op.(op_Kind) = opRotate \/ op.(op_Kind) = opTransfer) /\
   op.(op_Authority) = c.(Authority) /\ (liveLease c s).1 = true /\
   r.(Authority) = op.(op_SuccessorAuthority)) \/
  (op.(op_Kind) = opCompleteRecovery /\
   matchingPendingRecovery c op.(op_RecoveryAuthorization) (str "initiate") = true /\
   c.(RecoveryExpiresAt) <= ms /\ r.(Authority) = hex_EncodeToString c.(RecoverySuccessor)) \/
  (op.(op_Kind) = opClaim /\ c.(Lease) = leaseReleased /\
   r.(Generation) = u64 (c.(Generation) + 1) /\ r.(Authority) = op.(op_Authority)).
Proof.
  intros (_ & Hs)%apply_Step Hne. destruct Hs; try done.
  - right; right. auto.
  - left. auto.
  - right; left. auto.
Qed.

(** Only a claim creates a Record, and it creates a stable one. *)
Lemma apply_None s ms op policy r :
  apply None s ms op policy = Ok r ->
  op.(op_Kind) = opClaim /\ r.(Recovery) = recoveryStable /\ r.(Generation) = 1.
Proof.
  assert (forall action c, requireCurrent None op action <> Ok c) as Hno
    by (intros action c (? & _)%requireCurrent_ok; congruence).
  intros (_ & Hcases)%apply_cases.
  destruct Hcases as [(Hk & ld & gd & Hc)|[(Hk & ld & gd & Hc)|[(Hk & Hc)|[(Hk & Hc)|
    [(Hk & Hc)|[(Hk & Hc)|[(Hk & Hc)|[([Hk|Hk] & Hc)|([Hk|[Hk|[Hk|Hk]]] & Hc)]]]]]]]].
  1: { by apply applyClaim_ok in Hc as (p & _ & _ & _ & Hg & _ & _ & ->). }
  1: apply applyRenew_ok in Hc as (? & ? & Hc & _).
  2: apply applyRelease_ok in Hc as (? & Hc & _).
  3: apply applyAdvance_ok in Hc as (? & Hc & _).
  4: apply applyConflict_ok in Hc as (? & Hc & _).
  5: apply applyPublish_ok in Hc as (? & ? & Hc & _).
  6: apply applyRotate_ok in Hc as (? & Hc & _).
  7: apply (schedule_ok _ _ _ _ _ Hk) in Hc as (? & Hc & _).
  8: apply (activate_ok _ _ _ _ _ Hk) in Hc as (? & Hc & _).
  9: apply (start_ok _ _ _ _ _ Hk) in Hc as (? & Hc & _).
  10: apply (cancel_ok _ _ _ _ _ Hk) in Hc as (? & Hc & _).
  11: apply (complete_ok _ _ _ _ _ Hk) in Hc as (? & Hc & _).
  12: apply (resume_ok _ _ _ _ _ Hk) in Hc as (? & Hc & _).
  all: by destruct (Hno _ _ Hc).
Qed.

(** The pending recovery a Record carries. *)
Definition pendingOf (r : NameRecord) : array 32 * array 32 * Z * Z :=
  (r.(RecoveryOperation), r.(RecoverySuccessor), r.(RecoveryStartedAt), r.(RecoveryExpiresAt)).

Definition requested (a : recovery.Authorization) : array 32 * array 32 * Z * Z :=
  (a.(recovery.OperationID), a.(recovery.Successor), a.(recovery.StartedAt), a.(recovery.CompletesAt)).

Lemma live_stable c s : (liveLease c s).1 = true -> c.(Recovery) = recoveryStable.
Proof. by intros (_ & ? & _)%liveLease_true. Qed.

(** While a recovery is pending only three operations succeed: recording
    conflict evidence, which leaves the pending recovery as it is, the quorum's
    cancellation before the deadline, and the completion at or after it.  In
    particular the holder of the old Authority cannot publish, rotate, renew,
    release or reschedule the policy to escape the recovery. *)
Theorem pending_recovery_is_exclusive c s ms op policy r :
  c.(Recovery) = recoveryPending -> c.(Lease) <> leaseReleased ->
  apply (Some c) s ms op policy = Ok r ->
  (op.(op_Kind) = opConflict /\ r.(Recovery) = recoveryPending /\ pendingOf r = pendingOf c /\
   r.(Authority) = c.(Authority) /\ r.(RecoveryPolicy) = c.(RecoveryPolicy) /\
   r.(Lease) = c.(Lease)) \/
  (op.(op_Kind) = opCancelRecovery /\ ms < c.(RecoveryExpiresAt) /\
   r.(Recovery) = recoveryStable /\ r.(Authority) = c.(Authority)) \/
  (op.(op_Kind) = opCompleteRecovery /\ c.(RecoveryExpiresAt) <= ms /\
   r.(Recovery) = recoveryStable /\ r.(Consistency) = consistencyUnavailable /\
   r.(Target) = zero32 /\ r.(Authority) = hex_EncodeToString c.(RecoverySuccessor)).
Proof.
  intros Hp Hl (_ & Hs)%apply_Step. pose proof recovery_states_distinct.
  destruct Hs; try congruence;
    try match goal with L : _ = true |- _ => apply live_stable in L; congruence end; auto 10.
Qed.

(** ** Histories *)

Record Event := MkEvent { ev_seconds : Z; ev_milliseconds : Z; ev_op : Op }.

(** The clock reading is away from its machine limit, and a recovery operation
    carries an authorization that [recovery.Authorize] returned. *)
Definition Issued (ev : Event) : Prop :=
  0 <= ev.(ev_milliseconds) < 2 ^ 63 - Milliseconds maximumRecoveryDelay /\
  (ev.(ev_op).(op_Kind) = opStartRecovery \/ ev.(ev_op).(op_Kind) = opCompleteRecovery ->
   exists policy proof,
     recovery.Authorize policy proof = Ok ev.(ev_op).(op_RecoveryAuthorization) /\
     in_i64 proof.(recovery.ProofStartedAt) /\ in_i64 proof.(recovery.ProofCompletesAt)).

(** The events applied to one name so far, latest first, and its Record. *)
Inductive History (policy : Policy) : list Event -> option NameRecord -> Prop :=
| history_empty : History policy [] None
| history_event evs current ev r :
    History policy evs current -> Issued ev ->
    apply current ev.(ev_seconds) ev.(ev_milliseconds) ev.(ev_op) policy = Ok r ->
    History policy (ev :: evs) (Some r).

(** The start a pending recovery goes back to, with only conflicts after it. *)
Definition startedBy (evs : list Event) (start : Event) (pending : array 32 * array 32 * Z * Z) : Prop :=
  exists later earlier, evs = later ++ start :: earlier /\
    Forall (fun e => e.(ev_op).(op_Kind) = opConflict) later /\
    start.(ev_op).(op_Kind) = opStartRecovery /\
    requested start.(ev_op).(op_RecoveryAuthorization) = pending /\
    start.(ev_op).(op_RecoveryAuthorization).(recovery.StartedAt) <= start.(ev_milliseconds) /\
    i64 (start.(ev_milliseconds) - start.(ev_op).(op_RecoveryAuthorization).(recovery.StartedAt)) <= 30000 /\
    Issued start.

Lemma history_pending policy evs r :
  History policy evs (Some r) -> r.(Recovery) = recoveryPending ->
  exists start, startedBy evs start (pendingOf r).
Proof.
  intros Hh. remember (Some r) as current eqn:E. revert r E.
  induction Hh as [|evs current ev r' Hh IH Hi Ha]; intros r E Hp; [done|]. injection E as ->.
  pose proof recovery_states_distinct.
  destruct current as [c|]; [|apply apply_None in Ha as (_ & ? & _); congruence].
  apply apply_Step in Ha as (_ & Hs). destruct Hs; simpl in Hp; try congruence;
    try match goal with L : _ = true |- _ => apply live_stable in L; congruence end.
  - destruct (IH c eq_refl Hp) as (start & later & earlier & -> & Hall & Hrest).
    exists start, (ev :: later), earlier. split; [done|]. split; [by constructor|done].
  - exists ev, [], evs. split_and!; try done.
Qed.

Lemma complete_distinct :
  opClaim <> opCompleteRecovery /\ opRenew <> opCompleteRecovery /\
  opRelease <> opCompleteRecovery /\ opAdvance <> opCompleteRecovery /\
  opConflict <> opCompleteRecovery /\ opPublish <> opCompleteRecovery /\
  opRotate <> opCompleteRecovery /\ opTransfer <> opCompleteRecovery /\
  opScheduleRecoveryPolicy <> opCompleteRecovery /\
  opActivateRecoveryPolicy <> opCompleteRecovery /\ opStartRecovery <> opCompleteRecovery /\
  opCancelRecovery <> opCompleteRecovery /\ opResumeRecovery <> opCompleteRecovery.
Proof. by vm_compute. Qed.

Lemma Step_complete s ms op c r :
  Step s ms op c r -> op.(op_Kind) = opCompleteRecovery ->
  matchingPendingRecovery c op.(op_RecoveryAuthorization) (str "initiate") = true /\
  c.(RecoveryExpiresAt) <= ms /\
  r = completePendingRecovery c <| Revision := u64 (c.(Revision) + 1) |>.
Proof.
  intros Hs Hk. pose proof complete_distinct. destruct_and!.
  destruct Hs; destruct_or?; try congruence; done.
Qed.

(** The [i64] difference of two instants that are both representable. *)
Lemma i64_elapsed a b : 0 < a <= b -> b < 2 ^ 63 -> i64 (b - a) = b - a.
Proof. intros. apply i64_id. unfold in_i64. lia. Qed.

(** C1: In every history of a name, a recovery completes only after a start of
    the same recovery (same operation id, successor and interval), with nothing
    but conflict reports between the two, and never earlier than 72 hours, less
    the 30 seconds of tolerated skew, after the moment that start was applied. *)
Theorem recovery_time_lock policy ev evs r :
  History policy (ev :: evs) (Some r) -> ev.(ev_op).(op_Kind) = opCompleteRecovery ->
  exists start later earlier,
    evs = later ++ start :: earlier /\
    Forall (fun e => e.(ev_op).(op_Kind) = opConflict) later /\
    start.(ev_op).(op_Kind) = opStartRecovery /\
    requested start.(ev_op).(op_RecoveryAuthorization)
      = requested ev.(ev_op).(op_RecoveryAuthorization) /\
    start.(ev_milliseconds) - 30000 + 72 * 3600 * 1000 <= ev.(ev_milliseconds) /\
    r.(Authority)
      = hex_EncodeToString start.(ev_op).(op_RecoveryAuthorization).(recovery.Successor).
Proof.
  intros Hh Hk. inversion Hh as [|? current ? ? Hh' [_ Hi] Ha]; subst.
  destruct current as [c|].
  2:{ apply apply_None in Ha as (E & _). by destruct complete_distinct as [[] _]; congruence. }
  destruct (Hi (or_intror Hk)) as (pol & proof & Hauth & Hs & Hc).
  destruct (apply_Step _ _ _ _ _ _ Ha) as ((action & Hcur) & Hst).
  apply Step_complete in Hst as (Hm & Hexp & ->); [|done].
  apply requireCurrent_ok in Hcur as (_ & _ & Hv & _).
  apply matchingPendingRecovery_true in Hm as (_ & _ & _ & _ & Eo & Es & Et & Ex).
  destruct (recovery.Authorize_times _ _ _ Hauth) as (Hpos & _ & Hid & _).
  destruct (valid_recovery c Hv) as [(_ & _ & _ & E & _)|(Hp & _)]; [congruence|].
  destruct (history_pending _ _ _ Hh' Hp) as (start & later & earlier & -> & Hall & Hks & Hreq & Hlo & Hhi & [Hms _]).
  unfold requested, pendingOf in *. injection Hreq as R1 R2 R3 R4.
  exists start, later, earlier. split_and!; try done; try congruence.
  - destruct (Authorize_interval _ _ _ Hauth Hs Hc) as (_ & Hint & Hd); [lia|].
    change (Milliseconds maximumRecoveryDelay) with 2592000000 in Hms.
    rewrite i64_elapsed in Hhi by lia. lia.
  - simpl. congruence.
Qed.

(** C27: A claim or a renewal always ends in the future, its grace never ends
    before its Lease, and for a hierarchical name both stay inside those of the
    immediate parent, whose whole lineage is valid and live at that moment.  The
    64-bit additions cannot be used to escape this: an overflowing Lease is
    refused. *)
Theorem lease_fits_parent current s ms op policy r :
  apply current s ms op policy = Ok r ->
  op.(op_Kind) = opClaim \/ op.(op_Kind) = opRenew ->
  s < r.(LeaseExpiresAt) <= r.(GraceExpiresAt) /\
  Forall (fun p => Valid p /\ (liveLease p s).1 = true) op.(op_Parents) /\
  match op.(op_Parents) with
  | [] => Contains op.(op_Name) [dot] = false
  | p :: _ => IsDescendant op.(op_Name) p.(Name) = true /\
              r.(ParentName) = p.(Name) /\ r.(ParentGeneration) = p.(Generation) /\
              r.(LeaseExpiresAt) <= p.(LeaseExpiresAt) /\ r.(GraceExpiresAt) <= p.(GraceExpiresAt)
  end.
Proof.
  intros Ha Hk.
  assert (exists parent, validateParents op.(op_Name) op.(op_Parents) s = Ok parent /\
            within r parent /\ s < r.(LeaseExpiresAt) <= r.(GraceExpiresAt)) as (parent & Hp & Hw & Ht).
  { unfold apply in Ha. inv_ok. destruct Hk as [Hk|Hk]; rewrite Hk in Ha.
    - rewrite bool_decide_eq_true_2 in Ha by done.
      apply applyClaim_ok in Ha as (parent & ? & _ & _ & _ & ? & ? & _). eauto.
    - rewrite bool_decide_eq_false_2, bool_decide_eq_true_2 in Ha by done.
      apply applyRenew_ok in Ha as (c & parent & _ & ? & _ & _ & _ & _ & _ & ? & ? & _). eauto. }
  split; [done|]. apply validateParents_ok in Hp as [Hall Hp]. split; [done|].
  destruct op.(op_Parents), parent; simpl in *; destruct_and?; simplify_eq; auto.
Qed.

(** ** Publication *)

Lemma lineageNotAfter_le c parents :
  lineageNotAfter c parents <= leaseNotAfter c /\
  Forall (fun p => lineageNotAfter c parents <= leaseNotAfter p) parents.
Proof.
  unfold lineageNotAfter. generalize (leaseNotAfter c) as bound.
  induction parents as [|p parents IH]; intros bound; simpl; [by split; [lia|constructor]|].
  destruct (Z.ltb_spec (leaseNotAfter p) bound) as [Hlt|Hge].
  - destruct (IH (leaseNotAfter p)) as [Hb Hall]. split; [lia|]. by constructor.
  - destruct (IH bound) as [Hb Hall]. split; [lia|]. constructor; [lia|done].
Qed.

Lemma lineageNotAfter_lower c parents now :
  now <= leaseNotAfter c -> Forall (fun p => now <= leaseNotAfter p) parents ->
  now <= lineageNotAfter c parents.
Proof.
  unfold lineageNotAfter. generalize (leaseNotAfter c) as bound. intros bound Hb Hall. revert bound Hb.
  induction Hall as [|p parents Hp Hall IH]; intros bound Hb; simpl; [done|].
  apply IH. by destruct (Z.ltb_spec (leaseNotAfter p) bound).
Qed.

Lemma live_leaseNotAfter c now :
  Valid c -> (liveLease c now).1 = true ->
  leaseNotAfter c = c.(GraceExpiresAt) /\ now <= c.(GraceExpiresAt).
Proof.
  intros Hv Hl. destruct (liveLease_Valid c now Hv Hl) as (? & _). split; [|done].
  apply liveLease_true in Hl as (_ & _ & [[El _]|[El _]]); unfold leaseNotAfter; rewrite El; done.
Qed.

(** Until [leaseNotAfter], a live Record stays live. *)
Lemma live_until c now t :
  Valid c -> (liveLease c now).1 = true -> t <= leaseNotAfter c -> (liveLease c t).1 = true.
Proof.
  intros Hv Hl Ht. rewrite (proj1 (live_leaseNotAfter c now Hv Hl)) in Ht.
  apply liveLease_true in Hl as (Hc & Hr & Hl). apply liveLease_true. tauto.
Qed.

(** A published Service Target never outlives the Lease lineage it was
    published under: at every second up to its validity limit the Record itself
    and every parent of the lineage are still live. *)
Theorem publication_within_lineage c s ms op policy r t :
  apply (Some c) s ms op policy = Ok r -> op.(op_Kind) = opPublish ->
  0 <= s -> c.(GraceExpiresAt) * 1000 < 2 ^ 63 ->
  t * 1000 <= r.(RecordNotAfter) ->
  r.(Target) = op.(op_Target) /\ s * 1000 < r.(RecordNotAfter) /\
  (liveLease r t).1 = true /\ Forall (fun p => (liveLease p t).1 = true) op.(op_Parents).
Proof.
  intros Ha Hk Hs Hg Ht. unfold apply in Ha. inv_ok. rewrite Hk in Ha.
  change (applyPublish (Some c) s op = Ok r) in Ha.
  apply applyPublish_ok in Ha as (c' & parent & Hc & Hp & _ & _ & _ & _ & [Hlo Hhi] & Hlive & ->).
  apply requireCurrent_ok in Hc as ([= <-] & _ & Hv & _). simpl in *.
  destruct (live_leaseNotAfter c s Hv Hlive) as [Hna Hsl].
  apply validateParents_ok in Hp as [Hall _].
  destruct (lineageNotAfter_le c op.(op_Parents)) as [Hle Hles].
  assert (s <= lineageNotAfter c op.(op_Parents)) as Hslow.
  { apply lineageNotAfter_lower; [lia|]. eapply Forall_impl; [exact Hall|].
    intros p [Hvp Hlp]. destruct (live_leaseNotAfter p s Hvp Hlp). lia. }
  rewrite i64_id in Hlo, Hhi by (unfold in_i64; lia).
  split; [done|]. split; [lia|]. split.
  - assert ((liveLease c t).1 = true) as Hct by (apply (live_until c s); [done..|lia]).
    apply liveLease_true in Hct. by apply liveLease_true.
  - apply Forall_forall. intros p Hin. rewrite Forall_forall in Hall. rewrite Forall_forall in Hles.
    destruct (Hall p Hin) as [Hvp Hlp]. apply (live_until p s); [done..|].
    specialize (Hles p Hin). lia.
Qed.

(** ** The clock-driven transition *)




















(** ** Conflict evidence *)

(** An operation other than a claim is accepted. *)
Definition Evolves (policy : Policy) (c r : NameRecord) : Prop :=
  exists s ms op, op.(op_Kind) <> opClaim /\ apply (Some c) s ms op policy = Ok r.

Lemma apply_current c s ms op policy r : apply (Some c) s ms op policy = Ok r -> Valid c.
Proof. by intros [(action & (_ & _ & Hv & _)%requireCurrent_ok) _]%apply_Step. Qed.

(** No operation but a claim drops the evidence of a conflict. *)
Lemma evidence_kept policy c r :
  Evolves policy c r -> c.(ConflictIdentifier) <> [] -> r.(ConflictIdentifier) <> [].
Proof.
  intros (s & ms & op & Hk & Ha) He. pose proof (valid_consistency c (apply_current _ _ _ _ _ _ Ha)) as Hc.
  apply apply_Step in Ha as [_ Hstep]. destruct Hstep as [| | | | | |Hk' Hcur| | | | | | | |]; try done.
  destruct Hc as [[_ ?]|[[E _]|[E|E]]]; try done; rewrite Hcur in E; by vm_compute in E.
Qed.

Lemma evidence_stays policy c r :
  rtc (Evolves policy) c r -> c.(ConflictIdentifier) <> [] -> r.(ConflictIdentifier) <> [].
Proof. induction 1; eauto using evidence_kept. Qed.

Lemma conflict_evidence c s ms op policy r :
  op.(op_Kind) = opConflict -> apply (Some c) s ms op policy = Ok r -> r.(ConflictIdentifier) <> [].
Proof.
  intros Hk (_ & Hcases)%apply_cases.
  destruct Hcases as [[E _]|[[E _]|[[E _]|[[E _]|[[_ Hc]|[[E _]|[[[E|E] _]|[[[E|E] _]|[[E|[E|[E|E]]] _]]]]]]]]];
    try (rewrite Hk in E; by vm_compute in E).
  by apply applyConflict_ok in Hc as (c' & _ & _ & _ & Hne & ->).
Qed.

Lemma resume_current c s ms op policy r :
  op.(op_Kind) = opResumeRecovery -> apply (Some c) s ms op policy = Ok r -> r.(Consistency) = consistencyCurrent.
Proof.
  intros Hk [_ Hstep]%apply_Step.
  destruct Hstep as [? ? E|? ? E|E|E|E|E|E|E|[E|E]|E|E|a E|E|E|]; try done; rewrite Hk in E; by vm_compute in E.
Qed.

(** C34: Once a conflict has been reported on a Record, its name cannot be resumed
    any more: whatever operations other than a claim follow, among them the
    completion of a recovery that was pending, a [resume] that is accepted returns
    a Record that is current and still carries the conflict evidence;
    [validateRecord] refuses it, and [apply] accepts no further operation on it. *)
Theorem resume_after_conflict_invalid policy c s ms report c1 c2 s' ms' resume c3 :
  report.(op_Kind) = opConflict -> apply (Some c) s ms report policy = Ok c1 ->
  rtc (Evolves policy) c1 c2 ->
  resume.(op_Kind) = opResumeRecovery -> apply (Some c2) s' ms' resume policy = Ok c3 ->
  c3.(Consistency) = consistencyCurrent /\ c3.(ConflictIdentifier) <> [] /\
  (exists err, validateRecord c3 = Err err) /\
  (forall s'' ms'' op, exists err, apply (Some c3) s'' ms'' op policy = Err err).
Proof.
  intros Hk1 Ha1 Hev Hk3 Ha3.
  assert (c1.(ConflictIdentifier) <> []) as He1 by (by eapply conflict_evidence).
  assert (c3.(ConflictIdentifier) <> []) as He3.
  { eapply (evidence_stays policy c1); [|done]. eapply rtc_r; [done|]. exists s', ms', resume. by rewrite Hk3. }
  assert (c3.(Consistency) = consistencyCurrent) as Hc3 by (by eapply resume_current).
  assert (~ Valid c3) as Hnv.
  { intros [_ _ _ _ _ _ [[_ ?]|[[E _]|[E|E]]] _ _ _]; try done; rewrite Hc3 in E; by vm_compute in E. }
  split_and!; try done.
  - destruct (validateRecord c3) as [[]|err] eqn:E; [|by exists err]. by apply validateRecord_ok in E.
  - intros s'' ms'' op. destruct (apply (Some c3) _ _ _ _) as [r|err] eqn:E; [|by exists err]. destruct Hnv. by eapply apply_current.
Qed.

End Transitions.

(** ** A concrete history and the witnesses *)

Section Samples.
#[local] Existing Instance sample_golib.

Definition samplePolicy : Policy := MkPolicy Hour 0.

Definition sampleHolder : gostring := hex_EncodeToString (recovery.key 100).
Definition sampleSuccessor : gostring := hex_EncodeToString (recovery.key 101).

Definition sampleOp (kind : gostring) (revision : Z) : Op :=
  zeroOp <| op_Kind := kind |> <| op_Name := str "example" |> <| op_Authority := sampleHolder |>
    <| op_ExpectedGeneration := 1 |> <| op_ExpectedRevision := revision |>.

Definition sampleAuth : recovery.Authorization :=
  recovery.authorizationOf recovery.samplePolicy (recovery.sampleProof (str "initiate") 261200000).

Definition claimEvent : Event := MkEvent 1000 1000000
  ((sampleOp opClaim 0) <| op_ExpectedGeneration := 0 |> <| op_Generation := 1 |>
     <| op_LeaseDuration := 2400 * Hour |> <| op_GraceDuration := 24 * Hour |>).
Definition scheduleEvent : Event := MkEvent 2000 2000000
  ((sampleOp opScheduleRecoveryPolicy 1) <| op_PolicyDigest := recovery.Digest recovery.samplePolicy |>
     <| op_PolicyRevision := 1 |> <| op_PolicyDelay := 72 * Hour |>
     <| op_PolicyActivatesAt := 261200000 |>).
Definition activateEvent : Event := MkEvent 261200 261200000 (sampleOp opActivateRecoveryPolicy 2).
Definition startEvent : Event := MkEvent 261200 261200000
  ((sampleOp opStartRecovery 3) <| op_RecoveryAuthorization := sampleAuth |>).
Definition conflictEvent : Event := MkEvent 300000 300000000
  ((sampleOp opConflict 4) <| op_ConflictContext := str "equivocation" |>).
Definition completeEvent (revision : Z) : Event := MkEvent 520400 520400000
  ((sampleOp opCompleteRecovery revision) <| op_RecoveryAuthorization := sampleAuth |>).
Definition resumeEvent : Event := MkEvent 520500 520500000
  ((sampleOp opResumeRecovery 6) <| op_Authority := sampleSuccessor |>
     <| op_Target := recovery.key 9 |> <| op_RecordNotAfter := 600000000 |>).

(** The Record after a list of events, latest first. *)
Fixpoint play (evs : list Event) : option (result NameRecord) :=
  match evs with
  | [] => None
  | ev :: earlier =>
      Some (match play earlier with
            | Some (Err e) => Err e
            | Some (Ok c) =>
                apply (Some c) ev.(ev_seconds) ev.(ev_milliseconds) ev.(ev_op) samplePolicy
            | None => apply None ev.(ev_seconds) ev.(ev_milliseconds) ev.(ev_op) samplePolicy
            end)
  end.

Lemma play_History evs r :
  Forall Issued evs -> play evs = Some (Ok r) -> History samplePolicy evs (Some r).
Proof.
  intros Hall. revert r. induction Hall as [|ev evs Hev Hall IH]; intros r; simpl; [done|].
  intros [= E]. destruct (play evs) as [[c|e]|] eqn:Hp; [|done|].
  - by apply (history_event _ _ (Some c)); [apply IH| |].
  - destruct evs; [|done]. apply (history_event _ _ None); [constructor|done..].
Qed.

Lemma sampleIssued ev :
  0 <= ev.(ev_milliseconds) < 2 ^ 63 - 2592000000 ->
  (ev.(ev_op).(op_Kind) = opStartRecovery \/ ev.(ev_op).(op_Kind) = opCompleteRecovery ->
   ev.(ev_op).(op_RecoveryAuthorization) = sampleAuth) -> Issued ev.
Proof.
  intros Hms Ha. split; [done|]. intros ->%Ha.
  exists recovery.samplePolicy, (recovery.sampleProof (str "initiate") 261200000).
  split; [vm_compute; reflexivity|]. split; by vm_compute.
Qed.

Definition untilStart : list Event := [startEvent; activateEvent; scheduleEvent; claimEvent].
Definition untilComplete : list Event := completeEvent 4 :: untilStart.
Definition untilResume : list Event :=
  [resumeEvent; completeEvent 5; conflictEvent] ++ untilStart.

Ltac issued := apply sampleIssued; [by vm_compute|intros [E|E]; first [reflexivity | by vm_compute in E]].

Lemma untilResume_issued : Forall Issued untilResume.
Proof. repeat constructor; issued. Qed.

Lemma untilComplete_issued : Forall Issued untilComplete.
Proof. repeat constructor; issued. Qed.

Definition emptyRecord : NameRecord :=
  MkRecord [] 0 0 [] [] [] [] zero32 0 [] 0 0 0 0 0 zero32 zero32 zero32 0 0 zero32 0 0 0 0 [].

(** The Record after events that all succeed. *)
Definition recordAfter (evs : list Event) : NameRecord :=
  match play evs with Some (Ok r) => r | _ => emptyRecord end.


Lemma apply_preserves_validity_witness :
  validateRecord (recordAfter untilStart) = Ok tt.
Proof.
  apply (apply_preserves_validity (Some (recordAfter [activateEvent; scheduleEvent; claimEvent]))
           261200 261200000 startEvent.(ev_op) samplePolicy).
  - constructor; [done|done|by vm_compute|..].
    1-3: intros c Hc; apply (inj Some) in Hc; subst c; by vm_compute.
    + intros c Hc _. apply (inj Some) in Hc. subst c.
      exists recovery.samplePolicy, (recovery.sampleProof (str "initiate") 261200000).
      split_and!; first [by vm_compute | vm_compute; reflexivity].
    + intros c _ E. by vm_compute in E.
  - vm_compute. reflexivity.
Defined.

Lemma apply_compare_and_swap_witness :
  Outcome startEvent.(ev_op) (recordAfter [activateEvent; scheduleEvent; claimEvent])
    (recordAfter untilStart).
Proof.
  apply (apply_compare_and_swap _ 261200 261200000 _ samplePolicy). vm_compute. reflexivity.
Defined.

Lemma apply_authority_change_witness :
  (recordAfter untilComplete).(Authority) = sampleSuccessor /\
  (recordAfter untilStart).(RecoveryExpiresAt) <= 520400000.
Proof.
  destruct (apply_authority_change (recordAfter untilStart) 520400 520400000
    (completeEvent 4).(ev_op) samplePolicy (recordAfter untilComplete)) as [(E & _)|[(_ & _ & Ht & E)|(E & _)]].
  - vm_compute. reflexivity.
  - by vm_compute.
  - exfalso. vm_compute in E. destruct E; discriminate.
  - split; [|exact Ht]. rewrite E. vm_compute. reflexivity.
  - exfalso. vm_compute in E. discriminate E.
Defined.

Lemma pending_recovery_is_exclusive_witness :
  pendingOf (recordAfter (conflictEvent :: untilStart)) = pendingOf (recordAfter untilStart).
Proof.
  destruct (pending_recovery_is_exclusive (recordAfter untilStart) 300000 300000000
    conflictEvent.(ev_op) samplePolicy (recordAfter (conflictEvent :: untilStart)))
    as [(_ & _ & E & _)|[(E & _)|(E & _)]].
  - vm_compute. reflexivity.
  - by vm_compute.
  - vm_compute. reflexivity.
  - exact E.
  - exfalso. vm_compute in E. discriminate E.
  - exfalso. vm_compute in E. discriminate E.
Defined.

Lemma recovery_time_lock_witness :
  exists start : Event,
    start.(ev_op).(op_Kind) = opStartRecovery /\
    start.(ev_milliseconds) - 30000 + 72 * 3600 * 1000 <= 520400000.
Proof.
  destruct (recovery_time_lock samplePolicy (completeEvent 4) untilStart (recordAfter untilComplete))
    as (start & _ & _ & _ & _ & Hk & _ & Ht & _).
  - apply play_History; [exact untilComplete_issued|]. vm_compute. reflexivity.
  - reflexivity.
  - exists start. split; [exact Hk|exact Ht].
Defined.


Lemma lease_fits_parent_witness :
  1000 < (recordAfter [claimEvent]).(LeaseExpiresAt) <= (recordAfter [claimEvent]).(GraceExpiresAt).
Proof.
  apply (lease_fits_parent None 1000 1000000 claimEvent.(ev_op) samplePolicy).
  - vm_compute. reflexivity.
  - by left.
Defined.

Definition publishEvent : Event := MkEvent 2000 2000000
  ((sampleOp opPublish 1) <| op_Target := recovery.key 8 |> <| op_RecordNotAfter := 5000000 |>).

Lemma publication_within_lineage_witness :
  (liveLease (recordAfter [publishEvent; claimEvent]) 5000).1 = true.
Proof.
  apply (publication_within_lineage (recordAfter [claimEvent]) 2000 2000000 publishEvent.(ev_op)
           samplePolicy (recordAfter [publishEvent; claimEvent]) 5000).
  - vm_compute. reflexivity.
  - reflexivity.
  - by vm_compute.
  - by vm_compute.
  - by vm_compute.
Defined.

Definition untilConflict : list Event := conflictEvent :: untilStart.

(** A conflict reported while a recovery is pending, the completion of that
    recovery, and the resumption: the code accepts all of it. *)
Lemma resume_after_conflict_invalid_witness :
  History samplePolicy untilResume (Some (recordAfter untilResume)) /\
  (exists err, validateRecord (recordAfter untilResume) = Err err).
Proof.
  split; [apply play_History; [exact untilResume_issued|]; vm_compute; reflexivity|].
  apply (resume_after_conflict_invalid samplePolicy (recordAfter untilStart) 300000 300000000 conflictEvent.(ev_op)
    (recordAfter untilConflict) (recordAfter (completeEvent 5 :: untilConflict)) 520500 520500000 resumeEvent.(ev_op)).
  - reflexivity.
  - vm_compute. reflexivity.
  - apply rtc_once. exists 520400, 520400000, (completeEvent 5).(ev_op). split; [by vm_compute|]. vm_compute. reflexivity.
  - reflexivity.
  - vm_compute. reflexivity.
Defined.

End Samples.
