(* ===== verification/RecordCodec.v ===== *)
(** * Record codec, signed containers and destination bindings

    internal/naming/namespace/record: record_wire.go, record_signature.go and
    record_binding.go. *)

From S2P Require Import Prelude Wire GoLib GoTime Naming Recovery Record RecordLifecycle.
Import record.

Module recordcodec.

(** ** record_wire.go *)

Definition legacyRecordSchemaVersion : Z := 3.
Definition recordSchemaVersion : Z := 4.

Definition leaseCode (value : gostring) : byte :=
  if value ==? leaseActive then x01
  else if value ==? leaseGrace then x02
  else if value ==? leaseReleased then x03
  else x00.

Definition consistencyCode (value : gostring) : byte :=
  if value ==? consistencyCurrent then x01
  else if value ==? consistencyConflict then x02
  else if value ==? consistencyFork then x03
  else if value ==? consistencyUnavailable then x04
  else x00.

Definition recoveryCode (value : gostring) : byte :=
  if value ==? recoveryStable then x01
  else if value ==? recoveryPending then x02
  else x00.

Definition appendRecordString (out : bytes) (value : gostring) : bytes :=
  AppendUint64 out (len value) ++ value.

(** The eleven counters and instants, in wire order. *)
Definition recordNumbers (record : NameRecord) : list Z :=
  [record.(ParentGeneration); record.(LeaseExpiresAt); record.(GraceExpiresAt);
   record.(RecoveryExpiresAt); record.(RecoveryStartedAt); record.(RecoveryPolicyRev);
   record.(RecoveryPolicyDelay); record.(PendingPolicyRev); record.(PendingPolicyDelay);
   record.(PolicyActivatesAt); record.(Continuity)].

(** The cursor methods. *)
Definition uint16 : decoder Z := take_uint 2 (New "name record is truncated").
Definition uint64 : decoder Z := take_uint 8 (New "name record is truncated").

Definition text : decoder gostring :=
  size ← or_error (New "name record string is malformed") uint64;
  take_bytes size (New "name record string is malformed").

Definition target : decoder (array 32) := take_array 32 (New "name record Target is truncated").

Definition leaseTable : list gostring := [[]; leaseActive; leaseGrace; leaseReleased].
Definition consistencyTable : list gostring :=
  [[]; consistencyCurrent; consistencyConflict; consistencyFork; consistencyUnavailable].
Definition recoveryTable : list gostring := [[]; recoveryStable; recoveryPending].

(** [table[code]] unless the code is zero or out of range. *)
Definition stateOf (table : list gostring) (code : byte) : option gostring :=
  if byte_val code =? 0 then None else table !! Z.to_nat (byte_val code).

Definition states : decoder (gostring * gostring * gostring) := fun rest =>
  match rest with
  | a :: b :: d :: rest' =>
      match stateOf leaseTable a, stateOf consistencyTable b, stateOf recoveryTable d with
      | Some lease, Some consistency, Some recovery => Ok ((lease, consistency, recovery), rest')
      | _, _, _ => Err (New "name record contains an unknown state")
      end
  | _ => Err (New "name record states are truncated")
  end.

Definition notAfter (version : Z) : decoder Z :=
  if version =? recordSchemaVersion then
    value ← or_error (New "name record validity is malformed") uint64;
    if 2 ^ 63 - 1 <? value then decode_fail (New "name record validity is malformed")
    else mret (i64 value)
  else mret 0.

Definition schemaVersion : decoder Z :=
  version ← or_error (New "name record has invalid schema version") uint16;
  if negb (version =? legacyRecordSchemaVersion) && negb (version =? recordSchemaVersion)
  then decode_fail (New "name record has invalid schema version")
  else mret version.

Definition recordOf (name : gostring) (generation revision : Z)
  (codes : gostring * gostring * gostring) (authority : gostring)
  (target recoveryPolicy pendingPolicy recoveryOperation recoverySuccessor : array 32)
  (parent : gostring) (numbers : list Z) (conflict : gostring) (recordNotAfter : Z) : NameRecord :=
  let number i := nth i numbers 0 in
  MkRecord name generation revision codes.1.1 codes.1.2 codes.2 authority target recordNotAfter
    parent (number 0%nat) (i64 (number 1%nat)) (i64 (number 2%nat)) (i64 (number 3%nat))
    (i64 (number 4%nat)) recoveryOperation recoverySuccessor recoveryPolicy (number 5%nat)
    (i64 (number 6%nat)) pendingPolicy (number 7%nat) (i64 (number 8%nat)) (i64 (number 9%nat))
    (number 10%nat) conflict.

(** The fields in wire order, with the schema version. *)
Definition decodeFields : decoder (Z * NameRecord) :=
  version ← schemaVersion;
  name ← text;
  generation ← uint64;
  revision ← uint64;
  codes ← states;
  authority ← text;
  bound ← target;
  recoveryPolicy ← target;
  pendingPolicy ← target;
  recoveryOperation ← target;
  recoverySuccessor ← target;
  parent ← text;
  numbers ← take_many 11 uint64;
  conflict ← or_error (New "name record has trailing or malformed bytes") text;
  recordNotAfter ← notAfter version;
  mret (version, recordOf name generation revision codes authority bound recoveryPolicy
    pendingPolicy recoveryOperation recoverySuccessor parent numbers conflict recordNotAfter).

Section Codec.
Context `{GoLib}.

Definition encodeRecord (record : NameRecord) (schema : Z) : result bytes :=
  reject (New "name record schema is unavailable")
    when (negb (schema =? legacyRecordSchemaVersion) && negb (schema =? recordSchemaVersion));
  _ ← validateRecord record;
  let out := AppendUint16 [] schema in
  let out := appendRecordString out record.(Name) in
  let out := AppendUint64 out record.(Generation) in
  let out := AppendUint64 out record.(Revision) in
  let out := out ++ [leaseCode record.(Lease); consistencyCode record.(Consistency);
                     recoveryCode record.(Recovery)] in
  let out := appendRecordString out record.(Authority) in
  let out := out ++ record.(Target) in
  let out := out ++ record.(RecoveryPolicy) in
  let out := out ++ record.(PendingPolicy) in
  let out := out ++ record.(RecoveryOperation) in
  let out := out ++ record.(RecoverySuccessor) in
  let out := appendRecordString out record.(ParentName) in
  let out := foldl AppendUint64 out (recordNumbers record) in
  let out := appendRecordString out record.(ConflictIdentifier) in
  Ok (if schema =? recordSchemaVersion then AppendUint64 out record.(RecordNotAfter) else out).

Definition EncodeRecord (record : NameRecord) : result bytes :=
  encodeRecord record recordSchemaVersion.

Definition DecodeRecord (raw : bytes) : result NameRecord :=
  match decodeFields raw with
  | Err e => Err e
  | Ok ((version, record), rest) =>
      reject (New "name record has trailing or malformed bytes") when (rest !=? []);
      _ ← validateRecord record;
      match encodeRecord record version with
      | Err _ => Err (New "name record is not canonical")
      | Ok canonical =>
          reject (New "name record is not canonical") when (canonical !=? raw);
          Ok record
      end
  end.

(** ** record_signature.go *)

Definition signedRecordSchema : Z := 1.
Definition maximumRecordPayloadBytes : Z := 1846.
Definition maximumSignedRecordBytes : Z := maximumRecordPayloadBytes + 2 + 8 + 64.
Definition recordDomain : gostring := str "ardents-name-record-v1".

Record RecordSigningRequest := MkRequest {
  authority : array 32;
  generation : Z;
  revision : Z;
  recordWire : bytes;
  transcript : bytes
}.

Definition canonicalAuthority (raw : gostring) : result bytes :=
  match hex_DecodeString raw with
  | None => Err (New "name Authority is not a canonical Ed25519 key")
  | Some decoded =>
      reject (New "name Authority is not a canonical Ed25519 key")
        when (negb (len decoded =? 32) || (hex_EncodeToString decoded !=? raw));
      Ok decoded
  end.

Definition AuthorityKey (raw : gostring) : result bytes := canonicalAuthority raw.

Definition recordTranscript (network : array 32) (record : bytes) : bytes :=
  let out := AppendUint16 [] (len recordDomain) in
  let out := out ++ recordDomain in
  let out := out ++ network in
  let out := AppendUint64 out (len record) in
  out ++ record.

Definition newRecordSigningRequest (network : array 32) (record : NameRecord)
  : result RecordSigningRequest :=
  reject (New "name record signing identity is invalid") when (network ==? zero32);
  match canonicalAuthority record.(Authority) with
  | Err _ => Err (New "name record Authority is invalid")
  | Ok public =>
      match EncodeRecord record with
      | Err _ => Err (New "name record cannot be signed")
      | Ok wire =>
          reject (New "name record cannot be signed") when (maximumRecordPayloadBytes <? len wire);
          Ok (MkRequest (to_array 32 public) record.(Generation) record.(Revision) wire
                (recordTranscript network wire))
      end
  end.

Definition seal (request : RecordSigningRequest) (signature : bytes) : result bytes :=
  reject (New "name record signature is invalid")
    when ((len request.(recordWire) =? 0) || (len request.(transcript) =? 0) ||
          negb (len signature =? 64) ||
          negb (ed25519_Verify request.(authority) request.(transcript) signature));
  let out := AppendUint16 [] signedRecordSchema in
  let out := AppendUint64 out (len request.(recordWire)) in
  let out := out ++ request.(recordWire) in
  Ok (out ++ signature).

(** [None] is a nil signer; its [Sign] method is the function. *)
Definition SignWith (network : array 32) (value : NameRecord)
  (signer : option (RecordSigningRequest -> result bytes)) : result bytes :=
  match signer with
  | None => Err (New "name record signer is unavailable")
  | Some sign =>
      request ← newRecordSigningRequest network value;
      signature ← sign request;
      seal request signature
  end.

Definition SignRecord (network : array 32) (record : NameRecord) (private : bytes) : result bytes :=
  reject (New "name record signing identity is invalid") when (negb (len private =? 64));
  request ← newRecordSigningRequest network record;
  let public := drop 32 private in
  let signer := to_array 32 public in
  reject (New "name record Authority does not match signer") when (request.(authority) !=? signer);
  let signature := ed25519_Sign private request.(transcript) in
  reject (New "name Authority private key is inconsistent")
    when (negb (ed25519_Verify public request.(transcript) signature));
  seal request signature.

Definition VerifyRecord (network : array 32) (signed : bytes) : result NameRecord :=
  reject (New "signed name record is malformed")
    when ((network ==? zero32) || (len signed <? 2 + 8 + 64) ||
          (maximumSignedRecordBytes <? len signed));
  reject (New "signed name record schema is invalid")
    when (negb (be_val (take 2 signed) =? signedRecordSchema));
  let size := be_val (take 8 (drop 2 signed)) in
  reject (New "signed name record length is invalid")
    when ((size =? 0) || (maximumRecordPayloadBytes <? size) ||
          negb (size =? len signed - 10 - 64));
  let recordWire := take (Z.to_nat size) (drop 10 signed) in
  let signature := drop (Z.to_nat (10 + size)) signed in
  match DecodeRecord recordWire with
  | Err _ => Err (New "signed name record contains an invalid Record")
  | Ok record =>
      match canonicalAuthority record.(Authority) with
      | Err _ => Err (New "name record signature is invalid")
      | Ok public =>
          reject (New "name record signature is invalid")
            when (negb (ed25519_Verify public (recordTranscript network recordWire) signature));
          Ok record
      end
  end.

(** ** record_binding.go *)

Record Binding := MkBinding {
  bound_Name : gostring;
  bound_Generation : Z;
  bound_Revision : Z;
  bound_Authority : gostring;
  bound_Target : array 32;
  bound_ParentName : gostring;
  bound_ParentGeneration : Z;
  RecordDigest : array 32;
  Commitment : array 32
}.

#[global] Instance eta_Binding : Eta Binding := fun b =>
  MkBinding b.(bound_Name) b.(bound_Generation) b.(bound_Revision) b.(bound_Authority) b.(bound_Target)
    b.(bound_ParentName) b.(bound_ParentGeneration) b.(RecordDigest) b.(Commitment).

Definition recordDigest (record : NameRecord) : result (array 32) :=
  raw ← EncodeRecord record;
  Ok (sha256 raw).

(** The first parent in grace gives the warning. *)
Fixpoint lineageWarning (parents : list NameRecord) (now : Z) : string :=
  match parents with
  | [] => ""
  | p :: rest => if leaseWarning p now ==? "" then lineageWarning rest now else leaseWarning p now
  end%string.

Definition bindingDomain : bytes := str "ardents-h3-name-destination-binding-v1" ++ [x00].

Definition resolveBinding (current : NameRecord) (now : Z) (parents : list NameRecord)
  : result (Binding * string) :=
  reject (New "name record is invalid") when (is_err (validateRecord current));
  reject (New (liveLease current now).2) when (negb (liveLease current now).1);
  reject (New "name has no current Service Target binding") when (current.(Target) ==? zero32);
  match validateParents current.(Name) parents now with
  | Err _ => Err (New "parent lineage is missing or stale")
  | Ok parent =>
      reject (New "parent lineage is missing or stale") when (negb (sameParent current parent));
      digest ← recordDigest current;
      let warning := leaseWarning current now in
      let warning := if (warning ==? "")%string then lineageWarning parents now else warning in
      Ok (MkBinding current.(Name) current.(Generation) current.(Revision) current.(Authority)
            current.(Target) current.(ParentName) current.(ParentGeneration) digest
            (sha256 (bindingDomain ++ digest)), warning)
  end.

Definition ResolveBindingLegacy (current : NameRecord) (now : Z) (parents : list NameRecord)
  : result (Binding * string) :=
  resolveBinding current now parents.

(** record_resolution.go: the error text is kept as the error. *)
Definition canResolve (current : NameRecord) (now : Z) (parents : list NameRecord)
  : bool * (error + string) :=
  match resolveBinding current now parents with
  | Err e => (false, inl e)
  | Ok (_, warning) => (true, inr warning)
  end.

End Codec.

(** ** Codec lemmas *)

(** The Go types of the fields of a Record. *)
Record TypedRecord (r : NameRecord) : Prop := {
  typed_generation : in_u64 r.(Generation);
  typed_revision : in_u64 r.(Revision);
  typed_parent_generation : in_u64 r.(ParentGeneration);
  typed_lease : in_i64 r.(LeaseExpiresAt);
  typed_grace : in_i64 r.(GraceExpiresAt);
  typed_expires : in_i64 r.(RecoveryExpiresAt);
  typed_started : in_i64 r.(RecoveryStartedAt);
  typed_policy : in_u64 r.(RecoveryPolicyRev);
  typed_delay : in_i64 r.(RecoveryPolicyDelay);
  typed_pending : in_u64 r.(PendingPolicyRev);
  typed_pending_delay : in_i64 r.(PendingPolicyDelay);
  typed_activates : in_i64 r.(PolicyActivatesAt);
  typed_continuity : in_u64 r.(Continuity);
  typed_not_after : in_i64 r.(RecordNotAfter);
  typed_name_len : len r.(Name) < 2 ^ 63;
  typed_authority_len : len r.(Authority) < 2 ^ 63;
  typed_parent_len : len r.(ParentName) < 2 ^ 63;
  typed_conflict_len : len r.(ConflictIdentifier) < 2 ^ 63
}.

Definition stringWire (s : gostring) : bytes := be_bytes 8 (len s) ++ s.

(** The encoding as one concatenation. *)
Definition wireOf (r : NameRecord) (schema : Z) : bytes :=
  be_bytes 2 schema ++ stringWire r.(Name) ++ be_bytes 8 r.(Generation) ++ be_bytes 8 r.(Revision) ++
  [leaseCode r.(Lease); consistencyCode r.(Consistency); recoveryCode r.(Recovery)] ++
  stringWire r.(Authority) ++ r.(Target) ++ r.(RecoveryPolicy) ++ r.(PendingPolicy) ++
  r.(RecoveryOperation) ++ r.(RecoverySuccessor) ++ stringWire r.(ParentName) ++
  concat (map (be_bytes 8) (recordNumbers r)) ++ stringWire r.(ConflictIdentifier) ++
  (if schema =? recordSchemaVersion then be_bytes 8 r.(RecordNotAfter) else []).

Definition knownSchema (schema : Z) : Prop :=
  schema = legacyRecordSchemaVersion \/ schema = recordSchemaVersion.

Lemma foldl_AppendUint64 out l :
  foldl AppendUint64 out l = out ++ concat (map (be_bytes 8) l).
Proof.
  revert out. induction l as [|z l IH]; intros out; cbn [foldl map concat].
  - by rewrite app_nil_r.
  - rewrite IH. unfold AppendUint64. by rewrite app_assoc.
Qed.

Section CodecLemmas.
Context `{GoLib}.

Lemma encodeRecord_ok r schema raw :
  encodeRecord r schema = Ok raw <-> knownSchema schema /\ Valid r /\ raw = wireOf r schema.
Proof.
  unfold encodeRecord, knownSchema, legacyRecordSchemaVersion, recordSchemaVersion.
  rewrite <- validateRecord_ok.
  set (e := if schema =? 4 then _ else _).
  assert (e = wireOf r schema) as ->.
  { unfold e, wireOf, appendRecordString, AppendUint16, AppendUint64, stringWire, recordSchemaVersion.
    rewrite !foldl_AppendUint64. fold AppendUint64.
    destruct (schema =? 4); rewrite ?app_nil_r; cbn [app]; by rewrite <- ?app_assoc. }
  destruct (Z.eqb_spec schema 3) as [->|H3]; [|destruct (Z.eqb_spec schema 4) as [->|H4]]; simpl.
  3:{ split; [done|]. intros ([?|?] & _); congruence. }
  all: destruct (validateRecord r) as [[]|e0]; simpl; split; intros Hx; destruct_and?; try done;
    simplify_eq; auto.
Qed.

Lemma reads_text s : len s < 2 ^ 63 -> Reads text (stringWire s) s.
Proof.
  intros Hs. unfold text, stringWire. pose proof (len_nonneg s).
  eapply reads_bind; [apply reads_or_error, reads_uint64; unfold in_u64; lia|].
  by apply reads_take_bytes.
Qed.

Lemma stateOf_lease s :
  s = leaseActive \/ s = leaseGrace \/ s = leaseReleased -> stateOf leaseTable (leaseCode s) = Some s.
Proof. intros [->|[->| ->]]; vm_compute; done. Qed.

Lemma stateOf_consistency s :
  s = consistencyCurrent \/ s = consistencyConflict \/ s = consistencyFork \/ s = consistencyUnavailable ->
  stateOf consistencyTable (consistencyCode s) = Some s.
Proof. intros [->|[->|[->| ->]]]; vm_compute; done. Qed.

Lemma stateOf_recovery s :
  s = recoveryStable \/ s = recoveryPending -> stateOf recoveryTable (recoveryCode s) = Some s.
Proof. intros [->| ->]; vm_compute; done. Qed.

Lemma reads_states r :
  validStates r = true ->
  Reads states [leaseCode r.(Lease); consistencyCode r.(Consistency); recoveryCode r.(Recovery)]
    (r.(Lease), r.(Consistency), r.(Recovery)).
Proof.
  intros (Hl & Hc & Hr)%validStates_true rest. unfold states. simpl app. cbv iota.
  by rewrite stateOf_lease, stateOf_consistency, stateOf_recovery.
Qed.

Lemma Valid_states r : Valid r -> validStates r = true.
Proof.
  intros Hv. apply validStates_true. destruct Hv as [_ _ _ _ _ Hl Hc Hr _ _].
  unfold lease_ok, consistency_ok, recovery_ok in *. tauto.
Qed.

Lemma reads_notAfter schema v :
  knownSchema schema -> 0 <= v < 2 ^ 63 ->
  Reads (notAfter schema) (if schema =? recordSchemaVersion then be_bytes 8 v else [])
    (if schema =? recordSchemaVersion then v else 0).
Proof.
  intros _ Hv. unfold notAfter. destruct (schema =? recordSchemaVersion); [|apply reads_ret].
  rewrite <- (app_nil_r (be_bytes 8 v)).
  eapply reads_bind; [apply reads_or_error, reads_uint64; unfold in_u64; lia|].
  rewrite (proj2 (Z.ltb_ge _ _)) by lia. rewrite i64_id by (unfold in_i64; lia). apply reads_ret.
Qed.

Lemma reads_schema schema :
  knownSchema schema -> Reads schemaVersion (be_bytes 2 schema) schema.
Proof.
  intros Hs. unfold schemaVersion. rewrite <- (app_nil_r (be_bytes 2 schema)).
  eapply reads_bind.
  - apply reads_or_error, reads_uint16. destruct Hs as [->| ->]; by vm_compute.
  - destruct Hs as [->| ->]; apply reads_ret.
Qed.

(** A legacy container carries no validity limit. *)
Definition schemaView (schema : Z) (r : NameRecord) : NameRecord :=
  r <| RecordNotAfter := if schema =? recordSchemaVersion then r.(RecordNotAfter) else 0 |>.

Lemma schemaView_current r : schemaView recordSchemaVersion r = r.
Proof. by destruct r. Qed.

Lemma recordOf_fields schema r :
  TypedRecord r ->
  recordOf r.(Name) r.(Generation) r.(Revision) (r.(Lease), r.(Consistency), r.(Recovery))
    r.(Authority) r.(Target) r.(RecoveryPolicy) r.(PendingPolicy) r.(RecoveryOperation)
    r.(RecoverySuccessor) r.(ParentName) (map u64 (recordNumbers r)) r.(ConflictIdentifier)
    (if schema =? recordSchemaVersion then r.(RecordNotAfter) else 0) = schemaView schema r.
Proof.
  intros []. unfold recordOf, schemaView. simpl. destruct r; simpl in *.
  by rewrite !i64_u64, !u64_id by done.
Qed.

Lemma reads_decodeFields r schema :
  TypedRecord r -> Valid r -> knownSchema schema ->
  Reads decodeFields (wireOf r schema) (schema, schemaView schema r).
Proof.
  intros Ht Hv Hs. pose proof Ht as [? ? _ _ _ _ _ _ _ _ _ _ _ Hna Hn Ha Hp Hc].
  pose proof (valid_not_after r Hv). unfold decodeFields, wireOf.
  eapply reads_bind; [by apply reads_schema|].
  eapply reads_bind; [by apply reads_text|].
  eapply reads_bind; [by apply reads_uint64|].
  eapply reads_bind; [by apply reads_uint64|].
  eapply reads_bind; [by apply reads_states, Valid_states|].
  eapply reads_bind; [by apply reads_text|].
  do 5 (eapply reads_bind; [apply reads_array|]).
  eapply reads_bind; [by apply reads_text|].
  eapply reads_bind.
  { change 11%nat with (length (recordNumbers r)).
    apply (reads_many uint64 (be_bytes 8) u64). intros b _. apply reads_uint64_wrap. }
  eapply reads_bind; [by apply reads_or_error, reads_text|].
  rewrite <- (app_nil_r (if schema =? recordSchemaVersion then be_bytes 8 r.(RecordNotAfter) else [])).
  eapply reads_bind; [apply reads_notAfter; [done|unfold in_i64 in Hna; lia]|].
  rewrite recordOf_fields by done. apply reads_ret.
Qed.

End CodecLemmas.

Section CodecTheorems.
Context `{GoLib}.

Lemma uint64_ok raw v rest : uint64 raw = Ok (v, rest) -> in_u64 v.
Proof. intros E. by apply take_uint_ok in E as [_ E]. Qed.

Lemma text_ok raw s rest :
  text raw = Ok (s, rest) -> len s <= len raw /\ len rest <= len raw.
Proof.
  unfold text. intros E. inv_decode. pose proof (uint64_ok _ _ _ Hd) as [Hv _].
  apply take_uint_ok in Hd as [-> _]; [|done]. apply take_bytes_ok in E as [-> _]; [|done].
  autorewrite with len. pose proof (len_nonneg s). pose proof (len_nonneg rest). lia.
Qed.

Lemma target_ok raw a rest : target raw = Ok (a, rest) -> len rest <= len raw.
Proof. intros ->%take_array_ok. autorewrite with len. lia. Qed.

Lemma uint64_shorter raw v rest : uint64 raw = Ok (v, rest) -> len rest <= len raw.
Proof. intros E. by eapply take_uint_shorter. Qed.

Lemma states_shorter raw v rest : states raw = Ok (v, rest) -> len rest <= len raw.
Proof.
  unfold states. destruct raw as [|a [|b [|d raw]]]; try done.
  do 3 (destruct (stateOf _ _); [|done]). intros [= <- <-]. autorewrite with len. lia.
Qed.

Lemma schemaVersion_ok raw v rest :
  schemaVersion raw = Ok (v, rest) -> knownSchema v /\ len rest <= len raw.
Proof.
  unfold schemaVersion. intros E. inv_decode. unfold uint16 in Hd.
  injection E as <- <-. apply take_uint_shorter in Hd; [|done]. split; [|done].
  unfold knownSchema. rewrite andb_false_iff, !negb_false_iff, !Z.eqb_eq in *. done.
Qed.

Lemma notAfter_ok version raw v rest :
  notAfter version raw = Ok (v, rest) ->
  in_i64 v /\ (version <> recordSchemaVersion -> v = 0).
Proof.
  unfold notAfter. destruct (Z.eqb_spec version recordSchemaVersion); intros E.
  - inv_decode. injection E as <- <-. split; [apply i64_range|done].
  - injection E as <- <-. by split.
Qed.

Lemma typed_recordOf name gen rev codes auth t1 t2 t3 t4 t5 parent numbers conflict na :
  in_u64 gen -> in_u64 rev -> Forall in_u64 numbers -> length numbers = 11%nat -> in_i64 na ->
  len name < 2 ^ 63 -> len auth < 2 ^ 63 -> len parent < 2 ^ 63 -> len conflict < 2 ^ 63 ->
  TypedRecord (recordOf name gen rev codes auth t1 t2 t3 t4 t5 parent numbers conflict na).
Proof.
  intros ? ? Hall Hlen. intros. do 11 (destruct numbers as [|? numbers]; [done|]).
  destruct numbers; [|done]. repeat (inversion Hall as [|?? ? Hall']; clear Hall; rename Hall' into Hall; subst).
  constructor; simpl; auto using i64_range.
Qed.

Lemma decodeFields_ok raw version r rest :
  len raw < 2 ^ 63 -> decodeFields raw = Ok ((version, r), rest) ->
  TypedRecord r /\ knownSchema version /\ (version <> recordSchemaVersion -> r.(RecordNotAfter) = 0).
Proof.
  intros Hlen E. unfold decodeFields in E. inv_decode. injection E as <- <- <-.
  apply schemaVersion_ok in Hd as [Hs ?]. apply notAfter_ok in Hd13 as [Hna Hz].
  repeat match goal with
  | X : text _ = Ok _ |- _ => apply text_ok in X as [? ?]
  | X : target _ = Ok _ |- _ => apply target_ok in X
  | X : states _ = Ok _ |- _ => apply states_shorter in X
  | X : uint64 ?r = Ok _ |- _ =>
      pose proof (uint64_ok _ _ _ X); apply uint64_shorter in X
  end.
  pose proof (take_many_shorter _ _ _ _ _ uint64_shorter Hd11).
  apply (take_many_Forall in_u64) in Hd11 as [Hall Hn]; [|apply uint64_ok].
  split; [|done]. apply typed_recordOf; try done; lia.
Qed.

Lemma DecodeRecord_iff (raw : bytes) (r : NameRecord) :
  len raw < 2 ^ 63 ->
  DecodeRecord raw = Ok r <->
  TypedRecord r /\ exists schema, encodeRecord r schema = Ok raw /\
    (schema = legacyRecordSchemaVersion -> r.(RecordNotAfter) = 0).
Proof.
  intros Hlen. unfold DecodeRecord. split.
  - destruct (decodeFields raw) as [[[version r'] rest]|] eqn:E; [|done].
    apply decodeFields_ok in E as (Ht & Hs & Hz); [|done]. intros Hd. inv_ok. subst r'.
    goprop. subst. split; [done|]. exists version. split; [done|]. intros ->. by apply Hz.
  - intros (Ht & schema & He & Hz). pose proof He as (Hs & Hv & ->)%encodeRecord_ok.
    rewrite (reads_all _ _ _ (reads_decodeFields r schema Ht Hv Hs)).
    assert (schemaView schema r = r) as ->.
    { unfold schemaView. destruct r; simpl in *. destruct Hs as [->| ->]; simpl; [|done].
      by rewrite Hz. }
    rewrite (bool_decide_eq_true_2 ([] = [])) by done. cbn [negb].
    rewrite (proj2 (validateRecord_ok r) Hv). cbn [mbind result_bind].
    rewrite He, bool_decide_eq_true_2 by done. done.
Qed.

(** C31: [DecodeRecord] is the exact inverse of the Record encoding: the byte
    strings it accepts are precisely the canonical encodings, under the current
    or the legacy schema, of the valid Records it returns, and every valid Record
    survives the round trip (the legacy schema when it has no validity limit). *)
Theorem DecodeRecord_exact (raw : bytes) (r : NameRecord) :
  len raw < 2 ^ 63 ->
  DecodeRecord raw = Ok r <->
  TypedRecord r /\ exists schema, encodeRecord r schema = Ok raw /\
    (schema = legacyRecordSchemaVersion -> r.(RecordNotAfter) = 0).
Proof. apply DecodeRecord_iff. Qed.

(** ** Signed containers *)

Definition containerOf (wire signature : bytes) : bytes :=
  be_bytes 2 signedRecordSchema ++ be_bytes 8 (len wire) ++ wire ++ signature.

Lemma canonicalAuthority_ok raw key :
  canonicalAuthority raw = Ok key <-> len key = 32 /\ raw = hex_EncodeToString key.
Proof.
  unfold canonicalAuthority. split.
  - destruct (hex_DecodeString raw) as [d|] eqn:E; [|done]. intros Hc. inv_ok. subst d. goprop. done.
  - intros [Hl ->]. rewrite hex_Decode_Encode, Hl, bool_decide_eq_true_2 by done. done.
Qed.

Lemma newRecordSigningRequest_ok network r request :
  newRecordSigningRequest network r = Ok request ->
  network <> zero32 /\ encodeRecord r recordSchemaVersion = Ok request.(recordWire) /\
  len request.(recordWire) <= maximumRecordPayloadBytes /\
  request.(transcript) = recordTranscript network request.(recordWire) /\
  canonicalAuthority r.(Authority) = Ok (array_bytes request.(authority)).
Proof.
  unfold newRecordSigningRequest. intros Hn. inv_ok. subst request. simpl. goprop.
  split_and!; try done. pose proof (proj1 (canonicalAuthority_ok _ _) Hok) as [Hl _].
  f_equal. symmetry. apply (to_array_bytes 32). unfold len in Hl. lia.
Qed.

Lemma seal_ok request signature signed :
  seal request signature = Ok signed ->
  len signature = 64 /\ ed25519_Verify request.(authority) request.(transcript) signature = true /\
  len request.(recordWire) <> 0 /\ signed = containerOf request.(recordWire) signature.
Proof.
  unfold seal, containerOf, AppendUint16, AppendUint64. intros Hs. inv_ok. goprop. subst signed.
  by rewrite <- !app_assoc.
Qed.

Lemma take_app_n {A} n (l r : list A) : length l = n -> take n (l ++ r) = l.
Proof. intros <-. apply take_app_length. Qed.

Lemma drop_app_n {A} n (l r : list A) : length l = n -> drop n (l ++ r) = r.
Proof. intros <-. apply drop_app_length. Qed.

Lemma VerifyRecord_container network wire signature r key :
  network <> zero32 -> 0 < len wire <= maximumRecordPayloadBytes -> len signature = 64 ->
  DecodeRecord wire = Ok r -> canonicalAuthority r.(Authority) = Ok key ->
  ed25519_Verify key (recordTranscript network wire) signature = true ->
  VerifyRecord network (containerOf wire signature) = Ok r.
Proof.
  intros Hn Hw Hs Hd Ha Hv. unfold VerifyRecord.
  assert (len (containerOf wire signature) = 10 + len wire + 64) as Hl.
  { unfold containerOf. autorewrite with len. lia. }
  unfold maximumSignedRecordBytes, maximumRecordPayloadBytes in *.
  rewrite Hl, bool_decide_eq_false_2 by done.
  rewrite !(proj2 (Z.ltb_ge _ _)) by lia. cbn [orb].
  assert (drop 2 (containerOf wire signature) = be_bytes 8 (len wire) ++ wire ++ signature) as Hd2.
  { unfold containerOf. apply drop_app_n, length_be_bytes. }
  assert (drop 10 (containerOf wire signature) = wire ++ signature) as Hd10.
  { change 10%nat with (2 + 8)%nat. rewrite <- drop_drop, Hd2. apply drop_app_n, length_be_bytes. }
  rewrite Hd2, Hd10. unfold containerOf at 1.
  rewrite !take_app_n by apply length_be_bytes.
  rewrite be_val_bytes2, be_val_bytes8, (u64_id (len wire)) by (unfold in_u64; lia).
  change (u16 signedRecordSchema =? signedRecordSchema) with true. cbn [negb].
  rewrite (proj2 (Z.eqb_neq (len wire) 0)), (proj2 (Z.ltb_ge _ _)) by lia.
  rewrite (proj2 (Z.eqb_eq (len wire) _)) by lia. cbn [orb negb].
  assert (Z.to_nat (len wire) = length wire) as -> by (unfold len; lia).
  rewrite take_app_n, Hd, Ha by done.
  replace (Z.to_nat (10 + len wire)) with (10 + length wire)%nat by (unfold len; lia).
  rewrite <- drop_drop, Hd10, drop_app_n by done. by rewrite Hv.
Qed.

Lemma seal_VerifyRecord network r request signature signed :
  TypedRecord r -> newRecordSigningRequest network r = Ok request ->
  seal request signature = Ok signed -> VerifyRecord network signed = Ok r.
Proof.
  intros Ht (Hn & He & Hl & Htr & Ha)%newRecordSigningRequest_ok (Hs & Hv & Hnz & ->)%seal_ok.
  pose proof (len_nonneg request.(recordWire)).
  apply VerifyRecord_container with (key := request.(authority)); try done.
  - lia.
  - apply DecodeRecord_iff; [unfold maximumRecordPayloadBytes in Hl; lia|].
    split; [done|]. by exists recordSchemaVersion.
  - by rewrite <- Htr.
Qed.

(** Whatever signs a Record, the private key itself or a remote signing port,
    the sealed container verifies under the same network and returns exactly the
    signed Record. *)
Theorem signed_record_roundtrip network r signed :
  TypedRecord r ->
  (exists signer, SignWith network r signer = Ok signed) \/
  (exists private, SignRecord network r private = Ok signed) ->
  VerifyRecord network signed = Ok r.
Proof.
  intros Ht [[[sign|] Hs]|[private Hs]]; [|done|]; unfold SignWith, SignRecord in Hs; inv_ok;
    by eapply seal_VerifyRecord.
Qed.

Lemma VerifyRecord_ok network signed r :
  VerifyRecord network signed = Ok r ->
  exists wire signature key,
    signed = containerOf wire signature /\ len signature = 64 /\
    0 < len wire <= maximumRecordPayloadBytes /\ network <> zero32 /\
    DecodeRecord wire = Ok r /\ canonicalAuthority r.(Authority) = Ok key /\
    ed25519_Verify key (recordTranscript network wire) signature = true.
Proof.
  unfold VerifyRecord. intros Hv. inv_ok. subst.
  set (size := be_val (take 8 (drop 2 signed))) in *. goprop.
  pose proof (be_val_range (take 8 (drop 2 signed))) as [Hr _]. fold size in Hr.
  exists (take (Z.to_nat size) (drop 10 signed)), (drop (Z.to_nat (10 + size)) signed), a0.
  assert (length signed = (10 + Z.to_nat size + 64)%nat) as Hlen by (unfold len in *; lia).
  assert (len (take (Z.to_nat size) (drop 10 signed)) = size) as Hwl.
  { unfold len. rewrite length_take, length_drop. lia. }
  split_and!; try done; try (rewrite Hwl; lia).
  - unfold containerOf. rewrite Hwl.
    replace (Z.to_nat (10 + size)) with (10 + Z.to_nat size)%nat by lia.
    rewrite <- drop_drop, take_drop.
    assert (be_bytes 2 signedRecordSchema = take 2 signed) as ->.
    { match goal with E : be_val (take 2 signed) = _ |- _ => rewrite <- E end.
      replace 2%nat with (length (take 2 signed)) at 1 by (rewrite length_take; lia).
      apply be_bytes_val. }
    assert (be_bytes 8 size = take 8 (drop 2 signed)) as ->.
    { unfold size. replace 8%nat with (length (take 8 (drop 2 signed))) at 1
        by (rewrite length_take, length_drop; lia). apply be_bytes_val. }
    change 10%nat with (2 + 8)%nat. rewrite <- (drop_drop signed 8 2), take_drop, take_drop. done.
  - unfold len. rewrite length_drop. lia.
Qed.

Lemma VerifyRecord_valid network signed r :
  VerifyRecord network signed = Ok r -> Valid r /\ TypedRecord r.
Proof.
  intros (wire & _ & _ & _ & _ & Hw & _ & Hd & _)%VerifyRecord_ok.
  unfold maximumRecordPayloadBytes in Hw.
  apply DecodeRecord_iff in Hd as (Ht & schema & He & _); [|lia].
  by apply encodeRecord_ok in He as (_ & Hv & _).
Qed.

Lemma recordTranscript_inj n1 n2 w1 w2 :
  recordTranscript n1 w1 = recordTranscript n2 w2 -> n1 = n2 /\ w1 = w2.
Proof.
  unfold recordTranscript, AppendUint16, AppendUint64. rewrite <- !app_assoc. intros E.
  apply app_inv_head in E. apply app_inv_head in E. apply app_inv_head in E.
  peel E. peel E. by apply array_eq in Hw.
Qed.

(** A container [VerifyRecord] accepts carries a signature, by the key that
    the returned Record names as its Authority, over a transcript that fixes both
    the network and the Record: the same verified message can never be read as
    another Record, nor as a Record of another network. *)
Theorem VerifyRecord_authentic n1 s1 r1 :
  VerifyRecord n1 s1 = Ok r1 ->
  validateRecord r1 = Ok tt /\
  exists key message signature,
    len key = 32 /\ r1.(Authority) = hex_EncodeToString key /\
    ed25519_Verify key message signature = true /\
    forall n2 s2 r2, VerifyRecord n2 s2 = Ok r2 ->
      exists key' message' signature',
        r2.(Authority) = hex_EncodeToString key' /\
        ed25519_Verify key' message' signature' = true /\
        (message' = message -> n2 = n1 /\ r2 = r1).
Proof.
  intros (w1 & sig1 & k1 & _ & _ & Hw1 & _ & Hd1 & Ha1 & Hv1)%VerifyRecord_ok.
  unfold maximumRecordPayloadBytes in Hw1. split.
  { apply DecodeRecord_iff in Hd1 as (_ & schema & He & _); [|lia].
    apply encodeRecord_ok in He as (_ & Hv & _). by apply validateRecord_ok. }
  apply canonicalAuthority_ok in Ha1 as [Hk1 Ha1]. exists k1, (recordTranscript n1 w1), sig1.
  split_and!; try done.
  intros n2 s2 r2 (w2 & sig2 & k2 & _ & _ & _ & _ & Hd2 & Ha2 & Hv2)%VerifyRecord_ok.
  apply canonicalAuthority_ok in Ha2 as [Hk2 Ha2]. exists k2, (recordTranscript n2 w2), sig2.
  split_and!; try done. intros [-> ->]%recordTranscript_inj. split; [done|congruence].
Qed.

(** ** Destination bindings *)

Lemma resolveBinding_ok current now parents b warning :
  resolveBinding current now parents = Ok (b, warning) ->
  Valid current /\ (liveLease current now).1 = true /\ current.(Target) <> zero32 /\
  (exists parent, validateParents current.(Name) parents now = Ok parent /\
                  sameParent current parent = true) /\
  b = MkBinding current.(Name) current.(Generation) current.(Revision) current.(Authority)
        current.(Target) current.(ParentName) current.(ParentGeneration)
        (sha256 (wireOf current recordSchemaVersion))
        (sha256 (bindingDomain ++ sha256 (wireOf current recordSchemaVersion))).
Proof.
  unfold resolveBinding. intros Hr. inv_ok. goprop.
  unfold recordDigest in Hok0. inv_ok. subst a0.
  apply encodeRecord_ok in Hok1 as (_ & Hv & ->).
  match goal with E : (_, _) = (b, warning) |- _ => injection E as <- _ end. eauto 10.
Qed.

(** The strings hashed for the commitment of a binding. *)
Definition bindingInputs (r : NameRecord) : list bytes :=
  [wireOf r recordSchemaVersion; bindingDomain ++ sha256 (wireOf r recordSchemaVersion)].

(** A resolved destination comes from a valid, live Record with a target,
    whose lineage is valid, live and bound to the same parent generation; and
    its commitment identifies the Record: two resolutions with one commitment
    yield the same binding, or two of the four strings hashed are a SHA-256
    collision. *)
Theorem resolveBinding_sound c1 now1 p1 b1 w1 :
  TypedRecord c1 -> resolveBinding c1 now1 p1 = Ok (b1, w1) ->
  Valid c1 /\ (liveLease c1 now1).1 = true /\ b1.(bound_Target) = c1.(Target) /\
  b1.(bound_Target) <> zero32 /\
  Forall (fun p => Valid p /\ (liveLease p now1).1 = true) p1 /\
  (forall c2 now2 p2 b2 w2,
     TypedRecord c2 -> resolveBinding c2 now2 p2 = Ok (b2, w2) ->
     b1.(Commitment) = b2.(Commitment) -> c1 = c2 /\ b1 = b2 \/ Collision sha256 (bindingInputs c1 ++ bindingInputs c2)).
Proof.
  intros Ht1 (Hv1 & Hl1 & Htg1 & (parent & Hp & _) & ->)%resolveBinding_ok. simpl.
  apply validateParents_ok in Hp as [Hall _]. split_and!; try done.
  intros c2 now2 p2 b2 w2 Ht2 (Hv2 & _ & _ & _ & ->)%resolveBinding_ok. simpl. intros E.
  set (d1 := sha256 (wireOf c1 recordSchemaVersion)) in *.
  set (d2 := sha256 (wireOf c2 recordSchemaVersion)) in *.
  destruct (decide (d1 = d2)) as [Ed|Ed].
  2:{ right. exists (bindingDomain ++ d1), (bindingDomain ++ d2).
      split_and!; [unfold bindingInputs; set_solver..| |done]. intros Eb%app_inv_head. by apply array_eq in Eb. }
  destruct (decide (wireOf c1 recordSchemaVersion = wireOf c2 recordSchemaVersion)) as [Ew|Ew].
  2:{ right. exists (wireOf c1 recordSchemaVersion), (wireOf c2 recordSchemaVersion).
      split_and!; [unfold bindingInputs; set_solver..|done|done]. }
  left. assert (knownSchema recordSchemaVersion) as Hs by by right.
  pose proof (reads_all _ _ _ (reads_decodeFields c1 _ Ht1 Hv1 Hs)) as R1.
  pose proof (reads_all _ _ _ (reads_decodeFields c2 _ Ht2 Hv2 Hs)) as R2.
  rewrite Ew, R2, !schemaView_current in R1. apply (inj Ok), pair_equal_spec in R1 as [R1 _].
  apply pair_equal_spec in R1 as [_ ->]. done.
Qed.

End CodecTheorems.

(** ** Witnesses *)

Section Witnesses.
#[local] Existing Instance sample_golib.

Definition holder : gostring := hex_EncodeToString (recovery.key 100).

Definition sampleRecord : NameRecord :=
  MkRecord (str "example") 1 2 leaseActive consistencyCurrent recoveryStable holder
    (recovery.key 8) 5000000 [] 0 9000 9500 0 0 zero32 zero32 zero32 0 0 zero32 0 0 0 1 [].

Definition samplePrivate : bytes := zero32 ++ recovery.key 100.

Definition okBytes (r : result bytes) : bytes := match r with Ok b => b | Err _ => [] end.

Definition sampleSigned : bytes := okBytes (SignRecord (recovery.key 1) sampleRecord samplePrivate).

Lemma sampleRecord_typed : TypedRecord sampleRecord.
Proof. constructor; by vm_compute. Qed.

Lemma DecodeRecord_exact_witness :
  DecodeRecord (okBytes (EncodeRecord sampleRecord)) = Ok sampleRecord.
Proof.
  apply (DecodeRecord_exact (okBytes (EncodeRecord sampleRecord)) sampleRecord).
  - by vm_compute.
  - split; [exact sampleRecord_typed|]. exists recordSchemaVersion. split; [|done].
    vm_compute. reflexivity.
Defined.

Lemma signed_record_roundtrip_witness : VerifyRecord (recovery.key 1) sampleSigned = Ok sampleRecord.
Proof.
  apply (signed_record_roundtrip (recovery.key 1) sampleRecord sampleSigned).
  - exact sampleRecord_typed.
  - right. exists samplePrivate. vm_compute. reflexivity.
Defined.

Lemma VerifyRecord_authentic_witness : validateRecord sampleRecord = Ok tt.
Proof.
  apply (VerifyRecord_authentic (recovery.key 1) sampleSigned sampleRecord).
  vm_compute. reflexivity.
Defined.

Definition sampleBinding : Binding :=
  MkBinding (str "example") 1 2 holder (recovery.key 8) [] 0
    (sha256 (wireOf sampleRecord 4)) (sha256 (bindingDomain ++ sha256 (wireOf sampleRecord 4))).

Lemma resolveBinding_sound_witness : (liveLease sampleRecord 3000).1 = true.
Proof.
  apply (resolveBinding_sound sampleRecord 3000 [] sampleBinding "").
  - exact sampleRecord_typed.
  - vm_compute. reflexivity.
Defined.

End Witnesses.
End recordcodec.
