(* ===== verification/Admission.v ===== *)
(** * Anonymous-work admission gate

    internal/naming/namespace/admission: challenges, the work check, and the
    boot-scoped gate with its finite spent and in-flight state. *)

From S2P Require Import Prelude GoLib.

Module admission.

(** ** admission_contract.go *)

Record profile := MkProfile {
  profile_Surface : gostring;
  profile_WorkBits : Z;
  MaximumSpent : Z;
  MaximumInFlight : Z
}.

Record Challenge := MkChallenge {
  Node : array 32;
  Network : array 32;
  Epoch : Z;
  Surface : gostring;
  OperationDigest : array 32;
  IsolationBinding : array 32;
  IssuedAt : Z;
  ExpiresAt : Z;
  Nonce : array 16;
  WorkBits : Z;
  AuthenticationTag : array 32
}.

#[global] Instance eta_Challenge : Eta Challenge := fun c =>
  MkChallenge c.(Node) c.(Network) c.(Epoch) c.(Surface) c.(OperationDigest) c.(IsolationBinding)
    c.(IssuedAt) c.(ExpiresAt) c.(Nonce) c.(WorkBits) c.(AuthenticationTag).

Record Proof := MkProof { proof_Challenge : Challenge; WorkNonce : Z }.

(** [inflight] is the number of values in the channel, [slots] its capacity. *)
Record admissionSurface := MkSurface {
  spent : gmap (array 32) Z;
  nextExpiry : Z;
  inflight : Z;
  slots : Z
}.

#[global] Instance eta_surface : Eta admissionSurface := fun s =>
  MkSurface s.(spent) s.(nextExpiry) s.(inflight) s.(slots).

Record Admission := MkAdmission {
  node : array 32;
  network : array 32;
  epoch : Z;
  bootSecret : array 32;
  profiles : list profile;
  surfaces : gmap gostring admissionSurface
}.

#[global] Instance eta_admission : Eta Admission := fun a =>
  MkAdmission a.(node) a.(network) a.(epoch) a.(bootSecret) a.(profiles) a.(surfaces).

Definition AcceptsNode (admission : Admission) (n : array 32) : bool :=
  (n !=? zero32) && (admission.(node) ==? n).

Definition Matches (admission : Admission) (n : array 32) (e : Z) : bool :=
  (n !=? zero32) && negb (e =? 0) && (admission.(network) ==? n) && (admission.(epoch) =? e).

Section Admission.
Context `{GoLib}.

(** ** admission_proof.go *)

Definition admissionText (out : bytes) (value : gostring) : bytes :=
  AppendUint32 out (len value) ++ value.

Definition challengeBytes (challenge : Challenge) (includeTag : bool) : bytes :=
  let out := admissionText [] (str "ardents-name-admission-challenge-v1") in
  let out := out ++ challenge.(Node) in
  let out := out ++ challenge.(Network) in
  let out := AppendUint64 out challenge.(Epoch) in
  let out := admissionText out challenge.(Surface) in
  let out := out ++ challenge.(OperationDigest) in
  let out := out ++ challenge.(IsolationBinding) in
  let out := AppendUint64 out challenge.(IssuedAt) in
  let out := AppendUint64 out challenge.(ExpiresAt) in
  let out := out ++ challenge.(Nonce) in
  let out := out ++ [byte_of challenge.(WorkBits)] in
  if includeTag then out ++ challenge.(AuthenticationTag) else out.

Definition challengeDigest (challenge : Challenge) : array 32 :=
  sha256 (challengeBytes challenge true).

Definition Digest (proof : Proof) : array 32 := challengeDigest proof.(proof_Challenge).

Definition isolationBinding (node operation isolation : array 32) (nonce : array 16) : array 32 :=
  sha256 (str "ardents-name-admission-isolation-v1" ++ [x00] ++ node ++ operation ++ isolation ++ nonce).

Definition BindsIsolation (challenge : Challenge) (isolation : array 32) : bool :=
  isolationBinding challenge.(Node) challenge.(OperationDigest) isolation challenge.(Nonce)
    ==? challenge.(IsolationBinding).

(** [digest[i]]; the indices the code uses are below 32. *)
Definition digit (digest : array 32) (i : Z) : Z :=
  byte_val (default x00 (array_bytes digest !! Z.to_nat i)).

(** The loop over whole bytes; [bits] falls by eight each time round, so that
    [workBits / 8 + 1] rounds are enough. *)
Fixpoint workBytes (fuel : nat) (digest : array 32) (workBits bits : Z) : bool :=
  match fuel with
  | O => false
  | S fuel' =>
      if 8 <=? bits then
        if negb (digit digest ((workBits - bits) / 8) =? 0) then false
        else workBytes fuel' digest workBits (bits - 8)
      else (bits =? 0) || (Z.shiftr (digit digest (workBits / 8)) (8 - bits) =? 0)
  end.

Definition validWorkDigest (digest : array 32) (workBits : Z) : bool :=
  workBytes 32 digest workBits workBits.

Definition validWork (challenge : Challenge) (nonce : Z) : bool :=
  validWorkDigest (sha256 (AppendUint64 (challengeBytes challenge true) nonce)) challenge.(WorkBits).

(** The search, for a bounded number of nonces; the nonce wraps at 64 bits. *)
Fixpoint Solve_from (fuel : nat) (challenge : Challenge) (nonce : Z) : option (Proof * Z) :=
  match fuel with
  | O => None
  | S fuel' =>
      if validWork challenge nonce then Some (MkProof challenge nonce, u64 (nonce + 1))
      else Solve_from fuel' challenge (u64 (nonce + 1))
  end.

Definition Solve (fuel : nat) (challenge : Challenge) : option (Proof * Z) :=
  Solve_from fuel challenge 0.

(** ** admission.go *)

Definition acceptedProfiles : list profile :=
  [MkProfile (str "resolution") 16 4096 64;
   MkProfile (str "renewal-update") 16 2048 32;
   MkProfile (str "policy-recovery") 17 1024 16;
   MkProfile (str "root-claim") 18 1024 8].

Definition freshSurface (p : profile) : admissionSurface := MkSurface ∅ 0 0 p.(MaximumInFlight).

Definition freshSurfaces : gmap gostring admissionSurface :=
  foldl (fun m p => <[p.(profile_Surface) := freshSurface p]> m) ∅ acceptedProfiles.

Definition NewAdmission (node network : array 32) (epoch : Z) (bootSecret : array 32)
  : result Admission :=
  reject (New "naming admission configuration is not the accepted profile")
    when ((node ==? zero32) || (network ==? zero32) || (epoch =? 0) || (bootSecret ==? zero32));
  Ok (MkAdmission node network epoch bootSecret acceptedProfiles freshSurfaces).

Definition profileOf (admission : Admission) (surface : gostring) : option profile :=
  List.find (fun p => p.(profile_Surface) ==? surface) admission.(profiles).

Definition authenticate (admission : Admission) (challenge : Challenge) : array 32 :=
  hmac_sha256 admission.(bootSecret) (challengeBytes challenge false).

(** One step of the loop over the spent map, for the next expiry. *)
Definition nextStep (now : Z) (_ : array 32) (expiry next : Z) : Z :=
  if expiry <=? now then next
  else if (next =? 0) || (expiry <? next) then expiry else next.

Definition removeExpired (state : admissionSurface) (now : Z) : admissionSurface :=
  state <| spent := filter (fun '(_, expiry) => now < expiry) state.(spent) |>
        <| nextExpiry := map_fold (nextStep now) 0 state.(spent) |>.

(** [if state.nextExpiry != 0 && state.nextExpiry <= now { removeExpired }] *)
Definition purge (state : admissionSurface) (now : Z) : admissionSurface :=
  if negb (state.(nextExpiry) =? 0) && (state.(nextExpiry) <=? now)
  then removeExpired state now else state.

Definition spentCount (state : admissionSurface) : Z := Z.of_nat (size state.(spent)).

Definition setSurface (admission : Admission) (surface : gostring) (state : admissionSurface) : Admission :=
  admission <| surfaces := <[surface := state]> admission.(surfaces) |>.

(** A gate opened by [NewAdmission] has a surface for every profile; the missing
    case would be a nil dereference. *)
Definition Issue (admission : Admission) (now : Z) (surface : gostring)
  (operation isolation : array 32) (expires : Z) (nonce : array 16) : Admission * result Challenge :=
  match profileOf admission surface with
  | None => (admission, Err (New "naming admission request is invalid"))
  | Some profile =>
      if (now <? 0) || (operation ==? zero32) || (isolation ==? zero32) || (nonce ==? zero 16) ||
         (expires <=? now) || (30000 <? i64 (expires - now))
      then (admission, Err (New "naming admission request is invalid"))
      else
        match admission.(surfaces) !! surface with
        | None => (admission, Err (New "nil dereference"))
        | Some state =>
            let state := purge state now in
            let admission := setSurface admission surface state in
            if profile.(MaximumSpent) <=? spentCount state
            then (admission, Err (New "naming admission capacity is full"))
            else
              let challenge :=
                MkChallenge admission.(node) admission.(network) admission.(epoch) surface operation
                  (isolationBinding admission.(node) operation isolation nonce) now expires nonce
                  profile.(profile_WorkBits) zero32 in
              (admission, Ok (challenge <| AuthenticationTag := authenticate admission challenge |>))
        end
  end.

(** The scope check of [Verify]. *)
Definition inScope (admission : Admission) (now : Z) (profile : profile) (challenge : Challenge) : bool :=
  (challenge.(Node) ==? admission.(node)) && (challenge.(Network) ==? admission.(network)) &&
  (challenge.(Epoch) =? admission.(epoch)) && (challenge.(WorkBits) =? profile.(profile_WorkBits)) &&
  negb (challenge.(IssuedAt) <? 0) && negb (now <? challenge.(IssuedAt)) &&
  negb (challenge.(ExpiresAt) <=? now) &&
  negb (30000 <? i64 (challenge.(ExpiresAt) - challenge.(IssuedAt))) &&
  (challenge.(OperationDigest) !=? zero32) && (challenge.(IsolationBinding) !=? zero32) &&
  (challenge.(Nonce) !=? zero 16).

(** The body of [Verify] under the surface's mutex. *)
Definition verifyLocked (admission : Admission) (state : admissionSurface) (now : Z) (proof : Proof)
  : admissionSurface * (bool * string) :=
  let challenge := proof.(proof_Challenge) in
  match profileOf admission challenge.(Surface) with
  | None => (state, (false, "invalid-scope"))
  | Some profile =>
      if negb (inScope admission now profile challenge) then (state, (false, "invalid-scope"))
      else if authenticate admission challenge !=? challenge.(AuthenticationTag)
      then (state, (false, "invalid-challenge"))
      else
        let state := purge state now in
        let digest := challengeDigest challenge in
        if bool_decide (is_Some (state.(spent) !! digest)) then (state, (false, "replay"))
        else if profile.(MaximumSpent) <=? spentCount state then (state, (false, "capacity"))
        else if negb (validWork challenge proof.(WorkNonce)) then (state, (false, "insufficient-work"))
        else
          let state := state <| spent := <[digest := challenge.(ExpiresAt)]> state.(spent) |> in
          let state :=
            if (state.(nextExpiry) =? 0) || (challenge.(ExpiresAt) <? state.(nextExpiry))
            then state <| nextExpiry := challenge.(ExpiresAt) |> else state in
          (state, (true, ""))
  end.

(** [select { case state.inflight <- struct{}{}: ... default: }] *)
Definition tryEnter (state : admissionSurface) : option admissionSurface :=
  if state.(inflight) <? state.(slots)
  then Some (state <| inflight := state.(inflight) + 1 |>) else None.

Definition leave (state : admissionSurface) : admissionSurface :=
  state <| inflight := state.(inflight) - 1 |>.

(** One uninterrupted call. *)
Definition Verify (admission : Admission) (now : Z) (proof : Proof) : Admission * (bool * string) :=
  let surface := proof.(proof_Challenge).(Surface) in
  match admission.(surfaces) !! surface with
  | None => (admission, (false, "invalid-scope"%string))
  | Some state =>
      match tryEnter state with
      | None => (admission, (false, "busy"%string))
      | Some state =>
          let '(state, outcome) := verifyLocked admission state now proof in
          (setSurface admission surface (leave state), outcome)
      end
  end.

End Admission.

(** ** The work check *)

Lemma be_val_app l r : be_val (l ++ r) = be_val l * 256 ^ len r + be_val r.
Proof.
  induction r as [|b r IH] using rev_ind.
  { rewrite app_nil_r, len_nil. change (be_val []) with 0. lia. }
  rewrite app_assoc, !be_val_snoc, IH, len_app, Z.pow_add_r by (apply len_nonneg || done).
  change (256 ^ len [b]) with 256. lia.
Qed.

Lemma be_val_zero l : be_val l = 0 <-> Forall (fun b => byte_val b = 0) l.
Proof.
  induction l as [|b l IH] using rev_ind; [done|].
  rewrite be_val_snoc, Forall_app, Forall_singleton, <- IH.
  pose proof (byte_val_range b). pose proof (be_val_range l). lia.
Qed.

Lemma digit_lookup (d : array 32) i b : array_bytes d !! i = Some b -> digit d (Z.of_nat i) = byte_val b.
Proof. intros E. unfold digit. by rewrite Nat2Z.id, E. Qed.

(** What the loop checks once the first [k] bytes are behind it. *)
Lemma workBytes_spec fuel (d : array 32) w k :
  0 <= w < 256 -> 8 * Z.of_nat k <= w -> w / 8 < Z.of_nat k + Z.of_nat fuel ->
  workBytes fuel d w (w - 8 * Z.of_nat k) = true <->
  (forall i, (k <= i)%nat -> Z.of_nat i < w / 8 -> digit d (Z.of_nat i) = 0) /\
  (w mod 8 = 0 \/ Z.shiftr (digit d (w / 8)) (8 - w mod 8) = 0).
Proof.
  intros Hw. revert k. induction fuel as [|fuel IH]; intros k Hk Hf; cbn [workBytes].
  { exfalso. Z.div_mod_to_equations. lia. }
  destruct (Z.leb_spec 8 (w - 8 * Z.of_nat k)) as [H8|H8].
  - replace (w - (w - 8 * Z.of_nat k)) with (Z.of_nat k * 8) by lia. rewrite Z.div_mul by done.
    destruct (Z.eqb_spec (digit d (Z.of_nat k)) 0) as [Hz|Hz]; cbn [negb].
    + replace (w - 8 * Z.of_nat k - 8) with (w - 8 * Z.of_nat (S k)) by lia.
      rewrite IH by lia. split; intros [Hall Hr]; (split; [|done]).
      * intros i Hi. destruct (decide (i = k)) as [->|]; [done|]. apply Hall. lia.
      * intros i Hi. apply Hall. lia.
    + split; [done|]. intros [Hall _]. destruct Hz. apply Hall; [lia|].
      Z.div_mod_to_equations. lia.
  - assert (w - 8 * Z.of_nat k = w mod 8 /\ Z.of_nat k = w / 8) as [-> Hkq]
      by (Z.div_mod_to_equations; lia).
    rewrite orb_true_iff, !Z.eqb_eq. split; [|tauto].
    intros Hr. split; [intros; lia|done].
Qed.

Lemma work_split (d : array 32) w :
  0 <= w < 256 ->
  exists l1 b l2, array_bytes d = l1 ++ b :: l2 /\ len l1 = w / 8 /\ len l2 = 31 - w / 8.
Proof.
  intros Hw. assert (Z.to_nat (w / 8) < length d)%nat as Hlt.
  { rewrite array_length. Z.div_mod_to_equations. lia. }
  destruct (lookup_lt_is_Some_2 _ _ Hlt) as [b Hb].
  exists (take (Z.to_nat (w / 8)) d), b, (drop (S (Z.to_nat (w / 8))) d).
  split; [by rewrite take_drop_middle|]. unfold len. rewrite length_take, length_drop, array_length in *.
  Z.div_mod_to_equations. lia.
Qed.

Lemma validWorkDigest_true (d : array 32) w :
  0 <= w < 256 -> validWorkDigest d w = true <-> be_val d < 2 ^ (256 - w).
Proof.
  intros Hw. destruct (work_split d w Hw) as (l1 & b & l2 & Hd & Hl1 & Hl2).
  unfold validWorkDigest. replace w with (w - 8 * Z.of_nat 0) at 2 by lia.
  rewrite workBytes_spec by (lia || (Z.div_mod_to_equations; lia)).
  assert (digit d (w / 8) = byte_val b) as ->.
  { rewrite <- Hl1. unfold len. apply digit_lookup. rewrite Hd. by apply list_lookup_middle. }
  assert ((forall i, (0 <= i)%nat -> Z.of_nat i < w / 8 -> digit d (Z.of_nat i) = 0) <-> be_val l1 = 0) as ->.
  { rewrite be_val_zero, Forall_lookup, <- Hl1. unfold len. split.
    - intros Hall i c Hc. pose proof (lookup_lt_Some _ _ _ Hc). rewrite <- (Hall i) by lia.
      symmetry. apply digit_lookup. rewrite Hd. by apply lookup_app_l_Some.
    - intros Hall i _ Hi. destruct (lookup_lt_is_Some_2 l1 i) as [c Hc]; [lia|].
      rewrite <- (Hall i c Hc). apply digit_lookup. rewrite Hd. by apply lookup_app_l_Some. }
  rewrite Hd, be_val_app. change (b :: l2) with ([b] ++ l2). rewrite be_val_app, len_app.
  change (len [b]) with 1. change (be_val [b]) with (byte_val b).
  pose proof (byte_val_range b) as Hb. pose proof (be_val_range l1) as [H1 _].
  pose proof (be_val_range l2) as H2. rewrite Hl2 in *. set (q := 31 - w / 8) in *.
  assert (0 <= q) by (unfold q; Z.div_mod_to_equations; lia).
  replace (256 - w) with ((8 - w mod 8) + 8 * q) by (unfold q; Z.div_mod_to_equations; lia).
  pose proof (Z.mod_pos_bound w 8 eq_refl) as Hm. rewrite !Z.pow_add_r by lia.
  rewrite (Z.pow_mul_r 2 8) by lia. change (2 ^ 8) with 256. change (256 ^ 1) with 256.
  rewrite Z.shiftr_div_pow2 by lia.
  assert (0 < 256 ^ q) by (apply Z.pow_pos_nonneg; lia).
  assert (1 <= 2 ^ (8 - w mod 8) <= 256) as Hp.
  { split; [apply (Z.pow_le_mono_r 2 0); lia|apply (Z.pow_le_mono_r 2 _ 8); lia]. }
  assert (w mod 8 = 0 -> 2 ^ (8 - w mod 8) = 256) by (intros ->; done).
  assert (byte_val b / 2 ^ (8 - w mod 8) = 0 <-> byte_val b < 2 ^ (8 - w mod 8)) as ->
    by (rewrite Z.div_small_iff by lia; lia).
  set (P := 2 ^ (8 - w mod 8)) in *. set (Q := 256 ^ q) in *. clearbody P Q. split.
  - intros [E [Hz|Hlt]]; rewrite E; nia.
  - intros Hlt. assert (be_val l1 = 0) by nia. split; [done|]. right. nia.
Qed.

(** ** The spent state *)

(** [next] is the earliest expiry of the map, zero when it is empty. *)
Record Earliest (m : gmap (array 32) Z) (next : Z) : Prop := {
  earliest_lower : forall d e, m !! d = Some e -> 0 < next <= e;
  earliest_reached : m = ∅ /\ next = 0 \/ exists d, m !! d = Some next
}.

Lemma Earliest_fold now m :
  0 <= now -> Earliest (filter (fun '(_, e) => now < e) m) (map_fold (nextStep now) 0 m).
Proof.
  intros Hnow. revert m. apply (map_fold_weak_ind (fun next m =>
    Earliest (filter (fun '(_, e) => now < e) m) next)).
  { rewrite map_filter_empty. constructor; [|by left]. intros d e. by rewrite lookup_empty. }
  intros d e m next Hd [Hlow Hreach]. unfold nextStep.
  destruct (Z.leb_spec e now) as [He|He].
  { rewrite map_filter_insert_not' by (intros; simplify_eq; lia). by constructor. }
  rewrite map_filter_insert_True by lia.
  set (m' := filter (fun '(_, x) => now < x) m) in *.
  assert (m' !! d = None) as Hd' by (apply map_lookup_filter_None; by left).
  destruct (_ || _) eqn:E.
  - constructor; [|right; exists d; by rewrite lookup_insert_eq].
    intros d' e' [[-> ->]|[Hne Hl]]%lookup_insert_Some; [lia|].
    rewrite orb_true_iff, Z.eqb_eq, Z.ltb_lt in E. specialize (Hlow _ _ Hl). lia.
  - rewrite orb_false_iff, Z.eqb_neq, Z.ltb_ge in E. destruct E as [Hnz Hle].
    destruct Hreach as [[_ ->]|[d0 Hd0]]; [done|]. pose proof (Hlow _ _ Hd0). constructor.
    + intros d' e' [[-> ->]|[Hne Hl]]%lookup_insert_Some; [lia|eauto].
    + right. exists d0. rewrite lookup_insert_ne; [done|]. intros ->. congruence.
Qed.

(** The state of one surface of profile [p]. *)
Record SurfaceOk (p : profile) (state : admissionSurface) : Prop := {
  ok_spent : spentCount state <= p.(MaximumSpent);
  ok_slots : state.(slots) = p.(MaximumInFlight);
  ok_earliest : Earliest state.(spent) state.(nextExpiry)
}.

Lemma purge_lookup state now d e :
  Earliest state.(spent) state.(nextExpiry) ->
  (purge state now).(spent) !! d = Some e <-> state.(spent) !! d = Some e /\ now < e.
Proof.
  intros [Hlow Hreach]. unfold purge. destruct (_ && _) eqn:E.
  - simpl. by rewrite map_lookup_filter_Some.
  - split; [|by intros [? _]]. intros Hd. split; [done|]. specialize (Hlow _ _ Hd).
    rewrite andb_false_iff, negb_false_iff, Z.eqb_eq, Z.leb_gt in E. lia.
Qed.

Lemma purge_ok p state now :
  0 <= now -> SurfaceOk p state -> SurfaceOk p (purge state now).
Proof.
  intros Hnow [Hs Hsl He]. unfold purge. destruct (_ && _); [|done].
  constructor; simpl; [|done|by apply Earliest_fold]. unfold spentCount in *. simpl.
  pose proof (map_size_filter (fun '(_, e) => now < e) state.(spent)). lia.
Qed.

Lemma purge_inflight state now :
  (purge state now).(inflight) = state.(inflight) /\ (purge state now).(slots) = state.(slots).
Proof. unfold purge. by destruct (_ && _). Qed.

Section Gate.
Context `{GoLib}.

Lemma inScope_true adm now p c :
  inScope adm now p c = true <->
  c.(Node) = adm.(node) /\ c.(Network) = adm.(network) /\ c.(Epoch) = adm.(epoch) /\
  c.(WorkBits) = p.(profile_WorkBits) /\ 0 <= c.(IssuedAt) <= now /\ now < c.(ExpiresAt) /\
  i64 (c.(ExpiresAt) - c.(IssuedAt)) <= 30000 /\ c.(OperationDigest) <> zero32 /\
  c.(IsolationBinding) <> zero32 /\ c.(Nonce) <> zero 16.
Proof.
  unfold inScope. rewrite !andb_true_iff, !negb_true_iff, !bool_decide_eq_true, !bool_decide_eq_false,
    !Z.eqb_eq, !Z.ltb_ge, Z.leb_gt. tauto.
Qed.

(** What an accepting run of the locked body has checked and done. *)
Record Accepted (adm : Admission) (p : profile) (state state' : admissionSurface) (now : Z) (proof : Proof)
  : Prop := {
  accepted_scope : inScope adm now p proof.(proof_Challenge) = true;
  accepted_tag : proof.(proof_Challenge).(AuthenticationTag) = authenticate adm proof.(proof_Challenge);
  accepted_fresh : (purge state now).(spent) !! Digest proof = None;
  accepted_capacity : spentCount (purge state now) < p.(MaximumSpent);
  accepted_work : validWork proof.(proof_Challenge) proof.(WorkNonce) = true;
  accepted_spent : state'.(spent)
    = <[Digest proof := proof.(proof_Challenge).(ExpiresAt)]> (purge state now).(spent);
  accepted_next : state'.(nextExpiry)
    = (if ((purge state now).(nextExpiry) =? 0) ||
          (proof.(proof_Challenge).(ExpiresAt) <? (purge state now).(nextExpiry))
       then proof.(proof_Challenge).(ExpiresAt) else (purge state now).(nextExpiry))
}.

Ltac rejected := intros [= <- <-]; split; [done|]; split; [done|]; right; split; [done|]; auto.

(** The locked body either accepts, or leaves the surface as it was or purged at
    an instant the scope check has accepted. *)
Lemma verifyLocked_cases adm state now proof state' outcome :
  verifyLocked adm state now proof = (state', outcome) ->
  state'.(inflight) = state.(inflight) /\ state'.(slots) = state.(slots) /\
  ((exists p, profileOf adm proof.(proof_Challenge).(Surface) = Some p /\
      Accepted adm p state state' now proof /\ outcome = (true, "")) \/
   (outcome.1 = false /\ (state' = state \/ 0 <= now /\ state' = purge state now))).
Proof.
  unfold verifyLocked. destruct (profileOf _ _) as [p|]; [|rejected].
  destruct (inScope adm now p proof.(proof_Challenge)) eqn:Hs; [|rejected].
  assert (0 <= now) as Hnow by (apply inScope_true in Hs; lia).
  destruct (purge_inflight state now) as [Hi Hsl]. cbn [negb].
  case_bool_decide as Ht; [|rejected]. cbn [negb].
  case_bool_decide as Hd; [rejected|].
  destruct (Z.leb_spec p.(MaximumSpent) (spentCount (purge state now))) as [Hc|Hc];
    [rejected|].
  destruct (validWork _ _) eqn:Hw; [|rejected]. cbn [negb]. intros [= <- <-].
  assert ((purge state now).(spent) !! Digest proof = None) as Hn by by apply eq_None_not_Some.
  split; [by destruct (_ || _)|]. split; [by destruct (_ || _)|]. left. exists p.
  split; [done|]. split; [|done]. constructor; try done; by destruct (_ || _).
Qed.

Lemma Accepted_ok adm p state state' now proof :
  SurfaceOk p state -> state'.(slots) = state.(slots) ->
  Accepted adm p state state' now proof -> SurfaceOk p state'.
Proof.
  intros Hok Hsl [Hs _ Hf Hc _ Hsp Hn]. apply inScope_true in Hs as (_ & _ & _ & _ & ? & ? & _).
  destruct (purge_ok p state now) as [_ Hsl' [Hlow Hreach]]; [lia|done|].
  constructor.
  - unfold spentCount in *. rewrite Hsp, map_size_insert_None by done. lia.
  - by rewrite Hsl, (ok_slots _ _ Hok).
  - rewrite Hsp, Hn. set (m := (purge state now).(spent)) in *.
    set (n := (purge state now).(nextExpiry)) in *. constructor.
    + intros d e [[<- <-]|[_ Hd]]%lookup_insert_Some.
      * destruct Hreach as [[_ ->]|[d0 Hd0]]; simpl; [lia|].
        specialize (Hlow _ _ Hd0). destruct (_ || _) eqn:E; [lia|].
        rewrite orb_false_iff, Z.eqb_neq, Z.ltb_ge in E. lia.
      * specialize (Hlow _ _ Hd). destruct (_ || _) eqn:E; [|lia].
        rewrite orb_true_iff, Z.eqb_eq, Z.ltb_lt in E. lia.
    + right. destruct (_ || _) eqn:E; [exists (Digest proof); by rewrite lookup_insert_eq|].
      rewrite orb_false_iff, Z.eqb_neq in E. destruct Hreach as [[_ ?]|[d0 Hd0]]; [lia|].
      exists d0. rewrite lookup_insert_ne; [done|]. intros <-. congruence.
Qed.

Lemma verifyLocked_ok adm p state now proof state' outcome :
  verifyLocked adm state now proof = (state', outcome) ->
  profileOf adm proof.(proof_Challenge).(Surface) = Some p ->
  SurfaceOk p state -> SurfaceOk p state'.
Proof.
  intros (_ & Hsl & [(p' & Hp' & Ha & _)|[_ [->|[Hnow ->]]]])%verifyLocked_cases Hp Hok; [|done|].
  - simplify_eq. by eapply Accepted_ok.
  - by apply purge_ok.
Qed.

(** An entry outlives the locked body unless it has expired by then. *)
Lemma verifyLocked_keeps adm p state now proof state' outcome d e :
  verifyLocked adm state now proof = (state', outcome) -> SurfaceOk p state ->
  state.(spent) !! d = Some e -> state'.(spent) !! d = Some e \/ e <= now.
Proof.
  intros Hv [_ _ He] Hd. destruct (decide (e <= now)) as [|Hlt]; [by right|]. left.
  assert ((purge state now).(spent) !! d = Some e) as Hd' by (apply purge_lookup; [done|split; [done|lia]]).
  apply verifyLocked_cases in Hv as (_ & _ & [(p' & _ & [_ _ Hf _ _ -> _] & _)|[_ [->|[_ ->]]]]); try done.
  rewrite lookup_insert_ne; [done|]. intros <-. congruence.
Qed.

End Gate.

(** ** Concurrent use of one gate

    A [Verify] call takes an in-flight slot, then runs its body under the mutex of
    the surface, then gives the slot back; calls interleave between these points,
    and [Issue] purges under the mutex too.  A call is given the instant it runs
    at by its caller, who reads the clock before the call: the bodies run in any
    order of these readings. *)

Record Call := MkCall { call_now : Z; call_proof : Proof }.

Definition call_surface (c : Call) : gostring := c.(call_proof).(proof_Challenge).(Surface).

(** What has happened at a gate: an [Issue], a [Verify] refused before the mutex,
    and a [Verify] whose locked body has run. *)
Inductive event :=
| Issued (surface : gostring) (now : Z)
| Refused (call : Call) (reason : string)
| Verified (call : Call) (outcome : bool * string).

(** The surface and the clock reading of what ran under a mutex. *)
Definition body (ev : event) : option (gostring * Z) :=
  match ev with
  | Issued surface now => Some (surface, now)
  | Refused _ _ => None
  | Verified call _ => Some (call_surface call, call.(call_now))
  end.

Definition bodies (l : list event) : list (gostring * Z) := omap body l.

(** The log is the latest event first. *)
Record World := MkWorld {
  gate : Admission;
  entered : list Call;
  leaving : list Call;
  log : list event
}.

Section World.
Context `{GoLib}.

Inductive step : World -> World -> Prop :=
| step_issue w now surface operation isolation expires nonce :
    step w (MkWorld (Issue w.(gate) now surface operation isolation expires nonce).1
              w.(entered) w.(leaving) (Issued surface now :: w.(log)))
| step_refuse w call reason :
    (w.(gate).(surfaces) !! call_surface call = None /\ reason = "invalid-scope"%string) \/
    (exists st, w.(gate).(surfaces) !! call_surface call = Some st /\ tryEnter st = None /\
                reason = "busy"%string) ->
    step w (MkWorld w.(gate) w.(entered) w.(leaving) (Refused call reason :: w.(log)))
| step_enter w call st st' :
    w.(gate).(surfaces) !! call_surface call = Some st -> tryEnter st = Some st' ->
    step w (MkWorld (setSurface w.(gate) (call_surface call) st') (call :: w.(entered)) w.(leaving) w.(log))
| step_commit w l1 call l2 st st' outcome :
    w.(entered) = l1 ++ call :: l2 ->
    w.(gate).(surfaces) !! call_surface call = Some st ->
    verifyLocked w.(gate) st call.(call_now) call.(call_proof) = (st', outcome) ->
    step w (MkWorld (setSurface w.(gate) (call_surface call) st') (l1 ++ l2) (call :: w.(leaving))
              (Verified call outcome :: w.(log)))
| step_leave w l1 call l2 st :
    w.(leaving) = l1 ++ call :: l2 -> w.(gate).(surfaces) !! call_surface call = Some st ->
    step w (MkWorld (setSurface w.(gate) (call_surface call) (leave st)) w.(entered) (l1 ++ l2) w.(log)).

Inductive reachable : World -> Prop :=
| reachable_open node network epoch secret gate :
    NewAdmission node network epoch secret = Ok gate -> reachable (MkWorld gate [] [] [])
| reachable_step w w' : reachable w -> step w w' -> reachable w'.

(** The challenges accepted so far, latest first. *)
Definition acceptedBy (ev : event) : option Challenge :=
  match ev with
  | Verified call (true, _) => Some call.(call_proof).(proof_Challenge)
  | _ => None
  end.

Definition acceptedChallenges (l : list event) : list Challenge := omap acceptedBy l.

(** Calls that hold a slot of [surface]. *)
Definition count (surface : gostring) (l : list Call) : Z :=
  len (filter (fun c => call_surface c = surface) l).

Definition holders (surface : gostring) (w : World) : Z :=
  count surface w.(entered) + count surface w.(leaving).

Record WorldOk (w : World) : Prop := {
  world_profiles : w.(gate).(profiles) = acceptedProfiles;
  world_dom : forall s, is_Some (w.(gate).(surfaces) !! s) <-> is_Some (profileOf w.(gate) s);
  world_state : forall s p st, profileOf w.(gate) s = Some p -> w.(gate).(surfaces) !! s = Some st ->
    SurfaceOk p st /\ st.(inflight) = holders s w /\ holders s w <= p.(MaximumInFlight)
}.

(** Among the events [l], something ran on the surface of [c] with a clock reading
    at or after its expiry. *)
Definition Outlived (l : list event) (c : Challenge) : Prop :=
  exists late, late ∈ bodies l /\ late.1 = c.(Surface) /\ c.(ExpiresAt) <= late.2.

(** An accepted challenge is spent until something outlives it, and it is accepted
    again only after that, with an earlier clock reading. *)
Record LogOk (gates : gmap gostring admissionSurface) (l : list event) : Prop := {
  log_spent : forall l2 ev l1 c st, l = l2 ++ ev :: l1 -> acceptedBy ev = Some c ->
    gates !! c.(Surface) = Some st ->
    st.(spent) !! challengeDigest c = Some c.(ExpiresAt) \/ Outlived l2 c;
  log_once : forall l3 again r l2 first l1 c, l = l3 ++ Verified again (true, r) :: l2 ++ first :: l1 ->
    again.(call_proof).(proof_Challenge) = c -> acceptedBy first = Some c ->
    again.(call_now) < c.(ExpiresAt) /\ Outlived l2 c
}.

(** ** The log *)

Lemma Outlived_cons ev l c : Outlived l c -> Outlived (ev :: l) c.
Proof.
  intros (late & Hin & Hl). exists late. split; [|done]. unfold bodies. cbn [omap list_omap].
  destruct (body ev); [by right|done].
Qed.

(** A surface is touched and nothing is forgotten. *)
Lemma log_touched gates l s st st' :
  LogOk gates l -> gates !! s = Some st -> st'.(spent) = st.(spent) -> LogOk (<[s := st']> gates) l.
Proof.
  intros [Hsp Ho] Hs E. constructor; [|done]. intros l2 ev l1 c x El Hev [[Es <-]|[_ Hx]]%lookup_insert_Some; [|by eapply Hsp].
  subst s. rewrite E. by eapply Hsp.
Qed.

(** A body runs under the mutex of surface [s]. *)
Lemma log_body gates l s st st' ev :
  LogOk gates l -> gates !! s = Some st ->
  (forall d e, st.(spent) !! d = Some e -> st'.(spent) !! d = Some e \/ exists now, body ev = Some (s, now) /\ e <= now) ->
  (forall call r, ev = Verified call (true, r) -> let c := call.(call_proof).(proof_Challenge) in
     c.(Surface) = s /\ call.(call_now) < c.(ExpiresAt) /\ st.(spent) !! challengeDigest c <> Some c.(ExpiresAt) /\
     st'.(spent) !! challengeDigest c = Some c.(ExpiresAt)) ->
  LogOk (<[s := st']> gates) (ev :: l).
Proof.
  intros [Hsp Ho] Hs Hkeep Hacc. constructor.
  - intros [|ev0 l2] ev1 l1 c x [= <- El] Hev Hx.
    + destruct ev as [| |call [[] r]]; try done. injection Hev as <-.
      destruct (Hacc call r) as (E & _ & _ & Hd); [done|]. rewrite E, lookup_insert_eq in Hx. injection Hx as <-. by left.
    + apply lookup_insert_Some in Hx as [[E <-]|[_ Hx]].
      2:{ destruct (Hsp _ _ _ _ _ El Hev Hx) as [?|?]; [by left|right; by apply Outlived_cons]. }
      rewrite E in Hs. destruct (Hsp _ _ _ _ _ El Hev Hs) as [Hd|?]; [|right; by apply Outlived_cons].
      destruct (Hkeep _ _ Hd) as [?|(now & Hb & Hn)]; [by left|right]. exists (s, now). split; [|done].
      unfold bodies. cbn [omap list_omap]. rewrite Hb. by left.
  - intros [|ev0 l3] again r l2 first l1 c [= -> El] Hc Hf; [|by eapply Ho].
    destruct (Hacc again r) as (E & Hnow & Hn & _); [done|]. rewrite Hc in *. split; [done|].
    rewrite <- E in Hs. by destruct (Hsp _ _ _ _ _ El Hf Hs).
Qed.

Lemma log_refused gates l call reason : LogOk gates l -> LogOk gates (Refused call reason :: l).
Proof.
  intros [Hsp Ho]. constructor.
  - intros [|ev0 l2] ev1 l1 c x [= <- El] Hev Hx; [done|].
    destruct (Hsp _ _ _ _ _ El Hev Hx) as [?|?]; [by left|right; by apply Outlived_cons].
  - intros [|ev0 l3] again r l2 first l1 c [=] Hc Hf. by eapply Ho.
Qed.

(** An [Issue] that changes no surface. *)
Lemma log_issued gates l s now : LogOk gates l -> LogOk gates (Issued s now :: l).
Proof.
  intros [Hsp Ho]. constructor.
  - intros [|ev0 l2] ev1 l1 c x [= <- El] Hev Hx; [done|].
    destruct (Hsp _ _ _ _ _ El Hev Hx) as [?|?]; [by left|right; by apply Outlived_cons].
  - intros [|ev0 l3] again r l2 first l1 c [=] Hc Hf. by eapply Ho.
Qed.

(** ** The surfaces *)

(** One surface is replaced. *)
Lemma world_update w s p st st' e' l' g' :
  WorldOk w -> profileOf w.(gate) s = Some p -> w.(gate).(surfaces) !! s = Some st ->
  let w' := MkWorld (setSurface w.(gate) s st') e' l' g' in
  SurfaceOk p st' -> st'.(inflight) = holders s w' -> holders s w' <= p.(MaximumInFlight) ->
  (forall s', s' <> s -> holders s' w' = holders s' w) -> WorldOk w'.
Proof.
  intros [Hp Hdom Hst] Hps Hs w' Hok Hin Hcap Hother. constructor; simpl.
  - done.
  - intros s'. destruct (decide (s' = s)) as [->|].
    + rewrite lookup_insert_eq. split; [by exists p|eauto].
    + rewrite lookup_insert_ne by done. apply Hdom.
  - intros s' p' x Hp' [[<- <-]|[Hne Hx]]%lookup_insert_Some.
    + change (profileOf w.(gate) s = Some p') in Hp'. by simplify_eq.
    + fold w'. rewrite Hother by done. by apply Hst.
Qed.

Lemma Issue_gate adm now s op iso exp nonce :
  (Issue adm now s op iso exp nonce).1 = adm \/
  exists st p, profileOf adm s = Some p /\ adm.(surfaces) !! s = Some st /\ 0 <= now /\
    (Issue adm now s op iso exp nonce).1 = setSurface adm s (purge st now).
Proof.
  unfold Issue. destruct (profileOf adm s) as [p|]; [|by left].
  destruct (_ || _) eqn:E; [by left|]. destruct (adm.(surfaces) !! s) as [st|]; [|by left].
  right. exists st, p. rewrite !orb_false_iff in E. destruct_and!. goprop. split_and!; try done.
  by destruct (_ <=? _).
Qed.

Lemma count_nonneg s l : 0 <= count s l.
Proof. apply len_nonneg. Qed.

Lemma count_cons s c l : count s (c :: l) = (if decide (call_surface c = s) then 1 else 0) + count s l.
Proof.
  unfold count. rewrite filter_cons. destruct (decide _); [by rewrite len_cons|done].
Qed.

Lemma count_app s l r : count s (l ++ r) = count s l + count s r.
Proof. unfold count. by rewrite filter_app, len_app. Qed.

Lemma count_middle s l1 c l2 :
  count s (l1 ++ c :: l2) = (if decide (call_surface c = s) then 1 else 0) + count s (l1 ++ l2).
Proof. rewrite !count_app, count_cons. lia. Qed.

Lemma freshSurfaces_lookup s :
  freshSurfaces !! s
  = freshSurface <$> List.find (fun p => p.(profile_Surface) ==? s) acceptedProfiles.
Proof.
  destruct (decide (str "resolution" = s)) as [<-|H1]; [by vm_compute|].
  destruct (decide (str "renewal-update" = s)) as [<-|H2]; [by vm_compute|].
  destruct (decide (str "policy-recovery" = s)) as [<-|H3]; [by vm_compute|].
  destruct (decide (str "root-claim" = s)) as [<-|H4]; [by vm_compute|].
  unfold freshSurfaces. simpl. rewrite !lookup_insert_ne, lookup_empty by done. by rewrite !bool_decide_eq_false_2.
Qed.

Lemma acceptedProfiles_bounds p :
  p ∈ acceptedProfiles -> 0 < p.(MaximumSpent) /\ 0 < p.(MaximumInFlight) /\ 0 <= p.(profile_WorkBits) < 256.
Proof. unfold acceptedProfiles. intros Hp. set_unfold in Hp. destruct_or!; subst; by vm_compute. Qed.

Lemma profileOf_accepted adm s p :
  adm.(profiles) = acceptedProfiles -> profileOf adm s = Some p -> p ∈ acceptedProfiles.
Proof.
  unfold profileOf. intros -> [Hin _]%find_some. by apply list_elem_of_In.
Qed.

Lemma NewAdmission_ok node network epoch secret adm :
  NewAdmission node network epoch secret = Ok adm -> WorldOk (MkWorld adm [] [] []).
Proof.
  unfold NewAdmission. intros Hn. inv_ok. subst adm. constructor; cbn [gate log]; [done| |].
  - intros s. unfold profileOf; cbn [surfaces profiles].
    by rewrite freshSurfaces_lookup, fmap_is_Some.
  - intros s p st Hp. unfold profileOf in Hp; cbn [surfaces profiles] in *.
    rewrite freshSurfaces_lookup, Hp. intros [= <-].
    apply (profileOf_accepted (MkAdmission node network epoch secret acceptedProfiles ∅)) in Hp; [|done].
    apply acceptedProfiles_bounds in Hp as (Hs & Hf & _).
    split; [|unfold holders; cbn [entered leaving]; change (count s []) with 0; split; [done|lia]].
    constructor; [unfold spentCount; simpl; rewrite map_size_empty; lia|done|].
    constructor; [intros d e; simpl; by rewrite lookup_empty|by left].
Qed.

(** What the invariant says of a world. *)
Definition Sound (w : World) : Prop := WorldOk w /\ LogOk w.(gate).(surfaces) w.(log).

Lemma issue_ok w now s op iso exp nonce :
  Sound w -> Sound (MkWorld (Issue w.(gate) now s op iso exp nonce).1 w.(entered) w.(leaving) (Issued s now :: w.(log))).
Proof.
  intros [Hw Hl].
  destruct (Issue_gate w.(gate) now s op iso exp nonce) as [->|(st & p & Hp & Hs & Hnow & ->)].
  { split; [by destruct Hw; constructor|by apply log_issued]. }
  destruct (world_state w Hw s p st Hp Hs) as (Hok & Hin & Hcap). split.
  - apply (world_update w s p st); try done; [by apply purge_ok|].
    by rewrite (proj1 (purge_inflight st now)).
  - apply (log_body _ _ _ st); [done|done| |done].
    intros d e Hd. destruct (decide (e <= now)); [right; by exists now|left].
    apply purge_lookup; [by apply (ok_earliest p)|]. split; [done|lia].
Qed.

Lemma enter_ok w call st st' :
  Sound w -> w.(gate).(surfaces) !! call_surface call = Some st -> tryEnter st = Some st' ->
  Sound (MkWorld (setSurface w.(gate) (call_surface call) st') (call :: w.(entered)) w.(leaving) w.(log)).
Proof.
  intros [Hw Hl] Hs Ht. destruct (proj1 (world_dom w Hw _) (mk_is_Some _ _ Hs)) as [p Hp].
  destruct (world_state w Hw _ p st Hp Hs) as ([Ha Hb Hd] & Hin & Hcap).
  unfold tryEnter in Ht. destruct (Z.ltb_spec st.(inflight) st.(slots)) as [Hlt|]; [|done].
  injection Ht as <-. unfold holders in *. split; [|by eapply log_touched].
  apply (world_update w (call_surface call) p st); try done; unfold holders; cbn [entered leaving].
  - simpl. rewrite count_cons, decide_True by done. lia.
  - rewrite count_cons, decide_True by done. lia.
  - intros s' Hne. rewrite count_cons, decide_False by congruence. lia.
Qed.

Lemma leave_ok w l1 call l2 st :
  Sound w -> w.(leaving) = l1 ++ call :: l2 -> w.(gate).(surfaces) !! call_surface call = Some st ->
  Sound (MkWorld (setSurface w.(gate) (call_surface call) (leave st)) w.(entered) (l1 ++ l2) w.(log)).
Proof.
  intros [Hw Hlog] Hl Hs. destruct (proj1 (world_dom w Hw _) (mk_is_Some _ _ Hs)) as [p Hp].
  destruct (world_state w Hw _ p st Hp Hs) as ([Ha Hb Hd] & Hin & Hcap).
  split; [|by eapply log_touched].
  unfold holders in *. rewrite Hl, count_middle, decide_True in * by done.
  apply (world_update w (call_surface call) p st); try done; unfold holders; cbn [entered leaving].
  - simpl. lia.
  - lia.
  - intros s' Hne. rewrite Hl, count_middle, decide_False by congruence. lia.
Qed.

(** What the locked body accepts had not been spent, and is spent afterwards. *)
Lemma verifyLocked_spends adm p st st' call r :
  SurfaceOk p st -> verifyLocked adm st call.(call_now) call.(call_proof) = (st', (true, r)) ->
  let c := call.(call_proof).(proof_Challenge) in
  call.(call_now) < c.(ExpiresAt) /\ st.(spent) !! challengeDigest c <> Some c.(ExpiresAt) /\
  st'.(spent) !! challengeDigest c = Some c.(ExpiresAt).
Proof.
  intros Hok (_ & _ & [(p' & _ & [Hsc _ Hf _ _ Hsp _] & _)|[? _]])%verifyLocked_cases c; [|done].
  apply inScope_true in Hsc as (_ & _ & _ & _ & _ & Hnow & _). split_and!; [exact Hnow| |].
  - intros Hd. assert ((purge st call.(call_now)).(spent) !! Digest call.(call_proof) = Some c.(ExpiresAt)) as E; [|congruence].
    apply purge_lookup; [by apply (ok_earliest p)|by split].
  - rewrite Hsp. apply lookup_insert_eq.
Qed.

Lemma commit_ok w l1 call l2 st st' outcome :
  Sound w -> w.(entered) = l1 ++ call :: l2 ->
  w.(gate).(surfaces) !! call_surface call = Some st ->
  verifyLocked w.(gate) st call.(call_now) call.(call_proof) = (st', outcome) ->
  Sound (MkWorld (setSurface w.(gate) (call_surface call) st') (l1 ++ l2) (call :: w.(leaving))
           (Verified call outcome :: w.(log))).
Proof.
  intros [Hw Hl] He Hs Hv. destruct (proj1 (world_dom w Hw _) (mk_is_Some _ _ Hs)) as [p Hp].
  destruct (world_state w Hw _ p st Hp Hs) as (Hok & Hin & Hcap).
  assert (forall s' g l, holders s' (MkWorld g (l1 ++ l2) (call :: w.(leaving)) l) = holders s' w) as Hh.
  { intros. unfold holders; cbn [entered leaving]. rewrite He, count_middle, count_cons. lia. }
  pose proof (verifyLocked_cases _ _ _ _ _ _ Hv) as (Hi & _ & _). split.
  - apply (world_update w (call_surface call) p st); try done; [by eapply verifyLocked_ok|by rewrite Hi, Hin, Hh|by rewrite Hh].
  - apply (log_body _ _ _ st); [done|done| |].
    + intros d e Hd. destruct (verifyLocked_keeps _ _ _ _ _ _ _ _ _ Hv Hok Hd); [by left|right; eauto].
    + intros call' r [= <- ->]. split; [done|]. by eapply verifyLocked_spends.
Qed.

Lemma step_ok w w' : Sound w -> step w w' -> Sound w'.
Proof.
  intros Hw Hstep. destruct Hstep; eauto using issue_ok, enter_ok, commit_ok, leave_ok.
  destruct Hw as [Hw Hl]. split; [by destruct Hw; constructor|by apply log_refused].
Qed.

Lemma reachable_ok w : reachable w -> Sound w.
Proof.
  induction 1; eauto using step_ok. split; [by eapply NewAdmission_ok|].
  constructor; [by intros [] ? ? ? ? ?|by intros [] ? ? ? ? ? ? ?].
Qed.

(** Nothing is accepted twice when no two events accept the same challenge. *)
Lemma accepted_once l :
  (forall l3 again r l2 first l1 c, l = l3 ++ Verified again (true, r) :: l2 ++ first :: l1 ->
     again.(call_proof).(proof_Challenge) = c -> acceptedBy first = Some c -> False) -> NoDup (acceptedChallenges l).
Proof.
  induction l as [|ev l IH]; intros Hl; [constructor|]. unfold acceptedChallenges. cbn [omap list_omap].
  assert (NoDup (acceptedChallenges l)) as Hn.
  { apply IH. intros l3 again r l2 first l1 c -> Hc Hf. by apply (Hl (ev :: l3) again r l2 first l1 c). }
  destruct ev as [| |call [[] r]]; cbn [acceptedBy]; try done. constructor; [|done].
  intros (first & (l2 & l1 & ->)%list_elem_of_split & Hf)%list_elem_of_omap. by apply (Hl [] call r l2 first l1 _ eq_refl eq_refl).
Qed.

(** C23: However [Issue] and [Verify] calls interleave on one gate, with the locked
    bodies in any order of the clock readings the calls were given: a challenge is
    accepted a second time, with whatever work nonce, only by a call that was given
    an instant before its expiry and was overtaken, since the first acceptance, by
    a call on the same surface that was given an instant at or after the expiry.
    When the bodies run in the order of their clock readings no challenge is
    accepted twice. *)
Theorem admission_one_use w :
  reachable w ->
  (forall l3 again r2 l2 first r1 l1 c,
     w.(log) = l3 ++ Verified again (true, r2) :: l2 ++ Verified first (true, r1) :: l1 ->
     again.(call_proof).(proof_Challenge) = c -> first.(call_proof).(proof_Challenge) = c ->
     again.(call_now) < c.(ExpiresAt) /\
     exists late, late ∈ bodies l2 /\ late.1 = c.(Surface) /\ c.(ExpiresAt) <= late.2) /\
  (StronglySorted (fun later earlier : gostring * Z => earlier.2 <= later.2) (bodies w.(log)) ->
   NoDup (acceptedChallenges w.(log))).
Proof.
  intros [_ [_ Ho]]%reachable_ok. split.
  - intros l3 again r2 l2 first r1 l1 c El Hc Hf. apply (Ho _ _ _ _ _ _ _ El Hc). cbn. by rewrite Hf.
  - intros Hsorted. apply accepted_once. intros l3 again r l2 first l1 c El Hc Hf.
    destruct (Ho _ _ _ _ _ _ _ El Hc Hf) as (Hnow & late & Hin & _ & Hexp).
    rewrite El in Hsorted. unfold bodies in Hsorted. rewrite omap_app in Hsorted.
    apply StronglySorted_app_1_r in Hsorted. cbn [omap list_omap body] in Hsorted.
    apply StronglySorted_inv in Hsorted as [_ Hall]. rewrite Forall_forall in Hall.
    assert (late ∈ omap body (l2 ++ first :: l1)) as Hl by (rewrite omap_app; by apply elem_of_app; left).
    specialize (Hall _ Hl). cbn in Hall. lia.
Qed.

(** In every reachable state of a gate, each surface has at most
    [MaximumSpent] spent challenges and [MaximumInFlight] calls in flight, its
    slot counter is exactly the number of calls that hold a slot, and
    [nextExpiry] is exactly the earliest retained expiry. *)
Theorem admission_bounded w s p :
  reachable w -> profileOf w.(gate) s = Some p ->
  exists st, w.(gate).(surfaces) !! s = Some st /\
    Z.of_nat (size st.(spent)) <= p.(MaximumSpent) /\
    st.(inflight) = holders s w /\ holders s w <= p.(MaximumInFlight) /\
    Earliest st.(spent) st.(nextExpiry).
Proof.
  intros [Hw _]%reachable_ok Hp.
  destruct (proj2 (world_dom w Hw s) (mk_is_Some _ _ Hp)) as [st Hs]. exists st.
  destruct (world_state w Hw s p st Hp Hs) as ([Ha Hb He] & Hin & Hcap). done.
Qed.

(** [validWorkDigest] counts leading zero bits: a digest passes for [w] bits
    exactly when, read as a 256-bit number, it is below [2 ^ (256 - w)]. *)
Theorem validWorkDigest_leading_zeros (d : array 32) (w : Z) :
  0 <= w < 256 -> validWorkDigest d w = true <-> be_val d < 2 ^ (256 - w).
Proof. apply validWorkDigest_true. Qed.

(** ** From challenge to admission *)

Lemma Issue_ok adm now s op iso exp nonce adm' c :
  Issue adm now s op iso exp nonce = (adm', Ok c) ->
  exists p st, profileOf adm s = Some p /\ adm.(surfaces) !! s = Some st /\
    0 <= now /\ op <> zero32 /\ nonce <> zero 16 /\ now < exp /\ i64 (exp - now) <= 30000 /\
    spentCount (purge st now) < p.(MaximumSpent) /\ adm' = setSurface adm s (purge st now) /\
    c.(Node) = adm.(node) /\ c.(Network) = adm.(network) /\ c.(Epoch) = adm.(epoch) /\
    c.(Surface) = s /\ c.(OperationDigest) = op /\
    c.(IsolationBinding) = isolationBinding adm.(node) op iso nonce /\
    c.(IssuedAt) = now /\ c.(ExpiresAt) = exp /\ c.(Nonce) = nonce /\
    c.(WorkBits) = p.(profile_WorkBits) /\ c.(AuthenticationTag) = authenticate adm c.
Proof.
  unfold Issue. destruct (profileOf adm s) as [p|]; [|done].
  destruct (_ || _) eqn:E; [done|]. destruct (adm.(surfaces) !! s) as [st|]; [|done].
  destruct (Z.leb_spec p.(MaximumSpent) (spentCount (purge st now))) as [|Hc]; [done|].
  intros Hi. injection Hi as <- <-. rewrite !orb_false_iff in E. destruct_and!. goprop.
  exists p, st. split_and!; done.
Qed.

Lemma Solve_from_ok fuel c n proof tried :
  Solve_from fuel c n = Some (proof, tried) ->
  proof.(proof_Challenge) = c /\ validWork c proof.(WorkNonce) = true.
Proof.
  revert n. induction fuel as [|fuel IH]; intros n; cbn [Solve_from]; [done|].
  destruct (validWork c n) eqn:E; [|apply IH]. by intros [= <- _].
Qed.

(** A sufficient nonce is found when the search is given as many rounds. *)
Lemma Solve_from_finds c n k :
  0 <= n -> n + Z.of_nat k < 2 ^ 64 -> validWork c (n + Z.of_nat k) = true ->
  exists proof tried, Solve_from (S k) c n = Some (proof, tried).
Proof.
  revert n. induction k as [|k IH]; intros n Hn Hk Hw; cbn [Solve_from].
  { rewrite Z.add_0_r in Hw. rewrite Hw. eauto. }
  destruct (validWork c n); [eauto|]. rewrite u64_id by (unfold in_u64; lia).
  apply IH; [lia|lia|]. by replace (n + 1 + Z.of_nat k) with (n + Z.of_nat (S k)) by lia.
Qed.

Lemma purge_shrinks st t : (size (purge st t).(spent) <= size st.(spent))%nat.
Proof. unfold purge. destruct (_ && _); [|done]. apply map_size_filter. Qed.

(** C32: The honest path works: a challenge issued by a gate in a consistent state,
    once some 64-bit nonce solves it, is solved by the client's search, and the
    proof is accepted at every instant from its issue to its expiry, on the gate
    as the issue left it, when a slot is free and the challenge is fresh there. *)
Theorem issued_challenge_admits adm now s op iso exp nonce adm' c p st t k :
  Issue adm now s op iso exp nonce = (adm', Ok c) ->
  profileOf adm s = Some p -> adm.(surfaces) !! s = Some st -> SurfaceOk p st ->
  st.(inflight) < st.(slots) ->
  isolationBinding adm.(node) op iso nonce <> zero32 ->
  st.(spent) !! challengeDigest c = None ->
  Z.of_nat k < 2 ^ 64 -> validWork c (Z.of_nat k) = true -> now <= t < exp ->
  exists proof tried adm'',
    Solve (S k) c = Some (proof, tried) /\ Verify adm' t proof = (adm'', (true, ""%string)).
Proof.
  intros Hi Hp Hs Hok Hslot Hiso Hfresh Hk Hwork Ht.
  destruct (Solve_from_finds c 0 k) as (proof & tried & Hsolve); [done|lia|done|].
  destruct (Solve_from_ok _ _ _ _ _ Hsolve) as [Hc Hw].
  apply Issue_ok in Hi as (p' & st' & Hp' & Hs' & Hnow & Hop & Hno & Hlt & Hwin & Hcap & -> & E1 & E2 &
    E3 & E4 & E5 & E6 & E7 & E8 & E9 & E10 & E11).
  assert (p' = p) as -> by congruence. assert (st' = st) as -> by congruence.
  subst s op now exp nonce. clear Hp' Hs'.
  assert (inScope (setSurface adm c.(Surface) (purge st c.(IssuedAt))) t p c = true) as Hscope.
  { apply inScope_true. simpl. split_and!; try done; try lia; congruence. }
  set (adm1 := setSurface adm c.(Surface) (purge st c.(IssuedAt))) in *.
  assert (tryEnter (purge st c.(IssuedAt))
          = Some ((purge st c.(IssuedAt)) <| inflight := (purge st c.(IssuedAt)).(inflight) + 1 |>)) as Hte.
  { unfold tryEnter. destruct (purge_inflight st c.(IssuedAt)) as [-> ->].
    by rewrite (proj2 (Z.ltb_lt _ _)). }
  set (st1 := (purge st c.(IssuedAt)) <| inflight := _ |>) in *.
  pose proof (purge_ok p st c.(IssuedAt) Hnow Hok) as Hok1.
  destruct (verifyLocked adm1 st1 t proof) as [st2 outcome] eqn:Hv.
  assert (outcome = (true, ""%string)) as ->.
  { revert Hv. unfold verifyLocked. rewrite Hc. change (profileOf adm1 c.(Surface)) with (profileOf adm c.(Surface)).
    rewrite Hp, Hscope. cbn [negb]. rewrite bool_decide_eq_true_2 by done. cbn [negb].
    rewrite bool_decide_eq_false_2.
    2:{ intros [e He]. apply purge_lookup in He as [He _]; [|exact (ok_earliest p _ Hok1)].
        simpl in He. apply purge_lookup in He as [He _]; [congruence|by apply (ok_earliest p)]. }
    pose proof (purge_shrinks st1 t) as Hsz. simpl in Hsz.
    rewrite (proj2 (Z.leb_gt _ _)) by (unfold spentCount in *; simpl in *; lia).
    rewrite Hw. cbn [negb]. by intros [= _ <-]. }
  exists proof, tried, (setSurface adm1 c.(Surface) (leave st2)). split; [done|].
  unfold Verify. rewrite Hc. unfold adm1 at 1; simpl. rewrite lookup_insert_eq, Hte. by rewrite Hv.
Qed.

End World.

(** ** Witnesses *)

Section Witnesses.
#[local] Existing Instance sample_golib.

Definition key (v : Z) : array 32 := to_array 32 [byte_of v].

Definition sampleGate : Admission :=
  MkAdmission (key 1) (key 2) 1 (key 3) acceptedProfiles freshSurfaces.

Definition sampleIssue : Admission * result Challenge :=
  Issue sampleGate 10 (str "resolution") (key 4) (key 5) 1000 (to_array 16 [x07]).

Definition sampleChallenge : Challenge :=
  match sampleIssue.2 with
  | Ok c => c
  | Err _ => MkChallenge zero32 zero32 0 [] zero32 zero32 0 0 (zero 16) 0 zero32
  end.

Definition sampleCall : Call := MkCall 20 (MkProof sampleChallenge 0).
Definition sampleReplay : Call := MkCall 30 (MkProof sampleChallenge 1).

(** Run one call from start to end on a quiet gate. *)
Definition runCall (w : World) (call : Call) : World :=
  let '(gate, outcome) := Verify w.(gate) call.(call_now) call.(call_proof) in
  MkWorld gate w.(entered) w.(leaving) (Verified call outcome :: w.(log)).

Definition sampleWorld : World :=
  runCall (runCall (MkWorld sampleIssue.1 [] [] [Issued (str "resolution") 10]) sampleCall) sampleReplay.

Lemma setSurface_twice adm s st st' : setSurface (setSurface adm s st) s st' = setSurface adm s st'.
Proof. unfold setSurface; simpl. by rewrite insert_insert_eq. Qed.

Lemma runCall_reachable w call :
  reachable w ->
  (Verify w.(gate) call.(call_now) call.(call_proof)).2.2 <> "busy"%string ->
  is_Some (w.(gate).(surfaces) !! call_surface call) -> reachable (runCall w call).
Proof.
  intros Hw Hb [st Hs]. unfold runCall, Verify in *. unfold call_surface in Hs. rewrite Hs in *.
  destruct (tryEnter st) as [st'|] eqn:Ht; [|done].
  destruct (verifyLocked w.(gate) st' call.(call_now) call.(call_proof)) as [st2 outcome] eqn:Hv.
  set (s := call_surface call).
  set (w1 := MkWorld (setSurface w.(gate) s st') (call :: w.(entered)) w.(leaving) w.(log)).
  set (w2 := MkWorld (setSurface w1.(gate) s st2) w.(entered) (call :: w.(leaving)) (Verified call outcome :: w.(log))).
  assert (reachable w1) as H1 by (eapply reachable_step; [exact Hw|by eapply step_enter]).
  assert (reachable w2) as H2.
  { eapply reachable_step; [exact H1|].
    apply (step_commit w1 [] call w.(entered) st'); [done|apply lookup_insert_eq|exact Hv]. }
  assert (step w2 (MkWorld (setSurface w2.(gate) s (leave st2)) w.(entered) w.(leaving)
                     (Verified call outcome :: w.(log)))) as H3.
  { apply (step_leave w2 [] call w.(leaving)); [done|apply lookup_insert_eq]. }
  pose proof (reachable_step _ _ H2 H3) as H4. simpl in H4. by rewrite !setSurface_twice in H4.
Qed.

Lemma sampleIssue_reachable : reachable (MkWorld sampleIssue.1 [] [] [Issued (str "resolution") 10]).
Proof.
  eapply reachable_step; [apply (reachable_open (key 1) (key 2) 1 (key 3)); by vm_compute|].
  apply (step_issue (MkWorld sampleGate [] [] []) 10).
Qed.

Ltac run_sample_call :=
  apply runCall_reachable; [|vm_compute; congruence|by apply (bool_decide_unpack _); vm_compute].

Lemma sampleWorld_reachable : reachable sampleWorld.
Proof. unfold sampleWorld. do 2 run_sample_call. exact sampleIssue_reachable. Qed.

(** The same challenge presented with a stale clock reading, after another client
    was issued a challenge past its expiry. *)
Definition lateIssue (w : World) : World :=
  MkWorld (Issue w.(gate) 1000 (str "resolution") (key 4) (key 5) 2000 (to_array 16 [x08])).1
    w.(entered) w.(leaving) (Issued (str "resolution") 1000 :: w.(log)).

Definition staleWorld : World :=
  runCall (lateIssue (runCall (MkWorld sampleIssue.1 [] [] [Issued (str "resolution") 10]) sampleCall)) sampleReplay.

Lemma staleWorld_reachable : reachable staleWorld.
Proof.
  unfold staleWorld. run_sample_call. eapply reachable_step; [|apply step_issue]. run_sample_call.
  exact sampleIssue_reachable.
Qed.

(** The replay is refused in the order of the clock readings; the stale one is
    accepted, overtaken by the issue at the expiry. *)
Lemma admission_one_use_witness :
  (map body sampleWorld.(log) = [Some (str "resolution", 30); Some (str "resolution", 20); Some (str "resolution", 10)] /\
   NoDup (acceptedChallenges sampleWorld.(log))) /\
  (acceptedChallenges staleWorld.(log) = [sampleChallenge; sampleChallenge] /\
   exists late, late ∈ [(str "resolution", 1000)] /\ sampleChallenge.(ExpiresAt) <= late.2).
Proof.
  split.
  - split; [vm_compute; reflexivity|]. apply (admission_one_use sampleWorld); [exact sampleWorld_reachable|].
    assert (bodies sampleWorld.(log) = [(str "resolution", 30); (str "resolution", 20); (str "resolution", 10)]) as ->
      by (vm_compute; reflexivity).
    repeat constructor; cbn; lia.
  - split; [vm_compute; reflexivity|].
    destruct (admission_one_use staleWorld staleWorld_reachable) as [Hover _].
    destruct (Hover [] sampleReplay "" [Issued (str "resolution") 1000] sampleCall ""
      [Issued (str "resolution") 10] sampleChallenge) as (_ & late & Hin & _ & Hexp); [vm_compute; reflexivity|done|done|].
    exists late. split; [exact Hin|exact Hexp].
Defined.

Lemma admission_bounded_witness :
  exists st, sampleWorld.(gate).(surfaces) !! str "resolution" = Some st /\
    Z.of_nat (size st.(spent)) <= 4096.
Proof.
  destruct (admission_bounded sampleWorld (str "resolution") (MkProfile (str "resolution") 16 4096 64))
    as (st & Hs & Hb & _).
  - exact sampleWorld_reachable.
  - vm_compute. reflexivity.
  - exists st. split; [exact Hs|exact Hb].
Defined.

Lemma validWorkDigest_leading_zeros_witness : be_val (sha256 [x01]) < 2 ^ (256 - 18).
Proof.
  apply (validWorkDigest_leading_zeros (sha256 [x01]) 18); [lia|]. vm_compute. reflexivity.
Defined.

Lemma issued_challenge_admits_witness :
  exists proof tried adm'',
    Solve 1 sampleChallenge = Some (proof, tried) /\
    Verify sampleIssue.1 20 proof = (adm'', (true, ""%string)).
Proof.
  assert (SurfaceOk (MkProfile (str "resolution") 16 4096 64)
            (freshSurface (MkProfile (str "resolution") 16 4096 64))) as Hok.
  { constructor; [by vm_compute|done|].
    constructor; [intros d e; simpl; by rewrite lookup_empty|by left]. }
  apply (issued_challenge_admits sampleGate 10 (str "resolution") (key 4) (key 5) 1000
    (to_array 16 [x07]) sampleIssue.1 sampleChallenge (MkProfile (str "resolution") 16 4096 64)
    (freshSurface (MkProfile (str "resolution") 16 4096 64)) 20 0);
    first [exact Hok | by vm_compute | vm_compute; reflexivity].
Defined.

End Witnesses.
End admission.
