(* ===== verification/Merkle.v ===== *)
(** * Inclusion proofs of left-complete Merkle trees

    The tree, path and verification loop that the claim package
    ([claimTreeRoot], [verifyInclusion]) and the epoch package
    ([namespaceHashedCommitmentRoot], [namespaceProof], [verifyNamespaceProof])
    share, over an abstract branch hash.  The verification loop walks from the
    leaf to the root with two 32-bit counters; the reference reading is the list
    of turns from the leaf up.  The theorems: the loop takes exactly the turns of
    the tree (and only right turns after them), a path built for a leaf verifies,
    and a verified path to the root of a tree leads to that very leaf unless the
    branch hash collides with itself or with a leaf hash. *)

From S2P Require Import Prelude GoLib.

(** [split := 1; for split<<1 < length { split <<= 1 }]; 32 rounds cover every
    length below [2 ^ 32]. *)
Fixpoint splitLoop (fuel : nat) (split length : Z) : Z :=
  match fuel with
  | O => split
  | S fuel' => if Z.shiftl split 1 <? length then splitLoop fuel' (Z.shiftl split 1) length else split
  end.

Definition treeSplit (length : Z) : Z := splitLoop 64 1 length.

(** [for fn&1 == 0 && fn != 0 { fn >>= 1; sn >>= 1 }] *)
Fixpoint stripZeros (fuel : nat) (fn sn : Z) : Z * Z :=
  match fuel with
  | O => (fn, sn)
  | S fuel' =>
      if (Z.land fn 1 =? 0) && negb (fn =? 0)
      then stripZeros fuel' (Z.shiftr fn 1) (Z.shiftr sn 1)
      else (fn, sn)
  end.

Section Tree.
Variable branch : array 32 -> array 32 -> array 32.

(** The root over hashed leaves; the recursion halves the list, so that its
    length is enough fuel. The value on the empty list is the caller's. *)
Fixpoint rootLoop (fuel : nat) (leaves : list (array 32)) (empty : array 32) : array 32 :=
  match fuel with
  | O => empty
  | S fuel' =>
      match leaves with
      | [] => empty
      | [leaf] => leaf
      | _ =>
          let split := Z.to_nat (treeSplit (len leaves)) in
          branch (rootLoop fuel' (take split leaves) empty) (rootLoop fuel' (drop split leaves) empty)
      end
  end.

Definition treeRoot (leaves : list (array 32)) (empty : array 32) : array 32 :=
  rootLoop (S (length leaves)) leaves empty.

(** The loop of the verifier: the value, [fn] and [sn] after the siblings. *)
Fixpoint climb (value : array 32) (fn sn : Z) (path : list (array 32)) : array 32 * Z * Z :=
  match path with
  | [] => (value, fn, sn)
  | sibling :: rest =>
      if (Z.land fn 1 =? 1) || (fn =? sn) then
        let '(fn, sn) := stripZeros 32 fn sn in
        climb (branch sibling value) (Z.shiftr fn 1) (Z.shiftr sn 1) rest
      else climb (branch value sibling) (Z.shiftr fn 1) (Z.shiftr sn 1) rest
  end.

Definition verifyPath (leaf : array 32) (index length : Z) (path : list (array 32)) (root : array 32) : bool :=
  if (length =? 0) || (length <=? index) then false
  else
    let '(value, _, sn) := climb leaf index (u32 (length - 1)) path in
    (sn =? 0) && (value ==? root).

(** The siblings of a leaf, from the leaf up. *)
Fixpoint pathLoop (fuel : nat) (leaves : list (array 32)) (index : Z) (empty : array 32) : list (array 32) :=
  match fuel with
  | O => []
  | S fuel' =>
      if len leaves <=? 1 then []
      else
        let split := treeSplit (len leaves) in
        if index <? split
        then pathLoop fuel' (take (Z.to_nat split) leaves) index empty ++
               [treeRoot (drop (Z.to_nat split) leaves) empty]
        else pathLoop fuel' (drop (Z.to_nat split) leaves) (index - split) empty ++
               [treeRoot (take (Z.to_nat split) leaves) empty]
  end.

Definition treePath (leaves : list (array 32)) (index : Z) (empty : array 32) : list (array 32) :=
  pathLoop (length leaves) leaves index empty.

End Tree.

(** ** Arithmetic of the counters *)

Definition pow2 (j : nat) : Z := 2 ^ Z.of_nat j.

Lemma pow2_pos j : 0 < pow2 j.
Proof. apply Z.pow_pos_nonneg; lia. Qed.

Lemma pow2_S j : pow2 (S j) = 2 * pow2 j.
Proof. unfold pow2. rewrite Nat2Z.inj_succ, Z.pow_succ_r by lia. done. Qed.

Lemma pow2_le j k : (j <= k)%nat -> pow2 j <= pow2 k.
Proof. intros. apply Z.pow_le_mono_r; lia. Qed.

Lemma land_1 z : Z.land z 1 = z mod 2.
Proof. apply (Z.land_ones z 1). lia. Qed.

Lemma shiftr_1 z : Z.shiftr z 1 = z / 2.
Proof. rewrite Z.shiftr_div_pow2 by lia. done. Qed.

Lemma splitLoop_spec fuel j n :
  pow2 j < n -> n <= pow2 (j + fuel) ->
  exists k, splitLoop fuel (pow2 j) n = pow2 k /\ pow2 k < n <= pow2 (S k).
Proof.
  revert j. induction fuel as [|fuel IH]; intros j Hlo Hhi; cbn [splitLoop].
  { rewrite Nat.add_0_r in Hhi. lia. }
  rewrite Z.shiftl_mul_pow2 by lia. change (2 ^ 1) with 2.
  replace (pow2 j * 2) with (pow2 (S j)) by (rewrite pow2_S; lia).
  destruct (Z.ltb_spec (pow2 (S j)) n) as [Hlt|Hge]; [|by exists j].
  apply IH; [done|]. by replace (S j + fuel)%nat with (j + S fuel)%nat by lia.
Qed.

Lemma treeSplit_spec n :
  1 < n <= 2 ^ 63 -> exists j, treeSplit n = pow2 j /\ pow2 j < n <= pow2 (S j).
Proof.
  intros Hn. apply (splitLoop_spec 64 0 n); [change (pow2 0) with 1; lia|]. change (pow2 (0 + 64)) with (2 ^ 64). lia.
Qed.

Lemma split_unique n j k : pow2 j < n <= pow2 (S j) -> pow2 k < n <= pow2 (S k) -> j = k.
Proof.
  intros Hj Hk. destruct (Nat.lt_trichotomy j k) as [Hlt|[->|Hlt]]; [|done|].
  - pose proof (pow2_le (S j) k Hlt). lia.
  - pose proof (pow2_le (S k) j Hlt). lia.
Qed.

(** Every positive number is a power of two times an odd number. *)
Lemma odd_part z : 0 < z -> exists k o, z = pow2 k * o /\ o mod 2 = 1 /\ 0 < o.
Proof.
  intros Hz. remember (Z.to_nat z) as n eqn:Hn. revert z Hz Hn.
  induction (lt_wf n) as [n _ IH]. intros z Hz ->.
  destruct (Z.mod_pos_bound z 2) as [Hlo Hhi]; [done|].
  destruct (decide (z mod 2 = 1)) as [Ho|Ho].
  { exists 0%nat, z. rewrite Z.mul_1_l. done. }
  pose proof (Z.div_mod z 2 ltac:(done)) as Hd.
  destruct (IH (Z.to_nat (z / 2)) ltac:(lia) (z / 2) ltac:(lia) eq_refl) as (k & o & E & Hodd & Hpos).
  exists (S k), o. rewrite pow2_S. split; [lia|done].
Qed.

Lemma stripZeros_spec fuel k o sn :
  (k <= fuel)%nat -> o mod 2 = 1 -> stripZeros fuel (pow2 k * o) sn = (o, sn / pow2 k).
Proof.
  revert k sn. induction fuel as [|fuel IH]; intros k sn Hk Ho; cbn [stripZeros].
  { replace k with 0%nat by lia. unfold pow2; simpl. by rewrite Z.mul_1_l, Z.div_1_r. }
  rewrite land_1. destruct k as [|k].
  - change (pow2 0) with 1. rewrite Z.mul_1_l, Ho, Z.div_1_r. done.
  - assert (o <> 0) by (intros ->; done). pose proof (pow2_pos k).
    rewrite pow2_S, <- Z.mul_assoc, (Z.mul_comm 2), Z.mod_mul by done.
    rewrite Z.eqb_refl, (proj2 (Z.eqb_neq (pow2 k * o * 2) 0)) by nia. simpl. rewrite !shiftr_1, Z.div_mul by done.
    rewrite IH by (done || lia). by rewrite Z.div_div by lia.
Qed.

#[global] Arguments stripZeros : simpl never.

(** ** Turns *)

(** Whether the sibling is on the left, and the counters after the step. *)
Definition turn (fn sn : Z) : bool := (Z.land fn 1 =? 1) || (fn =? sn).

Definition after (fn sn : Z) : Z * Z :=
  let '(f, s) := if turn fn sn then stripZeros 32 fn sn else (fn, sn) in
  (Z.shiftr f 1, Z.shiftr s 1).

(** A walk along which [sn] is not yet zero. *)
Inductive Walk : Z -> Z -> list bool -> Z -> Z -> Prop :=
| walk_nil fn sn : Walk fn sn [] fn sn
| walk_cons fn sn l f s : sn <> 0 -> Walk (after fn sn).1 (after fn sn).2 l f s ->
    Walk fn sn (turn fn sn :: l) f s.

Lemma walk_app fn sn l1 f1 s1 l2 f2 s2 :
  Walk fn sn l1 f1 s1 -> Walk f1 s1 l2 f2 s2 -> Walk fn sn (l1 ++ l2) f2 s2.
Proof. induction 1; intros; simpl; [done|]. constructor; auto. Qed.

(** When [fn] is odd, or differs from [sn], a step halves both counters. *)
Lemma after_halves fn sn : fn mod 2 = 1 \/ fn <> sn -> after fn sn = (fn / 2, sn / 2).
Proof.
  intros Ho. unfold after, turn. rewrite land_1. pose proof (Z.mod_pos_bound fn 2 eq_refl).
  destruct (Z.eqb_spec (fn mod 2) 1) as [E|E]; simpl.
  - pose proof (stripZeros_spec 32 0 fn sn ltac:(lia) E) as Hs.
    change (pow2 0) with 1 in Hs. rewrite Z.mul_1_l, Z.div_1_r in Hs. rewrite Hs. by rewrite !shiftr_1.
  - destruct (Z.eqb_spec fn sn) as [->|]; [tauto|]. by rewrite !shiftr_1.
Qed.

(** At the last leaf, the trailing zeros go too. *)
Lemma after_last k o : (k <= 32)%nat -> o mod 2 = 1 ->
  after (pow2 k * o) (pow2 k * o) = (o / 2, o / 2).
Proof.
  intros Hk Ho. unfold after, turn. rewrite Z.eqb_refl, orb_true_r.
  rewrite stripZeros_spec by done. pose proof (pow2_pos k).
  rewrite (Z.mul_comm (pow2 k)), Z.div_mul by lia. by rewrite !shiftr_1.
Qed.

(** The bits of [idx], lowest first: the turns in a perfect tree. *)
Fixpoint bits (j : nat) (idx : Z) : list bool :=
  match j with O => [] | S j' => (idx mod 2 =? 1) :: bits j' (idx / 2) end.

Lemma length_bits j idx : length (bits j idx) = j.
Proof. revert idx. induction j; intros; simpl; auto. Qed.

Lemma walk_bits j idx sn :
  0 <= idx < pow2 j -> pow2 j <= sn -> Walk idx sn (bits j idx) 0 (sn / pow2 j).
Proof.
  revert idx sn. induction j as [|j IH]; intros idx sn Hi Hs; simpl.
  { change (pow2 0) with 1 in *. rewrite Z.div_1_r. replace idx with 0 by lia. constructor. }
  rewrite pow2_S in *. pose proof (pow2_pos j).
  assert ((idx mod 2 =? 1) = turn idx sn) as ->.
  { unfold turn. rewrite land_1. destruct (Z.eqb_spec idx sn); [lia|]. by rewrite orb_false_r. }
  constructor; [lia|]. rewrite after_halves by lia. simpl. rewrite <- Z.div_div by lia.
  apply IH; [|apply Z.div_le_lower_bound; lia].
  split; [apply Z.div_pos; lia|apply Z.div_lt_upper_bound; lia].
Qed.

Lemma bits_low j idx : 0 <= idx < pow2 j -> bits (S j) idx = bits j idx ++ [false].
Proof.
  revert idx. induction j as [|j IH]; intros idx Hi.
  { change (pow2 0) with 1 in Hi. replace idx with 0 by lia. done. }
  rewrite pow2_S in Hi. change (bits (S (S j)) idx) with ((idx mod 2 =? 1) :: bits (S j) (idx / 2)).
  rewrite IH; [done|]. split; [apply Z.div_pos; lia|apply Z.div_lt_upper_bound; lia].
Qed.

Lemma bits_high j idx : pow2 j <= idx < pow2 (S j) -> bits (S j) idx = bits j (idx - pow2 j) ++ [true].
Proof.
  revert idx. induction j as [|j IH]; intros idx Hi.
  { change (pow2 0) with 1 in Hi. change (pow2 1) with 2 in Hi. replace idx with 1 by lia. done. }
  change (bits (S (S j)) idx) with ((idx mod 2 =? 1) :: bits (S j) (idx / 2)).
  rewrite !pow2_S in Hi. rewrite IH.
  2:{ rewrite pow2_S. split; [apply Z.div_le_lower_bound; lia|apply Z.div_lt_upper_bound; lia]. }
  simpl. rewrite pow2_S. replace (idx - 2 * pow2 j) with (idx + (- pow2 j) * 2) by lia.
  rewrite Z.mod_add, Z.div_add by done. done.
Qed.

(** [Up idx n l]: [l] are the turns from leaf [idx] to the root of a tree over
    [n] leaves. *)
Inductive Up : Z -> Z -> list bool -> Prop :=
| up_leaf : Up 0 1 []
| up_left idx n j : 0 <= idx < pow2 j -> pow2 j < n <= pow2 (S j) -> Up idx n (bits j idx ++ [false])
| up_right idx n j l : pow2 j <= idx < n -> n <= pow2 (S j) ->
    Up (idx - pow2 j) (n - pow2 j) l -> Up idx n (l ++ [true]).

Lemma up_exists n idx : 0 <= idx < n -> n <= 2 ^ 63 -> exists l, Up idx n l.
Proof.
  remember (Z.to_nat n) as m eqn:Hm. revert n idx Hm. induction (lt_wf m) as [m _ IH].
  intros n idx -> Hi Hn. destruct (decide (n = 1)) as [->|Hn1].
  { replace idx with 0 by lia. eexists. constructor. }
  destruct (treeSplit_spec n) as (j & _ & Hj); [lia|]. pose proof (pow2_pos j).
  destruct (decide (idx < pow2 j)) as [Hlt|Hge].
  - eexists. apply (up_left idx n j); lia.
  - destruct (IH (Z.to_nat (n - pow2 j)) ltac:(lia) (n - pow2 j) (idx - pow2 j)) as [l Hl]; [lia..|].
    eexists. apply (up_right idx n j l); [lia..|done].
Qed.

Lemma up_bits j idx : 0 <= idx < pow2 j -> Up idx (pow2 j) (bits j idx).
Proof.
  revert idx. induction j as [|j IH]; intros idx Hi.
  { change (pow2 0) with 1 in *. replace idx with 0 by lia. constructor. }
  pose proof (pow2_pos j). destruct (decide (idx < pow2 j)) as [Hlt|Hge].
  - rewrite bits_low by lia. apply up_left; [lia|]. rewrite pow2_S. lia.
  - rewrite bits_high by lia. apply (up_right _ _ j); [lia|done|].
    rewrite pow2_S in *. replace (2 * pow2 j - pow2 j) with (pow2 j) by lia. apply IH. lia.
Qed.

Lemma up_range idx n l : Up idx n l -> 0 <= idx < n.
Proof. intros Hu. destruct Hu as [|? ? j|? ? j]; pose proof (pow2_pos 0); try pose proof (pow2_pos j); lia. Qed.

Lemma up_functional idx n l1 : Up idx n l1 -> forall l2, Up idx n l2 -> l1 = l2.
Proof.
  induction 1 as [|idx n j Hi Hn|idx n j l Hi Hn Hu IH]; intros l2 H2.
  - inversion H2 as [|? ? k|? ? k]; subst; [done|..]; pose proof (pow2_pos k); lia.
  - inversion H2 as [|? ? k Hk Hnk|? ? k l' Hk Hnk]; subst.
    + pose proof (pow2_pos j). lia.
    + by rewrite (split_unique n j k).
    + assert (j = k) as -> by (apply (split_unique n); lia). lia.
  - inversion H2 as [|? ? k Hk Hnk|? ? k l' Hk Hnk Hu']; subst.
    + pose proof (pow2_pos j). lia.
    + assert (j = k) as -> by (apply (split_unique n); lia). lia.
    + assert (j = k) as -> by (apply (split_unique n); lia). f_equal. by apply IH.
Qed.

Lemma up_length idx n l : Up idx n l -> forall j, n <= pow2 j -> (length l <= j)%nat.
Proof.
  induction 1 as [|idx n k Hi Hn|idx n k l Hi Hn Hu IH]; intros j Hj; simpl; [lia|..];
    rewrite length_app; simpl.
  - rewrite length_bits. destruct (decide (k < j)%nat); [lia|].
    pose proof (pow2_le j k ltac:(lia)). lia.
  - destruct (decide (k < j)%nat) as [Hlt|Hge]; [|pose proof (pow2_le j k ltac:(lia)); lia].
    assert (length l <= k)%nat; [|lia]. apply IH. rewrite pow2_S in Hn. lia.
Qed.

Lemma bits_inj j a b : 0 <= a < pow2 j -> 0 <= b < pow2 j -> bits j a = bits j b -> a = b.
Proof.
  revert a b. induction j as [|j IH]; intros a b Ha Hb; simpl.
  { change (pow2 0) with 1 in *. lia. }
  rewrite pow2_S in *. intros E. injection E as E1 E2. apply IH in E2.
  - pose proof (Z.mod_pos_bound a 2 eq_refl). pose proof (Z.mod_pos_bound b 2 eq_refl).
    pose proof (Z.div_mod a 2 ltac:(done)). pose proof (Z.div_mod b 2 ltac:(done)).
    destruct (Z.eqb_spec (a mod 2) 1), (Z.eqb_spec (b mod 2) 1); try done; lia.
  - split; [apply Z.div_pos; lia|apply Z.div_lt_upper_bound; lia].
  - split; [apply Z.div_pos; lia|apply Z.div_lt_upper_bound; lia].
Qed.

(** Inversion of [Up] by the last turn. *)
Lemma up_last_false idx n l j :
  Up idx n (l ++ [false]) -> pow2 j < n <= pow2 (S j) -> 0 <= idx < pow2 j /\ l = bits j idx.
Proof.
  intros Hu Hn. remember (l ++ [false]) as t eqn:E.
  destruct Hu as [|idx n k Hk Hnk|idx n k l' Hk Hnk Hu'].
  - by destruct l.
  - apply app_inj_tail in E as [<- _]. by rewrite (split_unique n j k).
  - by apply app_inj_tail in E as [_ E].
Qed.

Lemma up_last_true idx n l j :
  Up idx n (l ++ [true]) -> pow2 j < n <= pow2 (S j) ->
  pow2 j <= idx /\ Up (idx - pow2 j) (n - pow2 j) l.
Proof.
  intros Hu Hn. remember (l ++ [true]) as t eqn:E.
  destruct Hu as [|idx n k Hk Hnk|idx n k l' Hk Hnk Hu'].
  - by destruct l.
  - by apply app_inj_tail in E as [_ E].
  - apply app_inj_tail in E as [<- _]. assert (j = k) as -> by (apply (split_unique n); lia).
    split; [lia|done].
Qed.

(** The turns determine the leaf, and no leaf has the turns of another leaf of
    the same tree followed by right turns. *)
Lemma up_extended idx n l : Up idx n l ->
  forall idx' e, Up idx' n (l ++ repeat true e) -> e = 0%nat /\ idx' = idx.
Proof.
  induction 1 as [|idx n j Hi Hn|idx n j l Hi Hn Hu IH]; intros idx' e He; simpl in *.
  - pose proof (up_range _ _ _ He).
    pose proof (up_length _ _ _ He 0 ltac:(change (pow2 0) with 1; lia)) as Hl.
    rewrite repeat_length in Hl. lia.
  - destruct e as [|e].
    + rewrite app_nil_r in He. split; [done|].
      destruct (up_last_false _ _ _ j He Hn) as [Hi' E]. symmetry. by apply (bits_inj j).
    + exfalso. change (repeat true (S e)) with (true :: repeat true e) in He.
      rewrite repeat_cons, app_assoc in He.
      apply (up_last_true _ _ _ j) in He as [_ He]; [|done].
      apply (up_length _ _ _) with (j := j) in He; [|rewrite pow2_S in Hn; lia].
      rewrite !length_app, length_bits in He. simpl in He. lia.
  - destruct e as [|e].
    + rewrite app_nil_r in He. apply (up_last_true _ _ _ j) in He as [Hge He]; [|lia].
      destruct (IH (idx' - pow2 j) 0%nat) as [_ E]; [by rewrite app_nil_r|]. split; [done|lia].
    + exfalso. change (repeat true (S e)) with (true :: repeat true e) in He.
      rewrite repeat_cons, app_assoc in He.
      apply (up_last_true _ _ _ j) in He as [_ He]; [|lia].
      rewrite <- app_assoc in He. destruct (IH _ (S e) He) as [E _]. done.
Qed.

(** A subtree on the right: both counters carry one more bit at the top. *)
Lemma walk_right fn sn l f s :
  Walk fn sn l f s -> f = 0 -> s = 0 -> forall m, (m <= 32)%nat -> 0 <= fn <= sn -> sn < pow2 m ->
  exists m', (m' <= 32)%nat /\ Walk (fn + pow2 m) (sn + pow2 m) l (pow2 m') (pow2 m').
Proof.
  induction 1 as [fn sn|fn sn l f s Hnz Hw IH]; intros -> -> m Hm Hle Hlt.
  { exists m. rewrite Z.add_0_l. split; [done|constructor]. }
  destruct m as [|m]; [change (pow2 0) with 1 in Hlt; lia|]. pose proof (pow2_S m) as HS.
  assert (turn fn sn = turn (fn + pow2 (S m)) (sn + pow2 (S m))) as Hturn.
  { unfold turn. rewrite !land_1. rewrite HS, (Z.mul_comm 2), Z.mod_add by done.
    f_equal. apply eq_iff_eq_true. rewrite !Z.eqb_eq. lia. }
  rewrite Hturn.
  assert (forall k, (S k <= S m)%nat -> (after fn sn) = ((after fn sn).1, (after fn sn).2) ->
    0 <= (after fn sn).1 <= (after fn sn).2 -> (after fn sn).2 < pow2 (m - k) ->
    after (fn + pow2 (S m)) (sn + pow2 (S m))
      = ((after fn sn).1 + pow2 (m - k), (after fn sn).2 + pow2 (m - k)) ->
    exists m', (m' <= 32)%nat /\ Walk (fn + pow2 (S m)) (sn + pow2 (S m))
      (turn (fn + pow2 (S m)) (sn + pow2 (S m)) :: l) (pow2 m') (pow2 m')) as Hgo.
  { intros k Hk _ Hle' Hlt' Hafter. destruct (IH eq_refl eq_refl (m - k)%nat) as (m' & Hm' & Hw'); [lia|done|done|].
    exists m'. split; [done|]. constructor; [lia|]. by rewrite Hafter. }
  destruct (decide (fn mod 2 = 1 \/ fn <> sn)) as [Hc|Hc].
  - rewrite (after_halves fn sn Hc) in *. apply (Hgo 0%nat); simpl.
    + lia.
    + done.
    + split; [apply Z.div_pos; lia|apply Z.div_le_mono; lia].
    + rewrite Nat.sub_0_r. apply Z.div_lt_upper_bound; lia.
    + rewrite Nat.sub_0_r, after_halves.
      * by rewrite HS, (Z.mul_comm 2), !Z.div_add.
      * rewrite HS, (Z.mul_comm 2), Z.mod_add by done. lia.
  - assert (fn = sn) as -> by lia. destruct (odd_part sn) as (k & o & E & Ho & Hpo); [lia|].
    assert (k < S m)%nat as Hk.
    { destruct (decide (k < S m)%nat); [done|]. pose proof (pow2_le (S m) k ltac:(lia)). nia. }
    assert (pow2 (S m) = pow2 k * (2 * pow2 (m - k))) as Hsplit.
    { rewrite <- pow2_S. unfold pow2. rewrite <- Z.pow_add_r by lia. f_equal. lia. }
    pose proof (pow2_pos k). pose proof (pow2_pos (m - k)).
    rewrite E in *. rewrite after_last in * by (done || lia). apply (Hgo k); simpl.
    + lia.
    + done.
    + split; [apply Z.div_pos; lia|lia].
    + apply Z.div_lt_upper_bound; [lia|]. rewrite Hsplit in Hlt. nia.
    + rewrite Hsplit, <- Z.mul_add_distr_l, after_last; [|lia|].
      * by rewrite (Z.mul_comm 2), Z.div_add.
      * by rewrite (Z.mul_comm 2), Z.mod_add.
Qed.

(** The loop takes exactly the turns of the tree. *)
Lemma walk_up idx n l : Up idx n l -> n <= 2 ^ 32 -> Walk idx (n - 1) l 0 0.
Proof.
  induction 1 as [|idx n j Hi Hn|idx n j l Hi Hn Hu IH]; intros Hmax.
  - constructor.
  - pose proof (pow2_pos j). eapply walk_app; [apply walk_bits; lia|]. rewrite pow2_S in Hn.
    assert ((n - 1) / pow2 j = 1) as ->
      by (symmetry; apply (Z.div_unique _ _ _ (n - 1 - pow2 j)); lia).
    apply (walk_cons 0 1 []); [done|]. vm_compute. constructor.
  - pose proof (up_range _ _ _ Hu). pose proof (pow2_pos j).
    assert (j <= 32)%nat as Hj.
    { destruct (decide (j <= 32)%nat); [done|]. pose proof (pow2_le 33 j ltac:(lia)).
      change (pow2 33) with (2 ^ 33) in *. lia. }
    destruct (walk_right _ _ _ _ _ (IH ltac:(lia)) eq_refl eq_refl j Hj) as (m' & Hm' & Hw);
      [lia|rewrite pow2_S in Hn; lia|].
    replace (idx - pow2 j + pow2 j) with idx in Hw by lia.
    replace (n - pow2 j - 1 + pow2 j) with (n - 1) in Hw by lia.
    eapply walk_app; [exact Hw|]. pose proof (pow2_pos m').
    assert (true = turn (pow2 m') (pow2 m')) as -> by (unfold turn; by rewrite Z.eqb_refl, orb_true_r).
    constructor; [lia|]. pose proof (after_last m' 1 Hm' eq_refl) as E. rewrite Z.mul_1_r in E.
    rewrite E. constructor.
Qed.

(** ** The tree and its paths *)

Section TreeTheorems.
Variable branch : array 32 -> array 32 -> array 32.

Fixpoint ascend (value : array 32) (turns : list bool) (path : list (array 32)) : array 32 :=
  match turns, path with
  | b :: turns, sibling :: path =>
      ascend (if b then branch sibling value else branch value sibling) turns path
  | _, _ => value
  end.

Lemma ascend_snoc v l p b s :
  length l = length p ->
  ascend v (l ++ [b]) (p ++ [s]) =
  (if b then branch s (ascend v l p) else branch (ascend v l p) s).
Proof.
  revert v p. induction l as [|b' l IH]; intros v [|s' p] Hl; try done. simpl. apply IH. by injection Hl.
Qed.

Lemma climb_step v fn sn s path :
  climb branch v fn sn (s :: path)
  = climb branch (if turn fn sn then branch s v else branch v s) (after fn sn).1 (after fn sn).2 path.
Proof.
  unfold after. cbn [climb]. fold (turn fn sn). destruct (turn fn sn); [|done].
  by destruct (stripZeros 32 fn sn).
Qed.

Lemma climb_walk fn sn l f s v path :
  Walk fn sn l f s -> length path = length l -> climb branch v fn sn path = (ascend v l path, f, s).
Proof.
  intros Hw. revert v path. induction Hw as [|fn sn l f s Hnz Hw IH]; intros v [|x path] Hl; try done.
  rewrite climb_step. cbn [ascend]. apply IH. by injection Hl.
Qed.

Lemma climb_app v fn sn p1 p2 :
  climb branch v fn sn (p1 ++ p2) =
  (let '(v', fn', sn') := climb branch v fn sn p1 in climb branch v' fn' sn' p2).
Proof.
  revert v fn sn. induction p1 as [|s p1 IH]; intros v fn sn; [done|].
  cbn [app]. rewrite !climb_step. apply IH.
Qed.

Lemma climb_zero v path :
  climb branch v 0 0 path = (ascend v (repeat true (length path)) path, 0, 0).
Proof.
  revert v. induction path as [|s path IH]; intros v; [done|].
  rewrite climb_step. change (turn 0 0) with true. change (after 0 0) with (0, 0). apply IH.
Qed.

Lemma climb_short fn sn l f s v path :
  Walk fn sn l f s -> (length path < length l)%nat -> (climb branch v fn sn path).2 <> 0.
Proof.
  intros Hw. revert v path. induction Hw as [|fn sn l f s Hnz Hw IH]; intros v [|x path] Hl; simpl in Hl; try lia.
  - done.
  - rewrite climb_step. apply IH. lia.
Qed.

Lemma ascend_app v l1 l2 p1 p2 :
  length l1 = length p1 -> ascend v (l1 ++ l2) (p1 ++ p2) = ascend (ascend v l1 p1) l2 p2.
Proof.
  revert v p1. induction l1 as [|b l1 IH]; intros v [|s p1] Hl; try done. simpl. apply IH. by injection Hl.
Qed.

(** The verification loop accepts exactly a path with the turns of the tree, and
    possibly right turns beyond, that leads from the leaf to the root. *)
Lemma verifyPath_true leaf index n path root :
  0 <= index -> 0 <= n < 2 ^ 32 ->
  verifyPath branch leaf index n path root = true <->
  index < n /\ exists l e, Up index n l /\ length path = (length l + e)%nat /\
    ascend leaf (l ++ repeat true e) path = root.
Proof.
  intros Hi Hn. unfold verifyPath.
  destruct (Z.eqb_spec n 0) as [->|Hn0]; [by simpl; split; [|lia]|].
  destruct (Z.leb_spec n index) as [Hge|Hlt]; [by simpl; split; [|lia]|]. cbn [orb].
  destruct (up_exists n index) as [l Hu]; [lia..|].
  pose proof (walk_up _ _ _ Hu ltac:(lia)) as Hw.
  assert (u32 (n - 1) = n - 1) as -> by (apply Z.mod_small; lia).
  destruct (decide (length path < length l)%nat) as [Hs|Hs].
  - pose proof (climb_short _ _ _ _ _ leaf path Hw Hs) as Hnz.
    destruct (climb branch leaf index (n - 1) path) as [[v f] s]. simpl in Hnz.
    rewrite (proj2 (Z.eqb_neq s 0)) by done. split; [done|]. intros (_ & l' & e & Hu' & Hl & _).
    rewrite (up_functional _ _ _ Hu _ Hu') in Hs. lia.
  - set (p1 := take (length l) path). set (p2 := drop (length l) path).
    assert (path = p1 ++ p2) as Hp by (symmetry; apply take_drop).
    assert (length p1 = length l) as Hl1 by (unfold p1; rewrite length_take; lia).
    assert (climb branch leaf index (n - 1) path
            = (ascend leaf (l ++ repeat true (length p2)) path, 0, 0)) as ->.
    { rewrite Hp, climb_app, (climb_walk _ _ _ _ _ _ _ Hw Hl1), climb_zero.
      by rewrite ascend_app by done. }
    rewrite Z.eqb_refl. simpl. rewrite bool_decide_eq_true. split.
    + intros E. split; [done|]. exists l, (length p2). split; [done|]. split; [|done].
      rewrite Hp, length_app. lia.
    + intros (_ & l' & e & Hu' & Hl & E). rewrite <- (up_functional _ _ _ Hu _ Hu') in *.
      replace (length p2) with e; [done|]. unfold p2. rewrite length_drop. lia.
Qed.

(** *** Roots and paths by splitting *)

Lemma split_lengths {A} (leaves : list A) (j : nat) :
  pow2 j < len leaves <= pow2 (S j) ->
  let s := Z.to_nat (pow2 j) in
  len (take s leaves) = pow2 j /\ len (drop s leaves) = len leaves - pow2 j /\
  (0 < length (take s leaves) < length leaves)%nat /\
  (0 < length (drop s leaves) < length leaves)%nat.
Proof.
  pose proof (pow2_pos j). unfold len. intros Hj. cbn zeta. rewrite length_take, length_drop. lia.
Qed.

Lemma tree_cases {A} (leaves : list A) :
  0 < len leaves <= 2 ^ 63 ->
  (exists leaf, leaves = [leaf]) \/
  (1 < len leaves /\ exists j, treeSplit (len leaves) = pow2 j /\ pow2 j < len leaves <= pow2 (S j)).
Proof.
  intros Hl. destruct leaves as [|leaf [|leaf' leaves]]; [unfold len in Hl; simpl in Hl; lia|by left; exists leaf|right].
  assert (1 < len (leaf :: leaf' :: leaves)) by (unfold len; simpl; lia).
  split; [done|]. apply treeSplit_spec. lia.
Qed.

Lemma rootLoop_fuel f1 f2 leaves empty :
  0 < len leaves <= 2 ^ 63 -> (length leaves <= f1)%nat -> (length leaves <= f2)%nat ->
  rootLoop branch f1 leaves empty = rootLoop branch f2 leaves empty.
Proof.
  revert f2 leaves. induction f1 as [|f1 IH]; intros f2 leaves Hn H1 H2; [unfold len in Hn; lia|].
  destruct f2 as [|f2]; [unfold len in Hn; lia|].
  destruct (tree_cases leaves Hn) as [[leaf ->]|(Hl & j & Hs & Hj)]; [done|].
  destruct (split_lengths leaves j Hj) as (E1 & E2 & L1 & L2). pose proof (pow2_pos j).
  destruct leaves as [|a [|b leaves]]; [unfold len in *; simpl in *; lia..|]. cbn [rootLoop]. rewrite Hs.
  f_equal; apply IH; lia.
Qed.

Lemma treeRoot_split leaves empty j :
  1 < len leaves <= 2 ^ 63 -> treeSplit (len leaves) = pow2 j -> pow2 j < len leaves <= pow2 (S j) ->
  treeRoot branch leaves empty =
  branch (treeRoot branch (take (Z.to_nat (pow2 j)) leaves) empty)
         (treeRoot branch (drop (Z.to_nat (pow2 j)) leaves) empty).
Proof.
  intros Hn Hs Hj. destruct (split_lengths leaves j Hj) as (E1 & E2 & L1 & L2). pose proof (pow2_pos j).
  destruct leaves as [|a [|b leaves]]; [unfold len in *; simpl in *; lia..|]. unfold treeRoot at 1. cbn [rootLoop]. rewrite Hs.
  f_equal; apply rootLoop_fuel; lia.
Qed.

(** The turns of a split tree: those of the half, then the last one. *)
Lemma up_split idx n l j :
  pow2 j < n <= pow2 (S j) -> Up idx n l ->
  (idx < pow2 j /\ exists l', l = l' ++ [false] /\ Up idx (pow2 j) l') \/
  (pow2 j <= idx /\ exists l', l = l' ++ [true] /\ Up (idx - pow2 j) (n - pow2 j) l').
Proof.
  intros Hj Hu. inversion Hu as [|? ? k Hi Hn|? ? k l' Hi Hn Hu']; subst.
  - pose proof (pow2_pos j). lia.
  - assert (j = k) as -> by by apply (split_unique n). left. split; [lia|]. eauto using up_bits.
  - assert (j = k) as -> by (apply (split_unique n); lia). right. split; [lia|]. eauto.
Qed.

Lemma up_single idx l : Up idx 1 l -> idx = 0 /\ l = [].
Proof.
  intros Hu. inversion Hu as [|? ? k|? ? k]; subst; [done|..]; pose proof (pow2_pos k); lia.
Qed.

Lemma pathLoop_ascend fuel leaves idx l leaf empty :
  (length leaves <= fuel)%nat -> len leaves <= 2 ^ 63 -> Up idx (len leaves) l ->
  leaves !! Z.to_nat idx = Some leaf ->
  let path := pathLoop branch fuel leaves idx empty in
  length path = length l /\ ascend leaf l path = treeRoot branch leaves empty.
Proof.
  revert leaves idx l. induction fuel as [|fuel IH]; intros leaves idx l Hf Hn Hu Hl.
  { by apply lookup_lt_Some in Hl; lia. }
  pose proof (up_range _ _ _ Hu).
  destruct (tree_cases leaves) as [[leaf' ->]|(H1 & j & Hs & Hj)]; [lia|..].
  { apply up_single in Hu as [-> ->]. by injection Hl as ->. }
  cbn [pathLoop]. rewrite (proj2 (Z.leb_gt _ _)), Hs, (treeRoot_split leaves empty j) by lia. cbn zeta.
  destruct (split_lengths leaves j Hj) as (E1 & E2 & L1 & L2).
  pose proof (pow2_pos j).
  destruct (up_split _ _ _ j Hj Hu) as [(Hi & l' & -> & Hu')|(Hi & l' & -> & Hu')].
  - rewrite (proj2 (Z.ltb_lt _ _)) by done. rewrite !length_app. cbn [length].
    destruct (IH (take (Z.to_nat (pow2 j)) leaves) idx l') as [Hl1 Ha]; [lia..|by rewrite E1| |].
    { rewrite lookup_take_lt by lia. done. }
    rewrite ascend_snoc, Ha by done. by rewrite Hl1.
  - rewrite (proj2 (Z.ltb_ge _ _)) by done. rewrite !length_app. cbn [length].
    destruct (IH (drop (Z.to_nat (pow2 j)) leaves) (idx - pow2 j) l') as [Hl1 Ha]; [lia..|by rewrite E2| |].
    { rewrite lookup_drop, <- Z2Nat.inj_add by lia. by rewrite Zplus_minus. }
    rewrite ascend_snoc, Ha by done. by rewrite Hl1.
Qed.

(** Completeness: the path built for a leaf verifies against the root. *)
Lemma treePath_verifies leaves index leaf empty :
  len leaves < 2 ^ 32 -> 0 <= index -> leaves !! Z.to_nat index = Some leaf ->
  verifyPath branch leaf index (len leaves) (treePath branch leaves index empty)
    (treeRoot branch leaves empty) = true.
Proof.
  intros Hn Hi Hl. pose proof (lookup_lt_Some _ _ _ Hl) as Hlt.
  apply verifyPath_true; [done|unfold len in *; lia|]. split; [unfold len; lia|].
  destruct (up_exists (len leaves) index) as [l Hu]; [unfold len; lia|lia|].
  destruct (pathLoop_ascend (length leaves) leaves index l leaf empty) as [Hp Ha]; [lia..|done|done|].
  exists l, 0%nat. split; [done|]. rewrite app_nil_r, Nat.add_0_r. done.
Qed.

Lemma treePath_length leaves index leaf empty j :
  len leaves < 2 ^ 32 -> 0 <= index -> leaves !! Z.to_nat index = Some leaf -> len leaves <= pow2 j ->
  (length (treePath branch leaves index empty) <= j)%nat.
Proof.
  intros Hn Hi Hl Hj. pose proof (lookup_lt_Some _ _ _ Hl) as Hlt.
  destruct (up_exists (len leaves) index) as [l Hu]; [unfold len; lia|lia|].
  destruct (pathLoop_ascend (length leaves) leaves index l leaf empty) as [Hp _]; [lia..|done|done|].
  unfold treePath. rewrite Hp. by eapply up_length.
Qed.

End TreeTheorems.

(** ** Soundness against the inputs of the hash *)

Section Soundness.
Context `{GoLib}.

(** Both packages hash a node as [0x01 || left || right]. *)
Definition nodeInput (left right : array 32) : bytes := x01 :: left ++ right.
Definition nodeHash (left right : array 32) : array 32 := sha256 (nodeInput left right).

Lemma nodeInput_inj a b c d : nodeInput a b = nodeInput c d -> a = c /\ b = d.
Proof.
  unfold nodeInput. intros [= E]. apply app_inj_1 in E as [E1 E2]; [|by rewrite !array_length].
  by apply array_eq in E1, E2.
Qed.

(** The strings hashed for the nodes of a tree, and along a path. *)
Fixpoint nodesLoop (fuel : nat) (leaves : list (array 32)) (empty : array 32) : list bytes :=
  match fuel with
  | O => []
  | S fuel' =>
      if len leaves <=? 1 then []
      else
        let split := Z.to_nat (treeSplit (len leaves)) in
        nodeInput (treeRoot nodeHash (take split leaves) empty) (treeRoot nodeHash (drop split leaves) empty)
          :: nodesLoop fuel' (take split leaves) empty ++ nodesLoop fuel' (drop split leaves) empty
  end.

Fixpoint pathInputs (value : array 32) (turns : list bool) (path : list (array 32)) : list bytes :=
  match turns, path with
  | b :: turns, sibling :: path =>
      let input := if b then nodeInput sibling value else nodeInput value sibling in
      input :: pathInputs (sha256 input) turns path
  | _, _ => []
  end.

Fixpoint turnsOf (fn sn : Z) (path : list (array 32)) : list bool :=
  match path with
  | [] => []
  | _ :: rest => turn fn sn :: turnsOf (after fn sn).1 (after fn sn).2 rest
  end.

(** All strings hashed to build the tree over the leaf inputs [xs] and to verify
    the leaf input [x] along [path]. *)
Definition proofInputs (x : bytes) (xs : list bytes) (index : Z) (path : list (array 32))
  (empty : array 32) : list bytes :=
  x :: xs ++ nodesLoop (length xs) (map sha256 xs) empty ++
    pathInputs (sha256 x) (turnsOf index (len xs - 1) path) path.

(** A leaf input does not start with the tag of a node. *)
Definition LeafInput (x : bytes) : Prop := hd_error x <> Some x01.

Lemma leaf_node_collision x a b inputs :
  LeafInput x -> x ∈ inputs -> nodeInput a b ∈ inputs -> sha256 x = nodeHash a b ->
  Collision sha256 inputs.
Proof. intros Hx Hin Hin' E. exists x, (nodeInput a b). split_and!; try done. by intros ->. Qed.

Lemma node_collision a b c d inputs :
  nodeHash a b = nodeHash c d -> nodeInput a b ∈ inputs -> nodeInput c d ∈ inputs ->
  (a = c /\ b = d) \/ Collision sha256 inputs.
Proof.
  intros E Hin Hin'.
  destruct (collision_or_equal sha256 _ _ inputs Hin Hin' E) as [Ei|Hc]; [left|by right].
  by apply nodeInput_inj.
Qed.

Lemma turnsOf_walk fn sn l f s path e :
  Walk fn sn l f s -> f = 0 -> s = 0 -> length path = (length l + e)%nat ->
  turnsOf fn sn path = l ++ repeat true e.
Proof.
  intros Hw. revert path. induction Hw as [|fn sn l f s Hnz Hw IH]; intros path Hf Hs Hl; simpl in *.
  - subst fn sn. revert path Hl. induction e as [|e IH]; intros [|x path] Hl; simpl in *; try done.
    change (turn 0 0) with true. change (after 0 0) with (0, 0). f_equal. apply IH. lia.
  - destruct path as [|x path]; [done|]. simpl in *. f_equal. apply IH; [done..|lia].
Qed.

Lemma pathInputs_snoc v l p b s :
  length l = length p ->
  pathInputs v (l ++ [b]) (p ++ [s]) =
  pathInputs v l p ++ [if b then nodeInput s (ascend nodeHash v l p) else nodeInput (ascend nodeHash v l p) s].
Proof.
  revert v p. induction l as [|b' l IH]; intros v [|s' p] Hl; try done. simpl. f_equal.
  rewrite IH by (by injection Hl). by destruct b'.
Qed.

Lemma halves_subset {A} n (xs : list A) : take n xs ⊆ xs /\ drop n xs ⊆ xs.
Proof. rewrite <- (take_drop n xs) at 2 4. set_solver. Qed.

(** A path to the root of a one-leaf tree. *)
Lemma follow_leaf fuel x y t path empty :
  LeafInput x -> LeafInput y -> length t = length path ->
  ascend nodeHash (sha256 x) t path = sha256 y ->
  (exists idx, Up idx (len [y]) t /\ [y] !! Z.to_nat idx = Some x) \/
  Collision sha256 (x :: [y] ++ nodesLoop fuel (map sha256 [y]) empty ++ pathInputs (sha256 x) t path).
Proof.
  intros Hx Hy Ht E. destruct t as [|b t _] using rev_ind.
  - destruct (collision_or_equal sha256 x y [x; y]) as [->|Hc]; [set_solver..|done| |].
    + left. exists 0. split; [constructor|done].
    + right. eapply collision_mono; [|exact Hc]. set_solver.
  - destruct path as [|s path _] using rev_ind; [by rewrite length_app in Ht; simpl in Ht; lia|].
    rewrite !length_app in Ht. simpl in Ht. rewrite ascend_snoc in E by lia. right.
    rewrite pathInputs_snoc by lia.
    destruct b; symmetry in E; (eapply leaf_node_collision; [exact Hy| | |exact E]); set_solver.
Qed.

(** Following a path down from the root: it leads to a leaf of the tree with the
    same hash input, unless two of the strings hashed collide. *)
Lemma follow fuel xs x t path empty :
  Forall LeafInput (x :: xs) -> 0 < len xs <= 2 ^ 63 -> (length xs <= fuel)%nat ->
  length t = length path ->
  ascend nodeHash (sha256 x) t path = treeRoot nodeHash (map sha256 xs) empty ->
  (exists idx, Up idx (len xs) t /\ xs !! Z.to_nat idx = Some x) \/
  Collision sha256 (x :: xs ++ nodesLoop fuel (map sha256 xs) empty ++ pathInputs (sha256 x) t path).
Proof.
  revert xs t path. induction fuel as [|fuel IH]; intros xs t path Hleaf Hn Hf Ht E.
  { unfold len in Hn. lia. }
  apply Forall_cons in Hleaf as [Hx Hxs].
  destruct (tree_cases (map sha256 xs)) as [[h Hh]|(H1 & j & Hs & Hj)]; [by rewrite len_map|..].
  - destruct xs as [|y [|z xs]]; try discriminate Hh. inversion Hxs. by apply follow_leaf.
  - rewrite (treeRoot_split _ _ _ j) in E by (rewrite len_map in *; lia).
    cbn [nodesLoop]. rewrite (proj2 (Z.leb_gt _ _)) by done. cbn zeta. rewrite Hs.
    rewrite len_map in *.
    destruct t as [|b t _] using rev_ind.
    { right. (eapply leaf_node_collision; [exact Hx| | |exact E]); set_solver. }
    destruct path as [|s path _] using rev_ind; [by rewrite length_app in Ht; simpl in Ht; lia|].
    rewrite !length_app in Ht. simpl in Ht. rewrite ascend_snoc in E by lia.
    rewrite pathInputs_snoc by lia.
    destruct (split_lengths xs j Hj) as (E1 & E2 & L1 & L2). pose proof (pow2_pos j).
    rewrite skipn_map, firstn_map in *.
    destruct b; match goal with |- _ \/ Collision _ ?i =>
        destruct (node_collision _ _ _ _ i E) as [[El Er]|Hc]; [set_solver..| |by right] end.
    + rewrite El in *. destruct (IH (drop (Z.to_nat (pow2 j)) xs) t path) as [(idx & Hu & Hi)|Hc];
        [by apply Forall_cons; split; [|apply Forall_drop]|lia..|done| |].
      * left. exists (pow2 j + idx). pose proof (up_range _ _ _ Hu). split.
        -- apply (up_right _ _ j t); rewrite ?Z.add_simpl_l; [lia..|by rewrite <- E2].
        -- rewrite lookup_drop in Hi. by rewrite Z2Nat.inj_add by lia.
      * right. eapply collision_mono; [|exact Hc]. pose proof (halves_subset (Z.to_nat (pow2 j)) xs). set_solver.
    + rewrite Er in *. destruct (IH (take (Z.to_nat (pow2 j)) xs) t path) as [(idx & Hu & Hi)|Hc];
        [by apply Forall_cons; split; [|apply Forall_take]|lia..|done| |].
      * left. exists idx. rewrite E1 in Hu. pose proof (up_range _ _ _ Hu). split.
        -- rewrite (up_functional _ _ _ Hu _ (up_bits j idx ltac:(lia))). by apply up_left.
        -- by rewrite lookup_take_lt in Hi by lia.
      * right. eapply collision_mono; [|exact Hc]. pose proof (halves_subset (Z.to_nat (pow2 j)) xs). set_solver.
Qed.
(** Soundness: a path that verifies against the root of a tree, for its length
    and an index, shows the leaf at that index, unless two of the strings hashed
    on either side collide. *)
Lemma verifyPath_sound x xs index path empty :
  Forall LeafInput (x :: xs) -> 0 <= index -> len xs < 2 ^ 32 ->
  verifyPath nodeHash (sha256 x) index (len xs) path (treeRoot nodeHash (map sha256 xs) empty) = true ->
  xs !! Z.to_nat index = Some x \/ Collision sha256 (proofInputs x xs index path empty).
Proof.
  intros Hleaf Hi Hn Hv. pose proof (len_nonneg xs).
  apply verifyPath_true in Hv as (Hlt & l & e & Hu & Hl & E); [|done|lia].
  unfold proofInputs. rewrite (turnsOf_walk _ _ _ _ _ path e (walk_up _ _ _ Hu ltac:(lia))) by done.
  destruct (follow (length xs) xs x (l ++ repeat true e) path empty) as [(idx & Hu' & Hx)|Hc];
    [done|lia|done|by rewrite length_app, repeat_length|done| |by right].
  destruct (up_extended _ _ _ Hu _ _ Hu') as [_ ->]. by left.
Qed.

End Soundness.
