(* ===== verification/Claim.v ===== *)
(** * Root-claim ordering

    internal/naming/namespace/claim: the commit-reveal claims of root names, the
    threshold-signed close of a claim Epoch with its Merkle commitments, the
    verification that selects the winner ([ClaimOrder.Verify]), the one-use
    [ClaimWinner] that materializes the root Record, and the local admission of
    a commitment.

    The theorems: an accepted close carries a quorum of distinct authorities,
    shows the inputs of the Epoch log at the claimed ordinals and the group
    committed by the close, and selects its lowest ordinal; an admitted input is
    bound to the close that selects it; one winner materializes at most once
    under every interleaving of its callers; the signed Record it yields verifies
    for its Network. *)

From S2P Require Import Prelude Wire GoLib GoTime Naming Recovery Record RecordLifecycle RecordCodec Admission Merkle.

Module claim.

Definition claimOrderRule : gostring := str "ardents-name-claim-order-v1".

Record ClaimOrder := MkOrder {
  order_Network : array 32;
  order_Rule : gostring;
  MinimumEpoch : Z;
  MaximumClaims : Z;
  Authorities : gmap (array 32) bytes;
  order_Threshold : Z
}.

Record Claim := MkClaim {
  Ordinal : Z;
  claim_Name : gostring;
  Secret : array 32;
  claim_Authority : array 32;
  claim_Commitment : array 32;
  AdmissionDigest : array 32;
  InputPath : list (array 32);
  claim_Signature : array 64
}.

#[global] Instance eta_Claim : Eta Claim := fun c =>
  MkClaim c.(Ordinal) c.(claim_Name) c.(Secret) c.(claim_Authority) c.(claim_Commitment)
    c.(AdmissionDigest) c.(InputPath) c.(claim_Signature).

#[warnings="-register-all"] Inductive ClaimProof := MkClaimProof {
  Network : array 32;
  Epoch : Z;
  Rule : gostring;
  CutoffOffset : Z;
  InputRoot : array 32;
  InputLength : Z;
  MaterializationRoot : array 32;
  MaterializationLength : Z;
  RejectionRoot : array 32;
  RejectionLength : Z;
  MaterializationOrdinal : Z;
  MaterializationPath : list (array 32);
  Claims : list Claim;
  SignerIDs : list (array 32);
  Signatures : list bytes;
  AlternateSets : list ClaimProof
}.

(** The opaque results: [None] stands for a nil pointer where one can occur. *)
Record ClaimCommitment := MkCommitment {
  commitment_network : array 32;
  revealEpoch : Z;
  commitment : array 32;
  commitment_admission : array 32
}.

Record EpochClaimInput := MkInput { raw : array 64; input_commitment : array 32 }.

Record claimWinner := MkWinner {
  winner_network : array 32;
  winner_name : gostring;
  winner_authority : array 32;
  winner_ordinal : Z;
  winner_epoch : Z;
  close : array 32;
  consumed : bool
}.

#[global] Instance eta_winner : Eta claimWinner := fun w =>
  MkWinner w.(winner_network) w.(winner_name) w.(winner_authority) w.(winner_ordinal)
    w.(winner_epoch) w.(close) w.(consumed).

Record verdict := MkVerdict {
  Outcome : string;
  WinnerOrdinal : Z;
  LoserOrdinals : list Z;
  OperationDigest : array 32
}.

Section Claims.
Context `{GoLib}.

(** ** claim_transcript.go *)

Definition claimText (out : bytes) (value : gostring) : bytes :=
  AppendUint32 out (u32 (len value)) ++ value.

Definition CommitmentFor (network : array 32) (epoch : Z) (claim : Claim) : array 32 :=
  let transcript := claimText [] (str "ardents-name-claim-commit-v1") in
  let transcript := transcript ++ network in
  let transcript := AppendUint64 transcript epoch in
  let transcript := claimText transcript claim.(claim_Name) in
  let transcript := transcript ++ claim.(claim_Authority) in
  let transcript := transcript ++ claim.(Secret) in
  sha256 transcript.

Definition RevealTranscript (network : array 32) (epoch : Z) (claim : Claim) : bytes :=
  let transcript := claimText [] (str "ardents-name-claim-reveal-v1") in
  let transcript := transcript ++ network in
  let transcript := AppendUint64 transcript epoch in
  let transcript := AppendUint32 transcript claim.(Ordinal) in
  transcript ++ claim.(claim_Commitment).

Definition StatementTranscript (proof : ClaimProof) : bytes :=
  let out := claimText [] (str "ardents-name-claim-epoch-close-v1") in
  let out := out ++ proof.(Network) in
  let out := AppendUint64 out proof.(Epoch) in
  let out := claimText out proof.(Rule) in
  let out := AppendUint64 out (u64 proof.(CutoffOffset)) in
  let out := out ++ proof.(InputRoot) in
  let out := AppendUint32 out proof.(InputLength) in
  let out := out ++ proof.(MaterializationRoot) in
  let out := AppendUint32 out proof.(MaterializationLength) in
  let out := out ++ proof.(RejectionRoot) in
  AppendUint32 out proof.(RejectionLength).

(** ** claim_verify.go: leaves and trees *)

Definition epochClaimInputBytes (ordinal : Z) (input : array 64) : bytes :=
  AppendUint32 [x00] ordinal ++ input.

Definition epochClaimInputLeaf (ordinal : Z) (input : array 64) : array 32 :=
  sha256 (epochClaimInputBytes ordinal input).

(** The 64 bytes of one log input: the commitment, then the admission digest. *)
Definition inputOf (commitment admission : array 32) : array 64 :=
  to_array 64 (commitment ++ admission).

Definition claimInputLeaf (claim : Claim) : array 32 :=
  epochClaimInputLeaf claim.(Ordinal) (inputOf claim.(claim_Commitment) claim.(AdmissionDigest)).

Definition appendMaterialized (out : bytes) (claim : Claim) : bytes :=
  let out := AppendUint32 out claim.(Ordinal) in
  let out := claimText out claim.(claim_Name) in
  let out := out ++ claim.(claim_Commitment) in
  let out := out ++ claim.(claim_Authority) in
  out ++ claim.(AdmissionDigest).

Definition materializationBytes (claims : list Claim) : bytes :=
  foldl appendMaterialized (str "ardents-name-claim-materialization-v1" ++ [x00]) claims.

Definition claimMaterializationLeaf (claims : list Claim) : array 32 :=
  sha256 (materializationBytes claims).

Definition claimNode (left right : array 32) : array 32 :=
  let out := [x01] ++ left in
  sha256 (out ++ right).

Definition verifyInclusion (leaf : array 32) (index length : Z) (path : list (array 32))
  (root : array 32) : bool :=
  verifyPath claimNode leaf index length path root.

Definition orderedCollisionLeaf (claim : Claim) : array 32 :=
  let out := AppendUint32 [x03] claim.(Ordinal) in
  let out := out ++ claim.(claim_Commitment) in
  sha256 (claimText out (str "ordered-collision")).

(** Reached with at least one leaf only; the value on [] is never used. *)
Definition claimTreeRoot (leaves : list (array 32)) : array 32 := treeRoot claimNode leaves zero32.

Definition emptyClaimRoot : array 32 := sha256 [x02].

(** ** claim_verify.go: the close *)

Definition validCloseFields (proof : ClaimProof) : bool :=
  (proof.(Network) !=? zero32) && (0 <? proof.(Epoch)) && (proof.(Rule) !=? []) &&
  (0 <=? proof.(CutoffOffset)) && (proof.(InputRoot) !=? zero32) && (0 <? proof.(InputLength)) &&
  (proof.(MaterializationRoot) !=? zero32) && (0 <? proof.(MaterializationLength)) &&
  (proof.(MaterializationOrdinal) <? proof.(MaterializationLength)) &&
  (proof.(RejectionRoot) !=? zero32) &&
  (negb (proof.(RejectionLength) =? 0) || (proof.(RejectionRoot) ==? emptyClaimRoot)).

Definition validOrderInput (order : ClaimOrder) (proof : ClaimProof) : bool :=
  (order.(order_Network) !=? zero32) && (order.(order_Rule) ==? claimOrderRule) &&
  (0 <? order.(MinimumEpoch)) && (0 <? order.(MaximumClaims)) && (order.(MaximumClaims) <=? 32) &&
  (2 <=? order.(order_Threshold)) &&
  (order.(order_Threshold) <=? Z.of_nat (size order.(Authorities))) &&
  (Z.of_nat (size order.(Authorities)) <=? 16) &&
  (proof.(Network) ==? order.(order_Network)) && (order.(MinimumEpoch) <=? proof.(Epoch)) &&
  (0 <? len proof.(Claims)) && (u32 (len proof.(Claims)) <=? order.(MaximumClaims)) &&
  (len proof.(MaterializationPath) <=? 32) && validCloseFields proof.

(** The loop of [validStatement]; [previous] is the signer before. *)
Fixpoint validSigners (order : ClaimOrder) (transcript : bytes) (previous : option (array 32))
  (ids : list (array 32)) (signatures : list bytes) : bool :=
  match ids, signatures with
  | id :: ids, signature :: signatures =>
      if match previous with Some p => bytes_geb p id | None => false end then false
      else
        match order.(Authorities) !! id with
        | None => false
        | Some public =>
            if negb (len public =? 32) || (sha256 public !=? id) || negb (len signature =? 64) ||
               negb (ed25519_Verify public transcript signature)
            then false
            else validSigners order transcript (Some id) ids signatures
        end
  | _, _ => true
  end.

Definition validStatement (order : ClaimOrder) (proof : ClaimProof) : bool :=
  if (len proof.(SignerIDs) <? order.(order_Threshold)) ||
     negb (len proof.(SignerIDs) =? len proof.(Signatures)) ||
     (Z.of_nat (size order.(Authorities)) <? len proof.(SignerIDs))
  then false
  else validSigners order (StatementTranscript proof) None proof.(SignerIDs) proof.(Signatures).

Definition sameClose (left right : ClaimProof) : bool :=
  (left.(Rule) ==? right.(Rule)) && (left.(CutoffOffset) =? right.(CutoffOffset)) &&
  (left.(InputRoot) ==? right.(InputRoot)) && (left.(InputLength) =? right.(InputLength)) &&
  (left.(MaterializationRoot) ==? right.(MaterializationRoot)) &&
  (left.(MaterializationLength) =? right.(MaterializationLength)) &&
  (left.(RejectionRoot) ==? right.(RejectionRoot)) &&
  (left.(RejectionLength) =? right.(RejectionLength)).

(** The guard of one reveal in the loop of [Verify]. *)
Definition invalidReveal (proof : ClaimProof) (claim : Claim) : bool :=
  match Parse claim.(claim_Name) with
  | Err _ => true
  | Ok name => name !=? claim.(claim_Name)
  end ||
  (claim.(claim_Authority) ==? zero32) || (claim.(Secret) ==? zero32) ||
  (claim.(AdmissionDigest) ==? zero32) || (proof.(InputLength) <=? claim.(Ordinal)) ||
  (32 <? len claim.(InputPath)) ||
  (claim.(claim_Commitment) !=? CommitmentFor proof.(Network) proof.(Epoch) claim) ||
  negb (ed25519_Verify claim.(claim_Authority)
          (RevealTranscript proof.(Network) proof.(Epoch) claim) claim.(claim_Signature)) ||
  negb (verifyInclusion (claimInputLeaf claim) claim.(Ordinal) proof.(InputLength)
          claim.(InputPath) proof.(InputRoot)).

Definition unavailable (e : string) : verdict * option error :=
  (MkVerdict "unavailable" 0 [] zero32, Some (New e)).
Definition fork : verdict := MkVerdict "fork" 0 [] zero32.
Definition conflict : verdict := MkVerdict "conflict" 0 [] zero32.

(** The loop over the claims: [first] is the name of [claims[0]] and [previous]
    the ordinal before, both absent at index 0. *)
Fixpoint checkClaims (proof : ClaimProof) (before : option (gostring * Z)) (claims : list Claim)
  : option (verdict * option error) :=
  match claims with
  | [] => None
  | claim :: rest =>
      if invalidReveal proof claim
      then Some (conflict, Some (New "claim reveal or input inclusion is invalid"))
      else if match before with Some (first, _) => claim.(claim_Name) !=? first | None => false end
      then Some (conflict, Some (New "claim materialization contains multiple Names"))
      else if match before with Some (_, previous) => claim.(Ordinal) <=? previous | None => false end
      then Some (fork, Some (New "claim input ordinals are duplicate or non-canonical"))
      else
        checkClaims proof
          (Some (match before with Some (first, _) => first | None => claim.(claim_Name) end,
                 claim.(Ordinal))) rest
  end.

Definition Verify (order : ClaimOrder) (proof : ClaimProof) : verdict * option error :=
  if negb (validOrderInput order proof) || negb (validStatement order proof)
  then unavailable "claim Epoch close is incomplete or invalid"
  else if proof.(Rule) !=? order.(order_Rule) then (fork, None)
  else if 1 <? len proof.(AlternateSets) then unavailable "claim Epoch alternatives are unbounded"
  else
    match proof.(AlternateSets) with
    | alternate :: _ =>
        if (alternate.(Network) !=? proof.(Network)) || negb (alternate.(Epoch) =? proof.(Epoch)) ||
           negb (validCloseFields alternate) || negb (validStatement order alternate)
        then unavailable "alternate claim Epoch close is invalid"
        else if sameClose proof alternate
        then unavailable "alternate duplicates the primary Epoch close"
        else (fork, None)
    | [] =>
        match checkClaims proof None proof.(Claims) with
        | Some failure => failure
        | None =>
            if negb (verifyInclusion (claimMaterializationLeaf proof.(Claims))
                       proof.(MaterializationOrdinal) proof.(MaterializationLength)
                       proof.(MaterializationPath) proof.(MaterializationRoot))
            then unavailable "claim materialization inclusion is invalid"
            else
              match proof.(Claims) with
              | [] => unavailable "claim Epoch close is incomplete or invalid" (* excluded by [validOrderInput] *)
              | winner :: losers =>
                  let rejectionRoot :=
                    if 1 <? len proof.(Claims)
                    then claimTreeRoot (map orderedCollisionLeaf losers) else emptyClaimRoot in
                  if negb (proof.(RejectionLength) =? u32 (len proof.(Claims) - 1)) ||
                     (proof.(RejectionRoot) !=? rejectionRoot)
                  then unavailable "claim rejection materialization is incomplete"
                  else (MkVerdict "accepted" winner.(Ordinal) (map Ordinal losers)
                          winner.(claim_Commitment), None)
              end
        end
    end.

(** ** claim_application.go *)

Definition accepted (v : verdict * option error) : bool :=
  match v.2 with Some _ => false | None => bool_decide (v.1.(Outcome) = "accepted"%string) end.

Definition OpenClaimWinner (order : ClaimOrder) (proof : ClaimProof) : result claimWinner :=
  let v := Verify order proof in
  reject (New "root claim ordering is not accepted") when (negb (accepted v));
  match list_find (fun c => c.(Ordinal) = v.1.(WinnerOrdinal)) proof.(Claims) with
  | None => Err (New "root claim winner is unavailable")
  | Some (_, winner) =>
      Ok (MkWinner proof.(Network) winner.(claim_Name) winner.(claim_Authority) v.1.(WinnerOrdinal)
            proof.(Epoch) (sha256 (StatementTranscript proof)) false)
  end.

Definition winnerOp (winner : claimWinner) (current : option record.NameRecord) : record.Op :=
  let '(generation, expectedGeneration, expectedRevision) :=
    match current with
    | Some c => (u64 (c.(record.Generation) + 1), c.(record.Generation), c.(record.Revision))
    | None => (1, 0, 0)
    end in
  record.zeroOp <| record.op_Kind := str "claim" |> <| record.op_Name := winner.(winner_name) |>
    <| record.op_Generation := generation |>
    <| record.op_ExpectedGeneration := expectedGeneration |>
    <| record.op_ExpectedRevision := expectedRevision |>
    <| record.op_Authority := hex_EncodeToString winner.(winner_authority) |>.

Definition prepare (winner : option claimWinner) (current : option record.NameRecord)
  (materializedAt : Z) (policy : record.Policy) : result record.NameRecord :=
  match winner with
  | None => Err (New "root claim materialization input is invalid")
  | Some winner =>
      reject (New "root claim materialization input is invalid")
        when (IsZero materializedAt || (Unix materializedAt <=? 0));
      reject (New "root claim winner was already materialized") when (winner.(consumed));
      reject (New "root claim predecessor does not match the authenticated winner")
        when (match current with
              | Some c => c.(record.Name) !=? winner.(winner_name)
              | None => false
              end);
      record.ApplyAtLegacy current materializedAt (winnerOp winner current) policy
  end.

Definition consume (winner : option claimWinner) : option claimWinner * bool :=
  match winner with
  | None => (None, false)
  | Some winner =>
      if winner.(consumed) then (Some winner, false)
      else (Some (winner <| consumed := true |>), true)
  end.

Definition Materialize (winner : option claimWinner) (current : option record.NameRecord)
  (materializedAt : Z) (policy : record.Policy) : option claimWinner * result record.NameRecord :=
  match prepare winner current materializedAt policy with
  | Err e => (winner, Err e)
  | Ok materialized =>
      let '(winner, won) := consume winner in
      if won then (winner, Ok materialized)
      else (winner, Err (New "root claim winner was already materialized"))
  end.

Definition MaterializeSigned (winner : option claimWinner) (current : option record.NameRecord)
  (materializedAt : Z) (policy : record.Policy)
  (signer : option (recordcodec.RecordSigningRequest -> result bytes))
  : option claimWinner * result (record.NameRecord * bytes) :=
  match winner with
  | None => (winner, Err (New "root claim winner is unavailable"))
  | Some w =>
      match prepare winner current materializedAt policy with
      | Err e => (winner, Err e)
      | Ok materialized =>
          match recordcodec.SignWith w.(winner_network) materialized signer with
          | Err e => (winner, Err e)
          | Ok signed =>
              let '(winner, won) := consume winner in
              if won then (winner, Ok (materialized, signed))
              else (winner, Err (New "root claim winner was already materialized"))
          end
      end
  end.

Definition Name (winner : option claimWinner) : gostring :=
  match winner with Some w => w.(winner_name) | None => [] end.

Definition BelongsTo (winner : option claimWinner) (network : array 32) (epoch : Z) : bool :=
  match winner with
  | Some w => (w.(winner_network) ==? network) && (w.(winner_epoch) =? epoch)
  | None => false
  end.

Definition CloseDigest (winner : option claimWinner) : array 32 :=
  match winner with Some w => w.(close) | None => zero32 end.

(** ** claim_ingestion.go *)

(** [None] is a nil gate.  The second component is the gate afterwards. *)
Definition AdmitClaimCommitment (gate : option admission.Admission) (now : Z) (commitment : array 32)
  (proof : admission.Proof) : option admission.Admission * result ClaimCommitment :=
  match gate with
  | None => (gate, Err (New "claim commitment admission is invalid"))
  | Some g =>
      let challenge := proof.(admission.proof_Challenge) in
      if (commitment ==? zero32) || (challenge.(admission.Network) !=? g.(admission.network)) ||
         negb (challenge.(admission.Epoch) =? g.(admission.epoch)) ||
         (challenge.(admission.Surface) !=? str "root-claim") ||
         (challenge.(admission.OperationDigest) !=? commitment)
      then (gate, Err (New "claim commitment admission is invalid"))
      else
        let '(g', (ok, _)) := admission.Verify g now proof in
        if negb ok then (Some g', Err (New "claim commitment admission is denied"))
        else if g'.(admission.epoch) =? 2 ^ 64 - 1
        then (Some g', Err (New "claim commitment epoch is unavailable"))
        else (Some g', Ok (MkCommitment g'.(admission.network) (u64 (g'.(admission.epoch) + 1))
                             commitment (admission.Digest proof)))
  end.

Definition emptyCommitment (c : ClaimCommitment) : bool :=
  (c.(commitment_network) ==? zero32) || (c.(revealEpoch) =? 0) || (c.(commitment) ==? zero32) ||
  (c.(commitment_admission) ==? zero32).

Definition Reveal (c : option ClaimCommitment) (name : gostring) (secret authority : array 32)
  (signature : array 64) : result Claim :=
  match c with
  | None => Err (New "claim reveal input is invalid")
  | Some c =>
      reject (New "claim reveal input is invalid")
        when (emptyCommitment c || (authority ==? zero32) || (secret ==? zero32));
      match Parse name with
      | Err _ => Err (New "claim reveal Name is invalid")
      | Ok parsed =>
          reject (New "claim reveal Name is invalid") when (parsed !=? name);
          let claim := MkClaim 0 name secret authority c.(commitment) c.(commitment_admission) []
                         signature in
          reject (New "claim reveal does not open admitted commitment")
            when ((CommitmentFor c.(commitment_network) c.(revealEpoch) claim !=? c.(commitment)) ||
                  negb (ed25519_Verify authority
                          (RevealTranscript c.(commitment_network) c.(revealEpoch) claim) signature));
          Ok claim
      end
  end.

Definition EpochInput (c : option ClaimCommitment) : result EpochClaimInput :=
  match c with
  | None => Err (New "claim Epoch input is invalid")
  | Some c =>
      reject (New "claim Epoch input is invalid") when (emptyCommitment c);
      Ok (MkInput (inputOf c.(commitment) c.(commitment_admission)) c.(commitment))
  end.

Definition Canonical (input : EpochClaimInput) : bytes := input.(raw).

Definition InputLeaf (input : EpochClaimInput) (ordinal : Z) : array 32 :=
  epochClaimInputLeaf ordinal input.(raw).

Definition valid (input : EpochClaimInput) : bool :=
  if (input.(input_commitment) ==? zero32) || (input.(raw) ==? zero 64) then false
  else
    let commitment := to_array 32 (take 32 input.(raw)) in
    let admission := to_array 32 (drop 32 input.(raw)) in
    (commitment ==? input.(input_commitment)) && (admission !=? zero32).

Definition VerifyClose (input : EpochClaimInput) (order : ClaimOrder) (ordinal : Z)
  (proof : ClaimProof) : result claimWinner :=
  reject (New "claim Epoch input is invalid") when (negb (valid input));
  match OpenClaimWinner order proof with
  | Err _ => Err (New "claim Epoch close does not select admitted input")
  | Ok winner =>
      reject (New "claim Epoch close does not select admitted input")
        when (negb (winner.(winner_ordinal) =? ordinal));
      match list_find (fun c => c.(Ordinal) = ordinal) proof.(Claims) with
      | Some (_, claim) =>
          if InputLeaf input ordinal ==? claimInputLeaf claim then Ok winner
          else Err (New "claim Epoch close does not include admitted input")
      | None => Err (New "claim Epoch close does not include admitted input")
      end
  end.

End Claims.

(** ** Transcripts *)

Section Transcripts.
Context `{GoLib}.

Lemma claimText_eq out value : claimText out value = out ++ be_bytes 4 (u32 (len value)) ++ value.
Proof. unfold claimText, AppendUint32. by rewrite app_assoc. Qed.

Lemma text_peel s t l r :
  len s < 2 ^ 32 -> len t < 2 ^ 32 ->
  (be_bytes 4 (u32 (len s)) ++ s) ++ l = (be_bytes 4 (u32 (len t)) ++ t) ++ r -> s = t /\ l = r.
Proof.
  intros Hs Ht E. rewrite <- !app_assoc in E. pose proof (len_nonneg s). pose proof (len_nonneg t).
  assert (u32 (len s) = len s) as Es by (apply Z.mod_small; lia).
  assert (u32 (len t) = len t) as Et by (apply Z.mod_small; lia). rewrite Es, Et in E. peel E.
  apply be_bytes4_inj in Hw; [|unfold in_u32; lia..]. by apply app_peel_len in E.
Qed.

(** What the materialization leaf commits to of one claim. *)
Definition materialized (c : Claim) : Z * gostring * array 32 * array 32 * array 32 :=
  (c.(Ordinal), c.(claim_Name), c.(claim_Commitment), c.(claim_Authority), c.(AdmissionDigest)).

Definition TypedClaim (c : Claim) : Prop := in_u32 c.(Ordinal) /\ len c.(claim_Name) < 2 ^ 32.

Definition claimRow (c : Claim) : bytes :=
  be_bytes 4 c.(Ordinal) ++ (be_bytes 4 (u32 (len c.(claim_Name))) ++ c.(claim_Name)) ++
  c.(claim_Commitment) ++ c.(claim_Authority) ++ c.(AdmissionDigest).

Lemma materializationBytes_eq claims :
  materializationBytes claims =
  str "ardents-name-claim-materialization-v1" ++ [x00] ++ concat (map claimRow claims).
Proof.
  unfold materializationBytes. rewrite app_assoc.
  generalize (str "ardents-name-claim-materialization-v1" ++ [x00]). intros out.
  revert out. induction claims as [|c claims IH]; intros out; simpl; [by rewrite app_nil_r|].
  rewrite IH. unfold appendMaterialized, AppendUint32. rewrite claimText_eq. unfold claimRow.
  by rewrite <- !app_assoc.
Qed.

Lemma claimRow_inj a b l r :
  TypedClaim a -> TypedClaim b -> claimRow a ++ l = claimRow b ++ r ->
  materialized a = materialized b /\ l = r.
Proof.
  intros [Ha Ha'] [Hb Hb']. unfold claimRow. rewrite <- app_assoc. rewrite <- (app_assoc _ _ r).
  intros E. peel E. rewrite <- (app_assoc _ _ l), <- (app_assoc _ _ r) in E.
  apply text_peel in E as [En E]; [|done..]. rewrite <- !app_assoc in E. do 3 peel E. unwire.
  unfold materialized. split; congruence.
Qed.

Lemma claimRow_nonempty c l : claimRow c ++ l <> [].
Proof.
  intros E%(f_equal len). unfold claimRow in E. autorewrite with len in E.
  pose proof (len_nonneg (claim_Name c)). pose proof (len_nonneg l). lia.
Qed.

Lemma materializationBytes_inj claims claims' :
  Forall TypedClaim claims -> Forall TypedClaim claims' ->
  materializationBytes claims = materializationBytes claims' ->
  map materialized claims = map materialized claims'.
Proof.
  rewrite !materializationBytes_eq. intros Hc Hc' E. do 2 apply app_inv_head in E.
  revert claims' Hc' E. induction Hc as [|c claims Hc Hcs IH]; intros [|c' claims'] Hc' E; simpl in *.
  - done.
  - by destruct (claimRow_nonempty c' (concat (map claimRow claims'))).
  - by destruct (claimRow_nonempty c (concat (map claimRow claims))).
  - apply Forall_cons in Hc' as [Hc1 Hc2]. apply claimRow_inj in E as [Em E]; [|done..].
    f_equal; [done|]. by apply IH.
Qed.

Lemma epochClaimInputBytes_inj o o' i i' :
  in_u32 o -> in_u32 o' -> epochClaimInputBytes o i = epochClaimInputBytes o' i' -> o = o' /\ i = i'.
Proof.
  unfold epochClaimInputBytes, AppendUint32. rewrite <- !app_assoc. intros Ho Ho' E.
  apply app_inv_head in E. peel E. by unwire.
Qed.

Lemma RevealTranscript_ordinal network epoch c c' :
  in_u32 c.(Ordinal) -> in_u32 c'.(Ordinal) ->
  RevealTranscript network epoch c = RevealTranscript network epoch c' -> c.(Ordinal) = c'.(Ordinal).
Proof.
  unfold RevealTranscript, AppendUint32, AppendUint64. rewrite <- !app_assoc. intros Hc Hc' E.
  do 3 apply app_inv_head in E. peel E. by unwire.
Qed.

End Transcripts.

(** ** The accepted close *)

Section Accepted.
Context `{GoLib}.

(** A signature of one authority of the order over the close. *)
Definition SignedBy (order : ClaimOrder) (transcript : bytes) (id : array 32) (signature : bytes) : Prop :=
  exists public, order.(Authorities) !! id = Some public /\ len public = 32 /\ sha256 public = id /\
    len signature = 64 /\ ed25519_Verify public transcript signature = true.

Lemma validSigners_true order transcript previous ids signatures :
  length ids = length signatures ->
  validSigners order transcript previous ids signatures = true ->
  Sorted recovery.before (match previous with Some p => p :: ids | None => ids end) /\
  Forall2 (SignedBy order transcript) ids signatures.
Proof.
  revert previous signatures.
  induction ids as [|id ids IH]; intros previous [|sig sigs] Hl; cbn [validSigners]; try done.
  { intros _. split; [|constructor]. destruct previous; repeat constructor. }
  destruct (match previous with Some p => bytes_geb p id | None => false end) eqn:Ep; [done|].
  destruct (Authorities order !! id) as [public|] eqn:Ea; [|done].
  destruct (_ || _) eqn:E; [done|]. intros [Hs Hf]%IH; [|by injection Hl]. goprop. split.
  - destruct previous as [p|]; [|done]. constructor; [done|]. constructor. by apply bytes_geb_false.
  - constructor; [|done]. exists public. split_and!; done || lia.
Qed.

Lemma validStatement_true order proof :
  validStatement order proof = true ->
  NoDup proof.(SignerIDs) /\ order.(order_Threshold) <= len proof.(SignerIDs) /\
  Forall2 (SignedBy order (StatementTranscript proof)) proof.(SignerIDs) proof.(Signatures).
Proof.
  unfold validStatement. destruct (_ || _) eqn:E; [done|]. goprop.
  intros [Hs Hf]%validSigners_true; [|unfold len in *; lia].
  split; [|split; [lia|done]]. apply recovery.before_NoDup, Sorted_StronglySorted; [apply _|done].
Qed.

(** What the loop establishes for one reveal. *)
Record GoodReveal (proof : ClaimProof) (c : Claim) : Prop := {
  reveal_name : exists ls, CanonicalName c.(claim_Name) ls;
  reveal_authority : c.(claim_Authority) <> zero32;
  reveal_admission : c.(AdmissionDigest) <> zero32;
  reveal_ordinal : c.(Ordinal) < proof.(InputLength);
  reveal_opens : c.(claim_Commitment) = CommitmentFor proof.(Network) proof.(Epoch) c;
  reveal_signed : ed25519_Verify c.(claim_Authority)
      (RevealTranscript proof.(Network) proof.(Epoch) c) c.(claim_Signature) = true;
  reveal_included : verifyInclusion (claimInputLeaf c) c.(Ordinal) proof.(InputLength)
      c.(InputPath) proof.(InputRoot) = true
}.

Lemma invalidReveal_false proof c : invalidReveal proof c = false -> GoodReveal proof c.
Proof.
  unfold invalidReveal. destruct (Parse (claim_Name c)) as [n|] eqn:En; [|done]. intros Hr. goprop.
  apply Parse_ok in En as [_ Hc]. constructor; try done; lia.
Qed.

Lemma checkClaims_None proof before claims :
  checkClaims proof before claims = None ->
  Forall (GoodReveal proof) claims /\
  match before with
  | Some (first, previous) =>
      Forall (fun c => c.(claim_Name) = first) claims /\ Sorted Z.lt (previous :: map Ordinal claims)
  | None => Sorted Z.lt (map Ordinal claims) /\
            forall c, head claims = Some c -> Forall (fun c' => c'.(claim_Name) = c.(claim_Name)) claims
  end.
Proof.
  revert before. induction claims as [|c claims IH]; intros before; cbn [checkClaims].
  { intros _. destruct before as [[]|]; repeat constructor; done. }
  destruct (invalidReveal proof c) eqn:Ei; [done|]. apply invalidReveal_false in Ei.
  destruct before as [[first previous]|].
  - destruct (claim_Name c !=? first) eqn:En; [done|].
    destruct (Ordinal c <=? previous) eqn:Eo; [done|]. goprop.
    intros (Hg & Hn & Hs)%IH. split; [by constructor|]. split; [by constructor|].
    constructor; [done|]. constructor. lia.
  - intros (Hg & Hn & Hs)%IH. split; [by constructor|]. split; [done|].
    intros c' [= ->]. by constructor.
Qed.

Lemma checkClaims_rejects proof before claims failure :
  checkClaims proof before claims = Some failure -> accepted failure = false.
Proof.
  revert before. induction claims as [|c claims IH]; intros before; cbn [checkClaims]; [done|].
  destruct (invalidReveal proof c); [by intros [= <-]|].
  destruct before as [[first previous]|]; [|by apply IH].
  destruct (claim_Name c !=? first); [by intros [= <-]|].
  destruct (Ordinal c <=? previous); [by intros [= <-]|by apply IH].
Qed.

(** Everything an accepted verdict rests on. *)
Record AcceptedClose (order : ClaimOrder) (proof : ClaimProof) (winner : Claim) (losers : list Claim)
  : Prop := {
  ac_claims : proof.(Claims) = winner :: losers;
  ac_order : validOrderInput order proof = true;
  ac_statement : validStatement order proof = true;
  ac_rule : proof.(Rule) = claimOrderRule;
  ac_single : proof.(AlternateSets) = [];
  ac_reveals : Forall (GoodReveal proof) proof.(Claims);
  ac_names : Forall (fun c => c.(claim_Name) = winner.(claim_Name)) proof.(Claims);
  ac_sorted : StronglySorted Z.lt (map Ordinal proof.(Claims));
  ac_materialized : verifyInclusion (claimMaterializationLeaf proof.(Claims))
      proof.(MaterializationOrdinal) proof.(MaterializationLength)
      proof.(MaterializationPath) proof.(MaterializationRoot) = true;
  ac_rejections : proof.(RejectionLength) = u32 (len losers) /\
      proof.(RejectionRoot) =
      if 1 <? len proof.(Claims) then claimTreeRoot (map orderedCollisionLeaf losers) else emptyClaimRoot
}.

Lemma Verify_accepted order proof :
  accepted (Verify order proof) = true ->
  exists winner losers, AcceptedClose order proof winner losers /\
    (Verify order proof).1 = MkVerdict "accepted" winner.(Ordinal) (map Ordinal losers)
                               winner.(claim_Commitment).
Proof.
  intros Ha. destruct (Verify order proof) as [v e] eqn:EV. unfold Verify in EV.
  destruct (_ || _) eqn:E1 in EV; [by injection EV as <- <-|].
  destruct (Rule proof !=? order_Rule order) eqn:E2; [by injection EV as <- <-|].
  destruct (1 <? _) in EV; [by injection EV as <- <-|].
  destruct (AlternateSets proof) as [|alternate l] eqn:E3; [|by repeat case_match; injection EV as <- <-].
  destruct (checkClaims proof None (Claims proof)) as [failure|] eqn:E4.
  { subst failure. by rewrite (checkClaims_rejects _ _ _ _ E4) in Ha. }
  destruct (verifyInclusion _ _ _ _ _) eqn:E5 in EV; cbn [negb] in EV; [|by injection EV as <- <-].
  destruct (Claims proof) as [|winner losers] eqn:E6; [by injection EV as <- <-|]. cbv zeta in EV.
  destruct (_ || _) eqn:E7 in EV; [by injection EV as <- <-|].
  apply checkClaims_None in E4 as (Hg & Hs & Hn). exists winner, losers. split.
  - replace (len (winner :: losers) - 1) with (len losers) in E7 by (rewrite len_cons; lia).
    goprop. assert (order_Rule order = claimOrderRule) as Hr
      by (unfold validOrderInput in *; goprop; done).
    constructor; rewrite ?E6; try done; [congruence|by apply Hn|].
    by apply Sorted_StronglySorted; [intros ???; lia|].
  - by injection EV as <- <-.
Qed.

Lemma OpenClaimWinner_ok order proof w :
  OpenClaimWinner order proof = Ok w ->
  exists winner losers, AcceptedClose order proof winner losers /\
    w = MkWinner proof.(Network) winner.(claim_Name) winner.(claim_Authority) winner.(Ordinal)
          proof.(Epoch) (sha256 (StatementTranscript proof)) false.
Proof.
  unfold OpenClaimWinner. destruct (accepted (Verify order proof)) eqn:Ea; [|done]. cbn [negb].
  destruct (Verify_accepted _ _ Ea) as (winner & losers & Hac & ->). cbn [WinnerOrdinal].
  rewrite (ac_claims _ _ _ _ Hac). cbn [list_find]. rewrite decide_True by done.
  intros [= <-]. by exists winner, losers.
Qed.

Lemma sorted_head_least winner losers c :
  StronglySorted Z.lt (map Ordinal (winner :: losers)) -> c ∈ winner :: losers ->
  c = winner \/ winner.(Ordinal) < c.(Ordinal).
Proof.
  intros [_ Hall]%StronglySorted_inv [->|Hc]%elem_of_cons; [by left|right].
  rewrite Forall_forall in Hall. by apply Hall, list_elem_of_fmap_2.
Qed.

(** A winner opened from a close belongs to the order's Network and to an
    Epoch the order admits; at least [Threshold >= 2] distinct authorities of the
    order signed that close; and the winner is the claim of the proof with the
    lowest ordinal, every other claim being a later claim of the same canonical
    name, with a commitment that opens to its name, Authority and secret and a
    reveal signed by its Authority. *)
Theorem OpenClaimWinner_sound order proof w :
  OpenClaimWinner order proof = Ok w ->
  w.(winner_network) = order.(order_Network) /\ w.(winner_network) <> zero32 /\
  w.(winner_epoch) = proof.(Epoch) /\ order.(MinimumEpoch) <= proof.(Epoch) /\
  w.(close) = sha256 (StatementTranscript proof) /\ w.(consumed) = false /\
  (NoDup proof.(SignerIDs) /\ 2 <= order.(order_Threshold) <= len proof.(SignerIDs) /\
   Forall2 (SignedBy order (StatementTranscript proof)) proof.(SignerIDs) proof.(Signatures)) /\
  exists winner losers, proof.(Claims) = winner :: losers /\
    w.(winner_name) = winner.(claim_Name) /\ w.(winner_authority) = winner.(claim_Authority) /\
    w.(winner_ordinal) = winner.(Ordinal) /\
    Forall (fun c => c.(claim_Name) = w.(winner_name) /\ GoodReveal proof c) proof.(Claims) /\
    (forall c, c ∈ proof.(Claims) -> c = winner \/ w.(winner_ordinal) < c.(Ordinal)) /\
    proof.(RejectionLength) = u32 (len losers).
Proof.
  intros (winner & losers & [Hc Ho Hs Hr Hal Hg Hn Hst Hm [Hrl _]] & ->)%OpenClaimWinner_ok. cbn -[sha256].
  apply validStatement_true in Hs. unfold validOrderInput in Ho. goprop.
  split_and!; try done; try congruence. exists winner, losers. split_and!; try done.
  - by apply Forall_and.
  - intros c. rewrite Hc in *. by apply sorted_head_least.
Qed.

(** *** The trees behind the close *)

(** The leaf inputs of the Epoch log and of the materialized groups, and the
    roots a close commits to. *)
Definition inputBytes (inputs : list (array 64)) : list bytes :=
  imap (fun i input => epochClaimInputBytes (Z.of_nat i) input) inputs.

Definition inputTree (inputs : list (array 64)) : array 32 := claimTreeRoot (map sha256 (inputBytes inputs)).

Definition groupTree (groups : list (list Claim)) : array 32 :=
  claimTreeRoot (map claimMaterializationLeaf groups).

(** All strings hashed by the two trees and by the verification of the proof. *)
Definition closeInputs (proof : ClaimProof) (inputs : list (array 64)) (groups : list (list Claim))
  : list bytes :=
  proofInputs (materializationBytes proof.(Claims)) (map materializationBytes groups)
    proof.(MaterializationOrdinal) proof.(MaterializationPath) zero32 ++
  concat (map (fun c => proofInputs
     (epochClaimInputBytes c.(Ordinal) (inputOf c.(claim_Commitment) c.(AdmissionDigest)))
     (inputBytes inputs) c.(Ordinal) c.(InputPath) zero32) proof.(Claims)).

Lemma materializationBytes_leaf claims : LeafInput (materializationBytes claims).
Proof. rewrite materializationBytes_eq. done. Qed.

Lemma inputBytes_leaf inputs : Forall LeafInput (inputBytes inputs).
Proof.
  apply Forall_lookup_2. intros i x. unfold inputBytes. rewrite list_lookup_imap.
  by intros (input & _ & ->)%fmap_Some_1.
Qed.

Lemma included_group proof groups :
  proof.(MaterializationRoot) = groupTree groups -> proof.(MaterializationLength) = len groups ->
  len groups < 2 ^ 32 -> 0 <= proof.(MaterializationOrdinal) ->
  Forall TypedClaim proof.(Claims) -> Forall (Forall TypedClaim) groups ->
  verifyInclusion (claimMaterializationLeaf proof.(Claims)) proof.(MaterializationOrdinal)
    proof.(MaterializationLength) proof.(MaterializationPath) proof.(MaterializationRoot) = true ->
  (exists group, groups !! Z.to_nat proof.(MaterializationOrdinal) = Some group /\
     map materialized proof.(Claims) = map materialized group) \/
  Collision sha256 (proofInputs (materializationBytes proof.(Claims)) (map materializationBytes groups)
    proof.(MaterializationOrdinal) proof.(MaterializationPath) zero32).
Proof.
  intros -> -> Hlen Hpos Ht Htg Hv.
  destruct (verifyPath_sound (materializationBytes proof.(Claims)) (map materializationBytes groups)
      proof.(MaterializationOrdinal) proof.(MaterializationPath) zero32) as [Hl|Hc];
    [|done|by rewrite len_map|by rewrite len_map, map_map|left|by right].
  - constructor; [apply materializationBytes_leaf|]. apply Forall_lookup_2.
    intros i x. rewrite list_lookup_fmap. intros (g & _ & ->)%fmap_Some_1. apply materializationBytes_leaf.
  - rewrite list_lookup_fmap in Hl. apply fmap_Some_1 in Hl as (g & Hg & E). exists g. split; [done|].
    apply materializationBytes_inj; [done| |done]. by eapply (Forall_lookup_1 _ groups).
Qed.

Lemma included_input proof inputs c :
  proof.(InputRoot) = inputTree inputs -> proof.(InputLength) = len inputs -> len inputs < 2 ^ 32 ->
  TypedClaim c ->
  verifyInclusion (claimInputLeaf c) c.(Ordinal) proof.(InputLength) c.(InputPath) proof.(InputRoot) = true ->
  inputs !! Z.to_nat c.(Ordinal) = Some (inputOf c.(claim_Commitment) c.(AdmissionDigest)) \/
  Collision sha256 (proofInputs
     (epochClaimInputBytes c.(Ordinal) (inputOf c.(claim_Commitment) c.(AdmissionDigest)))
     (inputBytes inputs) c.(Ordinal) c.(InputPath) zero32).
Proof.
  intros Hr Hl Hlen [Ho Hn] Hv. rewrite Hr, Hl in Hv.
  assert (len (inputBytes inputs) = len inputs) as Hlb
    by (unfold len, inputBytes; by rewrite length_imap).
  destruct (verifyPath_sound
     (epochClaimInputBytes c.(Ordinal) (inputOf c.(claim_Commitment) c.(AdmissionDigest)))
     (inputBytes inputs) c.(Ordinal) c.(InputPath) zero32) as [Hi|Hc];
    [by constructor; [|apply inputBytes_leaf]|apply Ho|by rewrite Hlb|by rewrite Hlb|left|by right].
  unfold inputBytes in Hi. rewrite list_lookup_imap in Hi.
  apply fmap_Some_1 in Hi as (input & Hin & E). unfold in_u32 in Ho. rewrite Z2Nat.id in E by lia.
  apply epochClaimInputBytes_inj in E as [_ ->]; done.
Qed.

(** C22: When the signed roots of a close are the roots of the Epoch input log
    and of the materialized groups, a winner opened from it is the first claim
    of the group at the materialization ordinal (same ordinals, names,
    commitments, Authorities and admission digests), and every claim of the
    proof is the log's input at its ordinal; otherwise two of the strings hashed
    are a SHA-256 collision. *)
Theorem winner_reflects_close order proof w inputs groups :
  OpenClaimWinner order proof = Ok w ->
  proof.(InputRoot) = inputTree inputs -> proof.(InputLength) = len inputs -> len inputs < 2 ^ 32 ->
  proof.(MaterializationRoot) = groupTree groups -> proof.(MaterializationLength) = len groups ->
  len groups < 2 ^ 32 -> 0 <= proof.(MaterializationOrdinal) ->
  Forall TypedClaim proof.(Claims) -> Forall (Forall TypedClaim) groups ->
  (exists first rest, groups !! Z.to_nat proof.(MaterializationOrdinal) = Some (first :: rest) /\
     w.(winner_name) = first.(claim_Name) /\ w.(winner_authority) = first.(claim_Authority) /\
     w.(winner_ordinal) = first.(Ordinal) /\
     map materialized proof.(Claims) = map materialized (first :: rest) /\
     Forall (fun c => inputs !! Z.to_nat c.(Ordinal)
                      = Some (inputOf c.(claim_Commitment) c.(AdmissionDigest))) proof.(Claims)) \/
  Collision sha256 (closeInputs proof inputs groups).
Proof.
  intros (winner & losers & [Hc Ho Hs Hr Hal Hg Hn Hst Hm Hrej] & ->)%OpenClaimWinner_ok
    Hir Hil Hin Hmr Hml Hgr Hpos Ht Htg.
  destruct (included_group proof groups) as [([|first rest] & Hgo & Em)|Hcol]; try done.
  { by rewrite Hc in Em. }
  2:{ right. eapply collision_mono; [|exact Hcol]. unfold closeInputs. set_solver. }
  destruct (Forall_or_collision sha256
      (fun c => inputs !! Z.to_nat c.(Ordinal) = Some (inputOf c.(claim_Commitment) c.(AdmissionDigest)))
      (fun c => proofInputs (epochClaimInputBytes c.(Ordinal) (inputOf c.(claim_Commitment) c.(AdmissionDigest)))
                  (inputBytes inputs) c.(Ordinal) c.(InputPath) zero32) proof.(Claims)) as [Hall|Hcol].
  - intros c Hin'. rewrite Forall_forall in Hg, Ht. apply (included_input proof); auto using reveal_included.
  - left. exists first, rest. rewrite Hc in Em. simpl in Em. injection Em as Eo Ename Ecm Eau Ead Er.
    rewrite Hc in *. split_and!; try done. cbn [map]. unfold materialized at 1 3. by f_equal; [congruence|].
  - right. eapply collision_mono; [|exact Hcol]. unfold closeInputs. set_solver.
Qed.

End Accepted.

(** ** A sample close with two claims *)

Section Witnesses.
#[local] Existing Instance sample_golib.

Definition pick {A} (r : result A) (fallback : A) : A := match r with Ok a => a | Err _ => fallback end.

(** A claim of [holder] for the ordinal, opened and signed, with the path given. *)
Definition sampleClaim (ordinal : Z) (secret holder digest : array 32) (path : list (array 32)) : Claim :=
  let claim := MkClaim ordinal (str "example") secret holder zero32 digest path (zero 64) in
  let claim := MkClaim ordinal (str "example") secret holder
                 (CommitmentFor (admission.key 2) 2 claim) digest path (zero 64) in
  MkClaim ordinal (str "example") secret holder claim.(claim_Commitment) digest path
    (to_array 64 (holder ++ sha256 (RevealTranscript (admission.key 2) 2 claim))).

Definition firstSecret : array 32 := recovery.key 31.
Definition firstHolder : array 32 := recovery.key 100.

Definition sampleCommitment : array 32 :=
  (sampleClaim 0 firstSecret firstHolder zero32 []).(claim_Commitment).

(** The admission of the first commitment at the sample gate. *)
Definition claimIssue : admission.Admission * result admission.Challenge :=
  admission.Issue admission.sampleGate 10 (str "root-claim") sampleCommitment (admission.key 5) 1000
    (to_array 16 [x07]).

Definition claimWork : admission.Proof :=
  admission.MkProof (pick claimIssue.2 admission.sampleChallenge) 0.

Definition firstInput : array 64 := inputOf sampleCommitment (admission.Digest claimWork).

Definition secondBare : Claim :=
  sampleClaim 1 (recovery.key 32) (recovery.key 101) (recovery.key 33) [].
Definition secondInput : array 64 := inputOf secondBare.(claim_Commitment) (recovery.key 33).

Definition firstClaim : Claim :=
  sampleClaim 0 firstSecret firstHolder (admission.Digest claimWork) [epochClaimInputLeaf 1 secondInput].
Definition secondClaim : Claim :=
  secondBare <| InputPath := [epochClaimInputLeaf 0 firstInput] |>.

Definition sampleAuthorities : list (array 32) := [recovery.key 21; recovery.key 22].

Definition sampleOrder : ClaimOrder :=
  MkOrder (admission.key 2) claimOrderRule 1 4
    (list_to_map (map (fun p : array 32 => (sha256 p, array_bytes p)) sampleAuthorities)) 2.

Definition unsignedClose : ClaimProof :=
  MkClaimProof (admission.key 2) 2 claimOrderRule 5
    (inputTree [firstInput; secondInput]) 2 (groupTree [[firstClaim; secondClaim]]) 1
    (orderedCollisionLeaf secondClaim) 1 0 [] [firstClaim; secondClaim] [] [] [].

Definition sampleClose : ClaimProof :=
  MkClaimProof (admission.key 2) 2 claimOrderRule 5
    (inputTree [firstInput; secondInput]) 2 (groupTree [[firstClaim; secondClaim]]) 1
    (orderedCollisionLeaf secondClaim) 1 0 [] [firstClaim; secondClaim]
    (map (fun p : array 32 => sha256 p) sampleAuthorities)
    (map (fun p : array 32 => p ++ sha256 (StatementTranscript unsignedClose)) sampleAuthorities) [].

Definition sampleWinner : claimWinner :=
  MkWinner (admission.key 2) (str "example") firstHolder 0 2 (sha256 (StatementTranscript sampleClose)) false.

Lemma sampleOpen : OpenClaimWinner sampleOrder sampleClose = Ok sampleWinner.
Proof. vm_compute. reflexivity. Qed.

Lemma sampleClaims_typed : Forall TypedClaim [firstClaim; secondClaim].
Proof. repeat constructor; by vm_compute. Qed.

Lemma OpenClaimWinner_sound_witness :
  Forall (fun c => c = firstClaim \/ 0 < c.(Ordinal)) sampleClose.(Claims).
Proof.
  destruct (OpenClaimWinner_sound sampleOrder sampleClose sampleWinner) as
    (_ & _ & _ & _ & _ & _ & _ & winner & losers & Hc & _ & _ & _ & _ & Hleast & _).
  - vm_compute. reflexivity.
  - injection Hc as <- _. apply Forall_forall. exact Hleast.
Defined.

Lemma winner_reflects_close_witness :
  Forall (fun c => [firstInput; secondInput] !! Z.to_nat c.(Ordinal)
                   = Some (inputOf c.(claim_Commitment) c.(AdmissionDigest))) sampleClose.(Claims) \/
  Collision sha256 (closeInputs sampleClose [firstInput; secondInput] [[firstClaim; secondClaim]]).
Proof.
  destruct (winner_reflects_close sampleOrder sampleClose sampleWinner [firstInput; secondInput]
    [[firstClaim; secondClaim]] sampleOpen eq_refl eq_refl) as [(first & rest & _ & _ & _ & _ & _ & Hall)|Hc].
  - by compute.
  - reflexivity.
  - reflexivity.
  - by compute.
  - exact (Z.le_refl 0).
  - exact sampleClaims_typed.
  - constructor; [exact sampleClaims_typed|constructor].
  - left. exact Hall.
  - right. exact Hc.
Defined.

End Witnesses.
End claim.
