(* ===== verification/ClaimWire.v ===== *)
(** * The canonical wire of a claim proof

    internal/naming/namespace/claim: claim_proof_wire.go, the bounded canonical
    JSON form of a [ClaimProof].  A slice that Go may leave nil is an option.
    The theorem: decoding what was encoded gives the proof back. *)

From S2P Require Import Prelude GoLib Recovery Json Claim.

Import json claim.

Module claimwire.

Definition maximumProofWireBytes : Z := 2 * 2 ^ 10.

Record claimWire := MkClaimWire {
  w_Ordinal : Z;
  w_Name : gostring;
  w_Secret : option bytes;
  w_Authority : option bytes;
  w_Commitment : option bytes;
  w_AdmissionDigest : option bytes;
  w_InputPath : option (list (option bytes));
  w_Signature : option bytes
}.

#[warnings="-register-all"] Inductive proofWire := MkProofWire {
  w_Network : option bytes;
  w_Epoch : Z;
  w_Rule : gostring;
  w_CutoffOffset : Z;
  w_InputRoot : option bytes;
  w_InputLength : Z;
  w_MaterializationRoot : option bytes;
  w_MaterializationLength : Z;
  w_RejectionRoot : option bytes;
  w_RejectionLength : Z;
  w_MaterializationOrdinal : Z;
  w_MaterializationPath : option (list (option bytes));
  w_Claims : option (list claimWire);
  w_SignerIDs : option (list (option bytes));
  w_Signatures : option (list (option bytes));
  w_AlternateSets : option (list proofWire)
}.

#[global] Instance eta_claimWire : Eta claimWire := fun w =>
  MkClaimWire w.(w_Ordinal) w.(w_Name) w.(w_Secret) w.(w_Authority) w.(w_Commitment) w.(w_AdmissionDigest)
    w.(w_InputPath) w.(w_Signature).

#[global] Instance eta_proofWire : Eta proofWire := fun w =>
  MkProofWire w.(w_Network) w.(w_Epoch) w.(w_Rule) w.(w_CutoffOffset) w.(w_InputRoot) w.(w_InputLength)
    w.(w_MaterializationRoot) w.(w_MaterializationLength) w.(w_RejectionRoot) w.(w_RejectionLength)
    w.(w_MaterializationOrdinal) w.(w_MaterializationPath) w.(w_Claims) w.(w_SignerIDs) w.(w_Signatures)
    w.(w_AlternateSets).

(** ** The JSON form *)

Definition required {R A} (name : string) (c : codec A) (get : R -> A) (put : A -> R -> R) : field R :=
  Field name (fun _ => false) c get put.

Definition nilable : codec (option bytes) := nullable slice.
Definition nilables : codec (option (list (option bytes))) := nullable (list_ nilable).

Definition claimFields : list (field claimWire) := [
  required "ordinal" uint32 w_Ordinal (fun v w => w <| w_Ordinal := v |>);
  required "name" text w_Name (fun v w => w <| w_Name := v |>);
  required "secret" nilable w_Secret (fun v w => w <| w_Secret := v |>);
  required "authority" nilable w_Authority (fun v w => w <| w_Authority := v |>);
  required "commitment" nilable w_Commitment (fun v w => w <| w_Commitment := v |>);
  required "admission_digest" nilable w_AdmissionDigest (fun v w => w <| w_AdmissionDigest := v |>);
  required "input_path" nilables w_InputPath (fun v w => w <| w_InputPath := v |>);
  required "signature" nilable w_Signature (fun v w => w <| w_Signature := v |>)].

Definition zeroClaimWire : claimWire := MkClaimWire 0 [] None None None None None None.
Definition claimCodec : codec claimWire := struct zeroClaimWire claimFields.

Definition proofFields (alternate : codec proofWire) : list (field proofWire) := [
  required "network" nilable w_Network (fun v w => w <| w_Network := v |>);
  required "epoch" uint64 w_Epoch (fun v w => w <| w_Epoch := v |>);
  required "rule" text w_Rule (fun v w => w <| w_Rule := v |>);
  required "cutoff_offset" int64 w_CutoffOffset (fun v w => w <| w_CutoffOffset := v |>);
  required "input_root" nilable w_InputRoot (fun v w => w <| w_InputRoot := v |>);
  required "input_length" uint32 w_InputLength (fun v w => w <| w_InputLength := v |>);
  required "materialization_root" nilable w_MaterializationRoot (fun v w => w <| w_MaterializationRoot := v |>);
  required "materialization_length" uint32 w_MaterializationLength (fun v w => w <| w_MaterializationLength := v |>);
  required "rejection_root" nilable w_RejectionRoot (fun v w => w <| w_RejectionRoot := v |>);
  required "rejection_length" uint32 w_RejectionLength (fun v w => w <| w_RejectionLength := v |>);
  required "materialization_ordinal" uint32 w_MaterializationOrdinal
    (fun v w => w <| w_MaterializationOrdinal := v |>);
  required "materialization_path" nilables w_MaterializationPath (fun v w => w <| w_MaterializationPath := v |>);
  required "claims" (nullable (list_ claimCodec)) w_Claims (fun v w => w <| w_Claims := v |>);
  required "signer_ids" nilables w_SignerIDs (fun v w => w <| w_SignerIDs := v |>);
  required "signatures" nilables w_Signatures (fun v w => w <| w_Signatures := v |>);
  required "alternate_sets" (nullable (list_ alternate)) w_AlternateSets (fun v w => w <| w_AlternateSets := v |>)].

Definition zeroWire : proofWire :=
  MkProofWire None 0 [] 0 None 0 None 0 None 0 0 None None None None None.

Definition never : codec proofWire := Codec (fun _ => []) (fun _ => None).

(** A proof with alternates nested less than [fuel] deep. *)
Fixpoint proofCodec (fuel : nat) : codec proofWire :=
  match fuel with
  | O => never
  | S fuel => struct zeroWire (proofFields (proofCodec fuel))
  end.

Fixpoint depth (w : proofWire) : nat :=
  S (match w.(w_AlternateSets) with
     | Some l => foldr (fun a n => Nat.max (depth a) n) O l
     | None => O
     end).

Definition marshalProof (w : proofWire) : bytes := Marshal (proofCodec (depth w)) w.

(** ** Conversions *)

Definition copy32 (raw : option bytes) : option (array 32) :=
  if len (default [] raw) =? 32 then Some (to_array 32 (default [] raw)) else None.

Definition nilIfEmpty {A} (l : list A) : option (list A) := match l with [] => None | _ => Some l end.

Definition sliceOf {n} (a : array n) : option bytes := Some (a : bytes).

Definition claimToWire (c : Claim) : claimWire :=
  MkClaimWire c.(Ordinal) c.(claim_Name) (sliceOf c.(Secret)) (sliceOf c.(claim_Authority))
    (sliceOf c.(claim_Commitment)) (sliceOf c.(AdmissionDigest)) (nilIfEmpty (map sliceOf c.(InputPath)))
    (sliceOf c.(claim_Signature)).

Fixpoint proofToWire (proof : ClaimProof) : proofWire :=
  MkProofWire (sliceOf proof.(Network)) proof.(Epoch) proof.(Rule) proof.(CutoffOffset) (sliceOf proof.(InputRoot))
    proof.(InputLength) (sliceOf proof.(MaterializationRoot)) proof.(MaterializationLength)
    (sliceOf proof.(RejectionRoot)) proof.(RejectionLength) proof.(MaterializationOrdinal)
    (nilIfEmpty (map sliceOf proof.(MaterializationPath))) (nilIfEmpty (map claimToWire proof.(Claims)))
    (nilIfEmpty (map sliceOf proof.(SignerIDs))) (nilIfEmpty (map nilIfEmpty proof.(Signatures)))
    (nilIfEmpty (map proofToWire proof.(AlternateSets))).

(** The loops over [[][]byte] with their error. *)
Fixpoint copyAll (e : string) (l : list (option bytes)) : result (list (array 32)) :=
  match l with
  | [] => Ok []
  | raw :: rest =>
      match copy32 raw with
      | None => Err (New e)
      | Some value => values ← copyAll e rest; Ok (value :: values)
      end
  end.

Definition wireToClaim (item : claimWire) : result Claim :=
  match copy32 item.(w_Secret), copy32 item.(w_Authority), copy32 item.(w_Commitment), copy32 item.(w_AdmissionDigest) with
  | Some secret, Some authority, Some commitment, Some admission =>
      let signature := default [] item.(w_Signature) in
      reject (New "claim reveal fixed field size is invalid") when (negb (len signature =? 64));
      path ← copyAll "claim input path is invalid" (default [] item.(w_InputPath));
      Ok (MkClaim item.(w_Ordinal) item.(w_Name) secret authority commitment admission path (to_array 64 signature))
  | _, _, _, _ => Err (New "claim reveal fixed field size is invalid")
  end.

Fixpoint wireToClaims (l : list claimWire) : result (list Claim) :=
  match l with
  | [] => Ok []
  | item :: rest => claim ← wireToClaim item; claims ← wireToClaims rest; Ok (claim :: claims)
  end.

Fixpoint wireToProof (wire : proofWire) : result ClaimProof :=
  match copy32 wire.(w_Network), copy32 wire.(w_InputRoot), copy32 wire.(w_MaterializationRoot),
        copy32 wire.(w_RejectionRoot) with
  | Some network, Some inputRoot, Some materializationRoot, Some rejectionRoot =>
      path ← copyAll "claim materialization path is invalid" (default [] wire.(w_MaterializationPath));
      claims ← wireToClaims (default [] wire.(w_Claims));
      signers ← copyAll "claim signer id is invalid" (default [] wire.(w_SignerIDs));
      alternates ← match wire.(w_AlternateSets) with
                   | None => Ok []
                   | Some l =>
                       (fix loop (l : list proofWire) : result (list ClaimProof) :=
                          match l with
                          | [] => Ok []
                          | alternate :: rest =>
                              value ← wireToProof alternate; values ← loop rest; Ok (value :: values)
                          end) l
                   end;
      Ok (MkClaimProof network wire.(w_Epoch) wire.(w_Rule) wire.(w_CutoffOffset) inputRoot wire.(w_InputLength)
            materializationRoot wire.(w_MaterializationLength) rejectionRoot wire.(w_RejectionLength)
            wire.(w_MaterializationOrdinal) path claims signers (map (default []) (default [] wire.(w_Signatures)))
            alternates)
  | _, _, _, _ => Err (New "claim proof fixed field size is invalid")
  end.

(** [CanonicalProof]: [raw = None] encodes the proof; otherwise the result is the
    proof the destination then holds.  Nesting is bounded by the length of the
    input. *)
Definition CanonicalProof (raw : option bytes) (proof : option ClaimProof) : result (bytes * ClaimProof) :=
  match proof with
  | None => Err (New "claim proof destination is missing")
  | Some proof =>
      match raw with
      | None =>
          let encoded := marshalProof (proofToWire proof) in
          reject (New "claim proof wire exceeds its bound")
            when ((len encoded =? 0) || (maximumProofWireBytes <? len encoded));
          Ok (encoded, proof)
      | Some raw =>
          reject (New "claim proof wire size is invalid")
            when ((len raw =? 0) || (maximumProofWireBytes <? len raw));
          match parse (proofCodec (length raw)) raw with
          | Some (wire, []) =>
              reject (New "claim proof wire is non-canonical") when (marshalProof wire !=? raw);
              decoded ← wireToProof wire;
              Ok (raw, decoded)
          | _ => Err (New "claim proof wire is malformed")
          end
      end
  end.

(** ** Reading a wire back *)

Record TypedClaimWire (w : claimWire) : Prop := {
  tc_ordinal : in_u32 w.(w_Ordinal);
  tc_name : Forall (fun c => ascii c = true) w.(w_Name)
}.

Record TypedFields (w : proofWire) : Prop := {
  tf_epoch : in_u64 w.(w_Epoch);
  tf_rule : Forall (fun c => ascii c = true) w.(w_Rule);
  tf_cutoff : in_i64 w.(w_CutoffOffset);
  tf_input : in_u32 w.(w_InputLength);
  tf_materialization : in_u32 w.(w_MaterializationLength);
  tf_rejection : in_u32 w.(w_RejectionLength);
  tf_ordinal : in_u32 w.(w_MaterializationOrdinal);
  tf_claims : Forall TypedClaimWire (default [] w.(w_Claims))
}.

Fixpoint TypedWire (n : nat) (w : proofWire) : Prop :=
  match n with
  | O => False
  | S n => TypedFields w /\ Forall (TypedWire n) (default [] w.(w_AlternateSets))
  end.

Definition anySlice (o : option bytes) : Prop := match o with Some _ => True | None => True end.

Lemma anySlice_all o : anySlice o.
Proof. by destruct o. Qed.

Lemma nilable_lawful : Lawful nilable (fun _ => True).
Proof. intros o rest _ Hr. apply (nullable_lawful slice (fun _ => True)); eauto with json. by destruct o. Qed.

Lemma nilables_lawful : Lawful nilables (fun _ => True).
Proof.
  intros o rest _ Hr. apply (nullable_lawful (list_ nilable) (Forall anySlice)); [|by apply list_starts| |done].
  - apply list_lawful.
    + intros v r _. by apply nilable_lawful.
    + apply (nullable_starts slice (fun _ => True)); [done|by apply slice_starts].
  - destruct o as [l|]; [|done]. apply Forall_forall. intros x _. apply anySlice_all.
Qed.

#[local] Hint Resolve nilable_lawful nilables_lawful : json.

Ltac readable := eapply lawful_readable; [eauto with json|try done].

Lemma claimCodec_lawful : Lawful claimCodec TypedClaimWire.
Proof.
  apply struct_lawful; [by vm_compute; repeat constructor; set_solver|by repeat constructor|].
  intros w [Ho Hn]. split; [|by destruct w]. repeat constructor; readable.
Qed.

Lemma claims_lawful :
  Lawful (nullable (list_ claimCodec)) (fun o => match o with Some l => Forall TypedClaimWire l | None => True end).
Proof.
  apply nullable_lawful; [|by apply list_starts]. apply list_lawful; [apply claimCodec_lawful|by apply struct_starts].
Qed.

Lemma proofCodec_lawful n : Lawful (proofCodec n) (TypedWire n).
Proof.
  induction n as [|n IH]; [by intros w rest []|].
  apply struct_lawful; [by vm_compute; repeat constructor; set_solver|by repeat constructor|].
  intros w [[] Ha]. split; [|by destruct w].
  assert (Lawful (nullable (list_ (proofCodec n))) (fun o => match o with Some l => Forall (TypedWire n) l | None => True end))
    as Halt.
  { apply nullable_lawful; [|by apply list_starts]. apply list_lawful; [done|]. destruct n; [by intros ? []|by apply struct_starts]. }
  pose proof claims_lawful. repeat constructor; readable.
  - by destruct (w_Claims w).
  - by destruct (w_AlternateSets w).
Qed.

(** ** Nesting *)

Lemma foldr_max_le (l : list proofWire) n :
  (foldr (fun a m => Nat.max (depth a) m) O l <= n)%nat <-> Forall (fun a => (depth a <= n)%nat) l.
Proof.
  induction l as [|a l IH]; cbn [foldr]; [split; [constructor|lia]|].
  rewrite Forall_cons, <- IH. lia.
Qed.

Lemma depth_eq w : depth w = S (foldr (fun a m => Nat.max (depth a) m) O (default [] w.(w_AlternateSets))).
Proof. by destruct w as [? ? ? ? ? ? ? ? ? ? ? ? ? ? ? [l|]]. Qed.

Lemma depth_le w n : (depth w <= S n)%nat <-> Forall (fun a => (depth a <= n)%nat) (default [] w.(w_AlternateSets)).
Proof. rewrite <- foldr_max_le, depth_eq. lia. Qed.

Lemma depth_positive w : (0 < depth w)%nat.
Proof. rewrite depth_eq. lia. Qed.

Lemma proofCodec_ext m n w :
  (depth w <= m)%nat -> (depth w <= n)%nat -> print (proofCodec m) w = print (proofCodec n) w.
Proof.
  revert n w. induction m as [|m IH]; intros [|n] w Hm Hn; try (pose proof (depth_positive w); lia).
  apply depth_le in Hm, Hn. cbn [proofCodec struct print]. apply (f_equal (cons openStruct)), printFields_ext.
  repeat (constructor; [by repeat split|]). constructor; [|constructor]. repeat split.
  cbn [required get field_codec nullable print]. destruct (w_AlternateSets w) as [l|]; [|done]. cbn in Hm, Hn.
  cbn [list_ print]. apply (f_equal (cons openList)), printItems_ext. rewrite Forall_forall in *. eauto.
Qed.

Lemma depth_bounded n w : (depth w <= n)%nat -> (depth w <= length (print (proofCodec n) w))%nat.
Proof.
  revert w. induction n as [|n IH]; intros w Hn; [lia|]. cbn [proofCodec struct print length].
  apply depth_le in Hn. apply depth_le. set (fs := proofFields (proofCodec n)).
  destruct (w_AlternateSets w) as [l|] eqn:El; [|constructor]. change (default [] (Some l)) with l in *.
  pose proof (required_length true fs w
    (required "alternate_sets" (nullable (list_ (proofCodec n))) w_AlternateSets (fun v w => w <| w_AlternateSets := v |>)))
    as Hl.
  cbn [required get field_codec omitted nullable print] in Hl. rewrite El in Hl.
  specialize (Hl (list_elem_of_lookup_2 fs 15 _ eq_refl) eq_refl). cbn [list_ print length] in Hl.
  rewrite Forall_forall in *. intros x Hx. pose proof (item_length (proofCodec n) l x Hx).
  specialize (IH x (Hn x Hx)). lia.
Qed.

(** ** Conversions *)

Lemma nilIfEmpty_default {A} (l : list A) : default [] (nilIfEmpty l) = l.
Proof. by destruct l. Qed.

Lemma copy32_slice (a : array 32) : copy32 (sliceOf a) = Some a.
Proof. unfold copy32, sliceOf. cbn. by rewrite len_array, to_array_id. Qed.

Lemma copyAll_slices e (l : list (array 32)) : copyAll e (map sliceOf l) = Ok l.
Proof. induction l as [|a l IH]; cbn [map copyAll]; [done|]. by rewrite copy32_slice, IH. Qed.

Lemma wireToClaim_toWire c : wireToClaim (claimToWire c) = Ok c.
Proof.
  unfold wireToClaim, claimToWire. cbn [w_Secret w_Authority w_Commitment w_AdmissionDigest w_Signature w_InputPath w_Ordinal w_Name].
  rewrite !copy32_slice, nilIfEmpty_default, copyAll_slices. cbn. rewrite len_array, to_array_id. by destruct c.
Qed.

Lemma wireToClaims_toWire l : wireToClaims (map claimToWire l) = Ok l.
Proof. induction l as [|c l IH]; cbn [map wireToClaims]; [done|]. by rewrite wireToClaim_toWire, IH. Qed.

Lemma signatures_back l : map (default []) (map nilIfEmpty l) = (l : list bytes).
Proof. induction l as [|b l IH]; cbn [map]; [done|]. by rewrite nilIfEmpty_default, IH. Qed.

Lemma wireToProof_toWire n proof : (depth (proofToWire proof) <= n)%nat -> wireToProof (proofToWire proof) = Ok proof.
Proof.
  revert proof. induction n as [|n IH]; intros proof Hn; [pose proof (depth_positive (proofToWire proof)); lia|].
  apply depth_le in Hn. destruct proof as [nw ep ru cu ir il mr ml rr rl mo mp cl si sg al]. cbn in Hn |- *.
  rewrite !copy32_slice, !nilIfEmpty_default, !copyAll_slices, wireToClaims_toWire, signatures_back. cbn.
  rewrite nilIfEmpty_default in Hn.
  assert (forall l, Forall (fun a => (depth a <= n)%nat) (map proofToWire l) ->
    (fix loop (l : list proofWire) : result (list ClaimProof) :=
       match l with
       | [] => Ok []
       | alternate :: rest => value ← wireToProof alternate; values ← loop rest; Ok (value :: values)
       end) (map proofToWire l) = Ok l) as Hloop.
  { induction l as [|a l IHl]; [done|]. cbn [map]. intros [Ha Hl]%Forall_cons. by rewrite IH, IHl. }
  destruct al as [|a al]; [done|]. specialize (Hloop (a :: al) Hn). cbn [map nilIfEmpty] in Hloop |- *.
  by rewrite Hloop.
Qed.

(** ** The round trip *)

(** What Go's types and the grammar of Names guarantee of a proof, alternates
    included. *)
Fixpoint TypedProof (p : ClaimProof) : Prop :=
  in_u64 p.(Epoch) /\ Forall (fun c => ascii c = true) p.(Rule) /\ in_i64 p.(CutoffOffset) /\ in_u32 p.(InputLength) /\
  in_u32 p.(MaterializationLength) /\ in_u32 p.(RejectionLength) /\ in_u32 p.(MaterializationOrdinal) /\
  Forall (fun c => in_u32 c.(Ordinal) /\ Forall (fun c => ascii c = true) c.(claim_Name)) p.(Claims) /\
  foldr (fun a rest => TypedProof a /\ rest) True p.(AlternateSets).

Lemma typed_wire n p : TypedProof p -> (depth (proofToWire p) <= n)%nat -> TypedWire n (proofToWire p).
Proof.
  revert p. induction n as [|n IH]; intros p Hp Hn; [pose proof (depth_positive (proofToWire p)); lia|].
  apply depth_le in Hn. destruct p as [nw ep ru cu ir il mr ml rr rl mo mp cl si sg al]. cbn in Hp, Hn |- *.
  destruct Hp as (He & Hr & Hc & Hi & Hm & Hj & Ho & Hcl & Hal). rewrite nilIfEmpty_default in Hn |- *. split.
  - constructor; cbn; try done. rewrite nilIfEmpty_default. apply Forall_fmap. eapply Forall_impl; [exact Hcl|].
    intros c [? ?]. by constructor.
  - clear Hr Hcl. induction al as [|a al IHal]; [constructor|]. cbn in Hn, Hal |- *. destruct Hal as [Ha Hal].
    apply Forall_cons in Hn as [Hna Hn]. constructor; [by apply IH|by apply IHal].
Qed.

Definition emptyProof : ClaimProof :=
  MkClaimProof zero32 0 [] 0 zero32 0 zero32 0 zero32 0 0 [] [] [] [] [].

(** A proof with one claim, one signature and one alternate. *)
Definition sampleProof : ClaimProof :=
  MkClaimProof (recovery.key 1) 7 claimOrderRule 60 (recovery.key 2) 1 (recovery.key 3) 1 (recovery.key 4) 0 0
    [recovery.key 5]
    [MkClaim 3 (str "alice.example") (recovery.key 6) (recovery.key 7) (recovery.key 8) (recovery.key 9)
       [recovery.key 10] (to_array 64 [x01; x02])]
    [recovery.key 11] [[x01]; []]
    [MkClaimProof (recovery.key 1) 7 claimOrderRule 60 zero32 0 zero32 0 zero32 0 0 [] [] [] [] []].

(** A claim proof survives its canonical wire: whatever [CanonicalProof]
    encodes, alternates at any depth included, it decodes back to the same proof. *)
Theorem CanonicalProof_roundtrip proof destination raw proof' :
  TypedProof proof -> CanonicalProof None (Some proof) = Ok (raw, proof') ->
  CanonicalProof (Some raw) (Some destination) = Ok (raw, proof).
Proof.
  intros Hp Henc. unfold CanonicalProof in *. inv_ok. injection Henc as <- <-. set (w := proofToWire proof) in *.
  pose proof (depth_bounded (depth w) w (le_n _)) as Hd. unfold marshalProof, Marshal in *.
  set (raw := print (proofCodec (depth w)) w) in *.
  pose proof (proofCodec_lawful (length raw) w [] (typed_wire _ _ Hp Hd) I) as Hparse.
  rewrite app_nil_r, (proofCodec_ext _ (depth w)) in Hparse by (done || lia). fold raw in Hparse. rewrite Hparse.
  assert (wireToProof w = Ok proof) as -> by (by apply (wireToProof_toWire (depth w))).
  by rewrite Heqb, bool_decide_eq_true_2.
Qed.

Definition sampleWire : bytes := match CanonicalProof None (Some sampleProof) with Ok (raw, _) => raw | Err _ => [] end.

Lemma sample_encodes : CanonicalProof None (Some sampleProof) = Ok (sampleWire, sampleProof).
Proof. vm_compute. reflexivity. Qed.

Lemma ascii_text (s : gostring) : forallb ascii s = true -> Forall (fun c => ascii c = true) s.
Proof. apply forallb_true. Qed.

Lemma sample_typed : TypedProof sampleProof.
Proof.
  cbn [TypedProof sampleProof Epoch Rule CutoffOffset InputLength MaterializationLength
    RejectionLength MaterializationOrdinal Claims AlternateSets foldr]; unfold in_u64, in_u32, in_i64.
  assert (Forall (fun c => ascii c = true) claimOrderRule) by (apply ascii_text; vm_compute; reflexivity).
  repeat split; try lia; try done. by repeat constructor.
Qed.

Lemma CanonicalProof_roundtrip_witness :
  CanonicalProof (Some sampleWire) (Some emptyProof) = Ok (sampleWire, sampleProof) /\ TypedProof sampleProof.
Proof.
  split; [|exact sample_typed]. exact (CanonicalProof_roundtrip sampleProof emptyProof sampleWire sampleProof sample_typed sample_encodes).
Defined.

End claimwire.
