(* ===== verification/ClaimWinner.v ===== *)
(** * The use of a claim winner

    What callers get from internal/naming/namespace/claim: the path of one
    locally admitted commitment to the close that selects it
    ([AdmitClaimCommitment], [EpochInput], [VerifyClose]); the one use of a
    [ClaimWinner] under every interleaving of concurrent [Materialize] and
    [MaterializeSigned] calls; the Record they yield; and the ordinal that
    [Reveal] signs over. *)

From S2P Require Import Prelude Wire GoLib GoTime Naming Recovery Record RecordLifecycle RecordCodec Admission Merkle Claim.

Import claim.

Section Winner.
Context `{GoLib}.

(** ** Admission to close *)

Lemma inputOf_bytes c a : array_bytes (inputOf c a) = c ++ a.
Proof. apply to_array_bytes. by rewrite length_app, !array_length. Qed.

Lemma inputOf_inj c a c' a' : inputOf c a = inputOf c' a' -> c = c' /\ a = a'.
Proof.
  intros E%(f_equal array_bytes). rewrite !inputOf_bytes in E.
  apply app_inj_1 in E as [E1 E2]; [|by rewrite !array_length]. by apply array_eq in E1, E2.
Qed.

Lemma VerifyClose_ok input order ordinal proof w :
  VerifyClose input order ordinal proof = Ok w ->
  exists winner losers, AcceptedClose order proof winner losers /\
    OpenClaimWinner order proof = Ok w /\ winner.(Ordinal) = ordinal /\
    w.(winner_name) = winner.(claim_Name) /\ w.(winner_authority) = winner.(claim_Authority) /\
    w.(winner_ordinal) = ordinal /\
    sha256 (epochClaimInputBytes ordinal input.(raw))
    = sha256 (epochClaimInputBytes ordinal (inputOf winner.(claim_Commitment) winner.(AdmissionDigest))).
Proof.
  unfold VerifyClose. intros Hv. inv_ok. pose proof Hok as Hopen.
  apply OpenClaimWinner_ok in Hok as (winner & losers & Hac & ->). simpl in *. goprop. subst ordinal.
  exists winner, losers. rewrite (ac_claims _ _ _ _ Hac) in Hv. cbn [list_find] in Hv.
  rewrite decide_True in Hv by done. inv_ok. goprop. subst w. done.
Qed.

(** From admission to the close: when a commitment is admitted by spending a
    proof of work at the gate, entered into the Epoch log and later selected by
    an accepted close, the selected claim carries exactly that commitment and the
    digest of exactly that proof, and the commitment opens to the winner's name
    and Authority in the Epoch of the close; otherwise the two log entries are a
    SHA-256 collision. *)
Theorem admitted_winner gate gate' now cm proof c input order ordinal close w :
  AdmitClaimCommitment (Some gate) now cm proof = (Some gate', Ok c) ->
  EpochInput (Some c) = Ok input ->
  VerifyClose input order ordinal close = Ok w ->
  (admission.Verify gate now proof).2.1 = true /\
  exists selected, selected ∈ close.(Claims) /\ selected.(Ordinal) = ordinal /\
    w.(winner_name) = selected.(claim_Name) /\ w.(winner_authority) = selected.(claim_Authority) /\
    (selected.(claim_Commitment) = cm /\ selected.(AdmissionDigest) = admission.Digest proof /\
     cm = CommitmentFor close.(Network) close.(Epoch) selected \/
     Collision sha256 [epochClaimInputBytes ordinal input.(raw);
       epochClaimInputBytes ordinal (inputOf selected.(claim_Commitment) selected.(AdmissionDigest))]).
Proof.
  intros Ha He (winner & losers & Hac & _ & Ho & Hn & Hau & _ & Eh)%VerifyClose_ok.
  unfold AdmitClaimCommitment in Ha. destruct (_ || _) in Ha; [done|].
  destruct (admission.Verify gate now proof) as [g' [ok reason]]. destruct ok; [|done]. simpl in Ha.
  destruct (_ =? _) in Ha; [done|]. injection Ha as -> <-.
  unfold EpochInput in He. inv_ok. subst input. split; [done|].
  pose proof (ac_claims _ _ _ _ Hac) as Hc. pose proof (ac_reveals _ _ _ _ Hac) as Hg.
  exists winner. split; [rewrite Hc; set_solver|]. split_and!; try done.
  cbn [raw commitment commitment_admission] in *.
  destruct (collision_pair sha256 _ _ Eh) as [E|Hcol]; [left|by right].
  apply app_inv_head, array_eq, inputOf_inj in E as [-> ->]. rewrite Hc, Forall_cons in Hg.
  destruct Hg as [[] _]. done.
Qed.

(** ** The Record of a winner *)

Lemma applyClaim_typed current s op ld gd r :
  record.applyClaim current s op ld gd = Ok r -> op.(record.op_Parents) = [] ->
  in_u64 op.(record.op_Generation) -> len op.(record.op_Name) < 2 ^ 63 -> len op.(record.op_Authority) < 2 ^ 63 ->
  recordcodec.TypedRecord r.
Proof.
  unfold record.applyClaim. intros Hc Hp Hg Hn Ha. rewrite Hp in Hc.
  assert (current = None \/ exists c, current = Some c) as Hcur by (destruct current; eauto).
  inv_ok. apply validateParents_ok in Hok0 as [_ Hpar]. destruct a0 as [p|]; [by destruct Hpar|].
  inv_ok. subst r.
  constructor; cbn; try done; auto with go.
  destruct current; [auto with go|done].
Qed.

(** What a winner's Record is: the first revision of a root name, held by the
    winning Authority, in the generation after its predecessor. *)
Record WinnerRecord (w : claimWinner) (current : option record.NameRecord) (r : record.NameRecord)
  : Prop := {
  wr_name : r.(record.Name) = w.(winner_name);
  wr_authority : r.(record.Authority) = hex_EncodeToString w.(winner_authority);
  wr_revision : r.(record.Revision) = 1;
  wr_generation : r.(record.Generation) =
    match current with Some c => u64 (c.(record.Generation) + 1) | None => 1 end;
  wr_predecessor : forall c, current = Some c ->
    c.(record.Name) = w.(winner_name) /\ c.(record.Lease) = record.leaseReleased;
  wr_root : r.(record.ParentName) = [] /\ r.(record.ParentGeneration) = 0;
  wr_lease : r.(record.Lease) = record.leaseActive;
  wr_typed : recordcodec.TypedRecord r
}.

Lemma prepare_ok w current at_ policy r :
  prepare (Some w) current at_ policy = Ok r -> w.(consumed) = false /\ WinnerRecord w current r.
Proof.
  unfold prepare, record.ApplyAtLegacy, record.applyAt. intros Hp. inv_ok.
  apply apply_cases in Hp as [Hn Hcases].
  assert (record.op_Kind (winnerOp w current) = record.opClaim) as Hk by (by destruct current).
  rewrite Hk in Hcases. destruct Hcases as [(_ & ld & gd & Hc)|Hcases].
  2:{ exfalso. destruct_or!; destruct_and!; destruct_or?; discriminate. }
  split; [done|]. pose proof Hc as Hty.
  apply applyClaim_ok in Hc as (parent & Hpar & Ha & Hg & Hcur & Hl & Hw & Er).
  apply Parse_ok in Hn as [_ [ls Hcn]]. pose proof (cn_bound _ _ Hcn) as Hb. unfold maxNameLength in Hb.
  assert (record.op_Parents (winnerOp w current) = []) as Hop by (by destruct current).
  rewrite Hop in Hpar. apply validateParents_ok in Hpar as [_ Hpar].
  destruct parent as [p|]; [by destruct Hpar|]. 
  constructor; try done; try by rewrite Er; destruct current.
  - intros c ->. destruct Hcur as (_ & Hlr & _). split; [|done]. by goprop.
  - eapply applyClaim_typed; [exact Hty|done|by destruct current; simpl; auto with go|lia|].
    destruct current; simpl; rewrite len_hex_Encode, len_array; lia.
Qed.

Lemma consumed_yields_nothing w current at_ policy signer :
  w.(consumed) = true ->
  (exists e, MaterializeSigned (Some w) current at_ policy signer = (Some w, Err e)) /\
  (exists e, Materialize (Some w) current at_ policy = (Some w, Err e)).
Proof.
  intros Hc. assert (exists e, prepare (Some w) current at_ policy = Err e) as [e He].
  { unfold prepare. rewrite Hc. destruct (_ || _); eauto. }
  unfold MaterializeSigned, Materialize. rewrite He. eauto.
Qed.

Lemma MaterializeSigned_ok w w' current at_ policy signer r signed :
  MaterializeSigned (Some w) current at_ policy signer = (w', Ok (r, signed)) ->
  w.(consumed) = false /\ w' = Some (w <| consumed := true |>) /\ WinnerRecord w current r /\
  recordcodec.VerifyRecord w.(winner_network) signed = Ok r.
Proof.
  unfold MaterializeSigned at 1. destruct (prepare _ _ _ _) as [m|] eqn:Hp; [|done].
  apply prepare_ok in Hp as [Hc Hwr].
  destruct (recordcodec.SignWith _ _ _) as [sg|] eqn:Hs; [|done].
  unfold consume. rewrite Hc. intros [= <- <- <-]. split_and!; try done.
  destruct signer as [sign|]; [|done]. unfold recordcodec.SignWith in Hs. inv_ok.
  by eapply recordcodec.seal_VerifyRecord; [apply Hwr|..].
Qed.

(** A successful [MaterializeSigned] consumes the winner, and yields the
    first revision of the winner's root name in the next generation together
    with a container that [VerifyRecord] accepts for the winner's own Network as
    exactly that Record; a consumed winner yields nothing more. *)
Theorem MaterializeSigned_verifies w w' current at_ policy signer r signed :
  MaterializeSigned (Some w) current at_ policy signer = (w', Ok (r, signed)) ->
  w.(consumed) = false /\ w' = Some (w <| consumed := true |>) /\ WinnerRecord w current r /\
  recordcodec.VerifyRecord w.(winner_network) signed = Ok r /\
  (forall current' at_' policy' signer',
     (exists e, MaterializeSigned w' current' at_' policy' signer' = (w', Err e)) /\
     (exists e, Materialize w' current' at_' policy' = (w', Err e))).
Proof.
  intros (Hc & -> & Hwr & Hv)%MaterializeSigned_ok. split_and!; try done.
  intros. by apply consumed_yields_nothing.
Qed.

(** ** Concurrent callers *)

(** The winner, the callers that hold a prepared Record, and what was returned.
    [prepare] and [consume] each run under the winner's mutex; signing happens
    between them, outside it. *)
Record Callers := MkCallers {
  shared : claimWinner;
  prepared : list record.NameRecord;
  returned : list record.NameRecord
}.

Inductive call_step : Callers -> Callers -> Prop :=
| step_prepare w ps rs current at_ policy r :
    prepare (Some w) current at_ policy = Ok r ->
    call_step (MkCallers w ps rs) (MkCallers w (r :: ps) rs)
| step_give_up w ps1 r ps2 rs :
    call_step (MkCallers w (ps1 ++ r :: ps2) rs) (MkCallers w (ps1 ++ ps2) rs)
| step_consume w w' won ps1 r ps2 rs :
    consume (Some w) = (Some w', won) ->
    call_step (MkCallers w (ps1 ++ r :: ps2) rs)
              (MkCallers w' (ps1 ++ ps2) (if won then r :: rs else rs)).

Record CallersOk (w0 : claimWinner) (s : Callers) : Prop := {
  co_winner : s.(shared) <| consumed := false |> = w0;
  co_records : Forall (fun r => exists c, WinnerRecord w0 c r) (s.(prepared) ++ s.(returned));
  co_once : length s.(returned) = (if s.(shared).(consumed) then 1 else 0)%nat
}.

Lemma call_step_ok w0 s s' : call_step s s' -> CallersOk w0 s -> CallersOk w0 s'.
Proof.
  intros Hs [Hw Hall Hl]. destruct Hs as [w ps rs current at_ policy r Hp|w ps1 r ps2 rs|w w' won ps1 r ps2 rs Hc];
    simpl in *.
  - apply prepare_ok in Hp as [Hc Hwr]. constructor; simpl; try done. constructor; [|done].
    exists current. subst w0. destruct w; simpl in *. by subst.
  - rewrite <- app_assoc in Hall. simpl in Hall. rewrite Forall_app, Forall_cons, Forall_app in Hall.
    constructor; simpl; rewrite ?Forall_app; tauto.
  - rewrite <- app_assoc in Hall. simpl in Hall. rewrite Forall_app, Forall_cons, Forall_app in Hall.
    unfold consume in Hc. destruct (consumed w) eqn:Ec; injection Hc as <- <-; simpl.
    + constructor; simpl; rewrite ?Ec, ?Forall_app; tauto.
    + constructor; simpl; rewrite ?Forall_app, ?Forall_cons; try tauto; lia.
Qed.

(** C33: However the [prepare], signing and [consume] phases of concurrent
    [Materialize] and [MaterializeSigned] calls interleave, one opened winner
    yields at most one Record, and that Record is the winner's. *)
Theorem winner_materialized_once order proof w s :
  OpenClaimWinner order proof = Ok w ->
  rtc call_step (MkCallers w [] []) s ->
  (length s.(returned) <= 1)%nat /\
  Forall (fun r => exists current, WinnerRecord w current r) s.(returned) /\
  (s.(shared).(consumed) = true <-> s.(returned) <> []).
Proof.
  intros (winner & losers & _ & Hw)%OpenClaimWinner_ok Hr.
  assert (CallersOk w s) as [_ Hall Hl].
  { eapply (rtc_ind_r (CallersOk w)); [|intros s1 s2 _; apply call_step_ok|exact Hr].
    subst w. by constructor. }
  rewrite Forall_app in Hall. split_and!; [destruct (consumed _); lia|tauto|].
  destruct (consumed _), (returned s); simpl in *; try done; try lia.
Qed.

(** ** The ordinal a reveal signs over *)

(** C35: [Reveal] checks the Authority's signature over the ordinal 0, while the
    close is verified over the ordinal the log assigned.  A revealed claim that
    an accepted close contains at any other ordinal therefore rests on one
    signature that verifies for two different messages under the same key. *)
Theorem revealed_ordinal_mismatch c name secret authority signature revealed order proof w n path :
  Reveal (Some c) name secret authority signature = Ok revealed ->
  OpenClaimWinner order proof = Ok w ->
  proof.(Network) = c.(commitment_network) -> proof.(Epoch) = c.(revealEpoch) ->
  revealed <| Ordinal := n |> <| InputPath := path |> ∈ proof.(Claims) -> 0 < n < 2 ^ 32 ->
  exists m m', m <> m' /\ ed25519_Verify authority m signature = true /\
    ed25519_Verify authority m' signature = true.
Proof.
  unfold Reveal. intros Hr (winner & losers & Hac & _)%OpenClaimWinner_ok Hnet Hep Hin Hn. inv_ok.
  subst revealed. goprop. pose proof (ac_reveals _ _ _ _ Hac) as Hg. rewrite Forall_forall in Hg.
  pose proof (reveal_signed _ _ (Hg _ Hin)) as Hs. rewrite Hnet, Hep in Hs. simpl in Hs.
  eexists (RevealTranscript c.(commitment_network) c.(revealEpoch)
    (MkClaim 0 name secret authority c.(commitment) c.(commitment_admission) [] signature)), _.
  split; [|split; [done|exact Hs]].
  intros E%RevealTranscript_ordinal; simpl in *; unfold in_u32; lia.
Qed.

End Winner.

(** ** Witnesses *)

Section Witnesses.
#[local] Existing Instance sample_golib.

Definition sampleAdmission : option admission.Admission * result ClaimCommitment :=
  AdmitClaimCommitment (Some claimIssue.1) 20 sampleCommitment claimWork.

Definition admittedGate : admission.Admission := default admission.sampleGate sampleAdmission.1.

Definition admittedCommitment : ClaimCommitment :=
  MkCommitment (admission.key 2) 2 sampleCommitment (admission.Digest claimWork).

Definition secondCommitment : ClaimCommitment :=
  MkCommitment (admission.key 2) 2 secondClaim.(claim_Commitment) secondClaim.(AdmissionDigest).

Lemma admitted_winner_witness :
  (admission.Verify claimIssue.1 20 claimWork).2.1 = true.
Proof.
  apply (admitted_winner claimIssue.1 admittedGate 20 sampleCommitment claimWork admittedCommitment
    (MkInput firstInput sampleCommitment) sampleOrder 0 sampleClose sampleWinner);
    vm_compute; reflexivity.
Defined.

Definition samplePolicy : record.Policy := record.MkPolicy 0 0.

Definition sampleSigner : recordcodec.RecordSigningRequest -> result bytes := fun request =>
  Ok (firstHolder ++ sha256 request.(recordcodec.transcript)).

Definition sampleUse : option claimWinner * result (record.NameRecord * bytes) :=
  MaterializeSigned (Some sampleWinner) None (5000 * Second) samplePolicy (Some sampleSigner).

Definition winnerRecord : record.NameRecord :=
  match sampleUse.2 with Ok (r, _) => r | Err _ => recordcodec.sampleRecord end.

Definition winnerSigned : bytes := match sampleUse.2 with Ok (_, b) => b | Err _ => [] end.

Lemma MaterializeSigned_verifies_witness :
  recordcodec.VerifyRecord (admission.key 2) winnerSigned = Ok winnerRecord.
Proof.
  apply (MaterializeSigned_verifies sampleWinner sampleUse.1 None (5000 * Second) samplePolicy
    (Some sampleSigner) winnerRecord winnerSigned).
  vm_compute. reflexivity.
Defined.

Lemma winner_materialized_once_witness :
  (length [winnerRecord] <= 1)%nat /\ Forall (fun r => exists c, WinnerRecord sampleWinner c r) [winnerRecord].
Proof.
  destruct (winner_materialized_once sampleOrder sampleClose sampleWinner
    (MkCallers (sampleWinner <| consumed := true |>) [winnerRecord] [winnerRecord])) as (Hl & Hr & _).
  - exact sampleOpen.
  - assert (prepare (Some sampleWinner) None (5000 * Second) samplePolicy = Ok winnerRecord) as Hp
      by (vm_compute; reflexivity).
    eapply rtc_l; [by apply (step_prepare sampleWinner [] [] None (5000 * Second) samplePolicy)|].
    eapply rtc_l; [by apply (step_prepare sampleWinner [winnerRecord] [] None (5000 * Second) samplePolicy)|].
    apply rtc_once. by apply (step_consume sampleWinner _ true [] winnerRecord [winnerRecord] []).
  - split; [exact Hl|exact Hr].
Defined.

Lemma revealed_ordinal_mismatch_witness :
  exists m m', m <> m' /\
    ed25519_Verify secondClaim.(claim_Authority) m secondClaim.(claim_Signature) = true /\
    ed25519_Verify secondClaim.(claim_Authority) m' secondClaim.(claim_Signature) = true.
Proof.
  apply (revealed_ordinal_mismatch secondCommitment (str "example") secondClaim.(Secret)
    secondClaim.(claim_Authority) secondClaim.(claim_Signature)
    (secondClaim <| Ordinal := 0 |> <| InputPath := [] |>) sampleOrder sampleClose sampleWinner 1
    secondClaim.(InputPath)).
  - vm_compute. reflexivity.
  - exact sampleOpen.
  - reflexivity.
  - reflexivity.
  - apply list_elem_of_further, list_elem_of_here.
  - lia.
Defined.

End Witnesses.
