(* ===== verification/EpochCodec.v ===== *)
(** * The wire forms of Namespace materializations

    internal/naming/namespace/epoch: the signed statement of one Epoch
    (materialization_statement.go), the resolution leaves
    (materialization_encoding.go), the durable Record chunks
    (materialization_chunks.go) and the membership proofs
    (materialization_proof.go).  Every decoder accepts exactly the encodings of
    well-formed values and returns the encoded value. *)

From S2P Require Import Prelude Wire GoLib.

Module epoch.

(** ** materialization_contract.go *)

Definition materializationRule : gostring := str "ardents-namespace-materialization-v1".

Record MaterializationPolicy := MkPolicy {
  policy_Network : array 32;
  policy_Rule : gostring;
  Authorities : gmap (array 32) bytes;
  Threshold : Z
}.

Record Epoch := MkEpoch {
  Number : Z;
  Digest : array 32;
  CutoffOffset : Z;
  TransitionRoot : array 32;
  TransitionLength : Z;
  RejectionRoot : array 32;
  RejectionLength : Z
}.

Record statement := MkStatement {
  network : array 32;
  epoch : Z;
  epochDigest : array 32;
  rule : gostring;
  cutoff : Z;
  recordRoot : array 32;
  recordLength : Z;
  transitionRoot : array 32;
  transitionLength : Z;
  rejectionRoot : array 32;
  rejectionLength : Z
}.

Record attestedStatement := MkAttested {
  stmt : statement;
  signerIDs : list (array 32);
  signatures : list bytes
}.

Record resolutionLeaf := MkLeaf {
  schema : Z;
  signedRecord : bytes;
  lineageRoot : array 32;
  lineageCount : Z;
  state : Z;
  graceAt : Z;
  notAfter : Z
}.

(** ** materialization_encoding.go: the cursor *)

Definition truncated : error := New "naming materialization is truncated".

Definition cursor_byte : decoder Z := take_uint 1 truncated.
Definition cursor_uint16 : decoder Z := take_uint 2 truncated.
Definition cursor_uint32 : decoder Z := take_uint 4 truncated.
Definition cursor_uint64 : decoder Z := take_uint 8 truncated.
Definition array32 : decoder (array 32) := take_array 32 truncated.

Definition text (maximum : Z) : decoder gostring :=
  size ← or_error (New "naming materialization text is invalid") cursor_uint16;
  if maximum <? size then decode_fail (New "naming materialization text is invalid")
  else take_bytes size truncated.

Definition appendMaterializationText (out : bytes) (value : gostring) : bytes :=
  AppendUint16 out (u16 (len value)) ++ value.

(** Run a decoder over a whole slice. *)
Definition run {A} (p : decoder A) (e : error) (raw : bytes) : result A :=
  match p raw with Ok (v, []) => Ok v | _ => Err e end.

(** ** materialization_statement.go *)

Definition attestedSchema : Z := 1.
Definition maximumRuleBytes : Z := 64.
Definition statementDomain : gostring := str "ardents-namespace-epoch-materialization-v1".

Definition statementTranscript (value : statement) : bytes :=
  let out := appendMaterializationText [] statementDomain in
  let out := out ++ value.(network) in
  let out := AppendUint64 out value.(epoch) in
  let out := out ++ value.(epochDigest) in
  let out := appendMaterializationText out value.(rule) in
  let out := AppendUint64 out (u64 value.(cutoff)) in
  let out := out ++ value.(recordRoot) in
  let out := AppendUint32 out value.(recordLength) in
  let out := out ++ value.(transitionRoot) in
  let out := AppendUint32 out value.(transitionLength) in
  let out := out ++ value.(rejectionRoot) in
  AppendUint32 out value.(rejectionLength).

Definition statementFields : decoder (gostring * statement) :=
  domain ← text maximumRuleBytes;
  network ← array32;
  epoch ← cursor_uint64;
  epochDigest ← array32;
  rule ← text maximumRuleBytes;
  cutoff ← cursor_uint64;
  recordRoot ← array32;
  recordLength ← cursor_uint32;
  transitionRoot ← array32;
  transitionLength ← cursor_uint32;
  rejectionRoot ← array32;
  rejectionLength ← cursor_uint32;
  mret (domain, MkStatement network epoch epochDigest rule cutoff recordRoot recordLength
                  transitionRoot transitionLength rejectionRoot rejectionLength).

Definition decodeStatement (raw : bytes) : result statement :=
  '(domain, value) ← run statementFields (New "naming materialization transcript is invalid") raw;
  reject (New "naming materialization transcript is invalid")
    when ((domain !=? statementDomain) || (2 ^ 63 - 1 <? value.(cutoff)));
  Ok value.

(** The two slices have equal lengths wherever this is called. *)
Definition encodeAttested (value : attestedStatement) : bytes :=
  let transcript := statementTranscript value.(stmt) in
  let out := AppendUint16 [] attestedSchema in
  let out := AppendUint32 out (u32 (len transcript)) in
  let out := out ++ transcript in
  let out := out ++ [byte_of (len value.(signerIDs))] in
  out ++ concat (zip_with (fun (id : array 32) signature => id ++ signature)
                   value.(signerIDs) value.(signatures)).

Definition signer : decoder (array 32 * bytes) :=
  id ← array32;
  signature ← take_bytes 64 truncated;
  mret (id, signature).

Definition attestedHeader : decoder (Z * Z) :=
  schema ← cursor_uint16;
  size ← cursor_uint32;
  mret (schema, size).

Definition decodeAttested (raw : bytes) : result attestedStatement :=
  match attestedHeader raw with
  | Err _ => Err (New "naming materialization statement is malformed")
  | Ok ((schema, size), rest) =>
      reject (New "naming materialization statement is malformed")
        when (negb (schema =? attestedSchema) || (size =? 0) || (len rest <? size));
      let transcript := take (Z.to_nat size) rest in
      match decodeStatement transcript, cursor_byte (drop (Z.to_nat size) rest) with
      | Ok statement, Ok (count, rest) =>
          reject (New "naming materialization signatures are malformed")
            when ((count =? 0) || (16 <? count));
          match take_many (Z.to_nat count) signer rest with
          | Err _ => Err (New "naming materialization signature is truncated")
          | Ok (signers, rest) =>
              let value := MkAttested statement signers.*1 signers.*2 in
              reject (New "naming materialization statement is non-canonical")
                when (negb (bool_decide (rest = [])) || (encodeAttested value !=? raw));
              Ok value
          end
      | _, _ => Err (New "naming materialization signatures are malformed")
      end
  end.

(** ** materialization_encoding.go: leaves *)

Definition legacyLeafSchema : Z := 1.
Definition staticLeafSchema : Z := 2.
Definition leafSchema : Z := 3.

Definition encodeLeaf (value : resolutionLeaf) : bytes :=
  let schema := if value.(schema) =? 0 then leafSchema else value.(schema) in
  let out := AppendUint16 [] schema in
  let out := AppendUint32 out (u32 (len value.(signedRecord))) in
  let out := out ++ value.(signedRecord) in
  let out := out ++ value.(lineageRoot) in
  let out := out ++ [byte_of value.(lineageCount); byte_of value.(state)] in
  let out := if schema =? leafSchema then AppendUint64 out (u64 value.(graceAt)) else out in
  AppendUint64 out (u64 value.(notAfter)).

Definition leafFields : decoder resolutionLeaf :=
  schema ← cursor_uint16;
  size ← cursor_uint32;
  signed ← take_bytes size truncated;
  lineageRoot ← array32;
  lineageCount ← cursor_byte;
  state ← cursor_byte;
  graceAt ← (if schema =? leafSchema then cursor_uint64 else mret 0);
  notAfter ← cursor_uint64;
  mret (MkLeaf schema signed lineageRoot lineageCount state graceAt notAfter).

Definition decodeLeaf (raw : bytes) : result resolutionLeaf :=
  value ← run leafFields (New "naming materialization leaf is invalid") raw;
  reject (New "naming materialization leaf is invalid")
    when ((negb (value.(schema) =? legacyLeafSchema) && negb (value.(schema) =? staticLeafSchema) &&
           negb (value.(schema) =? leafSchema)) || (len value.(signedRecord) =? 0) ||
          (126 <? value.(lineageCount)) || (2 <? value.(state)) ||
          (2 ^ 63 - 1 <? value.(graceAt)) || (2 ^ 63 - 1 <? value.(notAfter)) ||
          (negb (value.(graceAt) =? 0) && (value.(notAfter) <? value.(graceAt))));
  reject (New "naming materialization leaf is non-canonical") when (encodeLeaf value !=? raw);
  Ok value.

(** ** materialization_chunks.go *)

Definition recordChunkSchema : Z := 1.
Definition maximumRecords : Z := 127.
Definition maximumChunks : Z := 64.
Definition maximumChunkBytes : Z := 32 * 2 ^ 10.

(** The inner loop: fill one chunk, and give back what does not fit. *)
Fixpoint fillChunk (records : list bytes) (chunk : bytes) (count : Z)
  : result (bytes * Z * list bytes) :=
  match records with
  | [] => Ok (chunk, count, [])
  | record :: rest =>
      reject (New "signed Name Record exceeds durable chunk bound")
        when ((len record =? 0) || (maximumChunkBytes - 4 <? len record + 4));
      if (0 <? count) && (maximumChunkBytes <? len chunk + 4 + len record)
      then Ok (chunk, count, records)
      else fillChunk rest (AppendUint32 chunk (u32 (len record)) ++ record) (count + 1)
  end.

(** The outer loop.  Every round moves at least one Record, so the number of
    Records is enough fuel. *)
Fixpoint chunkLoop (fuel : nat) (records : list bytes) (chunks : list bytes) : result (list bytes) :=
  match fuel, records with
  | _, [] => Ok chunks
  | O, _ => Err (New "unreachable")
  | S fuel', _ =>
      '(chunk, count, rest) ← fillChunk records (AppendUint16 (AppendUint16 [] recordChunkSchema) 0) 0;
      let chunk := take 2 chunk ++ [byte_of (Z.shiftr count 8); byte_of count] ++ drop 4 chunk in
      let chunks := chunks ++ [chunk] in
      reject (New "naming materialization durable corpus exceeds its bound")
        when (maximumChunks <? len chunks);
      chunkLoop fuel' rest chunks
  end.

Definition encodeRecordChunks (records : list bytes) : result (list bytes) :=
  reject (New "naming materialization Record count is invalid")
    when ((len records =? 0) || (maximumRecords <? len records));
  chunkLoop (length records) records [].

Definition chunkHeader : decoder (Z * Z) :=
  schema ← cursor_uint16;
  count ← cursor_uint16;
  mret (schema, count).

Definition durableRecord : decoder bytes :=
  size ← cursor_uint32;
  record ← take_bytes size truncated;
  if size =? 0 then decode_fail truncated else mret record.

(** The loop over the chunks; [records] is what was read before. *)
Fixpoint readChunks (chunks : list bytes) (records : list bytes) : result (list bytes) :=
  match chunks with
  | [] => Ok records
  | raw :: chunks =>
      reject (New "naming materialization durable chunk exceeds its bound")
        when (maximumChunkBytes <? len raw);
      match chunkHeader raw with
      | Err _ => Err (New "naming materialization durable chunk is malformed")
      | Ok ((schema, count), rest) =>
          reject (New "naming materialization durable chunk is malformed")
            when (negb (schema =? recordChunkSchema) || (count =? 0));
          match take_many (Z.to_nat count) durableRecord rest with
          | Err _ => Err (New "naming materialization durable Record is malformed")
          | Ok (more, rest) =>
              reject (New "naming materialization durable chunk is non-canonical")
                when (negb (bool_decide (rest = [])) || (maximumRecords <? len (records ++ more)));
              readChunks chunks (records ++ more)
          end
      end
  end.

Definition sameInputs (left right : list bytes) : bool :=
  (len left =? len right) && forallb (fun '(l, r) => l ==? r) (zip left right).

Definition decodeRecordChunks (chunks : list bytes) : result (list bytes) :=
  reject (New "naming materialization durable chunks are invalid")
    when ((len chunks =? 0) || (maximumChunks <? len chunks));
  records ← readChunks chunks [];
  match encodeRecordChunks records with
  | Err _ => Err (New "naming materialization durable corpus is non-canonical")
  | Ok canonical =>
      reject (New "naming materialization durable corpus is non-canonical")
        when (negb (sameInputs canonical chunks));
      Ok records
  end.

(** ** materialization_proof.go: the wire *)

Definition proofSchema : Z := 1.
Definition maximumProofBytes : Z := 4096.

Definition encodeProof (attested : attestedStatement) (ordinal : Z) (leaf : bytes)
  (siblings : list (array 32)) : bytes :=
  let statementBytes := encodeAttested attested in
  let out := AppendUint16 [] proofSchema in
  let out := AppendUint32 out (u32 (len statementBytes)) in
  let out := out ++ statementBytes in
  let out := AppendUint32 out ordinal in
  let out := AppendUint32 out (u32 (len leaf)) in
  let out := out ++ leaf in
  let out := out ++ [byte_of (len siblings)] in
  out ++ concat (map (@array_bytes 32) siblings).

Definition proofFields : decoder (Z * bytes * Z * bytes * Z) :=
  schema ← cursor_uint16;
  statementSize ← cursor_uint32;
  statementRaw ← take_bytes statementSize truncated;
  ordinal ← cursor_uint32;
  leafSize ← cursor_uint32;
  leaf ← take_bytes leafSize truncated;
  count ← cursor_byte;
  mret (schema, statementRaw, ordinal, leaf, count).

Definition decodeProof (raw : bytes)
  : result (attestedStatement * Z * bytes * list (array 32)) :=
  reject (New "naming proof size is invalid") when ((len raw =? 0) || (maximumProofBytes <? len raw));
  match proofFields raw with
  | Err _ => Err (New "naming proof is malformed")
  | Ok ((schema, statementRaw, ordinal, leaf, count), rest) =>
      match decodeAttested statementRaw with
      | Err _ => Err (New "naming proof is malformed")
      | Ok attested =>
          reject (New "naming proof is malformed") when (negb (schema =? proofSchema) || (32 <? count));
          match take_many (Z.to_nat count) array32 rest with
          | Err _ => Err (New "naming proof path is truncated")
          | Ok (siblings, rest) =>
              reject (New "naming proof is non-canonical")
                when (negb (bool_decide (rest = [])) ||
                      (encodeProof attested ordinal leaf siblings !=? raw));
              Ok (attested, ordinal, leaf, siblings)
          end
      end
  end.

(** ** Well-formed values *)

Record TypedStatement (v : statement) : Prop := {
  ts_epoch : in_u64 v.(epoch);
  ts_rule : len v.(rule) <= maximumRuleBytes;
  ts_cutoff : 0 <= v.(cutoff) < 2 ^ 63;
  ts_records : in_u32 v.(recordLength);
  ts_transitions : in_u32 v.(transitionLength);
  ts_rejections : in_u32 v.(rejectionLength)
}.

Record TypedAttested (v : attestedStatement) : Prop := {
  ta_statement : TypedStatement v.(stmt);
  ta_count : 1 <= len v.(signerIDs) <= 16;
  ta_lengths : length v.(signatures) = length v.(signerIDs);
  ta_signatures : Forall (fun s => len s = 64) v.(signatures)
}.

Record TypedLeaf (l : resolutionLeaf) : Prop := {
  tl_schema : l.(schema) = legacyLeafSchema \/ l.(schema) = staticLeafSchema \/ l.(schema) = leafSchema;
  tl_signed : 0 < len l.(signedRecord) < 2 ^ 32;
  tl_count : 0 <= l.(lineageCount) <= 126;
  tl_state : 0 <= l.(state) <= 2;
  tl_grace : 0 <= l.(graceAt) < 2 ^ 63;
  tl_notAfter : 0 <= l.(notAfter) < 2 ^ 63;
  tl_order : l.(graceAt) <> 0 -> l.(graceAt) <= l.(notAfter);
  tl_static : l.(schema) <> leafSchema -> l.(graceAt) = 0
}.

Definition textWire (s : gostring) : bytes := be_bytes 2 (u16 (len s)) ++ s.

Lemma reads_byte v : 0 <= v < 256 -> Reads cursor_byte [byte_of v] v.
Proof. intros Hv. exact (reads_take_uint 1 truncated v Hv). Qed.

Lemma reads_boundedText maximum s : len s <= maximum -> maximum < 2 ^ 16 -> Reads (text maximum) (textWire s) s.
Proof.
  intros Hs Hm. unfold text, textWire. pose proof (len_nonneg s).
  assert (u16 (len s) = len s) as -> by (apply Z.mod_small; lia).
  apply (reads_bind _ _ _ _ (len s)); [apply reads_or_error, reads_uint16; lia|].
  rewrite (proj2 (Z.ltb_ge _ _)) by lia. by apply reads_take_bytes.
Qed.

Lemma text_range maximum raw s rest : text maximum raw = Ok (s, rest) -> len s <= maximum.
Proof.
  unfold text. intros E. inv_decode. apply take_uint_ok in Hd as [_ Hv]; [|done].
  apply take_bytes_ok in E as [_ <-]; [|lia]. goprop. lia.
Qed.

(** *** Statements *)

Lemma statementTranscript_eq v :
  statementTranscript v =
  textWire statementDomain ++ v.(network) ++ be_bytes 8 v.(epoch) ++ v.(epochDigest) ++
  textWire v.(rule) ++ be_bytes 8 (u64 v.(cutoff)) ++ v.(recordRoot) ++ be_bytes 4 v.(recordLength) ++
  v.(transitionRoot) ++ be_bytes 4 v.(transitionLength) ++ v.(rejectionRoot) ++
  be_bytes 4 v.(rejectionLength).
Proof.
  unfold statementTranscript, appendMaterializationText, textWire, AppendUint16, AppendUint32, AppendUint64.
  by rewrite <- !app_assoc.
Qed.

Lemma reads_statementFields v :
  TypedStatement v -> Reads statementFields (statementTranscript v) (statementDomain, v).
Proof.
  intros [He Hr Hc Hrl Htl Hjl]. rewrite statementTranscript_eq. unfold statementFields.
  assert (u64 v.(cutoff) = v.(cutoff)) as -> by (apply Z.mod_small; lia).
  do 4 (eapply reads_bind; [first [by apply reads_boundedText | apply reads_array | by apply reads_uint64]|]).
  eapply reads_bind; [by apply reads_boundedText|].
  eapply reads_bind; [apply reads_uint64; unfold in_u64; lia|].
  do 5 (eapply reads_bind; [first [apply reads_array | by apply reads_uint32]|]).
  rewrite <- (app_nil_r (be_bytes 4 _)). eapply reads_bind; [by apply reads_uint32|].
  destruct v. apply reads_ret.
Qed.

Lemma statementFields_typed raw domain v :
  statementFields raw = Ok ((domain, v), []) -> v.(cutoff) <= 2 ^ 63 - 1 -> TypedStatement v.
Proof.
  unfold statementFields. intros E Hc. inv_decode. injection E as <- <- ->. simpl in Hc.
  apply text_range in Hd3. unfold cursor_uint64, cursor_uint32 in *.
  repeat match goal with X : take_uint _ _ _ = Ok _ |- _ => apply take_uint_ok in X as [_ X]; [|done] end.
  constructor; simpl; unfold in_u64, in_u32; lia.
Qed.

Lemma run_ok {A} (p : decoder A) e raw v : run p e raw = Ok v <-> p raw = Ok (v, []).
Proof. unfold run. destruct (p raw) as [[a [|]]|]; split; congruence. Qed.

Lemma decodeStatement_complete v : TypedStatement v -> decodeStatement (statementTranscript v) = Ok v.
Proof.
  intros Hv. unfold decodeStatement. rewrite (proj2 (run_ok _ _ _ _) (reads_all _ _ _ (reads_statementFields v Hv))).
  cbn [mbind result_bind]. destruct Hv as [_ _ Hc _ _ _]. rewrite bool_decide_eq_true_2 by done.
  by rewrite (proj2 (Z.ltb_ge _ _)) by lia.
Qed.

Lemma decodeStatement_typed raw v : decodeStatement raw = Ok v -> TypedStatement v.
Proof.
  unfold decodeStatement. intros Hd. inv_ok. destruct a as [domain value]. inv_ok. subst value.
  apply run_ok in Hok. goprop. by eapply statementFields_typed.
Qed.

Lemma statement_len v : TypedStatement v -> 0 < len (statementTranscript v) < 2 ^ 32.
Proof.
  intros [_ Hr _ _ _ _]. rewrite statementTranscript_eq. unfold textWire, maximumRuleBytes in *.
  autorewrite with len. pose proof (len_nonneg v.(rule)).
  change (len statementDomain) with 42. lia.
Qed.

(** *** Attested statements *)

Definition signersWire (v : attestedStatement) : bytes :=
  concat (zip_with (fun (id : array 32) signature => id ++ signature) v.(signerIDs) v.(signatures)).

Lemma encodeAttested_eq v :
  encodeAttested v = be_bytes 2 attestedSchema ++ be_bytes 4 (u32 (len (statementTranscript v.(stmt)))) ++
    statementTranscript v.(stmt) ++ [byte_of (len v.(signerIDs))] ++ signersWire v.
Proof.
  unfold encodeAttested, signersWire, AppendUint16, AppendUint32. by rewrite <- !app_assoc.
Qed.

Lemma reads_signers ids sigs :
  length sigs = length ids -> Forall (fun s => len s = 64) sigs ->
  Reads (take_many (length ids) signer)
    (concat (zip_with (fun (id : array 32) signature => id ++ signature) ids sigs)) (zip ids sigs).
Proof.
  revert sigs. induction ids as [|id ids IH]; intros [|sig sigs] Hl Hs rest; try done.
  apply Forall_cons in Hs as [Hs1 Hs2]. cbn [length take_many zip_with concat].
  assert (Reads signer (id ++ sig) (id, sig)) as Hr.
  { eapply reads_bind; [apply reads_array|]. rewrite <- (app_nil_r sig).
    eapply reads_bind; [by apply reads_take_bytes|]. rewrite app_nil_r. apply reads_ret. }
  rewrite <- (app_assoc (id ++ sig)), Hr, IH by (done || by injection Hl). done.
Qed.

Lemma zip_fst {A B} (l : list A) (k : list B) : length k = length l -> (zip l k).*1 = l.
Proof. intros. apply fst_zip. lia. Qed.
Lemma zip_snd {A B} (l : list A) (k : list B) : length k = length l -> (zip l k).*2 = k.
Proof. intros. apply snd_zip. lia. Qed.

Lemma reads_attestedHeader a b :
  0 <= a < 2 ^ 16 -> in_u32 b -> Reads attestedHeader (be_bytes 2 a ++ be_bytes 4 b) (a, b).
Proof.
  intros Ha Hb. eapply reads_bind; [by apply reads_uint16|]. rewrite <- (app_nil_r (be_bytes 4 b)).
  eapply reads_bind; [by apply reads_uint32|]. apply reads_ret.
Qed.

Lemma decodeAttested_complete v : TypedAttested v -> decodeAttested (encodeAttested v) = Ok v.
Proof.
  intros [Hst Hc Hl Hs]. pose proof (statement_len _ Hst) as Hlen. unfold decodeAttested.
  rewrite encodeAttested_eq at 1.
  assert (u32 (len (statementTranscript v.(stmt))) = len (statementTranscript v.(stmt))) as ->
    by (apply Z.mod_small; lia).
  rewrite app_assoc, reads_attestedHeader by (unfold in_u32; done || lia). rewrite len_app.
  rewrite Z.eqb_refl, (proj2 (Z.eqb_neq _ _)), (proj2 (Z.ltb_ge _ _)) by
    (pose proof (len_nonneg ([byte_of (len (signerIDs v))] ++ signersWire v)); lia).
  cbn [negb orb]. unfold len. rewrite Nat2Z.id, take_app_length, drop_app_length.
  rewrite decodeStatement_complete by done.
  fold (len v.(signerIDs)). rewrite reads_byte by lia.
  rewrite (proj2 (Z.eqb_neq _ _)), (proj2 (Z.ltb_ge _ _)) by lia. cbn [orb].
  unfold len. rewrite Nat2Z.id. unfold signersWire. rewrite (reads_all _ _ _ (reads_signers _ _ Hl Hs)).
  rewrite zip_fst, zip_snd by done. destruct v as [st ids sigs]. cbn [stmt signerIDs signatures].
  rewrite (bool_decide_eq_true_2 ([] = [])), (bool_decide_eq_true_2 (encodeAttested _ = _)) by done. done.
Qed.

Lemma decodeAttested_sound raw v : decodeAttested raw = Ok v -> TypedAttested v /\ encodeAttested v = raw.
Proof.
  unfold decodeAttested. intros Hd.
  destruct (attestedHeader raw) as [[[sch size] rest]|]; [|done]. inv_ok.
  rename Hok into Est, Hok0 into Ec. destruct a0 as [count rest'].
  inv_ok. rename Hok into Em. destruct a0 as [signers rest'']. inv_ok. goprop. subst v.
  split; [|done]. apply take_uint_ok in Ec as [_ Hcount]; [|done].
  apply (take_many_Forall (fun p => len p.2 = 64)) in Em as [Hall Hlen].
  2:{ intros raw0 p rest0 E. unfold signer in E. inv_decode. injection E as <- <-.
      by apply take_bytes_ok in Hd0 as [_ ?]. }
  constructor; simpl.
  - by eapply decodeStatement_typed.
  - rewrite len_map. unfold len. lia.
  - by rewrite !length_fmap.
  - by apply Forall_fmap.
Qed.

(** *** Leaves *)

Lemma encodeLeaf_eq l :
  TypedLeaf l ->
  encodeLeaf l = be_bytes 2 l.(schema) ++ be_bytes 4 (len l.(signedRecord)) ++ l.(signedRecord) ++
    l.(lineageRoot) ++ [byte_of l.(lineageCount)] ++ [byte_of l.(state)] ++
    (if l.(schema) =? leafSchema then be_bytes 8 l.(graceAt) else []) ++ be_bytes 8 l.(notAfter).
Proof.
  intros [Hs Hr _ _ Hg Hn _ _]. unfold encodeLeaf, AppendUint16, AppendUint32, AppendUint64.
  rewrite (proj2 (Z.eqb_neq l.(schema) 0)) by (unfold legacyLeafSchema, staticLeafSchema, leafSchema in Hs; lia).
  assert (u32 (len l.(signedRecord)) = len l.(signedRecord)) as -> by (apply Z.mod_small; lia).
  assert (u64 l.(graceAt) = l.(graceAt)) as -> by (apply Z.mod_small; lia).
  assert (u64 l.(notAfter) = l.(notAfter)) as -> by (apply Z.mod_small; lia).
  destruct (l.(schema) =? leafSchema); by rewrite <- ?app_assoc.
Qed.

Lemma reads_leafFields l : TypedLeaf l -> Reads leafFields (encodeLeaf l) l.
Proof.
  intros Hl. rewrite encodeLeaf_eq by done. destruct Hl as [Hs Hr Hc Hst Hg Hn Ho Hz].
  unfold leafSchema, legacyLeafSchema, staticLeafSchema in Hs. unfold leafFields.
  eapply reads_bind; [apply reads_uint16; lia|].
  eapply reads_bind; [apply reads_uint32; unfold in_u32; lia|].
  eapply reads_bind; [by apply reads_take_bytes|].
  eapply reads_bind; [apply reads_array|].
  do 2 (eapply reads_bind; [apply reads_byte; lia|]).
  eapply (reads_bind _ _ _ _ l.(graceAt)).
  { destruct (Z.eqb_spec l.(schema) leafSchema) as [E|E].
    - apply reads_uint64. unfold in_u64. lia.
    - rewrite Hz by done. apply reads_ret. }
  rewrite <- (app_nil_r (be_bytes 8 _)).
  eapply reads_bind; [apply reads_uint64; unfold in_u64; lia|]. destruct l. apply reads_ret.
Qed.

Lemma decodeLeaf_complete l : TypedLeaf l -> decodeLeaf (encodeLeaf l) = Ok l.
Proof.
  intros Hl. unfold decodeLeaf.
  rewrite (proj2 (run_ok _ _ _ _) (reads_all _ _ _ (reads_leafFields l Hl))).
  cbn [mbind result_bind]. destruct Hl as [Hs Hr Hc Hst Hg Hn Ho Hz].
  rewrite (bool_decide_eq_true_2 (encodeLeaf l = _)) by done.
  unfold legacyLeafSchema, staticLeafSchema, leafSchema in *.
  match goal with |- (if ?b then _ else _) = _ => replace b with false; [done|] end. symmetry. goprop.
  rewrite !andb_false_iff, !negb_false_iff, !Z.eqb_eq, !Z.ltb_ge. lia.
Qed.

Lemma decodeLeaf_sound raw l : decodeLeaf raw = Ok l -> TypedLeaf l /\ encodeLeaf l = raw.
Proof.
  unfold decodeLeaf. intros Hd. inv_ok. subst a. apply run_ok in Hok. goprop. split; [|done].
  rewrite !andb_false_iff, !negb_false_iff, !Z.eqb_eq, !Z.ltb_ge in *.
  unfold leafFields in Hok. inv_decode. injection Hok as <-. simpl in *.
  assert (0 <= v5 /\ (v <> leafSchema -> v5 = 0)) as [Hg0 Hgz].
  { destruct (Z.eqb_spec v leafSchema).
    - apply take_uint_ok in Hd5 as [_ ?]; [|done]. split; [lia|done].
    - injection Hd5 as <- _. lia. }
  unfold cursor_byte, cursor_uint16, cursor_uint32, cursor_uint64 in *. clear Hd5.
  repeat match goal with X : take_uint _ _ _ = Ok _ |- _ => apply take_uint_ok in X as [_ X]; [|done] end.
  apply take_bytes_ok in Hd1 as [_ Hl]; [|lia].
  constructor; simpl; try done; try lia.
Qed.

(** *** Proofs *)

Record TypedProof (attested : attestedStatement) (ordinal : Z) (leaf : bytes)
  (siblings : list (array 32)) : Prop := {
  tp_attested : TypedAttested attested;
  tp_ordinal : in_u32 ordinal;
  tp_siblings : len siblings <= 32;
  tp_size : len (encodeProof attested ordinal leaf siblings) <= maximumProofBytes
}.

Lemma encodeProof_eq attested ordinal leaf siblings :
  encodeProof attested ordinal leaf siblings =
  (be_bytes 2 proofSchema ++ be_bytes 4 (u32 (len (encodeAttested attested))) ++ encodeAttested attested ++
   be_bytes 4 ordinal ++ be_bytes 4 (u32 (len leaf)) ++ leaf ++ [byte_of (len siblings)]) ++
  concat (map (@array_bytes 32) siblings).
Proof. unfold encodeProof, AppendUint16, AppendUint32. by rewrite <- !app_assoc. Qed.

Lemma reads_proofFields sch st ordinal leaf count :
  0 <= sch < 2 ^ 16 -> in_u32 (len st) -> in_u32 ordinal -> in_u32 (len leaf) -> 0 <= count < 256 ->
  Reads proofFields (be_bytes 2 sch ++ be_bytes 4 (len st) ++ st ++ be_bytes 4 ordinal ++
    be_bytes 4 (len leaf) ++ leaf ++ [byte_of count]) (sch, st, ordinal, leaf, count).
Proof.
  intros. unfold proofFields. eapply reads_bind; [by apply reads_uint16|].
  eapply reads_bind; [by apply reads_uint32|]. eapply reads_bind; [by apply reads_take_bytes|].
  do 2 (eapply reads_bind; [by apply reads_uint32|]). eapply reads_bind; [by apply reads_take_bytes|].
  rewrite <- (app_nil_r [byte_of count]). eapply reads_bind; [by apply reads_byte|]. apply reads_ret.
Qed.

Lemma reads_siblings siblings :
  Reads (take_many (length siblings) array32) (concat (map (@array_bytes 32) siblings)) siblings.
Proof.
  rewrite <- (map_id siblings) at 3. apply (reads_many array32 (@array_bytes 32) id).
  intros b _. apply reads_array.
Qed.

Lemma decodeProof_complete attested ordinal leaf siblings :
  TypedProof attested ordinal leaf siblings ->
  decodeProof (encodeProof attested ordinal leaf siblings) = Ok (attested, ordinal, leaf, siblings).
Proof.
  intros [Ha Ho Hs Hsize]. pose proof Hsize as Hlen. rewrite encodeProof_eq in Hlen.
  autorewrite with len in Hlen. unfold maximumProofBytes in *.
  pose proof (len_nonneg (encodeAttested attested)). pose proof (len_nonneg leaf).
  pose proof (len_nonneg siblings). pose proof (len_nonneg (concat (map (@array_bytes 32) siblings))).
  assert (0 < len (encodeProof attested ordinal leaf siblings))
    by (rewrite encodeProof_eq; autorewrite with len; lia).
  unfold decodeProof. rewrite (proj2 (Z.eqb_neq _ _)), (proj2 (Z.ltb_ge _ _)) by (unfold maximumProofBytes; lia).
  cbn [orb]. rewrite encodeProof_eq at 1.
  assert (u32 (len (encodeAttested attested)) = len (encodeAttested attested)) as ->
    by (apply Z.mod_small; lia).
  assert (u32 (len leaf) = len leaf) as -> by (apply Z.mod_small; lia).
  rewrite reads_proofFields by (unfold in_u32, proofSchema in *; lia).
  rewrite decodeAttested_complete by done. rewrite Z.eqb_refl, (proj2 (Z.ltb_ge _ _)) by lia. cbn [negb orb].
  unfold len. rewrite Nat2Z.id, (reads_all _ _ _ (reads_siblings siblings)).
  rewrite (bool_decide_eq_true_2 ([] = [])), (bool_decide_eq_true_2 (encodeProof _ _ _ _ = _)) by done. done.
Qed.

Lemma decodeProof_sound raw attested ordinal leaf siblings :
  decodeProof raw = Ok (attested, ordinal, leaf, siblings) ->
  TypedProof attested ordinal leaf siblings /\ encodeProof attested ordinal leaf siblings = raw.
Proof.
  unfold decodeProof. intros Hd. inv_ok.
  destruct a as [[[[[sch st] ord] lf] count] rest]. inv_ok. destruct a0 as [sibs rest'].
  inv_ok. injection Hd as -> -> -> ->. goprop. split; [|done].
  apply decodeAttested_sound in Hok0 as [Hta _]. unfold proofFields in Hok. inv_decode.
  injection Hok as <- <- <- <- <- <-. unfold cursor_byte, cursor_uint32 in *.
  repeat match goal with X : take_uint _ _ _ = Ok _ |- _ => apply take_uint_ok in X as [_ X]; [|done] end.
  apply (take_many_Forall (fun _ => True)) in Hok1 as [_ Hlen]; [|done].
  constructor; [done|done|unfold len; lia|]. congruence || lia.
Qed.

Lemma decodeProof_ordinal raw attested ordinal leaf siblings :
  decodeProof raw = Ok (attested, ordinal, leaf, siblings) -> 0 <= ordinal < 2 ^ 32.
Proof. by intros [[_ Ho _ _] _]%decodeProof_sound. Qed.

(** [decodeProof] accepts exactly the encodings of well-formed proofs of at
    most 4096 bytes and returns the encoded statement, ordinal, leaf and path. *)
Theorem decodeProof_exact raw attested ordinal leaf siblings :
  decodeProof raw = Ok (attested, ordinal, leaf, siblings) <->
  TypedProof attested ordinal leaf siblings /\ encodeProof attested ordinal leaf siblings = raw.
Proof. split; [apply decodeProof_sound|by intros [Ht <-]; apply decodeProof_complete]. Qed.

(** *** Durable chunks *)

Definition recordRow (r : bytes) : bytes := be_bytes 4 (u32 (len r)) ++ r.

Definition chunkOf (group : list bytes) : bytes :=
  be_bytes 2 recordChunkSchema ++ be_bytes 2 (len group) ++ concat (map recordRow group).

Definition RecordSized (r : bytes) : Prop := 0 < len r <= maximumChunkBytes - 8.

Lemma fillChunk_ok records chunk count chunk' count' rest :
  fillChunk records chunk count = Ok (chunk', count', rest) -> len chunk <= maximumChunkBytes ->
  count = 0 /\ len chunk = 4 \/ 0 < count ->
  exists group, records = group ++ rest /\ chunk' = chunk ++ concat (map recordRow group) /\
    count' = count + len group /\ Forall RecordSized group /\ len chunk' <= maximumChunkBytes /\
    (count = 0 -> records <> [] -> group <> []).
Proof.
  revert chunk count. induction records as [|r records IH]; intros chunk count; cbn [fillChunk].
  { intros [= <- <- <-] Hl _. exists []. cbn [map concat]. rewrite !app_nil_r, len_nil.
    split_and!; try done; lia. }
  intros Hf Hl Hc. inv_ok. goprop. pose proof (len_nonneg r).
  destruct ((0 <? count) && (maximumChunkBytes <? len chunk + 4 + len r)) eqn:E.
  { injection Hf as <- <- <-. exists []. cbn [map concat]. rewrite !app_nil_r, len_nil. goprop.
    split_and!; try done; lia. }
  apply andb_false_iff in E. rewrite !Z.ltb_ge in E.
  assert (len (AppendUint32 chunk (u32 (len r)) ++ r) = len chunk + 4 + len r) as Hlr.
  { unfold AppendUint32. autorewrite with len. lia. }
  apply IH in Hf as (group & -> & -> & -> & Hs & Hb & _); [|unfold maximumChunkBytes in *; lia|lia].
  exists (r :: group). split_and!; try done.
  - simpl. unfold AppendUint32, recordRow. by rewrite <- !app_assoc.
  - rewrite len_cons. lia.
  - constructor; [unfold RecordSized; lia|done].
Qed.

Lemma chunk_patch (group : list bytes) :
  let chunk := (AppendUint16 (AppendUint16 [] recordChunkSchema) 0) ++ concat (map recordRow group) in
  take 2 chunk ++ [byte_of (Z.shiftr (len group) 8); byte_of (len group)] ++ drop 4 chunk = chunkOf group.
Proof. unfold chunkOf. simpl. by rewrite Z.shiftr_div_pow2. Qed.

Lemma chunkLoop_ok fuel records chunks out :
  chunkLoop fuel records chunks = Ok out ->
  exists groups, records = concat groups /\ out = chunks ++ map chunkOf groups /\
    Forall (fun g => g <> [] /\ Forall RecordSized g /\ len (chunkOf g) <= maximumChunkBytes) groups /\
    (records <> [] -> len out <= maximumChunks).
Proof.
  revert records chunks. induction fuel as [|fuel IH]; intros records chunks; cbn [chunkLoop].
  { destruct records; [|done]. intros [= <-]. exists []. by rewrite app_nil_r. }
  destruct records as [|r records]; [intros [= <-]; exists []; by rewrite app_nil_r|].
  intros Hc. inv_ok. destruct a as [[chunk count] rest]. inv_ok. goprop.
  apply fillChunk_ok in Hok as (group & Hr & Hch & Hcount & Hs & Hb & Hne); [|done|by left].
  rewrite Z.add_0_l in Hcount. subst chunk count. rewrite chunk_patch in *.
  assert (len (chunkOf group) <= maximumChunkBytes) as Hbound.
  { unfold chunkOf. unfold AppendUint16 in Hb. autorewrite with len in *. lia. }
  pose proof Hc as Hc'. apply IH in Hc as (groups & -> & -> & Hall & Hbnd).
  exists (group :: groups). split_and!; try done.
  - cbn [map]. by rewrite <- app_assoc.
  - constructor; [|done]. split_and!; try done. by apply Hne.
  - intros _. destruct groups as [|g groups]; [|apply Hbnd].
    + cbn [map]. by rewrite app_nil_r.
    + apply Forall_cons in Hall as [[Hg _] _]. by destruct g.
Qed.

Lemma sameInputs_true left right : sameInputs left right = true <-> left = right.
Proof.
  unfold sameInputs. revert right. induction left as [|l left IH]; intros [|r right]; try done.
  cbn [zip_with forallb]. rewrite !len_cons, !andb_true_iff, bool_decide_eq_true, Z.eqb_eq.
  specialize (IH right). rewrite andb_true_iff, Z.eqb_eq in IH. split.
  - intros (Hl & -> & Hf). f_equal. apply IH. split; [lia|done].
  - intros [= -> <-]. destruct (proj2 IH eq_refl). split; [lia|done].
Qed.

Lemma reads_durableRecord r : RecordSized r -> Reads durableRecord (recordRow r) r.
Proof.
  unfold RecordSized, maximumChunkBytes. intros Hr. unfold durableRecord, recordRow.
  assert (u32 (len r) = len r) as -> by (apply Z.mod_small; lia).
  eapply reads_bind; [apply reads_uint32; unfold in_u32; lia|]. rewrite <- (app_nil_r r) at 2.
  eapply reads_bind; [by apply reads_take_bytes|]. rewrite (proj2 (Z.eqb_neq _ _)) by lia.
  apply reads_ret.
Qed.

Lemma reads_chunkHeader a b :
  0 <= a < 2 ^ 16 -> 0 <= b < 2 ^ 16 -> Reads chunkHeader (be_bytes 2 a ++ be_bytes 2 b) (a, b).
Proof.
  intros Ha Hb. eapply reads_bind; [by apply reads_uint16|]. rewrite <- (app_nil_r (be_bytes 2 b)).
  eapply reads_bind; [by apply reads_uint16|]. apply reads_ret.
Qed.

Lemma readChunks_complete groups records :
  Forall (fun g => g <> [] /\ Forall RecordSized g /\ len (chunkOf g) <= maximumChunkBytes) groups ->
  len (records ++ concat groups) <= maximumRecords ->
  readChunks (map chunkOf groups) records = Ok (records ++ concat groups).
Proof.
  intros Hall. revert records. induction Hall as [|g groups (Hne & Hs & Hb) Hall IH]; intros records Hl.
  { by rewrite app_nil_r. }
  cbn [map readChunks concat]. rewrite (proj2 (Z.ltb_ge _ _)) by done. cbn [concat] in Hl.
  rewrite !len_app in Hl. pose proof (len_nonneg records). pose proof (len_nonneg (concat groups)).
  pose proof (len_nonneg g). unfold maximumRecords in *.
  assert (len g <> 0) by (intros E%len_zero_nil; done).
  unfold chunkOf at 1. rewrite app_assoc, reads_chunkHeader by (unfold recordChunkSchema; lia).
  rewrite Z.eqb_refl, (proj2 (Z.eqb_neq _ _)) by lia. cbn [negb orb]. unfold len at 1. rewrite Nat2Z.id.
  pose proof (reads_many durableRecord recordRow id g) as Hr. rewrite map_id in Hr.
  rewrite (reads_all _ _ _ (Hr ltac:(intros b Hb'; rewrite Forall_forall in Hs; by apply reads_durableRecord, Hs))).
  rewrite (bool_decide_eq_true_2 ([] = [])) by done.
  rewrite (proj2 (Z.ltb_ge _ _)) by (rewrite len_app; unfold maximumRecords; lia). cbn [negb orb].
  rewrite IH by (rewrite !len_app; lia). by rewrite <- app_assoc.
Qed.

Lemma decodeRecordChunks_complete chunks records :
  encodeRecordChunks records = Ok chunks -> decodeRecordChunks chunks = Ok records.
Proof.
  intros He. pose proof He as Henc. unfold decodeRecordChunks. unfold encodeRecordChunks in He. inv_ok. goprop.
  apply chunkLoop_ok in He as (groups & Hr & Hc & Hall & Hb).
  assert (records <> []) as Hne by (intros ->; rewrite len_nil in *; lia).
  specialize (Hb Hne). simpl in Hc. subst chunks. rewrite (proj2 (Z.ltb_ge _ _)) by done.
  rewrite (proj2 (Z.eqb_neq _ _)).
  2:{ intros E%len_zero_nil. apply map_eq_nil in E. by subst. }
  cbn [orb]. rewrite readChunks_complete by (rewrite <- ?Hr; done). rewrite <- Hr.
  cbn [app mbind result_bind]. rewrite Henc, (proj2 (sameInputs_true _ _)) by done. done.
Qed.

(** Durable chunks decode to a corpus exactly when they are the encoder's
    own chunks of it: the two directions are inverse and no other chunking of
    the same Records is accepted. *)
Theorem decodeRecordChunks_exact chunks records :
  decodeRecordChunks chunks = Ok records <-> encodeRecordChunks records = Ok chunks.
Proof.
  split; [|apply decodeRecordChunks_complete].
  unfold decodeRecordChunks. intros Hd. inv_ok. goprop. apply sameInputs_true in Heqb0 as ->. by subst.
Qed.

End epoch.
