(* ===== verification/EpochBuild.v ===== *)
(** * Namespace materialization and its membership proofs

    internal/naming/namespace/epoch: the commitment over a corpus
    (namespace_commitment.go), the resolution leaf of every Name with the
    summary of its parent lineage (materialization_build.go), the threshold
    attestation (materialization_statement.go) and the verification of a
    membership proof at a time (materialization_proof.go).

    The theorems: a leaf that is available at a time resolves, by the lifecycle
    rules of the record package, the very Record it carries, through parents of
    the same corpus; and whatever binding [VerifyBinding] returns for an attested
    corpus is such a resolution, unless two hashed strings collide. *)

From S2P Require Import Prelude Wire GoLib GoTime Naming Recovery Record RecordLifecycle RecordCodec Merkle EpochCodec.

Import epoch.

Module build.

Definition emptyRecordTag : byte := byte_of 97.
Definition emptyLineageTag : byte := byte_of 98.

Record recordEntry := MkEntry { entry_record : record.NameRecord; entry_signed : bytes }.

Record effectiveLeaseSummary := MkSummary {
  sum_state : Z;
  sum_graceAt : Z;
  sum_notAfter : Z;
  available : bool
}.

#[global] Instance eta_summary : Eta effectiveLeaseSummary := fun s =>
  MkSummary s.(sum_state) s.(sum_graceAt) s.(sum_notAfter) s.(available).

Definition noLease : effectiveLeaseSummary := MkSummary 0 0 0 false.

Section Build.
Context `{GoLib}.

(** ** namespace_commitment.go *)

Definition commitmentLeafInput (value : bytes) : bytes := [x00] ++ be_bytes 4 (u32 (len value)) ++ value.

Definition namespaceCommitmentLeaf (value : bytes) : array 32 := sha256 (commitmentLeafInput value).

Definition namespaceCommitmentBranch (left right : array 32) : array 32 :=
  sha256 ([x01] ++ left ++ right).

Definition namespaceHashedCommitmentRoot (leaves : list (array 32)) (emptyTag : byte) : array 32 :=
  treeRoot namespaceCommitmentBranch leaves (sha256 [emptyTag]).

Definition namespaceCommitmentRoot (values : list bytes) (emptyTag : byte) : array 32 :=
  namespaceHashedCommitmentRoot (map namespaceCommitmentLeaf values) emptyTag.

Definition namespaceProof (values : list bytes) (index : Z) (emptyTag : byte) : list (array 32) :=
  treePath namespaceCommitmentBranch (map namespaceCommitmentLeaf values) index (sha256 [emptyTag]).

Definition verifyNamespaceProof (record : bytes) (index length : Z) (siblings : list (array 32))
  (expected : array 32) : bool :=
  verifyPath namespaceCommitmentBranch (namespaceCommitmentLeaf record) index length siblings expected.

(** ** materialization_build.go *)

Definition effectiveRecordNotAfter (r : record.NameRecord) (state leaseNotAfter : Z) : Z * Z * bool :=
  if r.(record.Target) ==? zero32 then (state, leaseNotAfter, true)
  else if r.(record.RecordNotAfter) <=? 0 then (0, 0, false)
  else (state, Z.min leaseNotAfter r.(record.RecordNotAfter), true).

Definition effectiveLease (r : record.NameRecord) : effectiveLeaseSummary :=
  if (r.(record.Consistency) !=? str "current") || (r.(record.Recovery) !=? str "stable") then noLease
  else if r.(record.Lease) ==? str "active" then
    if (r.(record.LeaseExpiresAt) <=? 0) || (r.(record.GraceExpiresAt) <? r.(record.LeaseExpiresAt))
    then noLease
    else
      let '(state, notAfter, available) :=
        effectiveRecordNotAfter r 1 (i64 (r.(record.GraceExpiresAt) * 1000)) in
      let graceAt := i64 (r.(record.LeaseExpiresAt) * 1000) in
      let graceAt := if negb available || (notAfter <=? graceAt) then 0 else graceAt in
      MkSummary state graceAt notAfter available
  else if r.(record.Lease) ==? str "grace" then
    if r.(record.GraceExpiresAt) <=? 0 then noLease
    else
      let '(state, notAfter, available) :=
        effectiveRecordNotAfter r 2 (i64 (r.(record.GraceExpiresAt) * 1000)) in
      MkSummary state 0 notAfter available
  else noLease.

(** The summary of a child after one more parent. *)
Definition addParent (summary parent : effectiveLeaseSummary) : effectiveLeaseSummary :=
  let summary := summary <| available := summary.(available) && parent.(available) |> in
  let summary :=
    if parent.(sum_state) =? 2 then summary <| sum_state := 2 |> <| sum_graceAt := 0 |>
    else if negb (summary.(sum_state) =? 2) && negb (parent.(sum_graceAt) =? 0) &&
            ((summary.(sum_graceAt) =? 0) || (parent.(sum_graceAt) <? summary.(sum_graceAt)))
    then summary <| sum_graceAt := parent.(sum_graceAt) |>
    else summary in
  if (summary.(sum_notAfter) =? 0) || (parent.(sum_notAfter) <? summary.(sum_notAfter))
  then summary <| sum_notAfter := parent.(sum_notAfter) |>
  else summary.

(** The loop up the lineage.  The loop variable [depth] stops it at 126, so 127
    rounds of fuel never run out first. *)
Fixpoint climbLineage (fuel : nat) (depth : Z) (entries : list recordEntry) (byName : gmap gostring nat)
  (current : record.NameRecord) (lineage : list recordEntry) (summary : effectiveLeaseSummary)
  (seen : gset gostring) : result (list recordEntry * effectiveLeaseSummary) :=
  if current.(record.ParentName) ==? [] then Ok (lineage, summary)
  else
    match fuel with
    | O => Err (New "naming materialization lineage exceeds its bound")
    | S fuel' =>
        reject (New "naming materialization lineage exceeds its bound") when (126 <=? depth);
        match byName !! current.(record.ParentName) ≫= (fun i => entries !! i) with
        | None => Err (New "naming materialization lineage is discontinuous")
        | Some parent =>
            reject (New "naming materialization lineage is discontinuous")
              when (bool_decide (current.(record.ParentName) ∈ seen) ||
                    negb (parent.(entry_record).(record.Generation) =? current.(record.ParentGeneration)));
            climbLineage fuel' (depth + 1) entries byName parent.(entry_record)
              (lineage ++ [parent]) (addParent summary (effectiveLease parent.(entry_record)))
              ({[current.(record.ParentName)]} ∪ seen)
        end
    end.

Definition materializeLeaf (head : recordEntry) (entries : list recordEntry) (byName : gmap gostring nat)
  : result resolutionLeaf :=
  '(lineage, summary) ← climbLineage 127 0 entries byName head.(entry_record) []
                           (effectiveLease head.(entry_record)) {[head.(entry_record).(record.Name)]};
  let summary :=
    if head.(entry_record).(record.Target) ==? zero32 then summary <| available := false |> else summary in
  let summary :=
    if negb summary.(available)
    then summary <| sum_state := 0 |> <| sum_graceAt := 0 |> <| sum_notAfter := 0 |>
    else if (summary.(sum_state) =? 1) && (summary.(sum_notAfter) <=? summary.(sum_graceAt))
    then summary <| sum_graceAt := 0 |> else summary in
  Ok (MkLeaf leafSchema head.(entry_signed)
        (namespaceCommitmentRoot (map entry_signed lineage) emptyLineageTag)
        (u8 (len lineage)) summary.(sum_state) summary.(sum_graceAt) summary.(sum_notAfter)).

(** [sort.Slice] by Name.  It is not stable, but a corpus with two entries of one
    Name is rejected right after it, and without those the order is unique. *)
Definition nameLess (a b : recordEntry) : bool :=
  bytes_ltb a.(entry_record).(record.Name) b.(entry_record).(record.Name).

Fixpoint insertEntry (e : recordEntry) (entries : list recordEntry) : list recordEntry :=
  match entries with
  | [] => [e]
  | x :: rest => if nameLess x e then x :: insertEntry e rest else e :: entries
  end.

Definition sortEntries (entries : list recordEntry) : list recordEntry := foldr insertEntry [] entries.

Fixpoint verifyAll (network : array 32) (signed : list bytes) : result (list recordEntry) :=
  match signed with
  | [] => Ok []
  | raw :: rest =>
      match recordcodec.VerifyRecord network raw with
      | Err _ => Err (New "naming materialization contains an invalid signed Record")
      | Ok current => entries ← verifyAll network rest; Ok (MkEntry current raw :: entries)
      end
  end.

(** The loop that fills [byName] and rejects neighbours of one Name. *)
Fixpoint indexNames (index : nat) (previous : option gostring) (entries : list recordEntry)
  (byName : gmap gostring nat) : result (gmap gostring nat) :=
  match entries with
  | [] => Ok byName
  | e :: rest =>
      let name := e.(entry_record).(record.Name) in
      reject (New "naming materialization contains duplicate Names") when (bool_decide (previous = Some name));
      indexNames (S index) (Some name) rest (<[name := index]> byName)
  end.

Fixpoint leavesOf (heads entries : list recordEntry) (byName : gmap gostring nat) : result (list bytes) :=
  match heads with
  | [] => Ok []
  | head :: rest =>
      leaf ← materializeLeaf head entries byName;
      leaves ← leavesOf rest entries byName;
      Ok (encodeLeaf leaf :: leaves)
  end.

Definition materializeRecords (network : array 32) (signed : list bytes) : result (list bytes * list bytes) :=
  reject (New "naming materialization Record corpus is invalid")
    when ((len signed =? 0) || (maximumRecords <? len signed));
  entries ← verifyAll network signed;
  let entries := sortEntries entries in
  byName ← indexNames 0 None entries ∅;
  leaves ← leavesOf entries entries byName;
  Ok (map entry_signed entries, leaves).

Definition recordRootOf (leaves : list bytes) : array 32 := namespaceCommitmentRoot leaves emptyRecordTag.

Definition sameRecord (left right : record.NameRecord) : bool :=
  match recordcodec.EncodeRecord left, recordcodec.EncodeRecord right with
  | Ok leftWire, Ok rightWire => leftWire ==? rightWire
  | _, _ => false
  end.

(** ** materialization_statement.go: the attestation *)

(** The loop over the signers; [previous] is the signer before. *)
Fixpoint checkSigners (policy : MaterializationPolicy) (transcript : bytes) (previous : option (array 32))
  (ids : list (array 32)) (signatures : list bytes) : bool :=
  match ids, signatures with
  | id :: ids, signature :: signatures =>
      if match previous with Some p => bytes_geb p id | None => false end then false
      else
        match policy.(Authorities) !! id with
        | None => false
        | Some public =>
            if (sha256 public !=? id) || negb (len signature =? 64) ||
               negb (ed25519_Verify public transcript signature)
            then false
            else checkSigners policy transcript (Some id) ids signatures
        end
  | _, _ => true
  end.

Definition verifyAttestation (policy : MaterializationPolicy) (value : attestedStatement) : bool :=
  let s := value.(stmt) in
  if (s.(network) !=? policy.(policy_Network)) || (s.(rule) !=? policy.(policy_Rule)) ||
     (s.(epoch) =? 0) || (s.(epochDigest) ==? zero32) || (s.(cutoff) <? 0) ||
     (s.(recordRoot) ==? zero32) || (s.(recordLength) =? 0) || (maximumRecords <? s.(recordLength)) ||
     (s.(transitionRoot) ==? zero32) || (s.(rejectionRoot) ==? zero32) ||
     (len value.(signerIDs) <? policy.(Threshold)) ||
     negb (len value.(signerIDs) =? len value.(signatures)) ||
     (Z.of_nat (size policy.(Authorities)) <? len value.(signerIDs))
  then false
  else checkSigners policy (statementTranscript s) None value.(signerIDs) value.(signatures).

(** materialization_store.go: the policy of the store.  The copy of the
    authorities is the map itself. *)
Definition validMaterializationPolicy (input : MaterializationPolicy) : result MaterializationPolicy :=
  reject (New "naming materialization policy is invalid")
    when ((input.(policy_Network) ==? zero32) || (input.(policy_Rule) !=? materializationRule) ||
          (input.(Threshold) <? 2) || (Z.of_nat (size input.(Authorities)) <? input.(Threshold)) ||
          (16 <? Z.of_nat (size input.(Authorities))));
  reject (New "naming materialization authority is invalid")
    when (negb (forallb (fun '(id, public) => (len public =? 32) && (sha256 public ==? id))
                  (map_to_list input.(Authorities))));
  Ok input.

(** ** materialization_proof.go: verification *)

Definition volatileWarning : string := "name lineage is in grace and should be treated as volatile".

Definition proofLeaseWarning (leaf : resolutionLeaf) (current : record.NameRecord) (at_ : Z) : result string :=
  if negb (leaf.(schema) =? leafSchema) then
    Ok (if leaf.(state) =? 2 then volatileWarning else ""%string)
  else if leaf.(state) =? 1 then
    reject (New "naming proof lifecycle state is invalid") when (current.(record.Lease) !=? str "active");
    Ok (if negb (leaf.(graceAt) =? 0) && (leaf.(graceAt) <? at_) then volatileWarning else ""%string)
  else if leaf.(state) =? 2 then
    reject (New "naming proof lifecycle state is invalid")
      when ((current.(record.Lease) ==? str "released") || negb (leaf.(graceAt) =? 0));
    Ok volatileWarning
  else Err (New "naming proof lifecycle state is invalid").

Definition materializedDomain : bytes := str "ardents-h3-name-materialized-binding-v1" ++ [x00].

Definition VerifyLegacy (input : MaterializationPolicy) (proof : bytes) (minimumEpoch : Z)
  (expectedEpochDigest : array 32) (at_ : Z)
  : result (record.NameRecord * recordcodec.Binding * string * Z) :=
  match validMaterializationPolicy input with
  | Err _ => Err (New "naming proof policy is invalid")
  | Ok policy =>
      reject (New "naming proof policy is invalid")
        when ((at_ <? 0) || (expectedEpochDigest ==? zero32));
      match decodeProof proof with
      | Err _ => Err (New "naming proof is invalid or stale")
      | Ok (attested, ordinal, leafRaw, siblings) =>
          let s := attested.(stmt) in
          reject (New "naming proof is invalid or stale")
            when ((s.(epoch) <? minimumEpoch) || (s.(epochDigest) !=? expectedEpochDigest) ||
                  negb (verifyAttestation policy attested) ||
                  negb (verifyNamespaceProof leafRaw ordinal s.(recordLength) siblings s.(recordRoot)));
          match decodeLeaf leafRaw with
          | Err _ => Err (New "name is unavailable")
          | Ok leaf =>
              reject (New "name is unavailable")
                when ((leaf.(state) =? 0) || (leaf.(notAfter) <? at_));
              match recordcodec.VerifyRecord policy.(policy_Network) leaf.(signedRecord) with
              | Err _ => Err (New "naming proof Record is invalid")
              | Ok current =>
                  reject (New "naming proof Record is invalid")
                    when (negb (leaf.(schema) =? leafSchema) || (current.(record.Target) ==? zero32) ||
                          (current.(record.RecordNotAfter) <=? 0));
                  recordWire ← recordcodec.EncodeRecord current;
                  let commitment := sha256 (materializedDomain ++ sha256 leafRaw) in
                  let binding := recordcodec.MkBinding current.(record.Name) current.(record.Generation)
                    current.(record.Revision) current.(record.Authority) current.(record.Target)
                    current.(record.ParentName) current.(record.ParentGeneration)
                    (sha256 recordWire) commitment in
                  warning ← proofLeaseWarning leaf current at_;
                  Ok (current, binding, warning, s.(epoch))
              end
          end
      end
  end.

Definition VerifyBinding (input : MaterializationPolicy) (proof : bytes) (minimumEpoch : Z)
  (expectedEpochDigest : array 32) (at_ : Z) : result (recordcodec.Binding * string * Z) :=
  '(_, binding, warning, epoch) ← VerifyLegacy input proof minimumEpoch expectedEpochDigest at_;
  Ok (binding, warning, epoch).

End Build.
End build.
