(* ===== verification/EpochProof.v ===== *)
(** * Materialized resolution is lifecycle resolution

    The theorems about EpochBuild.v: what a leaf of a materialized corpus says
    about the Records of its lineage, and what a verified membership proof says
    about the corpus. *)

From S2P Require Import Prelude Wire GoLib GoTime Naming Recovery Record RecordLifecycle RecordCodec Merkle EpochCodec EpochBuild.

Import epoch build.

Section Summary.
Context `{GoLib}.

(** Lifetimes that are representable in milliseconds. *)
Definition InMillis (r : record.NameRecord) : Prop := r.(record.GraceExpiresAt) * 1000 < 2 ^ 63.

(** What one available summary says about its Record. *)
Record Summarises (r : record.NameRecord) (s : effectiveLeaseSummary) : Prop := {
  su_positive : 0 < s.(sum_notAfter) < 2 ^ 63;
  su_states : r.(record.Consistency) = record.consistencyCurrent /\
              r.(record.Recovery) = record.recoveryStable;
  su_lease : r.(record.Lease) = record.leaseActive /\ s.(sum_state) = 1 \/
             r.(record.Lease) = record.leaseGrace /\ s.(sum_state) = 2 /\ s.(sum_graceAt) = 0;
  su_lifetime : s.(sum_notAfter) <= r.(record.GraceExpiresAt) * 1000;
  su_record : r.(record.Target) <> zero32 -> s.(sum_notAfter) <= r.(record.RecordNotAfter);
  su_grace : r.(record.Lease) = record.leaseActive ->
    r.(record.LeaseExpiresAt) * 1000 < s.(sum_notAfter) ->
    s.(sum_graceAt) = r.(record.LeaseExpiresAt) * 1000 /\ s.(sum_graceAt) <> 0;
  su_grace_range : 0 <= s.(sum_graceAt) < 2 ^ 63
}.

Lemma effectiveLease_summarises r :
  recordcodec.TypedRecord r -> InMillis r -> (effectiveLease r).(available) = true ->
  Summarises r (effectiveLease r).
Proof.
  unfold InMillis. intros Ht Hm. unfold effectiveLease.
  change (str "current") with record.consistencyCurrent. change (str "stable") with record.recoveryStable.
  change (str "active") with record.leaseActive. change (str "grace") with record.leaseGrace.
  destruct (_ || _) eqn:Es; [done|]. goprop. states.
  assert (0 < r.(record.GraceExpiresAt) ->
    i64 (r.(record.GraceExpiresAt) * 1000) = r.(record.GraceExpiresAt) * 1000) as Hg.
  { intros. apply i64_id. unfold in_i64. lia. }
  assert (forall st n, 0 < n < 2 ^ 63 -> forall s' n' a, effectiveRecordNotAfter r st n = (s', n', a) ->
    a = true -> s' = st /\ 0 < n' <= n /\ (r.(record.Target) <> zero32 -> n' <= r.(record.RecordNotAfter))) as Hr.
  { intros st n Hn s' n' a. unfold effectiveRecordNotAfter.
    case_bool_decide; [intros [= <- <- <-] _; split_and!; done || lia|].
    destruct (Z.leb_spec (record.RecordNotAfter r) 0); intros [= <- <- <-]; [done|].
    intros _. split_and!; try done; lia. }
  destruct (decide (r.(record.Lease) = record.leaseActive)) as [El|El].
  - rewrite bool_decide_eq_true_2 by done. destruct (_ || _) eqn:Eb; [done|]. goprop.
    rewrite Hg by lia. rewrite (i64_id (record.LeaseExpiresAt r * 1000)) by (unfold in_i64; lia).
    destruct (effectiveRecordNotAfter _ _ _) as [[s' n'] a] eqn:Ee. cbn [available]. intros ->.
    destruct (Hr _ (record.GraceExpiresAt r * 1000) ltac:(lia) _ _ _ Ee eq_refl) as (-> & Hn & Ht'). cbn [negb orb].
    destruct (Z.leb_spec n' (record.LeaseExpiresAt r * 1000)); constructor; simpl; auto; try lia.
  - rewrite bool_decide_eq_false_2 by done.
    destruct (decide (r.(record.Lease) = record.leaseGrace)) as [Eg|Eg];
      [rewrite bool_decide_eq_true_2 by done|by rewrite bool_decide_eq_false_2].
    destruct (Z.leb_spec (record.GraceExpiresAt r) 0); [done|]. rewrite Hg by lia.
    destruct (effectiveRecordNotAfter _ _ _) as [[s' n'] a] eqn:Ee. cbn [available]. intros ->.
    destruct (Hr _ (record.GraceExpiresAt r * 1000) ltac:(lia) _ _ _ Ee eq_refl) as (-> & Hn & Ht').
    constructor; simpl; auto; try lia; intros; congruence.
Qed.

Lemma Summarises_live r s at_ :
  Summarises r s -> 0 <= at_ <= s.(sum_notAfter) -> (record.liveLease r (at_ / 1000)).1 = true.
Proof.
  intros [Hp [Hc Hr] Hl Hlife _ _ _] Hat. apply liveLease_true. split_and!; try done.
  assert (at_ / 1000 <= r.(record.GraceExpiresAt)) by (apply Z.div_le_upper_bound; lia).
  destruct Hl as [[? _]|[? _]]; auto.
Qed.

(** A Record in grace at a time is reported as such by its summary. *)
Lemma Summarises_warns r s at_ :
  Summarises r s -> 0 <= at_ <= s.(sum_notAfter) -> record.leaseWarning r (at_ / 1000) <> ""%string ->
  s.(sum_state) = 2 \/ s.(sum_graceAt) <> 0 /\ s.(sum_graceAt) < at_.
Proof.
  intros [Hp _ Hl Hlife _ Hg _] Hat. unfold record.leaseWarning. destruct (_ || _) eqn:E; [|done]. intros _.
  states. destruct Hl as [[Hl Hs]|(Hl & Hs & _)]; [right|by left].
  rewrite Hl, (bool_decide_eq_false_2 (_ = record.leaseGrace)), bool_decide_eq_true_2 in E by done.
  simpl in E. goprop. assert ((record.LeaseExpiresAt r + 1) * 1000 <= at_).
  { pose proof (Z.mul_div_le at_ 1000). lia. }
  destruct (Hg Hl ltac:(lia)) as [E1 E2]. lia.
Qed.

(** *** The summary of a lineage *)

Record SummarisesAll (rs : list record.NameRecord) (s : effectiveLeaseSummary) : Prop := {
  sa_positive : 0 < s.(sum_notAfter) < 2 ^ 63;
  sa_state : s.(sum_state) = 1 \/ s.(sum_state) = 2 /\ s.(sum_graceAt) = 0;
  sa_grace_range : 0 <= s.(sum_graceAt) < 2 ^ 63;
  sa_active : s.(sum_state) = 1 -> Forall (fun r => r.(record.Lease) = record.leaseActive) rs;
  sa_unreleased : Forall (fun r => r.(record.Lease) <> record.leaseReleased) rs;
  sa_each : Forall (fun r => exists sr, Summarises r sr /\ s.(sum_notAfter) <= sr.(sum_notAfter) /\
      (s.(sum_state) = 1 -> sr.(sum_graceAt) <> 0 ->
         s.(sum_graceAt) <> 0 /\ s.(sum_graceAt) <= sr.(sum_graceAt)) /\
      (sr.(sum_state) = 2 -> s.(sum_state) = 2)) rs
}.

Lemma SummarisesAll_one r s : Summarises r s -> SummarisesAll [r] s.
Proof.
  intros Hs. pose proof Hs as [Hp _ Hl _ _ _ Hg]. states. constructor; auto.
  - destruct Hl as [[? ?]|(? & ? & ?)]; auto.
  - intros E. constructor; [|done]. destruct Hl as [[? ?]|(? & ? & ?)]; [done|lia].
  - constructor; [|done]. destruct Hl as [[-> _]|(-> & _)]; done.
  - constructor; [|done]. exists s. split_and!; auto; lia.
Qed.

Lemma addParent_available s p : (addParent s p).(available) = s.(available) && p.(available).
Proof. unfold addParent. repeat case_match; done. Qed.

Lemma addParent_fields s p :
  0 < s.(sum_notAfter) ->
  (addParent s p).(sum_notAfter) = Z.min s.(sum_notAfter) p.(sum_notAfter) /\
  (addParent s p).(sum_state) = (if p.(sum_state) =? 2 then 2 else s.(sum_state)) /\
  (addParent s p).(sum_graceAt) =
    (if p.(sum_state) =? 2 then 0
     else if (s.(sum_state) =? 2) || (p.(sum_graceAt) =? 0) then s.(sum_graceAt)
     else if (s.(sum_graceAt) =? 0) || (p.(sum_graceAt) <? s.(sum_graceAt)) then p.(sum_graceAt)
     else s.(sum_graceAt)).
Proof.
  intros Hs. unfold addParent.
  destruct (p.(sum_state) =? 2); cbn -[Z.min];
    [|destruct (s.(sum_state) =? 2), (p.(sum_graceAt) =? 0), (s.(sum_graceAt) =? 0),
        (p.(sum_graceAt) <? s.(sum_graceAt)); cbn -[Z.min]];
    rewrite (proj2 (Z.eqb_neq s.(sum_notAfter) 0)) by lia; cbn -[Z.min];
    destruct (Z.ltb_spec p.(sum_notAfter) s.(sum_notAfter)); cbn -[Z.min]; split_and!; try done; lia.
Qed.

Lemma SummarisesAll_add rs s r p :
  SummarisesAll rs s -> Summarises r p -> SummarisesAll (rs ++ [r]) (addParent s p).
Proof.
  intros [Hp Hst Hg Ha Hu He] Hr. destruct (addParent_fields s p) as (E1 & E2 & E3); [lia|].
  pose proof Hr as [Hpp _ Hlp _ _ _ Hgp]. states.
  assert (r.(record.Lease) <> record.leaseReleased) as Hur by (destruct Hlp as [[-> _]|(-> & _)]; done).
  destruct (Z.eqb_spec p.(sum_state) 2) as [E|E].
  { constructor; rewrite ?E1, ?E2, ?E3, ?Forall_app, ?Forall_singleton; auto; try lia.
    split; [|exists p; split_and!; auto; lia].
    eapply Forall_impl; [exact He|]. intros r0 (sr & Hsr & Hle & _ & _).
    exists sr. split_and!; auto; lia. }
  assert (r.(record.Lease) = record.leaseActive) as Hla by (destruct Hlp as [[? _]|(_ & ? & _)]; done).
  set (g := if (sum_state s =? 2) || (sum_graceAt p =? 0) then _ else _) in E3.
  assert (g <= s.(sum_graceAt) \/ s.(sum_graceAt) = 0) as Hg1.
  { subst g. destruct (_ || _); [lia|]. destruct (Z.eqb_spec (sum_graceAt s) 0); simpl; [lia|].
    destruct (Z.ltb_spec (sum_graceAt p) (sum_graceAt s)); lia. }
  assert (s.(sum_graceAt) <> 0 -> g <> 0) as Hg2.
  { subst g. destruct (Z.eqb_spec (sum_graceAt p) 0); [by rewrite orb_true_r|].
    destruct (_ || _); [done|]. destruct (_ || _); done. }
  assert (s.(sum_state) = 1 -> p.(sum_graceAt) <> 0 -> g <> 0 /\ g <= p.(sum_graceAt)) as Hg3.
  { intros Hs1 Hp0. subst g. rewrite Hs1, (proj2 (Z.eqb_neq (sum_graceAt p) 0)) by done. simpl.
    destruct (Z.eqb_spec (sum_graceAt s) 0); simpl; [lia|].
    destruct (Z.ltb_spec (sum_graceAt p) (sum_graceAt s)); lia. }
  assert (0 <= g < 2 ^ 63) as Hg4 by (subst g; repeat case_match; lia).
  constructor; rewrite ?E1, ?E2, ?E3, ?Forall_app, ?Forall_singleton; auto; try lia.
  - destruct Hst as [?|[Hs2 Hz]]; [by left|right]. split; [done|]. subst g. by rewrite Hs2.
  - split.
    + eapply Forall_impl; [exact He|]. intros r0 (sr & Hsr & Hle & Hgr & Hs2).
      exists sr. split_and!; auto; [lia|]. intros Hs1 Hsg. destruct (Hgr Hs1 Hsg). split; [auto|lia].
    + exists p. split_and!; auto; lia.
Qed.

(** What follows for a time inside the summarised lifetime. *)
Lemma SummarisesAll_live rs s at_ :
  SummarisesAll rs s -> 0 <= at_ <= s.(sum_notAfter) ->
  Forall (fun r => (record.liveLease r (at_ / 1000)).1 = true) rs /\
  (Exists (fun r => record.leaseWarning r (at_ / 1000) <> ""%string) rs ->
   s.(sum_state) = 2 \/ s.(sum_graceAt) <> 0 /\ s.(sum_graceAt) < at_).
Proof.
  intros [Hp Hst Hg Ha Hu He] Hat. split.
  - eapply Forall_impl; [exact He|]. intros r (sr & Hsr & Hle & _). eapply Summarises_live; [exact Hsr|lia].
  - rewrite Exists_exists. intros (r & Hin & Hw). rewrite Forall_forall in He.
    destruct (He r Hin) as (sr & Hsr & Hle & Hgr & Hs2).
    destruct (Summarises_warns r sr at_ Hsr ltac:(lia) Hw) as [E|[E1 E2]]; [left; auto|].
    destruct Hst as [Hs1|[? _]]; [|by left]. destruct (Hgr Hs1 E1). right. lia.
Qed.

End Summary.

(** ** The lineage of a leaf *)

Section Lineage.
Context `{GoLib}.

(** The parents of a Record inside a corpus, up to a root name. *)
Inductive Lineage (entries : list recordEntry) : record.NameRecord -> list recordEntry -> Prop :=
| lineage_root r : r.(record.ParentName) = [] -> Lineage entries r []
| lineage_parent r e rest :
    r.(record.ParentName) <> [] -> e ∈ entries ->
    e.(entry_record).(record.Name) = r.(record.ParentName) ->
    e.(entry_record).(record.Generation) = r.(record.ParentGeneration) ->
    Lineage entries e.(entry_record) rest -> Lineage entries r (e :: rest).

Definition Indexed (entries : list recordEntry) (byName : gmap gostring nat) : Prop :=
  forall n i, byName !! n = Some i -> exists e, entries !! i = Some e /\ e.(entry_record).(record.Name) = n.

Lemma climbLineage_ok fuel depth entries byName current lineage summary seen lineage' summary' :
  Indexed entries byName -> 0 <= depth <= 126 ->
  climbLineage fuel depth entries byName current lineage summary seen = Ok (lineage', summary') ->
  exists rest, lineage' = lineage ++ rest /\ Lineage entries current rest /\ len rest <= 126 - depth /\
    summary' = foldl addParent summary (map (fun e => effectiveLease e.(entry_record)) rest).
Proof.
  intros Hix. revert depth current lineage summary seen.
  induction fuel as [|fuel IH]; intros depth current lineage summary seen Hd; cbn [climbLineage];
    case_bool_decide as Hp; intros Hc.
  1,3: injection Hc as <- <-; exists []; rewrite app_nil_r; split_and!; try done; [by constructor|rewrite len_nil; lia].
  - done.
  - inv_ok. destruct (byName !! _) as [i|] eqn:Ei; [|done]. destruct (Hix _ _ Ei) as (e & He & Hn).
    simpl in Hc. rewrite He in Hc. inv_ok. goprop.
    apply IH in Hc as (rest & -> & Hl & Hlen & ->); [|lia]. exists (e :: rest). split_and!; try done.
    + by rewrite <- app_assoc.
    + constructor; try done. by eapply list_elem_of_lookup_2.
    + rewrite len_cons. lia.
Qed.

Lemma fold_unavailable s l : s.(available) = false -> (foldl addParent s l).(available) = false.
Proof.
  revert s. induction l as [|x l IH]; intros s Hs; [done|]. simpl. apply IH. by rewrite addParent_available, Hs.
Qed.

Lemma lineage_subset entries r rest : Lineage entries r rest -> rest ⊆ entries.
Proof. induction 1 as [|r e rest Hp Hin Hn Hg Hl IH]; set_solver. Qed.

Lemma fold_addParent_summarises rs s ps :
  SummarisesAll rs s -> s.(available) = true ->
  Forall (fun r => recordcodec.TypedRecord r /\ InMillis r) ps ->
  (foldl addParent s (map effectiveLease ps)).(available) = true ->
  SummarisesAll (rs ++ ps) (foldl addParent s (map effectiveLease ps)).
Proof.
  intros Hs Hav Hps. revert rs s Hs Hav. induction Hps as [|p ps [Ht Hm] Hps IH]; intros rs s Hs Hav Ha; simpl in *.
  { by rewrite app_nil_r. }
  assert ((effectiveLease p).(available) = true) as Hp.
  { destruct (available (effectiveLease p)) eqn:E; [done|].
    by rewrite fold_unavailable in Ha by (by rewrite addParent_available, E, andb_false_r). }
  change (p :: ps) with ([p] ++ ps). rewrite app_assoc. apply IH; [|by rewrite addParent_available, Hav, Hp|done].
  apply SummarisesAll_add; [done|]. by apply effectiveLease_summarises.
Qed.

(** A lineage of valid, live Records is what the record package asks for. *)
Lemma Lineage_loop entries r rest now prev :
  Forall (fun e => Valid e.(entry_record)) entries -> Valid r -> Lineage entries r rest ->
  Forall (fun e => (record.liveLease e.(entry_record) now).1 = true) rest ->
  match prev with
  | Some p => p.(record.ParentName) = r.(record.ParentName) /\
              p.(record.ParentGeneration) = r.(record.ParentGeneration)
  | None => True
  end ->
  record.lineageLoop prev r.(record.Name) (map entry_record rest) now = Ok tt.
Proof.
  intros Hall Hv Hl. revert prev Hv. induction Hl as [r Hp|r e rest Hp Hin Hn Hg Hl IH];
    intros prev Hv Hlive Hprev; [done|]. apply Forall_cons in Hlive as [Hle Hlive].
  assert (Valid e.(entry_record)) as Hve by (rewrite Forall_forall in Hall; by apply Hall).
  cbn [map record.lineageLoop]. rewrite (proj2 (validateRecord_ok _)) by done. cbn [is_err is_ok negb].
  rewrite (valid_name _ Hve), Hle.
  assert (IsDescendant (record.Name r) (record.Name (entry_record e)) = true) as ->.
  { rewrite Hn. destruct (valid_parent _ Hv) as [(? & _)|(_ & _ & ?)]; done. }
  cbn [negb]. assert (match prev with
    | Some p => (record.ParentName p !=? record.Name (entry_record e)) ||
                negb (record.ParentGeneration p =? record.Generation (entry_record e))
    | None => false end = false) as ->.
  { destruct prev as [p|]; [|done]. destruct Hprev as [-> ->]. rewrite Hn, Hg, Z.eqb_refl.
    by rewrite bool_decide_eq_true_2. }
  by apply IH.
Qed.

Lemma Lineage_root entries r rest :
  Lineage entries r rest -> rest <> [] ->
  default [] (record.ParentName <$> last (map entry_record rest)) = [].
Proof.
  induction 1 as [r Hp|r e rest Hp Hin Hn Hg Hl IH]; [done|]. intros _.
  destruct rest as [|e' rest]; [by inversion Hl|]. cbn [map]. rewrite last_cons_cons. by apply IH.
Qed.

Lemma Lineage_validateParents entries r rest now :
  Forall (fun e => Valid e.(entry_record)) entries -> Valid r -> Lineage entries r rest ->
  Forall (fun e => (record.liveLease e.(entry_record) now).1 = true) rest ->
  record.validateParents r.(record.Name) (map entry_record rest) now = Ok (head (map entry_record rest)) /\
  record.sameParent r (head (map entry_record rest)) = true.
Proof.
  intros Hall Hv Hl Hlive. pose proof (Lineage_loop _ _ _ _ None Hall Hv Hl Hlive I) as Hloop.
  pose proof (valid_parent _ Hv) as Hpar. unfold record.validateParents, record.sameParent.
  destruct Hl as [r Hp|r e rest Hp Hin Hn Hg Hl].
  - destruct Hpar as [(_ & Hg & Hd)|(? & _)]; [|done]. cbn [map head].
    rewrite Hd, Hg, (bool_decide_eq_true_2 _ Hp). done.
  - cbn [map head]. rewrite (valid_name _ Hv). cbn [mbind result_bind]. cbn [map] in Hloop. rewrite Hloop.
    cbn [mbind result_bind]. rewrite (bool_decide_eq_false_2 (record.ParentName r = [])) by done. split.
    + rewrite bool_decide_eq_true_2; [done|].
      by apply (Lineage_root entries r (e :: rest)); [constructor|].
    + rewrite bool_decide_eq_true_2 by done. by rewrite Hg, Z.eqb_refl.
Qed.

(** ** Corpora *)

Lemma verifyAll_ok network signed entries :
  verifyAll network signed = Ok entries ->
  map entry_signed entries = signed /\
  Forall (fun e => recordcodec.VerifyRecord network e.(entry_signed) = Ok e.(entry_record)) entries.
Proof.
  revert entries. induction signed as [|raw signed IH]; intros entries; cbn [verifyAll].
  { intros [= <-]. by split. }
  intros Hv. inv_ok. subst entries. destruct (IH _ eq_refl) as [<- Hall]. split; [done|]. by constructor.
Qed.

Lemma sortEntries_perm entries : sortEntries entries ≡ₚ entries.
Proof.
  assert (forall e l, insertEntry e l ≡ₚ e :: l) as Hi.
  { intros e l. induction l as [|x l IH]; [done|]. cbn [insertEntry]. destruct (nameLess x e); [|done].
    rewrite IH. apply Permutation_swap. }
  induction entries as [|e entries IH]; [done|]. simpl. by rewrite Hi, IH.
Qed.

Definition name_le (a b : recordEntry) : Prop :=
  ~ bytes_lt b.(entry_record).(record.Name) a.(entry_record).(record.Name).

Lemma name_le_trans a b c : name_le a b -> name_le b c -> name_le a c.
Proof.
  unfold name_le. intros Hab Hbc Hca.
  destruct (bytes_lt_total b.(entry_record).(record.Name) a.(entry_record).(record.Name)) as [?|[E|Hlt]]; [done|..].
  - rewrite E in Hbc. done.
  - apply Hbc. by transitivity a.(entry_record).(record.Name).
Qed.

Lemma sortEntries_sorted entries : StronglySorted name_le (sortEntries entries).
Proof.
  induction entries as [|e entries IH]; [constructor|]. cbn [sortEntries foldr]. fold (sortEntries entries).
  induction IH as [|x l Hs IHl Hall]; cbn [insertEntry]; [repeat constructor|].
  unfold nameLess. destruct (bytes_ltb _ _) eqn:E.
  - constructor; [done|]. rewrite Forall_forall in *. intros y Hy.
    assert (y ∈ e :: l) as [->|Hy']%elem_of_cons.
    { revert Hy. clear. induction l as [|z l IH]; cbn [insertEntry]; [done|].
      destruct (nameLess z e); set_solver. }
    + intros Hlt. apply (bytes_lt_irrefl e.(entry_record).(record.Name)). by eapply bytes_lt_trans.
    + by apply Hall.
  - assert (name_le e x) as Hex by (unfold name_le, bytes_lt; by rewrite E).
    constructor; [by constructor|]. constructor; [done|].
    eapply Forall_impl; [exact Hall|]. intros y. by apply name_le_trans.
Qed.

Definition nameOf (e : recordEntry) : gostring := e.(entry_record).(record.Name).

Lemma indexNames_ok all pre entries byName m :
  all = pre ++ entries -> Indexed all byName ->
  indexNames (length pre) (nameOf <$> last pre) entries byName = Ok m ->
  Indexed all m /\ Sorted (fun a b => nameOf a <> nameOf b) 
    (match last pre with Some p => [p] | None => [] end ++ entries).
Proof.
  revert pre byName. induction entries as [|e entries IH]; intros pre byName Hall Hix; cbn [indexNames].
  { intros [= <-]. split; [done|]. rewrite app_nil_r. destruct (last pre); repeat constructor. }
  intros Hm. inv_ok. goprop.
  destruct (IH (pre ++ [e]) (<[nameOf e := length pre]> byName)) as [Hix' Hs].
  - by rewrite <- app_assoc.
  - intros n i. destruct (decide (nameOf e = n)) as [<-|Hne].
    + rewrite lookup_insert_eq. intros [= <-]. exists e. split; [|done].
      by rewrite Hall, list_lookup_middle.
    + rewrite lookup_insert_ne by done. apply Hix.
  - rewrite length_app, Nat.add_1_r, last_snoc. done.
  - split; [done|]. rewrite last_snoc in Hs. simpl in Hs. destruct (last pre) as [p|]; [|done].
    simpl in *. constructor; [done|]. constructor. intros E. by rewrite E in *.
Qed.

Lemma distinct_names entries :
  StronglySorted name_le entries -> Sorted (fun a b => nameOf a <> nameOf b) entries ->
  StronglySorted (fun a b => bytes_lt (nameOf a) (nameOf b)) entries.
Proof.
  intros Hs Hd. apply Sorted_StronglySorted; [intros a b c; apply bytes_lt_trans|].
  induction Hs as [|a l Hs IH Hall]; [constructor|]. inversion Hd as [|? ? Hd' Hh]; subst.
  constructor; [by apply IH|]. destruct Hh as [|b l Hne]; [constructor|]. constructor.
  apply Forall_cons in Hall as [Hle _].
  destruct (bytes_lt_total (nameOf a) (nameOf b)) as [?|[?|?]]; [done|done|]. by destruct Hle.
Qed.

Lemma leavesOf_ok heads entries byName leaves :
  leavesOf heads entries byName = Ok leaves ->
  Forall2 (fun e raw => exists leaf, materializeLeaf e entries byName = Ok leaf /\ raw = encodeLeaf leaf)
    heads leaves.
Proof.
  revert leaves. induction heads as [|e heads IH]; intros leaves; cbn [leavesOf].
  { intros [= <-]. constructor. }
  intros Hl. inv_ok. subst leaves. constructor; [by exists a|by apply IH].
Qed.

(** What a materialized corpus is made of. *)
Record Corpus (network : array 32) (signed records leaves : list bytes) (entries : list recordEntry)
  (byName : gmap gostring nat) : Prop := {
  corpus_signed : map entry_signed entries ≡ₚ signed;
  corpus_records : records = map entry_signed entries;
  corpus_verified : Forall (fun e => recordcodec.VerifyRecord network e.(entry_signed) = Ok e.(entry_record)) entries;
  corpus_names : StronglySorted (fun a b => bytes_lt (nameOf a) (nameOf b)) entries;
  corpus_index : Indexed entries byName;
  corpus_leaves : Forall2 (fun e raw => exists leaf, materializeLeaf e entries byName = Ok leaf /\
                                           raw = encodeLeaf leaf) entries leaves;
  corpus_size : 0 < len entries <= maximumRecords
}.

Lemma materializeRecords_ok network signed records leaves :
  materializeRecords network signed = Ok (records, leaves) ->
  exists entries byName, Corpus network signed records leaves entries byName.
Proof.
  unfold materializeRecords. intros Hm. inv_ok. injection Hm as <- <-. goprop.
  apply verifyAll_ok in Hok as [Hsig Hall]. exists (sortEntries a), a0.
  pose proof (sortEntries_perm a) as Hp. pose proof (sortEntries_sorted a) as Hs.
  destruct (indexNames_ok (sortEntries a) [] (sortEntries a) ∅ a0) as [Hix Hd];
    [done|intros n i; by rewrite lookup_empty|done|].
  constructor; try done.
  - by rewrite Hp, Hsig.
  - by rewrite Hp.
  - by apply distinct_names.
  - by apply leavesOf_ok.
  - assert (len (sortEntries a) = len signed) as ->; [|pose proof (len_nonneg signed); lia].
    unfold len. rewrite Hp, <- Hsig, length_map. done.
Qed.

Lemma corpus_valid network signed records leaves entries byName :
  Corpus network signed records leaves entries byName ->
  Forall (fun e => Valid e.(entry_record) /\ recordcodec.TypedRecord e.(entry_record)) entries.
Proof.
  intros Hc. eapply Forall_impl; [apply Hc|]. intros e. apply recordcodec.VerifyRecord_valid.
Qed.

(** *** One leaf *)

Record AvailableLeaf (entries : list recordEntry) (e : recordEntry) (leaf : resolutionLeaf)
  (rest : list recordEntry) : Prop := {
  al_lineage : Lineage entries e.(entry_record) rest;
  al_target : e.(entry_record).(record.Target) <> zero32;
  al_summary : exists s, SummarisesAll (map entry_record (e :: rest)) s /\
    leaf = MkLeaf leafSchema e.(entry_signed)
      (namespaceCommitmentRoot (map entry_signed rest) emptyLineageTag) (len rest)
      s.(sum_state) (if (s.(sum_state) =? 1) && (s.(sum_notAfter) <=? s.(sum_graceAt)) then 0
                     else s.(sum_graceAt)) s.(sum_notAfter);
  al_count : len rest <= 126
}.

Definition withdrawnLeaf (e : recordEntry) (rest : list recordEntry) : resolutionLeaf :=
  MkLeaf leafSchema e.(entry_signed) (namespaceCommitmentRoot (map entry_signed rest) emptyLineageTag)
    (len rest) 0 0 0.

Lemma materializeLeaf_cases entries byName e leaf :
  Indexed entries byName -> e ∈ entries ->
  Forall (fun e => recordcodec.TypedRecord e.(entry_record) /\ InMillis e.(entry_record)) entries ->
  materializeLeaf e entries byName = Ok leaf ->
  exists rest, len rest <= 126 /\ (leaf = withdrawnLeaf e rest \/ AvailableLeaf entries e leaf rest).
Proof.
  intros Hix Hin Hty Hm. unfold materializeLeaf in Hm. inv_ok. destruct a as [lineage s].
  apply climbLineage_ok in Hok as (rest & -> & Hl & Hlen & ->); [|done|lia]. simpl app in *.
  apply (inj Ok) in Hm. set (s := foldl addParent _ _) in *. set (r := entry_record e) in *.
  assert (u8 (len rest) = len rest) as Hu by (apply Z.mod_small; pose proof (len_nonneg rest); lia).
  rewrite Hu in Hm. exists rest. split; [lia|].
  destruct (decide (r.(record.Target) <> zero32 /\ s.(available) = true)) as [[Ht Ha]|Hna]; [right|left].
  2:{ subst leaf. case_bool_decide; [done|]. by destruct (available s) eqn:E; [exfalso; auto|]. }
  rewrite (bool_decide_eq_false_2 (record.Target r = zero32)), Ha in Hm by done. cbn [negb] in Hm.
  pose proof (lineage_subset _ _ _ Hl) as Hsub. rewrite Forall_forall in Hty.
  assert ((effectiveLease r).(available) = true) as Hr.
  { destruct (available (effectiveLease r)) eqn:E; [done|].
    unfold s in Ha. by rewrite fold_unavailable in Ha. }
  assert (SummarisesAll (map entry_record (e :: rest)) s) as Hs.
  { assert (s = foldl addParent (effectiveLease r) (map effectiveLease (map entry_record rest))) as Es
      by (by rewrite map_map). rewrite Es in Ha |- *. destruct (Hty e Hin).
    apply (fold_addParent_summarises [r]); try done.
    - by apply SummarisesAll_one, effectiveLease_summarises.
    - apply Forall_fmap, Forall_forall. intros x Hx. by apply Hty, Hsub. }
  constructor; try done. exists s. split; [done|]. subst leaf. by destruct (_ && _).
Qed.

Lemma signed_length network signed r :
  recordcodec.VerifyRecord network signed = Ok r -> 0 < len signed < 2 ^ 32.
Proof.
  intros (wire & sig & key & -> & Hs & Hw & _)%recordcodec.VerifyRecord_ok.
  unfold recordcodec.containerOf, recordcodec.maximumRecordPayloadBytes in *.
  autorewrite with len. lia.
Qed.

Lemma leaf_typed entries e leaf rest :
  0 < len e.(entry_signed) < 2 ^ 32 -> len rest <= 126 ->
  leaf = withdrawnLeaf e rest \/ AvailableLeaf entries e leaf rest -> TypedLeaf leaf.
Proof.
  intros Hl Hr. pose proof (len_nonneg rest). intros [->|[_ _ (s & [Hp Hst Hg _ _ _] & ->) _]].
  - constructor; simpl; auto; lia.
  - constructor; simpl; auto; try lia.
    + destruct ((_ =? 1) && _); lia.
    + destruct Hst as [E|[E Hz]]; rewrite E; simpl; [|by rewrite Hz].
      destruct (Z.leb_spec (sum_notAfter s) (sum_graceAt s)); lia.
Qed.

(** The corpus a set of signed Records was verified into. *)
Definition Millis (network : array 32) (signed : list bytes) : Prop :=
  forall raw r, raw ∈ signed -> recordcodec.VerifyRecord network raw = Ok r -> InMillis r.

Lemma corpus_leaf network signed records leaves entries byName i raw :
  Corpus network signed records leaves entries byName -> Millis network signed -> leaves !! i = Some raw ->
  exists e leaf rest, entries !! i = Some e /\ records !! i = Some e.(entry_signed) /\
    e.(entry_signed) ∈ signed /\ materializeLeaf e entries byName = Ok leaf /\ raw = encodeLeaf leaf /\
    TypedLeaf leaf /\ len rest <= 126 /\ (leaf = withdrawnLeaf e rest \/ AvailableLeaf entries e leaf rest).
Proof.
  intros Hc Hm Hi. pose proof (corpus_valid _ _ _ _ _ _ Hc) as Hv. destruct Hc as [Hsig Hrec Hall _ Hix Hlv _].
  destruct (Forall2_lookup_r _ _ _ _ _ Hlv Hi) as (e & He & leaf & Hleaf & ->).
  assert (e ∈ entries) as Hin by (by eapply list_elem_of_lookup_2).
  assert (forall x, x ∈ entries -> entry_signed x ∈ signed) as Hsub.
  { intros x Hx. rewrite <- Hsig. by apply list_elem_of_fmap_2. }
  destruct (materializeLeaf_cases entries byName e leaf) as (rest & Hr & Hcase); try done.
  { rewrite Forall_forall in *. intros x Hx. destruct (Hv x Hx). split; [done|].
    eapply Hm; [by apply Hsub|by apply Hall]. }
  exists e, leaf, rest. split_and!; try done.
  - by rewrite Hrec, list_lookup_fmap, He.
  - by apply Hsub.
  - eapply leaf_typed; [|exact Hr|exact Hcase]. rewrite Forall_forall in Hall.
    eapply signed_length. by apply Hall.
Qed.

Lemma lineageWarning_exists ps now :
  recordcodec.lineageWarning ps now <> ""%string -> Exists (fun r => record.leaseWarning r now <> ""%string) ps.
Proof.
  induction ps as [|p ps IH]; [done|]. cbn [recordcodec.lineageWarning].
  case_bool_decide as E; intros Hw; [right; by apply IH|by left].
Qed.

(** An available leaf resolves through its lineage at every time it covers. *)
Lemma available_resolves entries e leaf rest at_ :
  Forall (fun e => Valid e.(entry_record)) entries -> e ∈ entries ->
  AvailableLeaf entries e leaf rest -> 0 <= at_ <= leaf.(notAfter) ->
  at_ <= e.(entry_record).(record.RecordNotAfter) /\
  exists b w, recordcodec.resolveBinding e.(entry_record) (at_ / 1000) (map entry_record rest) = Ok (b, w) /\
    (w <> ""%string -> leaf.(state) = 2 \/ leaf.(graceAt) <> 0 /\ leaf.(graceAt) < at_).
Proof.
  intros Hv Hin [Hl Ht (s & Hs & ->) Hcount] Hat. simpl in Hat.
  destruct (SummarisesAll_live _ _ at_ Hs Hat) as [Hlive Hwarn]. cbn [map] in Hlive.
  apply Forall_cons in Hlive as [Hhead Hlive]. rewrite Forall_forall in Hv. split.
  { pose proof (sa_each _ _ Hs) as He. cbn [map] in He. apply Forall_cons in He as [(sr & Hsr & Hle & _) _].
    pose proof (su_record _ _ Hsr Ht). lia. }
  pose proof (Hv e Hin) as Hve.
  destruct (Lineage_validateParents entries (entry_record e) rest (at_ / 1000)) as [Hp Hsp]; try done.
  { by apply Forall_forall. } { by apply Forall_fmap in Hlive. }
  unfold recordcodec.resolveBinding, recordcodec.recordDigest, recordcodec.EncodeRecord.
  rewrite (proj2 (validateRecord_ok _) Hve), Hhead, bool_decide_eq_false_2, Hp, Hsp by done. cbn [is_err is_ok negb].
  rewrite (proj2 (recordcodec.encodeRecord_ok _ _ _) (conj (or_intror eq_refl) (conj Hve eq_refl))).
  cbn [mbind result_bind]. eexists _, _. split; [done|]. intros Hw. simpl.
  assert (Exists (fun r => record.leaseWarning r (at_ / 1000) <> ""%string) (map entry_record (e :: rest))) as Hex.
  { cbn [map]. case_bool_decide as E; [right; by apply lineageWarning_exists|by left]. }
  destruct (Hwarn Hex) as [?|[Hg Hg']]; [by left|]. destruct (sa_state _ _ Hs) as [E|[? _]]; [right|by left].
  rewrite E. simpl. destruct (Z.leb_spec (sum_notAfter s) (sum_graceAt s)); lia.
Qed.

End Lineage.

(** ** Verified proofs *)

Section Verified.
Context `{GoLib}.

Definition SignedBy (policy : MaterializationPolicy) (transcript : bytes) (id : array 32) (signature : bytes) : Prop :=
  exists public, policy.(Authorities) !! id = Some public /\ sha256 public = id /\ len signature = 64 /\
    ed25519_Verify public transcript signature = true.

Lemma checkSigners_true policy transcript previous ids signatures :
  length ids = length signatures ->
  checkSigners policy transcript previous ids signatures = true <->
  Sorted recovery.before (match previous with Some p => p :: ids | None => ids end) /\
  Forall2 (SignedBy policy transcript) ids signatures.
Proof.
  revert previous signatures.
  induction ids as [|id ids IH]; intros previous [|sig sigs] Hl; cbn [checkSigners]; try done.
  { split; [|done]. intros _. split; [|constructor]. destruct previous; repeat constructor. }
  split.
  - destruct (match previous with Some p => bytes_geb p id | None => false end) eqn:Ep; [done|].
    destruct (Authorities policy !! id) as [public|] eqn:Ea; [|done].
    destruct (_ || _) eqn:E; [done|]. rewrite IH by (by injection Hl). intros [Hs Hf]. goprop. split.
    + destruct previous as [p|]; [|done]. constructor; [done|]. constructor. by apply bytes_geb_false.
    + constructor; [|done]. by exists public.
  - intros [Hs Hf]. inversion Hf as [|? ? ? ? (public & Ha & Hh & Hlen & Hv) Hf']; subst.
    assert (match previous with Some p => bytes_geb p (sha256 public) | None => false end = false) as ->.
    { destruct previous as [p|]; [|done]. apply bytes_geb_false. by inversion Hs as [|? ? _ Hh]; inversion Hh. }
    rewrite Ha, (bool_decide_eq_true_2 (sha256 public = _)), Hlen, Hv by done. simpl.
    apply IH; [by injection Hl|]. split; [|done]. destruct previous; [by inversion Hs|done].
Qed.

Lemma verifyAttestation_true policy value :
  verifyAttestation policy value = true ->
  NoDup value.(signerIDs) /\ policy.(Threshold) <= len value.(signerIDs) /\
  Forall2 (SignedBy policy (statementTranscript value.(stmt))) value.(signerIDs) value.(signatures).
Proof.
  unfold verifyAttestation. destruct (_ || _) eqn:E; [done|]. goprop. intros Hc.
  apply checkSigners_true in Hc as [Hs Hf]; [|unfold len in *; lia].
  split; [|split; [lia|done]]. apply recovery.before_NoDup, Sorted_StronglySorted; [apply _|done].
Qed.

Lemma commitmentLeafInput_inj a b : commitmentLeafInput a = commitmentLeafInput b -> a = b.
Proof.
  unfold commitmentLeafInput. intros E. apply app_inv_head in E.
  by apply app_inj_1 in E as [_ E]; [|by rewrite !length_be_bytes].
Qed.

Lemma commitment_root_inputs values tag :
  namespaceCommitmentRoot values tag =
  treeRoot nodeHash (map sha256 (map commitmentLeafInput values)) (sha256 [tag]).
Proof. unfold namespaceCommitmentRoot, namespaceHashedCommitmentRoot. by rewrite map_map. Qed.

(** A proof against the root of a list shows the element at its index. *)
Lemma verifyNamespaceProof_sound values tag value index siblings :
  0 <= index -> len values < 2 ^ 32 ->
  verifyNamespaceProof value index (len values) siblings (namespaceCommitmentRoot values tag) = true ->
  values !! Z.to_nat index = Some value \/
  Collision sha256 (proofInputs (commitmentLeafInput value) (map commitmentLeafInput values) index siblings
                      (sha256 [tag])).
Proof.
  intros Hi Hn Hv. rewrite commitment_root_inputs in Hv.
  destruct (verifyPath_sound (commitmentLeafInput value) (map commitmentLeafInput values) index siblings
    (sha256 [tag])) as [Hl|Hc]; [|done|by rewrite len_map|by rewrite len_map|left|by right].
  - constructor; [done|]. by apply Forall_fmap, Forall_true.
  - rewrite list_lookup_fmap in Hl. apply fmap_Some_1 in Hl as (v & Hv' & E).
    by apply commitmentLeafInput_inj in E as ->.
Qed.

Lemma validMaterializationPolicy_same input p : validMaterializationPolicy input = Ok p -> p = input.
Proof. unfold validMaterializationPolicy. intros Hp. by inv_ok. Qed.

Lemma validMaterializationPolicy_threshold input p :
  validMaterializationPolicy input = Ok p -> 2 <= input.(Threshold).
Proof. unfold validMaterializationPolicy. intros Hp. inv_ok. goprop. lia. Qed.

Lemma VerifyLegacy_ok input proof minimum digest at_ current binding warning number :
  VerifyLegacy input proof minimum digest at_ = Ok (current, binding, warning, number) ->
  exists attested ordinal leafRaw siblings leaf,
    validMaterializationPolicy input = Ok input /\ 0 <= at_ /\
    decodeProof proof = Ok (attested, ordinal, leafRaw, siblings) /\
    number = attested.(stmt).(epoch) /\ minimum <= number /\ attested.(stmt).(epochDigest) = digest /\
    verifyAttestation input attested = true /\
    verifyNamespaceProof leafRaw ordinal attested.(stmt).(recordLength) siblings attested.(stmt).(recordRoot) = true /\
    decodeLeaf leafRaw = Ok leaf /\ leaf.(state) <> 0 /\ at_ <= leaf.(notAfter) /\
    recordcodec.VerifyRecord input.(policy_Network) leaf.(signedRecord) = Ok current /\
    binding = recordcodec.MkBinding current.(record.Name) current.(record.Generation)
      current.(record.Revision) current.(record.Authority) current.(record.Target)
      current.(record.ParentName) current.(record.ParentGeneration)
      (sha256 (recordcodec.wireOf current recordcodec.recordSchemaVersion))
      (sha256 (materializedDomain ++ sha256 leafRaw)) /\
    proofLeaseWarning leaf current at_ = Ok warning.
Proof.
  unfold VerifyLegacy. destruct (validMaterializationPolicy input) as [p|] eqn:Hpol; [|done].
  apply validMaterializationPolicy_same in Hpol as ->. intros Hv. inv_ok.
  destruct a as [[[attested ordinal] leafRaw] siblings]. inv_ok. injection Hv as -> <- <- <-. goprop.
  exists attested, ordinal, leafRaw, siblings, a. split_and!; try done; try lia.
  unfold recordcodec.EncodeRecord in Hok2. by apply recordcodec.encodeRecord_ok in Hok2 as (_ & _ & ->).
Qed.

Lemma proofLeaseWarning_warns leaf current at_ w :
  proofLeaseWarning leaf current at_ = Ok w -> leaf.(schema) = leafSchema ->
  leaf.(state) = 2 \/ leaf.(graceAt) <> 0 /\ leaf.(graceAt) < at_ -> w <> ""%string.
Proof.
  unfold proofLeaseWarning. intros Hw Hsch Hg. rewrite Hsch, Z.eqb_refl in Hw. cbn [negb] in Hw.
  destruct (Z.eqb_spec (state leaf) 1) as [E|E].
  - inv_ok. subst w. destruct Hg as [Hg|[Hg1 Hg2]]; [lia|].
    by rewrite (proj2 (Z.eqb_neq _ _)), (proj2 (Z.ltb_lt _ _)) by lia.
  - destruct (state leaf =? 2); inv_ok. by subst w.
Qed.

(** A leaf of a corpus, available at a time, resolves there by the lifecycle. *)
Lemma leaf_resolves network signed records leaves entries byName i raw leaf at_ current :
  Corpus network signed records leaves entries byName -> Millis network signed ->
  leaves !! i = Some raw -> decodeLeaf raw = Ok leaf -> leaf.(state) <> 0 -> 0 <= at_ <= leaf.(notAfter) ->
  recordcodec.VerifyRecord network leaf.(signedRecord) = Ok current ->
  exists parents resolved w, leaf.(signedRecord) ∈ signed /\ at_ <= current.(record.RecordNotAfter) /\
    Forall (fun p => exists raw, raw ∈ signed /\ recordcodec.VerifyRecord network raw = Ok p) parents /\
    recordcodec.resolveBinding current (at_ / 1000) parents = Ok (resolved, w) /\
    (w <> ""%string -> leaf.(state) = 2 \/ leaf.(graceAt) <> 0 /\ leaf.(graceAt) < at_) /\
    leaf.(schema) = leafSchema.
Proof.
  intros Hc Hmil Hlook Hleaf Hst Hat Hver.
  destruct (corpus_leaf _ _ _ _ _ _ _ _ Hc Hmil Hlook) as (e & l & rest & He & _ & Hin & _ & -> & Htl & _ & Hcase).
  rewrite decodeLeaf_complete in Hleaf by done. injection Hleaf as ->.
  destruct Hcase as [->|Hav]; [done|].
  pose proof (corpus_valid _ _ _ _ _ _ Hc) as Hval. pose proof (corpus_verified _ _ _ _ _ _ Hc) as Hvr.
  assert (e ∈ entries) as Hine by (by eapply list_elem_of_lookup_2).
  assert (leaf.(signedRecord) = e.(entry_signed) /\ leaf.(schema) = leafSchema) as [Hsr Hsch]
    by (destruct Hav as [_ _ (s & _ & ->) _]; done).
  rewrite Forall_forall in Hvr. rewrite Hsr, (Hvr e Hine) in Hver. injection Hver as <-.
  destruct (available_resolves entries e leaf rest at_) as (Hrna & resolved & lw & Hres & Hlw); try done.
  { eapply Forall_impl; [exact Hval|]. by intros x [? _]. }
  exists (map entry_record rest), resolved, lw. rewrite Hsr. split_and!; try done.
  apply Forall_fmap, Forall_forall. intros x Hx. simpl.
  assert (x ∈ entries) as Hxe by (by eapply lineage_subset; [apply Hav|]).
  exists (entry_signed x). split; [|by apply Hvr]. rewrite <- (corpus_signed _ _ _ _ _ _ Hc).
  by apply list_elem_of_fmap_2.
Qed.

(** A path built for a member of a corpus verifies and is short. *)
Lemma namespaceProof_complete leaves i raw tag :
  len leaves <= maximumRecords -> leaves !! i = Some raw ->
  verifyNamespaceProof raw (Z.of_nat i) (len leaves) (namespaceProof leaves (Z.of_nat i) tag)
    (namespaceCommitmentRoot leaves tag) = true /\
  len (namespaceProof leaves (Z.of_nat i) tag) <= 7.
Proof.
  unfold maximumRecords. intros Hll Hi.
  assert (map namespaceCommitmentLeaf leaves !! Z.to_nat (Z.of_nat i) = Some (namespaceCommitmentLeaf raw)) as Hh
    by (rewrite Nat2Z.id, list_lookup_fmap, Hi; done).
  assert (len (map namespaceCommitmentLeaf leaves) <= 127) as Hm by (by rewrite len_map). split.
  - pose proof (treePath_verifies namespaceCommitmentBranch _ _ _ (sha256 [tag])
      (Z.le_lt_trans _ _ (2 ^ 32) Hm ltac:(lia)) (Zle_0_nat i) Hh) as Hp. by rewrite len_map in Hp.
  - pose proof (treePath_length namespaceCommitmentBranch _ _ _ (sha256 [tag]) 7
      (Z.le_lt_trans _ _ (2 ^ 32) Hm ltac:(lia)) (Zle_0_nat i) Hh (Z.le_trans _ _ (pow2 7) Hm ltac:(done))).
    unfold namespaceProof, len. lia.
Qed.

Lemma available_warning entries e leaf rest at_ :
  AvailableLeaf entries e leaf rest -> exists w, proofLeaseWarning leaf e.(entry_record) at_ = Ok w.
Proof.
  intros [_ _ (s & Hs & ->) _]. unfold proofLeaseWarning. cbn [schema state graceAt]. rewrite Z.eqb_refl. cbn [negb].
  destruct (sa_state _ _ Hs) as [E|[E Hz]]; rewrite E; cbn [Z.eqb Pos.eqb andb].
  - pose proof (sa_active _ _ Hs E) as Ha. cbn [map] in Ha. apply Forall_cons in Ha as [Ha _].
    rewrite bool_decide_eq_true_2 by done. by eexists.
  - pose proof (sa_unreleased _ _ Hs) as Ha. cbn [map] in Ha. apply Forall_cons in Ha as [Ha _].
    rewrite bool_decide_eq_false_2, Hz by done. by eexists.
Qed.

Lemma available_current entries e leaf rest :
  AvailableLeaf entries e leaf rest ->
  leaf.(schema) = leafSchema /\ leaf.(signedRecord) = e.(entry_signed) /\
  0 < e.(entry_record).(record.RecordNotAfter).
Proof.
  intros [_ Ht (s & Hs & ->) _]. split_and!; [done..|].
  pose proof (sa_each _ _ Hs) as He. cbn [map] in He. apply Forall_cons in He as [(sr & Hsr & Hle & _) _].
  pose proof (su_record _ _ Hsr Ht). pose proof (sa_positive _ _ Hs). lia.
Qed.

(** The proof of an available leaf of an attested corpus verifies. *)
Lemma proof_verifies input signed records leaves entries byName attested i raw leaf minimum at_ :
  let proof := encodeProof attested (Z.of_nat i) raw (namespaceProof leaves (Z.of_nat i) emptyRecordTag) in
  validMaterializationPolicy input = Ok input ->
  Corpus input.(policy_Network) signed records leaves entries byName -> Millis input.(policy_Network) signed ->
  TypedAttested attested -> verifyAttestation input attested = true ->
  attested.(stmt).(recordRoot) = recordRootOf leaves -> attested.(stmt).(recordLength) = len leaves ->
  leaves !! i = Some raw -> decodeLeaf raw = Ok leaf -> leaf.(state) <> 0 -> 0 <= at_ <= leaf.(notAfter) ->
  minimum <= attested.(stmt).(epoch) -> len proof <= maximumProofBytes ->
  exists current binding warning,
    VerifyLegacy input proof minimum attested.(stmt).(epochDigest) at_ =
      Ok (current, binding, warning, attested.(stmt).(epoch)) /\
    recordcodec.VerifyRecord input.(policy_Network) leaf.(signedRecord) = Ok current.
Proof.
  intros proof Hpol Hc Hmil Hta Hatt Hroot Hlen Hi Hleaf Hst Hat Hmin Hsize.
  assert (len leaves <= maximumRecords) as Hll.
  { destruct Hc as [_ _ _ _ _ Hl Hs]. apply Forall2_length in Hl. unfold len in *. lia. }
  destruct (namespaceProof_complete _ _ _ emptyRecordTag Hll Hi) as [Hpath Hshort].
  destruct (corpus_leaf _ _ _ _ _ _ _ _ Hc Hmil Hi) as (e & l & rest & He & _ & _ & _ & -> & Htl & _ & Hcase).
  rewrite decodeLeaf_complete in Hleaf by done. injection Hleaf as ->.
  destruct Hcase as [->|Hav]; [done|].
  destruct (available_current _ _ _ _ Hav) as (Hsch & Hsr & Hrna).
  destruct (available_warning _ _ _ _ at_ Hav) as [w Hw].
  pose proof (corpus_verified _ _ _ _ _ _ Hc) as Hvr. pose proof (corpus_valid _ _ _ _ _ _ Hc) as Hval.
  rewrite Forall_forall in Hvr, Hval. assert (e ∈ entries) as Hine by (by eapply list_elem_of_lookup_2).
  destruct (Hval e Hine) as [Hv _].
  assert (attested.(stmt).(epochDigest) <> zero32) as Hd.
  { intros E. unfold verifyAttestation in Hatt. rewrite (bool_decide_eq_true_2 _ E), !orb_true_r in Hatt. done. }
  exists (entry_record e). unfold VerifyLegacy. rewrite Hpol, Hsr, (Hvr e Hine).
  rewrite (proj2 (Z.ltb_ge at_ _)), (bool_decide_eq_false_2 (epochDigest _ = zero32) Hd) by lia. cbn [orb].
  unfold proof. rewrite decodeProof_complete.
  2:{ constructor; try done; [|lia]. pose proof (lookup_lt_Some _ _ _ Hi).
      unfold len, in_u32, maximumRecords in *. lia. }
  rewrite (proj2 (Z.ltb_ge (epoch _) _)), Hatt, Hroot, Hlen, (bool_decide_eq_true_2 (epochDigest _ = _)) by done.
  unfold recordRootOf. rewrite Hpath, decodeLeaf_complete by done. cbn [negb orb].
  rewrite (proj2 (Z.eqb_neq _ _) Hst), (proj2 (Z.ltb_ge (notAfter leaf) _)), Hsr, (Hvr e Hine), Hsch by lia.
  rewrite (bool_decide_eq_false_2 (record.Target _ = _)), (proj2 (Z.leb_gt _ _)) by (apply Hav || lia).
  unfold recordcodec.EncodeRecord. cbn [Z.eqb Pos.eqb leafSchema negb orb].
  rewrite (proj2 (recordcodec.encodeRecord_ok _ _ _) (conj (or_intror eq_refl) (conj Hv eq_refl))).
  cbn [mbind result_bind]. rewrite Hw. by eexists _, _.
Qed.

(** A binding that [VerifyBinding] accepts at a time was attested by at least
    [Threshold >= 2] distinct authorities for the expected Epoch.  If the
    attested root is that of a materialized corpus, the binding is the one the
    record lifecycle resolves at that time from the corpus: a Record of the
    corpus, live together with its whole parent lineage from the same corpus and
    not past its own limit, with a warning whenever the lifecycle gives one.
    Otherwise two of the hashed strings are a SHA-256 collision. *)
Theorem VerifyBinding_resolves input proof minimum digest at_ binding warning number
    attested ordinal leafRaw siblings signed records leaves :
  VerifyBinding input proof minimum digest at_ = Ok (binding, warning, number) ->
  decodeProof proof = Ok (attested, ordinal, leafRaw, siblings) ->
  materializeRecords input.(policy_Network) signed = Ok (records, leaves) ->
  Millis input.(policy_Network) signed ->
  attested.(stmt).(recordRoot) = recordRootOf leaves -> attested.(stmt).(recordLength) = len leaves ->
  (NoDup attested.(signerIDs) /\ 2 <= input.(Threshold) <= len attested.(signerIDs) /\
   Forall2 (SignedBy input (statementTranscript attested.(stmt))) attested.(signerIDs) attested.(signatures)) /\
  minimum <= number /\ attested.(stmt).(epoch) = number /\ attested.(stmt).(epochDigest) = digest /\
  ((exists raw current parents resolved lifecycleWarning,
      raw ∈ signed /\ recordcodec.VerifyRecord input.(policy_Network) raw = Ok current /\
      at_ <= current.(record.RecordNotAfter) /\
      Forall (fun p => exists raw, raw ∈ signed /\ recordcodec.VerifyRecord input.(policy_Network) raw = Ok p) parents /\
      recordcodec.resolveBinding current (at_ / 1000) parents = Ok (resolved, lifecycleWarning) /\
      binding = resolved <| recordcodec.Commitment := sha256 (materializedDomain ++ sha256 leafRaw) |> /\
      (lifecycleWarning <> ""%string -> warning <> ""%string)) \/
   Collision sha256 (proofInputs (commitmentLeafInput leafRaw) (map commitmentLeafInput leaves) ordinal siblings
                       (sha256 [emptyRecordTag]))).
Proof.
  unfold VerifyBinding. intros Hv Hd Hm Hmil Hroot Hlen.
  destruct (VerifyLegacy _ _ _ _ _) as [[[[current b] w] n]|] eqn:Hleg; [|done]. injection Hv as -> -> ->.
  apply VerifyLegacy_ok in Hleg as (att & ord & lr & sib & leaf & Hpol & Hat & Hd' & -> & Hmin & Hdig &
    Hatt & Hinc & Hleaf & Hst & Hna & Hver & Hb & Hwarn).
  rewrite Hd in Hd'. injection Hd' as <- <- <- <-.
  apply verifyAttestation_true in Hatt as (Hnd & Hth & Hsigned).
  split; [split_and!; try done; by eapply validMaterializationPolicy_threshold|]. split_and!; try done.
  destruct (materializeRecords_ok _ _ _ _ Hm) as (entries & byName & Hc).
  assert (len leaves < 2 ^ 32) as Hll.
  { destruct Hc as [_ _ _ _ _ Hl Hs]. apply Forall2_length in Hl. unfold len, maximumRecords in *. lia. }
  assert (0 <= ordinal) as Hord by (apply decodeProof_ordinal in Hd; lia).
  rewrite Hroot, Hlen in Hinc.
  destruct (verifyNamespaceProof_sound _ _ _ _ _ Hord Hll Hinc) as [Hlook|Hcol]; [left|by right].
  destruct (leaf_resolves _ _ _ _ _ _ _ _ _ _ _ Hc Hmil Hlook Hleaf Hst (conj Hat Hna) Hver)
    as (parents & resolved & lw & Hin & Hrna & Hps & Hres & Hlw & Hsch).
  exists leaf.(signedRecord), current, parents, resolved, lw. split_and!; try done.
  - apply recordcodec.resolveBinding_ok in Hres as (_ & _ & _ & _ & ->). done.
  - intros Hne. by eapply proofLeaseWarning_warns; [..|apply Hlw].
Qed.

End Verified.

(** ** A corpus of one Record *)

Section Witnesses.
#[local] Existing Instance sample_golib.

Definition sampleNetwork : array 32 := recovery.key 1.

Definition sampleAuthorities : list (array 32) := [recovery.key 21; recovery.key 22].

Definition samplePolicy : MaterializationPolicy :=
  MkPolicy sampleNetwork materializationRule
    (list_to_map (map (fun p : array 32 => (sha256 p, array_bytes p)) sampleAuthorities)) 2.

Definition sampleCorpus : list bytes := [recordcodec.sampleSigned].

Definition sampleBuilt : list bytes * list bytes :=
  match materializeRecords sampleNetwork sampleCorpus with Ok built => built | Err _ => ([], []) end.

Definition sampleStatement : statement :=
  MkStatement sampleNetwork 3 (recovery.key 9) materializationRule 7 (recordRootOf sampleBuilt.2) 1
    (recovery.key 40) 0 (recovery.key 41) 0.

Definition sampleAttested : attestedStatement :=
  MkAttested sampleStatement (map (fun p : array 32 => sha256 p) sampleAuthorities)
    (map (fun p : array 32 => p ++ sha256 (statementTranscript sampleStatement)) sampleAuthorities).

Definition sampleLeaf : bytes := nth 0 sampleBuilt.2 [].

Definition sampleProof : bytes := encodeProof sampleAttested 0 sampleLeaf [].

Definition sampleBound : recordcodec.Binding :=
  recordcodec.sampleBinding <| recordcodec.Commitment := sha256 (materializedDomain ++ sha256 sampleLeaf) |>.

Lemma sampleMillis : Millis sampleNetwork sampleCorpus.
Proof.
  intros raw r Hin Hr. unfold sampleCorpus in Hin. apply list_elem_of_singleton in Hin as ->.
  vm_compute in Hr. injection Hr as <-. by vm_compute.
Qed.

Lemma VerifyBinding_resolves_witness :
  VerifyBinding samplePolicy sampleProof 2 (recovery.key 9) 4000000 = Ok (sampleBound, ""%string, 3) /\
  2 <= len sampleAttested.(signerIDs).
Proof.
  assert (VerifyBinding samplePolicy sampleProof 2 (recovery.key 9) 4000000 = Ok (sampleBound, ""%string, 3)) as Hv
    by (vm_compute; reflexivity).
  split; [exact Hv|].
  destruct (VerifyBinding_resolves samplePolicy sampleProof 2 (recovery.key 9) 4000000 sampleBound "" 3
    sampleAttested 0 sampleLeaf [] sampleCorpus sampleBuilt.1 sampleBuilt.2 Hv) as [(_ & Ht & _) _].
  - vm_compute. reflexivity.
  - vm_compute. reflexivity.
  - exact sampleMillis.
  - reflexivity.
  - vm_compute. reflexivity.
  - eapply Z.le_trans; apply Ht.
Defined.

End Witnesses.
