(* ===== verification/EpochDisk.v ===== *)
(** * The durable root of the namespace

    internal/naming/namespace/epoch: namespace_persistence.go and
    namespace_generation_commit.go, the immutable generation directories and the
    [current] pointer of one owned root, and the pending journal directory of
    pending_journal.go.

    A [Disk] is the content of an owned root: the marker is written and the two
    directories exist.  A mutating operation is the list of file-system actions
    it performs, with its outcome; running all of them is the operation, and a
    crash leaves the effect of a prefix, possibly with the next action torn.
    Actions take effect in program order: every file and directory is synced
    before the action that makes it visible. *)

From S2P Require Import Prelude Wire GoLib EpochCodec.

Import epoch.

Module disk.

Definition namespaceRootMarkerName : gostring := str ".ardents-network-state-v1".
Definition namespaceRootMarker : bytes := str "ardents-network-state-v1" ++ [byte_of 10].
Definition maximumNamespaceGenerations : Z := 64.
Definition maximumNamespaceEpochBytes : Z := 2 ^ 20.
Definition maximumNamespaceRecordBytes : Z := 32 * 2 ^ 10.

(** The regular expression [^[0-9a-f]{64}$]. *)
Definition isLowerHex (c : byte) : bool :=
  let v := byte_val c in (48 <=? v) && (v <=? 57) || (97 <=? v) && (v <=? 102).

Definition namespaceGenerationName (name : gostring) : bool := (len name =? 64) && forallb isLowerHex name.

Record namespaceGeneration := MkGeneration {
  gen_Name : gostring;
  gen_Epoch : bytes;
  gen_Inputs : list bytes;
  gen_Pending : Z;
  gen_Activate : bool
}.

(** One directory below [generations]: its files and, once made, its inputs. *)
Record genDir := MkDir {
  epoch_bin : option bytes;
  pending_bin : option bytes;
  inputs_dir : option (list (gostring * bytes))
}.

Record Disk := MkDisk {
  generations : gmap gostring genDir;
  root_files : gmap gostring bytes;
  journal : gmap gostring (option bytes)
}.

#[global] Instance eta_genDir : Eta genDir := fun d => MkDir d.(epoch_bin) d.(pending_bin) d.(inputs_dir).
#[global] Instance eta_Disk : Eta Disk := fun d => MkDisk d.(generations) d.(root_files) d.(journal).

Record namespaceRoot := MkRoot { disk_of : Disk; closed : bool }.

(** ** Reading *)

Definition notExist : string := "file does not exist".

Definition readNamespaceFile (file : option bytes) (maximum : Z) : result bytes :=
  match file with
  | None => Err (New notExist)
  | Some contents =>
      reject (New "file exceeds its framing bound") when (maximum <? len contents);
      Ok contents
  end.

(** [readNamespaceDirectory]: the entries by name, if there are not too many. *)
Fixpoint insertNamed {A} (e : gostring * A) (entries : list (gostring * A)) : list (gostring * A) :=
  match entries with
  | [] => [e]
  | x :: rest => if bytes_ltb x.1 e.1 then x :: insertNamed e rest else e :: entries
  end.

Definition sortNamed {A} (entries : list (gostring * A)) : list (gostring * A) := foldr insertNamed [] entries.

Definition readNamespaceDirectory {A} (entries : list (gostring * A)) (maximum : Z)
  : result (list (gostring * A)) :=
  reject (New "directory exceeds its entry bound") when (maximum <? len entries);
  Ok (sortNamed entries).

(** [fmt.Sprintf("%04d.bin", index)] below 10000. *)
Definition digit (v : Z) : byte := byte_of (48 + v mod 10).
Definition inputName (index : nat) : gostring :=
  let i := Z.of_nat index in
  [digit (i / 1000); digit (i / 100); digit (i / 10); digit i] ++ str ".bin".

Fixpoint readInputs (index : nat) (entries : list (gostring * bytes)) : result (list bytes) :=
  match entries with
  | [] => Ok []
  | (name, contents) :: rest =>
      reject (New "naming state generation input name is not canonical") when (name !=? inputName index);
      match readNamespaceFile (Some contents) maximumNamespaceRecordBytes with
      | Err e => Err (Wrap "read naming state generation input: %w" e)
      | Ok input => inputs ← readInputs (S index) rest; Ok (input :: inputs)
      end
  end.

Definition loadNamespaceGeneration (name : gostring) (directory : genDir) : result namespaceGeneration :=
  match readNamespaceFile directory.(epoch_bin) maximumNamespaceEpochBytes with
  | Err e => Err (Wrap "read naming state generation epoch: %w" e)
  | Ok epoch =>
      let pending := readNamespaceFile directory.(pending_bin) 8 in
      value ← match pending with
              | Err e =>
                  if errors_Is e notExist then Ok 0
                  else Err (Wrap "read naming state pending cursor: %w" e)
              | Ok pending =>
                  reject (New "naming state pending cursor is invalid") when (negb (len pending =? 8));
                  Ok (be_val pending)
              end;
      match directory.(inputs_dir) with
      | None => Err (Wrap "scan naming state generation inputs: %w" (New notExist))
      | Some entries =>
          match readNamespaceDirectory entries maximumChunks with
          | Err e => Err (Wrap "scan naming state generation inputs: %w" e)
          | Ok entries =>
              inputs ← readInputs 0 entries;
              Ok (MkGeneration name epoch inputs value false)
          end
      end
  end.

Definition namespaceGenerationMatches (name : gostring) (directory : genDir) (generation : namespaceGeneration) : bool :=
  match loadNamespaceGeneration name directory with
  | Err _ => false
  | Ok actual =>
      (actual.(gen_Epoch) ==? generation.(gen_Epoch)) && (actual.(gen_Pending) =? generation.(gen_Pending)) &&
      (actual.(gen_Inputs) ==? generation.(gen_Inputs))
  end.

Fixpoint loadGenerations (entries : list (gostring * genDir)) : result (list namespaceGeneration) :=
  match entries with
  | [] => Ok []
  | (name, directory) :: rest =>
      reject (New "naming state generation directory is invalid") when (negb (namespaceGenerationName name));
      generation ← loadNamespaceGeneration name directory;
      generations ← loadGenerations rest;
      Ok (generation :: generations)
  end.

Definition available (root : namespaceRoot) : result unit :=
  reject (New "naming state store is closed") when (root.(closed));
  Ok tt.

Definition newline : bytes := [byte_of 10].

Definition TrimSuffix (s suffix : gostring) : gostring :=
  if HasSuffix s suffix then take (length s - length suffix) s else s.

(** The empty string stands for "no current generation", as in the code. *)
Definition load (root : namespaceRoot) : result (gostring * list namespaceGeneration) :=
  _ ← available root;
  let d := root.(disk_of) in
  match readNamespaceDirectory (map_to_list d.(generations)) maximumNamespaceGenerations with
  | Err e => Err (Wrap "scan naming state generations: %w" e)
  | Ok entries =>
      loaded ← loadGenerations entries;
      match readNamespaceFile (d.(root_files) !! str "current") 65 with
      | Err e =>
          if errors_Is e notExist then Ok ([], loaded)
          else Err (Wrap "read current naming state pointer: %w" e)
      | Ok pointer =>
          let current := TrimSuffix pointer newline in
          reject (New "current naming state pointer is invalid")
            when ((pointer !=? current ++ newline) || negb (namespaceGenerationName current) ||
                  negb (bool_decide (is_Some (d.(generations) !! current))));
          Ok (current, loaded)
      end
  end.

(** ** Writing *)

(** The actions on files and directories.  [stage] and [tmp] are the names that
    [os.MkdirTemp] and [os.CreateTemp] picked. *)
Inductive action :=
| MkdirStage (stage : gostring)
| MkdirInputs (stage : gostring)
| WriteEpoch (stage : gostring) (contents : bytes)
| WritePending (stage : gostring) (contents : bytes)
| WriteInput (stage : gostring) (name : gostring) (contents : bytes)
| RemoveStage (stage : gostring)
| PublishStage (stage final : gostring)
| WriteTemporary (tmp : gostring) (contents : bytes)
| ReplaceCurrent (tmp : gostring)
| MkdirEntry (stage : gostring)
| WriteEntry (stage : gostring) (contents : bytes)
| RemoveEntry (stage : gostring)
| PublishEntry (stage final : gostring).

Definition inStage (stage : gostring) (f : genDir -> genDir) (d : Disk) : Disk :=
  d <| generations := alter f stage d.(generations) |>.

Definition exec (a : action) (d : Disk) : Disk :=
  match a with
  | MkdirStage stage => d <| generations := <[stage := MkDir None None None]> d.(generations) |>
  | MkdirInputs stage => inStage stage (fun g => g <| inputs_dir := Some [] |>) d
  | WriteEpoch stage contents => inStage stage (fun g => g <| epoch_bin := Some contents |>) d
  | WritePending stage contents => inStage stage (fun g => g <| pending_bin := Some contents |>) d
  | WriteInput stage name contents =>
      inStage stage (fun g => g <| inputs_dir := Some (default [] g.(inputs_dir) ++ [(name, contents)]) |>) d
  | RemoveStage stage => d <| generations := delete stage d.(generations) |>
  | PublishStage stage final =>
      match d.(generations) !! stage with
      | Some g => d <| generations := <[final := g]> (delete stage d.(generations)) |>
      | None => d
      end
  | WriteTemporary tmp contents => d <| root_files := <[tmp := contents]> d.(root_files) |>
  | ReplaceCurrent tmp =>
      match d.(root_files) !! tmp with
      | Some contents => d <| root_files := <[str "current" := contents]> (delete tmp d.(root_files)) |>
      | None => d
      end
  | MkdirEntry stage => d <| journal := <[stage := None]> d.(journal) |>
  | WriteEntry stage contents => d <| journal := <[stage := Some contents]> d.(journal) |>
  | RemoveEntry stage => d <| journal := delete stage d.(journal) |>
  | PublishEntry stage final =>
      match d.(journal) !! stage with
      | Some e => d <| journal := <[final := e]> (delete stage d.(journal)) |>
      | None => d
      end
  end.

Definition run (actions : list action) (d : Disk) : Disk := foldl (fun d a => exec a d) d actions.

(** What a crash in the middle of one action can leave: the staged directory or
    temporary file it works on, in any state.  Renames are atomic. *)
Inductive torn : action -> Disk -> Disk -> Prop :=
| torn_stage a stage d g :
    match a with
    | MkdirStage s | MkdirInputs s | WriteEpoch s _ | WritePending s _ | WriteInput s _ _ | RemoveStage s => s = stage
    | _ => False
    end ->
    torn a d (d <| generations := <[stage := g]> d.(generations) |>)
| torn_temporary tmp contents d written :
    torn (WriteTemporary tmp contents) d (d <| root_files := <[tmp := written]> d.(root_files) |>)
| torn_entry a stage d e :
    match a with
    | MkdirEntry s | WriteEntry s _ | RemoveEntry s => s = stage
    | _ => False
    end ->
    torn a d (d <| journal := <[stage := e]> d.(journal) |>).

Inductive crashed (actions : list action) (d : Disk) : Disk -> Prop :=
| crashed_between k : crashed actions d (run (take k actions) d)
| crashed_inside k a d' : actions !! k = Some a -> torn a (run (take k actions) d) d' -> crashed actions d d'.

(** ** namespace_generation_commit.go *)

Fixpoint inputWrites (stage : gostring) (index : nat) (inputs : list bytes) : list action :=
  match inputs with
  | [] => []
  | input :: rest => WriteInput stage (inputName index) input :: inputWrites stage (S index) rest
  end.

Definition writeNamespaceGeneration (stage : gostring) (generation : namespaceGeneration) : list action :=
  [MkdirInputs stage; WriteEpoch stage generation.(gen_Epoch)] ++
  (if generation.(gen_Pending) =? 0 then []
   else [WritePending stage (be_bytes 8 generation.(gen_Pending))]) ++
  inputWrites stage 0 generation.(gen_Inputs).

Definition replaceNamespacePointer (tmp generation : gostring) : list action :=
  [WriteTemporary tmp (generation ++ newline); ReplaceCurrent tmp].

(** [expected] is [None] for [commit] and the expected current name for
    [commitFrom]. *)
Definition commitCurrent (root : namespaceRoot) (expected : option gostring) (generation : namespaceGeneration)
  (stage tmp : gostring) : list action * result unit :=
  let d := root.(disk_of) in
  match available root with
  | Err e => ([], Err e)
  | Ok _ =>
      let stale :=
        match expected with
        | None => false
        | Some expected =>
            match readNamespaceFile (d.(root_files) !! str "current") 65 with
            | Err e => negb ((expected ==? []) && errors_Is e notExist)
            | Ok pointer => pointer !=? expected ++ newline
            end
        end in
      if stale then ([], Err (New "naming state current generation changed"))
      else if negb (namespaceGenerationName generation.(gen_Name)) || (len generation.(gen_Epoch) =? 0) ||
              (maximumNamespaceEpochBytes <? len generation.(gen_Epoch)) ||
              (maximumChunks <? len generation.(gen_Inputs))
      then ([], Err (New "naming state generation exceeds its bounds"))
      else if existsb (fun input => (len input =? 0) || (maximumNamespaceRecordBytes <? len input))
                generation.(gen_Inputs)
      then ([], Err (New "naming state generation input exceeds its bound"))
      else
        let staging := MkdirStage stage :: writeNamespaceGeneration stage generation in
        let pointer := if generation.(gen_Activate) then replaceNamespacePointer tmp generation.(gen_Name) else [] in
        match d.(generations) !! generation.(gen_Name) with
        | Some directory =>
            if negb (namespaceGenerationMatches generation.(gen_Name) directory generation) then
              (staging ++ [RemoveStage stage],
               Err (New "existing immutable naming state generation disagrees with supplied bytes"))
            else (staging ++ [RemoveStage stage] ++ pointer, Ok tt)
        | None => (staging ++ [PublishStage stage generation.(gen_Name)] ++ pointer, Ok tt)
        end
  end.

(** ** Opening a root: the marker, and the removal of what a crash left *)

Definition stagePrefix : gostring := str ".stage-".
Definition currentPrefix : gostring := str ".current-".

Definition without {A} (prefix : gostring) (m : gmap gostring A) : gmap gostring A :=
  filter (fun e : gostring * A => HasPrefix e.1 prefix = false) m.

(** The root directory also holds the directories [generations] and
    [distribution]. *)
Definition cleanupNamespaceStaging (d : Disk) : result Disk :=
  reject (Wrap "scan owned naming state root: %w" (New "directory exceeds its entry bound"))
    when ((128 <? Z.of_nat (size d.(root_files)) + 2) || (128 <? Z.of_nat (size d.(generations))));
  Ok (d <| root_files := without currentPrefix d.(root_files) |>
        <| generations := without stagePrefix d.(generations) |>).

Definition cleanupNamespaceControlStaging (d : Disk) : result Disk :=
  reject (New "directory exceeds its entry bound") when (4098 <? Z.of_nat (size d.(journal)));
  Ok (d <| journal := without stagePrefix d.(journal) |>).

Definition openNamespaceRoot (d : Disk) : result namespaceRoot :=
  reject (New "naming state root ownership marker is invalid")
    when (negb (bool_decide (d.(root_files) !! namespaceRootMarkerName = Some namespaceRootMarker)));
  d ← cleanupNamespaceStaging d;
  d ← cleanupNamespaceControlStaging d;
  Ok (MkRoot d false).

End disk.
