(* ===== verification/EpochDurable.v ===== *)
(** * Durability of the namespace root

    The theorems about EpochDisk.v: what [load] reads back of a committed
    generation, and what a crash at any point of a commit can leave. *)

From S2P Require Import Prelude Wire GoLib EpochCodec EpochDisk.

Import epoch disk.

(** ** Directory listings *)

Lemma insertNamed_perm {A} (e : gostring * A) l : insertNamed e l ≡ₚ e :: l.
Proof.
  induction l as [|x l IH]; [done|]. cbn [insertNamed]. destruct (bytes_ltb _ _); [|done].
  rewrite IH. apply Permutation_swap.
Qed.

Lemma sortNamed_perm {A} (l : list (gostring * A)) : sortNamed l ≡ₚ l.
Proof. induction l as [|e l IH]; [done|]. simpl. by rewrite insertNamed_perm, IH. Qed.

Lemma sortNamed_sorted {A} (l : list (gostring * A)) :
  StronglySorted (fun a b => bytes_lt a.1 b.1) l -> sortNamed l = l.
Proof.
  induction 1 as [|x l Hs IH Hall]; [done|]. simpl. fold (sortNamed l). rewrite IH.
  destruct l as [|y l]; [done|]. apply Forall_cons in Hall as [Hxy _]. cbn [insertNamed].
  destruct (bytes_ltb y.1 x.1) eqn:E; [|done]. exfalso.
  apply (bytes_lt_irrefl x.1). by transitivity y.1.
Qed.

Definition named (index : nat) (inputs : list bytes) : list (gostring * bytes) :=
  imap (fun i input => (inputName (index + i), input)) inputs.

Lemma named_cons index input inputs :
  named index (input :: inputs) = (inputName index, input) :: named (S index) inputs.
Proof.
  unfold named. rewrite imap_cons, Nat.add_0_r. f_equal. apply imap_ext. intros i x _. simpl.
  by rewrite Nat.add_succ_r.
Qed.

Lemma inputName_lt i j : (i < j)%nat -> (j < 64)%nat -> bytes_lt (inputName i) (inputName j).
Proof.
  intros Hij Hj.
  assert (forallb (fun j => forallb (fun i => bytes_ltb (inputName i) (inputName j)) (seq 0 j)) (seq 0 64) = true)
    as Hall by (vm_compute; done).
  rewrite forallb_true, Forall_forall in Hall. specialize (Hall j). rewrite elem_of_seq in Hall.
  specialize (Hall ltac:(lia)). rewrite forallb_true, Forall_forall in Hall. apply Hall, elem_of_seq. lia.
Qed.

Lemma named_sorted index inputs :
  (index + length inputs <= 64)%nat -> StronglySorted (fun a b => bytes_lt a.1 b.1) (named index inputs).
Proof.
  revert index. induction inputs as [|input inputs IH]; intros index Hl; [constructor|].
  rewrite named_cons. simpl in Hl. constructor; [apply IH; lia|].
  apply Forall_lookup. intros i x Hx. unfold named in Hx. rewrite list_lookup_imap in Hx.
  destruct (inputs !! i) as [y|] eqn:E; [|done]. injection Hx as <-. apply lookup_lt_Some in E.
  apply inputName_lt; simpl; lia.
Qed.

Lemma readInputs_named index inputs :
  Forall (fun input => len input <= maximumNamespaceRecordBytes) inputs ->
  readInputs index (named index inputs) = Ok inputs.
Proof.
  intros Hf. revert index. induction Hf as [|input inputs Hi Hf IH]; intros index; [done|].
  rewrite named_cons. cbn [readInputs]. rewrite bool_decide_eq_true_2 by done. cbn [negb].
  unfold readNamespaceFile. rewrite (proj2 (Z.ltb_ge _ _)), IH by done. done.
Qed.

(** ** Written generations *)

(** The directory a completed [writeNamespaceGeneration] leaves. *)
Definition stagedDir (g : namespaceGeneration) : genDir :=
  MkDir (Some g.(gen_Epoch)) (if g.(gen_Pending) =? 0 then None else Some (be_bytes 8 g.(gen_Pending)))
    (Some (named 0 g.(gen_Inputs))).

(** What [commitCurrent] asks of a generation, and the type of its cursor. *)
Record Bounded (g : namespaceGeneration) : Prop := {
  bo_name : namespaceGenerationName g.(gen_Name) = true;
  bo_epoch : 0 < len g.(gen_Epoch) <= maximumNamespaceEpochBytes;
  bo_inputs : len g.(gen_Inputs) <= maximumChunks;
  bo_input : Forall (fun input => 0 < len input <= maximumNamespaceRecordBytes) g.(gen_Inputs)
}.

Definition inactive (g : namespaceGeneration) : namespaceGeneration :=
  MkGeneration g.(gen_Name) g.(gen_Epoch) g.(gen_Inputs) g.(gen_Pending) false.

Lemma stagedDir_loads g :
  Bounded g -> in_u64 g.(gen_Pending) ->
  loadNamespaceGeneration g.(gen_Name) (stagedDir g) = Ok (inactive g).
Proof.
  intros [_ He Hi Hf] Hp. unfold loadNamespaceGeneration, stagedDir. cbn [epoch_bin pending_bin inputs_dir].
  unfold readNamespaceFile at 1. rewrite (proj2 (Z.ltb_ge _ _)) by lia.
  assert (len (named 0 (gen_Inputs g)) = len (gen_Inputs g)) as Hl by (unfold len, named; by rewrite length_imap).
  unfold readNamespaceDirectory. rewrite Hl, (proj2 (Z.ltb_ge _ _)) by lia.
  rewrite sortNamed_sorted by (apply named_sorted; unfold len, maximumChunks in Hi; simpl; lia).
  rewrite readInputs_named by (eapply Forall_impl; [exact Hf|]; simpl; lia).
  destruct (Z.eqb_spec (gen_Pending g) 0) as [E|E].
  - cbn. unfold inactive. by rewrite E.
  - assert (readNamespaceFile (Some (be_bytes 8 (gen_Pending g))) 8 = Ok (be_bytes 8 (gen_Pending g))) as ->
      by (unfold readNamespaceFile; by rewrite len_be_bytes).
    rewrite len_be_bytes, be_val_bytes8, u64_id by done. done.
Qed.

Lemma inputWrites_run stage index inputs pre d g :
  d.(generations) !! stage = Some g -> g.(inputs_dir) = Some pre ->
  run (inputWrites stage index inputs) d =
  d <| generations := <[stage := g <| inputs_dir := Some (pre ++ named index inputs) |>]> d.(generations) |>.
Proof.
  revert index pre d g. induction inputs as [|input inputs IH]; intros index pre d g Hg Hi.
  - cbn. rewrite app_nil_r, <- Hi. destruct d as [gs rf j], g as [e p i]. cbn in *. by rewrite insert_id.
  - cbn [inputWrites]. unfold run in *. cbn [foldl].
    assert (exec (WriteInput stage (inputName index) input) d =
      d <| generations := <[stage := g <| inputs_dir := Some (pre ++ [(inputName index, input)]) |>]> d.(generations) |>)
      as ->.
    { unfold exec, inStage. unfold alter, map_alter. cbn. f_equal. apply map_eq. intros k.
      destruct (decide (k = stage)) as [->|Hne].
      - rewrite lookup_partial_alter_eq, lookup_insert_eq, Hg. cbn. by rewrite Hi.
      - by rewrite lookup_partial_alter_ne, lookup_insert_ne. }
    rewrite (IH _ (pre ++ [(inputName index, input)]) _ (g <| inputs_dir := Some (pre ++ [(inputName index, input)]) |>));
      [|by cbn; rewrite lookup_insert_eq|done].
    rewrite named_cons. destruct d, g. cbn. by rewrite insert_insert_eq, <- app_assoc.
Qed.

Lemma staging_run stage g d :
  run (MkdirStage stage :: writeNamespaceGeneration stage g) d =
  d <| generations := <[stage := stagedDir g]> d.(generations) |>.
Proof.
  unfold writeNamespaceGeneration, run. cbn [app foldl]. rewrite foldl_app.
  set (base := foldl _ _ (if gen_Pending g =? 0 then _ else _)).
  assert (base = d <| generations := <[stage := (stagedDir g) <| inputs_dir := Some [] |>]> d.(generations) |>) as ->.
  { unfold base. destruct d as [gs rf j]. unfold stagedDir. cbn. unfold inStage. cbn.
    destruct (gen_Pending g =? 0); cbn; unfold inStage; cbn; rewrite ?alter_insert_eq; done. }
  pose proof (inputWrites_run stage 0 (gen_Inputs g) []
    (d <| generations := <[stage := (stagedDir g) <| inputs_dir := Some [] |>]> d.(generations) |>)
    ((stagedDir g) <| inputs_dir := Some [] |>)) as Hr.
  unfold run in Hr. rewrite Hr; [|by cbn; rewrite lookup_insert_eq|done].
  destruct d. cbn. by rewrite insert_insert_eq.
Qed.

(** ** Reopening *)

(** The content of a root after the removal of staged names. *)
Definition clean (d : Disk) : Disk :=
  MkDisk (without stagePrefix d.(generations)) (without currentPrefix d.(root_files)) (without stagePrefix d.(journal)).

Lemma openNamespaceRoot_clean d root : openNamespaceRoot d = Ok root -> root = MkRoot (clean d) false.
Proof.
  unfold openNamespaceRoot, cleanupNamespaceStaging, cleanupNamespaceControlStaging.
  intros Ho. inv_ok. subst. by destruct d.
Qed.

Lemma without_insert {A} (prefix name : gostring) (v : A) m :
  HasPrefix name prefix = true -> without prefix (<[name := v]> m) = without prefix m.
Proof.
  intros Hp. unfold without. rewrite map_filter_insert_False by (cbn; by rewrite Hp).
  apply map_filter_delete_not. cbn. intros ? _. by rewrite Hp.
Qed.

Lemma without_delete {A} (prefix name : gostring) (m : gmap gostring A) :
  HasPrefix name prefix = true -> without prefix (delete name m) = without prefix m.
Proof. intros Hp. unfold without. apply map_filter_delete_not. cbn. intros ? _. by rewrite Hp. Qed.

Lemma without_alter {A} (prefix name : gostring) (f : A -> A) (m : gmap gostring A) :
  HasPrefix name prefix = true -> without prefix (alter f name m) = without prefix m.
Proof.
  intros Hp. apply map_eq. intros k. unfold without. destruct (decide (name = k)) as [<-|Hne].
  - transitivity (@None A); [|symmetry]; apply map_lookup_filter_None_2; right; intros x _; cbn; by rewrite Hp.
  - by rewrite !map_lookup_filter, lookup_alter_ne.
Qed.

Lemma without_insert_kept {A} (prefix name : gostring) (v : A) m :
  HasPrefix name prefix = false -> without prefix (<[name := v]> m) = <[name := v]> (without prefix m).
Proof. intros Hp. unfold without. by apply map_filter_insert_True. Qed.

Lemma without_lookup {A} (prefix name : gostring) (m : gmap gostring A) :
  HasPrefix name prefix = false -> without prefix m !! name = m !! name.
Proof.
  intros Hp. unfold without. destruct (m !! name) as [v|] eqn:E.
  - apply map_lookup_filter_Some. done.
  - apply map_lookup_filter_None. by left.
Qed.

Lemma generationName_kept name : namespaceGenerationName name = true -> HasPrefix name stagePrefix = false.
Proof.
  intros [_ Hh]%andb_true_iff. destruct (HasPrefix name stagePrefix) eqn:E; [|done].
  apply HasPrefix_true in E as [t ->]. by vm_compute in Hh.
Qed.

Definition quiet (a : action) : Prop :=
  match a with
  | MkdirStage s | MkdirInputs s | WriteEpoch s _ | WritePending s _ | WriteInput s _ _ | RemoveStage s
  | MkdirEntry s | WriteEntry s _ | RemoveEntry s => HasPrefix s stagePrefix = true
  | WriteTemporary tmp _ => HasPrefix tmp currentPrefix = true
  | PublishStage _ _ | ReplaceCurrent _ | PublishEntry _ _ => False
  end.

Lemma quiet_exec a d : quiet a -> clean (exec a d) = clean d.
Proof.
  destruct a; intros Hq; try done; unfold exec, inStage, clean; cbn;
    rewrite ?without_insert, ?without_delete, ?without_alter by done; done.
Qed.

Lemma quiet_torn a d d' : quiet a -> torn a d d' -> clean d' = clean d.
Proof.
  intros Hq Ht. destruct Ht as [a stage d g Ha|tmp c d w|a stage d e Ha]; unfold clean; cbn;
    rewrite ?without_insert; try done; destruct a; simpl in *; by subst.
Qed.

Lemma quiet_run actions d : Forall quiet actions -> clean (run actions d) = clean d.
Proof.
  intros Hf. revert d. induction Hf as [|a actions Ha Hf IH]; intros d; [done|].
  unfold run in *. simpl. by rewrite IH, quiet_exec.
Qed.

Lemma quiet_crashed actions d d' : Forall quiet actions -> crashed actions d d' -> clean d' = clean d.
Proof.
  intros Hf [k|k a d1 Ha Ht].
  - apply quiet_run. by apply Forall_take.
  - rewrite (quiet_torn a _ d1) by (done || by eapply Forall_lookup_1).
    apply quiet_run. by apply Forall_take.
Qed.

Lemma run_app l k d : run (l ++ k) d = run k (run l d).
Proof. unfold run. apply foldl_app. Qed.

(** A crash in two consecutive lists of actions is a crash in one of them. *)
Lemma crashed_app l k d d' : crashed (l ++ k) d d' -> crashed l d d' \/ crashed k (run l d) d'.
Proof.
  intros [j|j a d1 Ha Ht]; (destruct (decide (j < length l)%nat) as [Hj|Hj]; [left|right]).
  - rewrite take_app_le by lia. constructor.
  - rewrite take_app_ge, run_app by lia. constructor.
  - rewrite take_app_le in Ht by lia. rewrite lookup_app_l in Ha by lia. by econstructor.
  - rewrite take_app_ge, run_app in Ht by lia. rewrite lookup_app_r in Ha by lia. by econstructor.
Qed.

(** An action that cannot be torn leaves nothing or its whole effect. *)
Lemma crashed_atomic a d d' :
  (forall d1 d2, ~ torn a d1 d2) -> crashed [a] d d' -> d' = d \/ d' = exec a d.
Proof.
  intros Hn [[|k]|[|k] b d1 Ha Ht]; [by left| |simpl in Ha; injection Ha as <-; by apply Hn in Ht|done].
  right. by destruct k.
Qed.

Lemma publish_not_torn s f d1 d2 : ~ torn (PublishStage s f) d1 d2.
Proof. intros Ht. by inversion Ht. Qed.

Lemma replace_not_torn tmp d1 d2 : ~ torn (ReplaceCurrent tmp) d1 d2.
Proof. intros Ht. by inversion Ht. Qed.

Lemma staging_quiet stage g :
  HasPrefix stage stagePrefix = true -> Forall quiet (MkdirStage stage :: writeNamespaceGeneration stage g).
Proof.
  intros Hs. unfold writeNamespaceGeneration. constructor; [done|]. repeat constructor; try done.
  apply Forall_app. split; [by destruct (_ =? 0); repeat constructor|].
  generalize 0%nat as index. induction (gen_Inputs g) as [|input inputs IH]; intros index; constructor; [done|apply IH].
Qed.

(** ** What a commit leaves *)

(** The generation on a disk, and the pointer to it. *)
Definition published (g : namespaceGeneration) (d : Disk) : Disk :=
  d <| generations := <[g.(gen_Name) := default (stagedDir g) (d.(generations) !! g.(gen_Name))]> d.(generations) |>.

Definition pointed (name : gostring) (d : Disk) : Disk :=
  d <| root_files := <[str "current" := name ++ newline]> d.(root_files) |>.

Section Commit.
Context (stage tmp : gostring) (Hstage : HasPrefix stage stagePrefix = true)
  (Htmp : HasPrefix tmp currentPrefix = true).

Lemma current_kept : HasPrefix (str "current") currentPrefix = false.
Proof. by vm_compute. Qed.

Lemma pointer_run name d :
  clean (run (replaceNamespacePointer tmp name) d) = pointed name (clean d).
Proof using Htmp.
  unfold replaceNamespacePointer, run. cbn [foldl]. unfold exec at 1. cbn.
  rewrite lookup_insert_eq. unfold clean, pointed. cbn.
  rewrite without_insert_kept, without_delete, without_insert by (done || apply current_kept). done.
Qed.

Lemma pointer_crashed name d d' :
  crashed (replaceNamespacePointer tmp name) d d' -> clean d' = clean d \/ clean d' = pointed name (clean d).
Proof using Htmp.
  change (replaceNamespacePointer tmp name) with ([WriteTemporary tmp (name ++ newline)] ++ [ReplaceCurrent tmp]).
  intros [Hc|Hc]%crashed_app.
  - left. eapply quiet_crashed; [|exact Hc]. by repeat constructor.
  - destruct (crashed_atomic _ _ _ (replace_not_torn tmp) Hc) as [E|E]; subst d'.
    + left. by apply quiet_run; repeat constructor.
    + right. by rewrite <- pointer_run.
Qed.

Lemma publish_run g d :
  Bounded g -> d.(generations) !! g.(gen_Name) = None ->
  clean (exec (PublishStage stage g.(gen_Name)) (run (MkdirStage stage :: writeNamespaceGeneration stage g) d)) =
  published g (clean d).
Proof using Hstage.
  intros Hb Hn. rewrite staging_run. cbn. rewrite lookup_insert_eq. unfold clean, published. cbn.
  pose proof (generationName_kept _ (bo_name _ Hb)) as Hk.
  by rewrite without_insert_kept, without_delete, without_insert, without_lookup, Hn by done.
Qed.

(** The pointer a conditional commit expects. *)
Definition Expected (expected : option gostring) (d : Disk) : Prop :=
  match expected with
  | None => True
  | Some name =>
      name = [] /\ d.(root_files) !! str "current" = None \/
      d.(root_files) !! str "current" = Some (name ++ newline)
  end.

Definition pointerActions (g : namespaceGeneration) : list action :=
  if g.(gen_Activate) then replaceNamespacePointer tmp g.(gen_Name) else [].

Lemma commitCurrent_cases root expected g :
  let d := root.(disk_of) in
  let staging := MkdirStage stage :: writeNamespaceGeneration stage g in
  let c := commitCurrent root expected g stage tmp in
  (exists e, c.2 = Err e) /\ Forall quiet c.1 \/
  c.2 = Ok tt /\ Bounded g /\ root.(closed) = false /\ Expected expected d /\
  ((exists dir, d.(generations) !! g.(gen_Name) = Some dir /\
      namespaceGenerationMatches g.(gen_Name) dir g = true /\
      c.1 = staging ++ [RemoveStage stage] ++ pointerActions g) \/
   d.(generations) !! g.(gen_Name) = None /\
   c.1 = staging ++ [PublishStage stage g.(gen_Name)] ++ pointerActions g).
Proof using Hstage.
  cbn zeta. unfold commitCurrent, available. destruct (closed root) eqn:Hcl; [left; split; [by eexists|constructor]|].
  set (stale := match expected with None => false | Some _ => _ end).
  assert (stale = false -> Expected expected (disk_of root)) as Hex.
  { unfold stale, Expected, readNamespaceFile. destruct expected as [name|]; [|done].
    destruct (root_files (disk_of root) !! str "current") as [p|].
    - destruct (65 <? len p); intros; goprop; [done|right; by f_equal].
    - intros E. goprop. by left. }
  destruct stale; [left; split; [by eexists|constructor]|]. specialize (Hex eq_refl).
  destruct (_ || (maximumChunks <? _)) eqn:E1; [left; split; [by eexists|constructor]|].
  destruct (existsb _ _) eqn:E2; [left; split; [by eexists|constructor]|].
  assert (Bounded g) as Hb.
  { goprop. pose proof (len_nonneg (gen_Epoch g)). constructor; [done|lia|lia|]. apply Forall_forall. intros x Hx.
    apply not_true_iff_false in E2. pose proof (len_nonneg x).
    destruct (decide (0 < len x <= maximumNamespaceRecordBytes)) as [?|Hn]; [done|]. exfalso. apply E2.
    apply existsb_exists. exists x. split; [by apply list_elem_of_In|]. apply orb_true_iff.
    rewrite Z.eqb_eq, Z.ltb_lt. lia. }
  destruct (generations (disk_of root) !! gen_Name g) as [dir|] eqn:Ed.
  - destruct (namespaceGenerationMatches (gen_Name g) dir g) eqn:Em; cbn [negb].
    + right. split_and!; try done. left. by exists dir.
    + left. split; [by eexists|]. apply Forall_app. split; [by apply staging_quiet|by repeat constructor].
  - right. split_and!; try done. by right.
Qed.

Definition committed (g : namespaceGeneration) (d : Disk) : Disk :=
  if g.(gen_Activate) then pointed g.(gen_Name) (published g d) else published g d.

Lemma published_known g d dir : d.(generations) !! g.(gen_Name) = Some dir -> published g d = d.
Proof using. intros Hd. unfold published. rewrite Hd. cbn. rewrite insert_id by done. by destruct d. Qed.

(** The first half of a successful commit leaves the generation on disk. *)
Lemma publication_run root g a :
  let d := root.(disk_of) in
  let staging := MkdirStage stage :: writeNamespaceGeneration stage g in
  Bounded g ->
  ((exists dir, d.(generations) !! g.(gen_Name) = Some dir /\ a = RemoveStage stage) \/
   d.(generations) !! g.(gen_Name) = None /\ a = PublishStage stage g.(gen_Name)) ->
  clean (exec a (run staging d)) = published g (clean d) /\
  (forall d', crashed (staging ++ [a]) d d' -> clean d' = clean d \/ clean d' = published g (clean d)).
Proof using Hstage.
  intros d staging Hb Ha. pose proof (staging_quiet stage g Hstage) as Hq.
  pose proof (generationName_kept _ (bo_name _ Hb)) as Hk.
  destruct Ha as [(dir & Hd & ->)|[Hd ->]].
  - assert (published g (clean d) = clean d) as ->
      by (eapply published_known; cbn; rewrite without_lookup by done; exact Hd).
    split; [rewrite quiet_exec by done; by apply quiet_run|]. intros d' Hc. left.
    eapply quiet_crashed; [|exact Hc]. apply Forall_app. split; [done|by repeat constructor].
  - split; [by apply publish_run|]. intros d' [Hc|Hc]%crashed_app; [left; by eapply quiet_crashed|].
    destruct (crashed_atomic _ _ _ (publish_not_torn _ _) Hc) as [->| ->];
      [left; by apply quiet_run|right; by apply publish_run].
Qed.

Lemma commit_run root expected g :
  let c := commitCurrent root expected g stage tmp in
  c.2 = Ok tt -> clean (run c.1 root.(disk_of)) = committed g (clean root.(disk_of)).
Proof using Hstage Htmp.
  cbn zeta. intros Hr.
  destruct (commitCurrent_cases root expected g) as [[[e He] _]|(_ & Hb & _ & _ & Hc)]; [congruence|].
  assert (exists a, (commitCurrent root expected g stage tmp).1 =
      (MkdirStage stage :: writeNamespaceGeneration stage g) ++ [a] ++ pointerActions g /\
    ((exists dir, generations (disk_of root) !! gen_Name g = Some dir /\ a = RemoveStage stage) \/
     generations (disk_of root) !! gen_Name g = None /\ a = PublishStage stage (gen_Name g))) as (a & -> & Ha).
  { destruct Hc as [(dir & Hd & _ & ->)|[Hd ->]]; eexists; (split; [done|]); eauto. }
  destruct (publication_run root g a Hb Ha) as [Hp _].
  rewrite run_app, run_app. unfold pointerActions, committed. cbn [run foldl] in *.
  destruct (gen_Activate g); [|done]. by rewrite pointer_run, Hp.
Qed.

(** A crash at any point of a commit leaves, after reopening, the root as it was
    or with the generation added, and the pointer old or new. *)
Lemma commit_crashed root expected g d' :
  let c := commitCurrent root expected g stage tmp in
  let before := clean root.(disk_of) in
  crashed c.1 root.(disk_of) d' ->
  clean d' = before \/
  c.2 = Ok tt /\ Bounded g /\ (clean d' = published g before \/ clean d' = committed g before).
Proof using Hstage Htmp.
  cbn zeta. intros Hcr.
  destruct (commitCurrent_cases root expected g) as [[_ Hq]|(Hr & Hb & _ & _ & Hc)]; [left; by eapply quiet_crashed|].
  assert (exists a, (commitCurrent root expected g stage tmp).1 =
      ((MkdirStage stage :: writeNamespaceGeneration stage g) ++ [a]) ++ pointerActions g /\
    ((exists dir, generations (disk_of root) !! gen_Name g = Some dir /\ a = RemoveStage stage) \/
     generations (disk_of root) !! gen_Name g = None /\ a = PublishStage stage (gen_Name g))) as (a & Ea & Ha).
  { destruct Hc as [(dir & Hd & _ & ->)|[Hd ->]]; eexists; (split; [by rewrite <- app_assoc|]); eauto. }
  destruct (publication_run root g a Hb Ha) as [Hp Hpc]. rewrite Ea in Hcr.
  apply crashed_app in Hcr as [Hcr|Hcr].
  - destruct (Hpc _ Hcr) as [?|?]; [by left|right; auto].
  - right. split_and!; [done..|]. rewrite run_app in Hcr. cbn [run foldl] in Hcr, Hp.
    unfold pointerActions, committed in *. destruct (gen_Activate g).
    + apply pointer_crashed in Hcr. by rewrite Hp in Hcr.
    + left. rewrite <- Hp. by eapply quiet_crashed; [|exact Hcr].
Qed.

End Commit.

(** ** Loading *)

Lemma loadGenerations_ok entries gens :
  loadGenerations entries = Ok gens <->
  Forall2 (fun e g => namespaceGenerationName e.1 = true /\ loadNamespaceGeneration e.1 e.2 = Ok g) entries gens.
Proof.
  revert gens. induction entries as [|[name dir] entries IH]; intros gens; cbn [loadGenerations]; split.
  - intros [= <-]. constructor.
  - by inversion 1.
  - intros Hl. inv_ok. subst gens. goprop. constructor; [done|by apply IH].
  - inversion 1 as [|? g ? gs [Hn Hg] Hf]; subst. cbn in Hn, Hg. rewrite Hn, Hg. cbn.
    by rewrite (proj2 (IH gs) Hf).
Qed.

(** Every generation directory has a valid name and content. *)
Definition Loadable (d : Disk) : Prop :=
  forall name dir, d.(generations) !! name = Some dir ->
    namespaceGenerationName name = true /\ exists g, loadNamespaceGeneration name dir = Ok g.

Definition CurrentIs (d : Disk) (current : gostring) : Prop :=
  current = [] /\ d.(root_files) !! str "current" = None \/
  d.(root_files) !! str "current" = Some (current ++ newline) /\ namespaceGenerationName current = true /\
  is_Some (d.(generations) !! current).

Definition Loaded (d : Disk) (gens : list namespaceGeneration) : Prop :=
  forall g, g ∈ gens <-> exists dir, d.(generations) !! g.(gen_Name) = Some dir /\
                            loadNamespaceGeneration g.(gen_Name) dir = Ok g.

Lemma load_name name dir g : loadNamespaceGeneration name dir = Ok g -> g.(gen_Name) = name.
Proof.
  unfold loadNamespaceGeneration. intros Hl. inv_ok. destruct (inputs_dir dir); [|done]. inv_ok. by subst g.
Qed.

Lemma loadGenerations_set d gens :
  loadGenerations (sortNamed (map_to_list d.(generations))) = Ok gens -> Loadable d /\ Loaded d gens.
Proof.
  intros Hf%loadGenerations_ok. pose proof (sortNamed_perm (map_to_list (generations d))) as Hp. split.
  - intros name dir Hd. assert ((name, dir) ∈ sortNamed (map_to_list (generations d))) as Hin
      by (rewrite Hp; by apply elem_of_map_to_list).
    apply list_elem_of_lookup in Hin as [i Hi]. destruct (Forall2_lookup_l _ _ _ _ _ Hf Hi) as (g & _ & Hn & Hg). eauto.
  - intros g. split.
    + intros [i Hi]%list_elem_of_lookup. destruct (Forall2_lookup_r _ _ _ _ _ Hf Hi) as ([name dir] & He & _ & Hg).
      apply list_elem_of_lookup_2 in He. rewrite Hp in He. apply elem_of_map_to_list in He. cbn in Hg.
      pose proof (load_name _ _ _ Hg) as En. rewrite En. eauto.
    + intros (dir & Hd & Hg). assert ((gen_Name g, dir) ∈ sortNamed (map_to_list (generations d))) as Hin
        by (rewrite Hp; by apply elem_of_map_to_list).
      apply list_elem_of_lookup in Hin as [i Hi]. destruct (Forall2_lookup_l _ _ _ _ _ Hf Hi) as (g' & Hg' & _ & Hl).
      cbn in Hl. rewrite Hg in Hl. injection Hl as <-. by eapply list_elem_of_lookup_2.
Qed.

Lemma loadGenerations_total d :
  Loadable d -> exists gens, loadGenerations (sortNamed (map_to_list d.(generations))) = Ok gens.
Proof.
  intros Hl. assert (forall entries, (forall e, e ∈ entries -> e ∈ map_to_list d.(generations)) ->
    exists gens, loadGenerations entries = Ok gens) as Hall.
  { induction entries as [|[name dir] entries IH]; intros Hin; [by eexists|]. cbn [loadGenerations].
    destruct (Hl name dir) as [Hn [g Hg]]; [by apply elem_of_map_to_list, Hin; left|].
    destruct IH as [gens Hgens]; [intros e He; apply Hin; by right|].
    rewrite Hn, Hg. cbn. rewrite Hgens. by eexists. }
  apply Hall. intros e. by rewrite sortNamed_perm.
Qed.

Lemma TrimSuffix_newline name : TrimSuffix (name ++ newline) newline = name.
Proof.
  unfold TrimSuffix. rewrite (proj2 (HasSuffix_true _ _)) by eauto.
  rewrite length_app, Nat.add_sub. apply take_app_length.
Qed.

Lemma len_generationName name : namespaceGenerationName name = true -> len name = 64.
Proof. intros [Hl _]%andb_true_iff. by apply Z.eqb_eq. Qed.

Lemma current_pointer d current (gens : list namespaceGeneration) :
  match readNamespaceFile (d.(root_files) !! str "current") 65 with
  | Err e => if errors_Is e notExist then Ok ([], gens) else Err (Wrap "read current naming state pointer: %w" e)
  | Ok pointer =>
      let current := TrimSuffix pointer newline in
      reject (New "current naming state pointer is invalid")
        when ((pointer !=? current ++ newline) || negb (namespaceGenerationName current) ||
              negb (bool_decide (is_Some (d.(generations) !! current))));
      Ok (current, gens)
  end = Ok (current, gens) <-> CurrentIs d current.
Proof.
  unfold readNamespaceFile, CurrentIs. destruct (root_files d !! str "current") as [p|]; cbn zeta.
  - destruct (65 <? len p) eqn:El; cbn.
    + split; [done|]. intros [[_ ?]|([= ->] & Hn & _)]; [done|]. apply len_generationName in Hn.
      apply Z.ltb_lt in El. rewrite len_app in El. change (len newline) with 1 in El. lia.
    + split.
      * intros Hc. inv_ok. injection Hc as <-. goprop. right. split_and!; try done. by f_equal.
      * intros [[_ ?]|([= ->] & Hn & Hi)]; [done|]. rewrite TrimSuffix_newline, Hn.
        by rewrite (bool_decide_eq_true_2 (_ ++ _ = _)), (bool_decide_eq_true_2 _ Hi).
  - cbn. split; [intros [= <-]; by left|]. by intros [[-> _]|[? _]].
Qed.

(** [load] succeeds exactly on an open root with at most 64 generations, all of
    them readable, and a pointer to one of them or none. *)
Lemma load_iff root current :
  (exists gens, load root = Ok (current, gens)) <->
  root.(closed) = false /\ Z.of_nat (size root.(disk_of).(generations)) <= maximumNamespaceGenerations /\
  Loadable root.(disk_of) /\ CurrentIs root.(disk_of) current.
Proof.
  unfold load, available, readNamespaceDirectory, len. rewrite length_map_to_list.
  destruct (closed root) eqn:Hc; cbn [mbind result_bind]; [split; [by intros [? ?]|by intros (? & _)]|].
  destruct (Z.ltb_spec maximumNamespaceGenerations (Z.of_nat (size (generations (disk_of root))))) as [Hs|Hs].
  { split; [by intros [? ?]|]. intros (_ & ? & _). lia. }
  split.
  - intros [gens Hl]. inv_ok. pose proof (loadGenerations_set _ _ Hok) as [Hload _].
    split_and!; try done. apply (current_pointer _ _ gens).
    destruct (readNamespaceFile _ _); [|by destruct (errors_Is _ _); [injection Hl as <- <-|]].
    cbn zeta in *. inv_ok. by injection Hl as <- <-.
  - intros (_ & _ & Hl & Hcur). destruct (loadGenerations_total _ Hl) as [gens Hg]. exists gens.
    rewrite Hg. cbn [mbind result_bind]. by apply current_pointer.
Qed.

Lemma load_loaded root current gens : load root = Ok (current, gens) -> Loaded root.(disk_of) gens.
Proof.
  unfold load, readNamespaceDirectory. intros Hl. inv_ok. subst.
  apply loadGenerations_set in Hok1 as [_ ?].
  destruct (readNamespaceFile _ _); [cbn zeta in *; inv_ok; by injection Hl as _ <-|].
  by destruct (errors_Is _ _); [injection Hl as _ <-|].
Qed.

(** ** Commits and crashes *)

(** The names [os.MkdirTemp] and [os.CreateTemp] return: with their prefix, and new. *)
Record TempNames (d : Disk) (stage tmp : gostring) : Prop := {
  temp_stage : HasPrefix stage stagePrefix = true;
  temp_tmp : HasPrefix tmp currentPrefix = true;
  temp_stage_new : d.(generations) !! stage = None;
  temp_tmp_new : d.(root_files) !! tmp = None;
  temp_entry_new : d.(journal) !! stage = None
}.

Definition Installed (g : namespaceGeneration) (d : Disk) : Prop :=
  exists dir, d.(generations) !! g.(gen_Name) = Some dir /\
    loadNamespaceGeneration g.(gen_Name) dir = Ok (inactive g).

Lemma matches_installed g dir :
  namespaceGenerationMatches g.(gen_Name) dir g = true ->
  loadNamespaceGeneration g.(gen_Name) dir = Ok (inactive g).
Proof.
  unfold namespaceGenerationMatches. destruct (loadNamespaceGeneration _ _) as [a|] eqn:El; [|done].
  intros Hm. goprop. f_equal. pose proof (load_name _ _ _ El) as Hn. unfold loadNamespaceGeneration in El. inv_ok.
  destruct (inputs_dir dir); [|done]. inv_ok. subst a. unfold inactive. cbn in *. congruence.
Qed.

(** A commit that can succeed: its generation is new, or on disk with the same bytes. *)
Definition Publishable (g : namespaceGeneration) (d : Disk) : Prop :=
  Bounded g /\ in_u64 g.(gen_Pending) /\
  forall dir, d.(generations) !! g.(gen_Name) = Some dir -> namespaceGenerationMatches g.(gen_Name) dir g = true.

Lemma published_lookup g d name :
  (published g d).(generations) !! name =
  if decide (name = g.(gen_Name)) then Some (default (stagedDir g) (d.(generations) !! g.(gen_Name)))
  else d.(generations) !! name.
Proof.
  unfold published. cbn. destruct (decide _) as [->|?]; [by rewrite lookup_insert_eq|by rewrite lookup_insert_ne].
Qed.

Lemma published_installed g d : Publishable g d -> Installed g (published g d).
Proof.
  intros (Hb & Hp & Hm). unfold Installed. rewrite published_lookup, decide_True by done. eexists. split; [done|].
  destruct (generations d !! gen_Name g) as [dir|]; [by apply matches_installed, Hm|by apply stagedDir_loads].
Qed.

Lemma published_loadable g d : Publishable g d -> Loadable d -> Loadable (published g d).
Proof.
  intros Hp Hl name dir. destruct (published_installed g d Hp) as (dir' & Hd & Hi).
  destruct (decide (name = gen_Name g)) as [->|Hne].
  - rewrite Hd. intros [= <-]. split; [apply Hp|eauto].
  - rewrite published_lookup, decide_False by done. apply Hl.
Qed.

Lemma published_mono g d name dir :
  d.(generations) !! name = Some dir -> (published g d).(generations) !! name = Some dir.
Proof. intros Hd. rewrite published_lookup. case_decide; [subst; by rewrite Hd|done]. Qed.

Lemma published_loaded g d dir x :
  Publishable g d -> (published g d).(generations) !! x.(gen_Name) = Some dir ->
  loadNamespaceGeneration x.(gen_Name) dir = Ok x ->
  x = inactive g \/ d.(generations) !! x.(gen_Name) = Some dir.
Proof.
  intros Hp Hx Hl. destruct (published_installed g d Hp) as (dir' & Hd & Hi).
  destruct (decide (gen_Name x = gen_Name g)) as [E|Hne].
  - left. rewrite E in *. congruence.
  - right. by rewrite published_lookup, decide_False in Hx.
Qed.

Lemma published_size g d :
  Z.of_nat (size (published g d).(generations)) =
  Z.of_nat (size d.(generations)) + (if decide (is_Some (d.(generations) !! g.(gen_Name))) then 0 else 1).
Proof.
  unfold published. cbn. destruct (generations d !! gen_Name g) as [dir|] eqn:E.
  - rewrite decide_True by eauto. cbn. rewrite insert_id by done. lia.
  - rewrite decide_False by (by intros [? ?]). rewrite map_size_insert_None by done. lia.
Qed.

Lemma published_current g d current : CurrentIs d current -> CurrentIs (published g d) current.
Proof.
  intros [?|(Hp & Hn & [dir Hd])]; [by left|]. right. split_and!; [done..|].
  exists dir. by apply published_mono.
Qed.

Lemma pointed_current g d :
  Publishable g d -> CurrentIs (pointed g.(gen_Name) (published g d)) g.(gen_Name).
Proof.
  intros Hp. right. split_and!; [cbn; by rewrite lookup_insert_eq|apply Hp|].
  destruct (published_installed g d Hp) as (dir & Hd & _). by exists dir.
Qed.

Lemma committed_generations g d : (committed g d).(generations) = (published g d).(generations).
Proof. unfold committed. by destruct (gen_Activate g). Qed.

Lemma Loadable_clean d : Loadable d -> without stagePrefix d.(generations) = d.(generations).
Proof.
  intros Hl. apply map_filter_id. intros name dir Hd. cbn. apply generationName_kept. by eapply Hl.
Qed.

Lemma clean_CurrentIs d current : Loadable d -> CurrentIs (clean d) current <-> CurrentIs d current.
Proof. intros Hl. unfold CurrentIs, clean. cbn. by rewrite Loadable_clean, without_lookup by (done || apply current_kept). Qed.

Lemma Loadable_cleaned d : Loadable d -> Loadable (clean d).
Proof. intros Hl. unfold Loadable, clean. cbn. by rewrite Loadable_clean. Qed.

Lemma commit_publishable root expected g stage tmp :
  HasPrefix stage stagePrefix = true -> in_u64 g.(gen_Pending) ->
  (commitCurrent root expected g stage tmp).2 = Ok tt ->
  Publishable g root.(disk_of) /\ root.(closed) = false /\ Expected expected root.(disk_of).
Proof.
  intros Hs Hp Hr. destruct (commitCurrent_cases stage tmp Hs root expected g) as [[[e He] _]|(_ & Hb & Ho & Hx & Hc)];
    [congruence|].
  split; [|done]. split; [done|]. split; [done|]. intros dir Hd. destruct Hc as [(dir' & Hd' & Hm & _)|[Hn _]]; congruence.
Qed.

Lemma without_size {A} (prefix : gostring) (m : gmap gostring A) : (size (without prefix m) <= size m)%nat.
Proof. apply map_subseteq_size, map_filter_subseteq. Qed.

(** A root into which a new generation was published although it was full. *)
Definition Overflowed (root : namespaceRoot) (g : namespaceGeneration) (root' : namespaceRoot) : Prop :=
  root.(disk_of).(generations) !! g.(gen_Name) = None /\
  Z.of_nat (size root.(disk_of).(generations)) = maximumNamespaceGenerations /\
  exists err, load root' = Err err.

(** A disk that is [d], or [d] with [g] published and perhaps pointed to, loads
    the generations of [d] and at most [g] besides, if it has not outgrown the
    bound of [load]. *)
Lemma outcome_loads (R : Prop) d d1 g current :
  Loadable d -> CurrentIs d current -> Z.of_nat (size d1.(generations)) <= maximumNamespaceGenerations ->
  d1 = d \/ R /\ Publishable g d /\ (d1 = published g d \/ d1 = committed g d) ->
  exists current' gens', load (MkRoot d1 false) = Ok (current', gens') /\
    (current' = current \/ R /\ d1 = committed g d /\ g.(gen_Activate) = true /\ current' = g.(gen_Name) /\
                           Publishable g d).
Proof.
  intros Hl Hc Hsz Hd.
  assert (exists current', (exists gens', load (MkRoot d1 false) = Ok (current', gens')) /\
    (current' = current \/ R /\ d1 = committed g d /\ g.(gen_Activate) = true /\ current' = g.(gen_Name) /\
                           Publishable g d)) as (c & [gens' Hg] & Hr); [|eauto].
  destruct Hd as [->|(HR & Hp & Hd)]; [exists current; split; [by apply load_iff|by left]|].
  pose proof (published_loadable g d Hp Hl) as Hpl.
  assert (Loadable (committed g d)) as Hcl by (unfold Loadable; rewrite committed_generations; exact Hpl).
  destruct Hd as [->| ->].
  { exists current. split; [|by left]. apply load_iff. split_and!; try done. by apply published_current. }
  destruct (gen_Activate g) eqn:Ea.
  - exists g.(gen_Name). split; [|right; by split_and!]. apply load_iff.
    split_and!; try done. cbn. unfold committed. rewrite Ea. by apply pointed_current.
  - exists current. split; [|by left]. apply load_iff.
    split_and!; try done. cbn. unfold committed. rewrite Ea. by apply published_current.
Qed.

(** It has outgrown the bound only when [g] was new to a full root. *)
Lemma outcome_overflows (R : Prop) d d1 g :
  Z.of_nat (size d.(generations)) <= maximumNamespaceGenerations ->
  maximumNamespaceGenerations < Z.of_nat (size d1.(generations)) ->
  d1 = d \/ R /\ Publishable g d /\ (d1 = published g d \/ d1 = committed g d) ->
  R /\ d.(generations) !! g.(gen_Name) = None /\
  Z.of_nat (size d.(generations)) = maximumNamespaceGenerations /\ exists err, load (MkRoot d1 false) = Err err.
Proof.
  intros Hs Ho Hd. assert (exists err, load (MkRoot d1 false) = Err err) as Hl.
  { destruct (load (MkRoot d1 false)) as [[c gens]|err] eqn:E; [|by exists err].
    destruct (proj1 (load_iff (MkRoot d1 false) c)) as (_ & Hx & _); [eauto|]. cbn in Hx. lia. }
  destruct Hd as [->|(HR & _ & Hd)]; [lia|].
  assert (size d1.(generations) = size (published g d).(generations)) as E
    by (destruct Hd as [->| ->]; by rewrite ?committed_generations).
  rewrite E, published_size in Ho. destruct (decide _) as [|Hn]; [lia|].
  split_and!; try done; [by apply eq_None_not_Some|lia].
Qed.

(** What a crash inside a commit leaves once the root is reopened. *)
Lemma commit_crash_outcome root expected g stage tmp d' :
  TempNames root.(disk_of) stage tmp -> in_u64 g.(gen_Pending) -> Loadable root.(disk_of) ->
  crashed (commitCurrent root expected g stage tmp).1 root.(disk_of) d' ->
  let d := clean root.(disk_of) in
  clean d' = d \/ (commitCurrent root expected g stage tmp).2 = Ok tt /\ Publishable g d /\
    (clean d' = published g d \/ clean d' = committed g d).
Proof.
  intros [Hs Ht _ _ _] Hpend Hl Hcr.
  destruct (commit_crashed stage tmp Hs Ht root expected g d' Hcr) as [?|(Hr & _ & Hout)]; [by left|right].
  destruct (commit_publishable root expected g stage tmp Hs Hpend Hr) as [(Hb & Hp & Hm) _].
  split; [done|]. split; [|done]. split; [done|]. split; [done|].
  intros dir. unfold clean. cbn. rewrite Loadable_clean by done. apply Hm.
Qed.

(** C17: A crash at any point of a commit, with any torn content in the files
    being written, loses nothing in a root with fewer than 64 generations: after
    reopening, [load] succeeds, returns every generation it returned before and
    at most the committed one besides, and the current generation is the old one
    or the fully written new one.  The only exception is a root that already held
    64 generations and to which the commit published a 65th: its [load] fails. *)
Theorem commit_crash_safe root expected g stage tmp d' root' current gens :
  TempNames root.(disk_of) stage tmp -> in_u64 g.(gen_Pending) ->
  load root = Ok (current, gens) ->
  crashed (commitCurrent root expected g stage tmp).1 root.(disk_of) d' ->
  openNamespaceRoot d' = Ok root' ->
  (exists current' gens', load root' = Ok (current', gens') /\ gens ⊆ gens' /\
    (forall x, x ∈ gens' -> x ∈ gens \/ x = inactive g /\ (commitCurrent root expected g stage tmp).2 = Ok tt) /\
    (current' = current \/
     current' = g.(gen_Name) /\ g.(gen_Activate) = true /\ inactive g ∈ gens' /\
     (commitCurrent root expected g stage tmp).2 = Ok tt)) \/
  (commitCurrent root expected g stage tmp).2 = Ok tt /\ Overflowed root g root'.
Proof.
  intros Htn Hpend Hload Hcr ->%openNamespaceRoot_clean.
  pose proof (load_loaded _ _ _ Hload) as Hgens.
  destruct (proj1 (load_iff root current)) as (Hcl & Hsize & Hl & Hcur); [eauto|].
  pose proof (commit_crash_outcome root expected g stage tmp d' Htn Hpend Hl Hcr) as Hout. cbn zeta in Hout.
  set (d := disk_of root) in *. set (c := commitCurrent root expected g stage tmp) in *.
  assert ((clean d).(generations) = d.(generations)) as Hdc by (cbn; by rewrite Loadable_clean).
  destruct (Z.le_gt_cases (Z.of_nat (size (clean d').(generations))) maximumNamespaceGenerations) as [Hsz|Hsz].
  2: { right. unfold Overflowed. fold d. rewrite <- Hdc. eapply outcome_overflows; [by rewrite Hdc|lia|exact Hout]. }
  left. destruct (outcome_loads (c.2 = Ok tt) (clean d) (clean d') g current) as (current' & gens' & Hl' & Hcur').
  { by apply Loadable_cleaned. } { by apply clean_CurrentIs. } { done. } { done. }
  exists current', gens'. split; [done|]. pose proof (load_loaded _ _ _ Hl') as Hgens'. cbn [disk_of] in Hgens'.
  assert (forall name dir, d.(generations) !! name = Some dir -> (clean d').(generations) !! name = Some dir) as Hmono.
  { intros name dir Hd. rewrite <- Hdc in Hd.
    destruct Hout as [->|(_ & _ & [->| ->])]; rewrite ?committed_generations; auto using published_mono. }
  split_and!.
  - intros x (dir & Hd & Hx)%Hgens. apply Hgens'. eauto.
  - intros x (dir & Hd & Hx)%Hgens'. destruct Hout as [E|(Hr & Hp & Hout)].
    + left. apply Hgens. exists dir. by rewrite E, Hdc in Hd.
    + assert ((published g (clean d)).(generations) !! gen_Name x = Some dir) as Hd1
        by (destruct Hout as [E|E]; rewrite E, ?committed_generations in Hd; exact Hd).
      destruct (published_loaded _ _ _ _ Hp Hd1 Hx) as [->|Hold]; [by right|left].
      apply Hgens. exists dir. by rewrite Hdc in Hold.
  - destruct Hcur' as [->|(Hr & Ed & Ha & -> & Hp)]; [by left|right]. split_and!; try done.
    apply Hgens'. rewrite Ed, committed_generations.
    destruct (published_installed g (clean d) Hp) as (dir & Hd & Hi). by exists dir.
Qed.

(** Without a crash the disk is exactly the old one with the commit's effect. *)
Lemma commit_run_exact root expected g stage tmp :
  let c := commitCurrent root expected g stage tmp in
  TempNames root.(disk_of) stage tmp -> c.2 = Ok tt -> run c.1 root.(disk_of) = committed g root.(disk_of).
Proof.
  cbn zeta. intros [Hs Ht Hsn Htn _] Hr. set (d := disk_of root) in *.
  destruct (commitCurrent_cases stage tmp Hs root expected g) as [[[e He] _]|(_ & Hb & _ & _ & Hc)]; [congruence|].
  fold d in Hc. pose proof (generationName_kept _ (bo_name _ Hb)) as Hk.
  assert (stage <> gen_Name g) as Hne by (intros ->; congruence).
  assert (tmp <> str "current") as Hnt by (intros ->; by rewrite current_kept in Ht).
  assert (forall d1, d1.(root_files) = d.(root_files) -> run (pointerActions tmp g) d1 =
            if g.(gen_Activate) then pointed g.(gen_Name) d1 else d1) as Hptr.
  { intros d1 E1. unfold pointerActions. destruct (gen_Activate g); [|done]. destruct d1 as [gs rf j]. cbn in *.
    rewrite lookup_insert_eq. unfold pointed. cbn. by rewrite delete_insert_id by (by rewrite E1). }
  destruct Hc as [(dir & Hd & _ & ->)|[Hd ->]]; rewrite run_app, staging_run, run_app; unfold committed, published;
    rewrite Hd; cbn [run foldl exec default]; cbn [set update generations].
  - unfold set, update. cbn. rewrite delete_insert_id, insert_id by done. rewrite Hptr by done. by destruct d.
  - unfold set, update. cbn. rewrite lookup_insert_eq, delete_insert_id by done. by rewrite Hptr.
Qed.

Lemma commit_error_run root expected g stage tmp :
  let c := commitCurrent root expected g stage tmp in
  TempNames root.(disk_of) stage tmp -> c.2 <> Ok tt -> run c.1 root.(disk_of) = root.(disk_of).
Proof.
  cbn zeta. intros [Hs _ Hsn _ _] Hr. revert Hr. unfold commitCurrent. set (d := disk_of root) in *.
  destruct (available root); [|done]. destruct (match expected with None => false | Some _ => _ end); [done|].
  destruct (_ || (maximumChunks <? _)); [done|]. destruct (existsb _ _); [done|].
  destruct (generations d !! gen_Name g) as [dir|]; [|done]. destruct (negb _); [|done]. intros _. cbn [fst].
  rewrite run_app, staging_run. cbn. unfold set, update. cbn. rewrite delete_insert_id by done. by destruct d.
Qed.

(** ** A commit cut short while it writes its epoch file *)

Section Witnesses.

Definition emptyRoot : namespaceRoot :=
  MkRoot (MkDisk ∅ {[ namespaceRootMarkerName := namespaceRootMarker ]} ∅) false.

Definition sampleGeneration : namespaceGeneration :=
  MkGeneration (hex_EncodeToString (zero 32)) [x01] [[x02]] 0 true.

Definition beforeEpoch : Disk :=
  run (take 2 (commitCurrent emptyRoot None sampleGeneration (str ".stage-1") (str ".current-1")).1) emptyRoot.(disk_of).

Definition tornDisk : Disk :=
  beforeEpoch <| generations := <[str ".stage-1" := MkDir (Some []) None (Some [])]> beforeEpoch.(generations) |>.

Lemma commit_crash_safe_witness :
  exists root' current' gens', openNamespaceRoot tornDisk = Ok root' /\ load root' = Ok (current', gens') /\
    (current' = [] \/ current' = sampleGeneration.(gen_Name)).
Proof.
  exists emptyRoot.
  destruct (commit_crash_safe emptyRoot None sampleGeneration (str ".stage-1") (str ".current-1") tornDisk emptyRoot
    [] []) as [(current' & gens' & Hl & _ & _ & Hc)|(_ & _ & Hfull & _)].
  - constructor; vm_compute; reflexivity.
  - by vm_compute.
  - vm_compute. reflexivity.
  - apply (crashed_inside _ _ 2 (WriteEpoch (str ".stage-1") [x01])); [vm_compute; reflexivity|].
    unfold tornDisk. apply torn_stage. reflexivity.
  - vm_compute. reflexivity.
  - exists current', gens'. split; [vm_compute; reflexivity|]. split; [exact Hl|].
    destruct Hc as [->|[-> _]]; [by left|by right].
  - by vm_compute in Hfull.
Defined.

End Witnesses.
