(* ===== verification/EpochJournal.v ===== *)
(** * The pending journal

    internal/naming/namespace/epoch/pending_journal.go: the immutable entries
    that bind a submission to its Authority-signed successor, their wire, and the
    journal directory they are appended to and loaded from.  The theorems: the
    wire is exact, an append adds one entry at the end with the next sequence
    number, and a crash during an append leaves the journal with or without it. *)

From S2P Require Import Prelude Wire GoLib RecordCodec EpochCodec EpochDisk EpochDurable.

Import epoch disk.

Module pending.

Definition pendingEntrySchema : Z := 1.
Definition maximumPendingEntries : Z := 127.
Definition maximumPendingBytes : Z := 64 * 2 ^ 10.
Definition pendingDomain : gostring := str "ardents-namespace-pending-v1".

(** [sequence] is a [uint64] and [decisionAt] an [int64]; the journal assigns the
    sequence numbers 1 to 127, and the decoder reads eight bytes for each. *)
Record pendingEntry := MkPending {
  name : gostring;
  sequence : Z;
  decisionAt : Z;
  submission : bytes;
  successor : bytes
}.

#[global] Instance eta_pendingEntry : Eta pendingEntry := fun e =>
  MkPending e.(name) e.(sequence) e.(decisionAt) e.(submission) e.(successor).

Definition entryInvalid : error := New "naming pending entry is invalid".

Section Journal.
Context `{GoLib}.

Definition digest (entry : pendingEntry) : array 32 :=
  let out := pendingDomain ++ [x00] ++ be_bytes 2 pendingEntrySchema in
  let out := AppendUint64 out entry.(sequence) in
  let out := AppendUint64 out entry.(decisionAt) in
  let out := AppendUint32 out (u32 (len entry.(submission))) in
  let out := out ++ entry.(submission) in
  let out := AppendUint32 out (u32 (len entry.(successor))) in
  let out := out ++ entry.(successor) in
  sha256 out.

Definition encode (entry : pendingEntry) : result bytes :=
  reject entryInvalid
    when ((entry.(sequence) =? 0) || (entry.(decisionAt) <=? 0) || (len entry.(submission) =? 0) ||
          (len entry.(successor) =? 0) || (maximumPendingBytes <? len entry.(submission)) ||
          (maximumPendingBytes <? len entry.(successor)));
  let out := AppendUint16 [] pendingEntrySchema in
  let out := AppendUint64 out entry.(sequence) in
  let out := AppendUint64 out entry.(decisionAt) in
  let out := AppendUint32 out (u32 (len entry.(submission))) in
  let out := out ++ entry.(submission) in
  let out := AppendUint32 out (u32 (len entry.(successor))) in
  Ok (out ++ entry.(successor)).

(** The closure [read] of [decodePendingEntry]. *)
Definition readField : decoder bytes :=
  length ← take_uint 4 entryInvalid;
  if (length <=? 0) || (maximumPendingBytes <? length) then decode_fail entryInvalid
  else take_bytes length entryInvalid.

Definition entryFields : decoder (Z * Z * Z * bytes * bytes) :=
  schema ← take_uint 2 entryInvalid;
  sequence ← take_uint 8 entryInvalid;
  decisionAt ← take_uint 8 entryInvalid;
  submission ← readField;
  successor ← readField;
  mret (schema, sequence, i64 decisionAt, submission, successor).

Definition decodePendingEntry (raw : bytes) : result pendingEntry :=
  reject entryInvalid
    when ((len raw <? 2 + 8 + 8 + 4 + 4) || (maximumPendingBytes * 2 + 64 <? len raw));
  match entryFields raw with
  | Err _ => Err entryInvalid
  | Ok ((schema, sequence, decisionAt, submission, successor), rest) =>
      reject entryInvalid when (negb (schema =? pendingEntrySchema) || negb (bool_decide (rest = [])));
      let entry := MkPending [] sequence decisionAt submission successor in
      _ ← encode entry;
      Ok entry
  end.

(** ** The journal directory *)

Fixpoint insertBySequence (e : pendingEntry) (entries : list pendingEntry) : list pendingEntry :=
  match entries with
  | [] => [e]
  | x :: rest => if x.(sequence) <? e.(sequence) then x :: insertBySequence e rest else e :: entries
  end.

(** [sort.Slice] by sequence.  It is not stable, but entries with one sequence
    number are rejected right after it. *)
Definition sortBySequence (entries : list pendingEntry) : list pendingEntry := foldr insertBySequence [] entries.

Fixpoint readEntries (items : list (gostring * option bytes)) : result (list pendingEntry) :=
  match items with
  | [] => Ok []
  | (item, file) :: rest =>
      reject (New "naming pending journal directory is invalid") when (negb (namespaceGenerationName item));
      match readNamespaceFile file (maximumPendingBytes * 2 + 64) with
      | Err e => Err (Wrap "read naming pending entry: %w" e)
      | Ok raw =>
          entry ← decodePendingEntry raw;
          reject (New "naming pending entry digest is invalid")
            when (hex_EncodeToString (digest entry) !=? item);
          values ← readEntries rest;
          Ok (entry <| name := item |> :: values)
      end
  end.

Fixpoint inSequence (index : Z) (entries : list pendingEntry) : bool :=
  match entries with
  | [] => true
  | e :: rest => (e.(sequence) =? u64 (index + 1)) && inSequence (index + 1) rest
  end.

Definition loadNamespacePending (journal : gmap gostring (option bytes)) : result (list pendingEntry) :=
  match readNamespaceDirectory (map_to_list journal) maximumPendingEntries with
  | Err e => Err (Wrap "scan naming pending journal: %w" e)
  | Ok items =>
      values ← readEntries items;
      let values := sortBySequence values in
      reject (New "naming pending journal sequence is invalid") when (negb (inSequence 0 values));
      Ok values
  end.

Definition writeNamespacePending (d : Disk) (entry : pendingEntry) (stage : gostring) : list action * result unit :=
  match encode entry with
  | Err e => ([], Err e)
  | Ok raw =>
      let staging := [MkdirEntry stage; WriteEntry stage raw] in
      match d.(journal) !! entry.(name) with
      | Some file =>
          match readNamespaceFile file (maximumPendingBytes * 2 + 64) with
          | Ok persisted =>
              if persisted !=? raw
              then (staging ++ [RemoveEntry stage],
                    Err (New "existing naming pending entry disagrees with supplied bytes"))
              else (staging ++ [RemoveEntry stage], Ok tt)
          | Err _ =>
              (staging ++ [RemoveEntry stage],
               Err (New "existing naming pending entry disagrees with supplied bytes"))
          end
      | None => (staging ++ [PublishEntry stage entry.(name)], Ok tt)
      end
  end.

Definition root_appendPending (root : namespaceRoot) (entry : pendingEntry) (stage : gostring)
  : list action * result pendingEntry :=
  match available root with
  | Err e => ([], Err e)
  | Ok _ =>
      match loadNamespacePending root.(disk_of).(journal) with
      | Err e => ([], Err e)
      | Ok entries =>
          if maximumPendingEntries <=? len entries then ([], Err (New "naming pending journal is full"))
          else
            let entry := entry <| sequence := u64 (len entries + 1) |> in
            match encode entry with
            | Err e => ([], Err e)
            | Ok _ =>
                let entry := entry <| name := hex_EncodeToString (digest entry) |> in
                let '(actions, outcome) := writeNamespacePending root.(disk_of) entry stage in
                (actions, match outcome with Err e => Err e | Ok _ => Ok entry end)
            end
      end
  end.

Definition root_pending (root : namespaceRoot) : result (list pendingEntry) :=
  _ ← available root;
  loadNamespacePending root.(disk_of).(journal).

(** ** The wire *)

Record TypedEntry (e : pendingEntry) : Prop := {
  te_sequence : in_u64 e.(sequence);
  te_decision : in_i64 e.(decisionAt)
}.

Definition entryWire (e : pendingEntry) : bytes :=
  be_bytes 2 pendingEntrySchema ++ be_bytes 8 e.(sequence) ++ be_bytes 8 e.(decisionAt) ++
  (be_bytes 4 (len e.(submission)) ++ e.(submission)) ++ (be_bytes 4 (len e.(successor)) ++ e.(successor)).

Lemma encode_ok e raw :
  encode e = Ok raw <->
  raw = entryWire e /\ e.(sequence) <> 0 /\ 0 < e.(decisionAt) /\
  0 < len e.(submission) <= maximumPendingBytes /\ 0 < len e.(successor) <= maximumPendingBytes.
Proof.
  unfold encode, entryWire, AppendUint16, AppendUint32, AppendUint64.
  pose proof (len_nonneg e.(submission)). pose proof (len_nonneg e.(successor)). split.
  - intros He. inv_ok. goprop. unfold maximumPendingBytes in *.
    assert (u32 (len e.(submission)) = len e.(submission)) as E1 by (apply Z.mod_small; lia).
    assert (u32 (len e.(successor)) = len e.(successor)) as E2 by (apply Z.mod_small; lia).
    rewrite E1, E2 in He. split_and!; try lia. subst raw. by rewrite <- !app_assoc.
  - intros (-> & Hs & Hd & Ha & Hb). unfold maximumPendingBytes in *.
    rewrite (proj2 (Z.eqb_neq _ _) Hs), (proj2 (Z.leb_gt _ _)), !(proj2 (Z.eqb_neq _ _)), !(proj2 (Z.ltb_ge _ _)) by lia.
    cbn [orb]. unfold u32. rewrite !Z.mod_small by lia. by rewrite <- !app_assoc.
Qed.

Lemma reads_field b : 0 < len b <= maximumPendingBytes -> Reads readField (be_bytes 4 (len b) ++ b) b.
Proof.
  unfold maximumPendingBytes. intros Hb. eapply reads_bind; [apply reads_uint32; unfold in_u32; lia|].
  unfold maximumPendingBytes. rewrite (proj2 (Z.leb_gt _ _)), (proj2 (Z.ltb_ge _ _)) by lia. by apply reads_take_bytes.
Qed.

Lemma readField_ok raw b rest :
  readField raw = Ok (b, rest) -> raw = (be_bytes 4 (len b) ++ b) ++ rest /\ 0 < len b <= maximumPendingBytes.
Proof.
  unfold readField. intros Hr. inv_decode. apply take_uint_ok in Hd as [-> Hn]; [|done].
  goprop. apply take_bytes_ok in Hr as [-> Hl]; [|lia]. rewrite Hl. split; [by rewrite <- app_assoc|lia].
Qed.

Lemma decode_complete e raw :
  TypedEntry e -> encode e = Ok raw -> decodePendingEntry raw = Ok (e <| name := [] |>).
Proof.
  intros [Hs Hd] He. pose proof He as (-> & Hs0 & Hd0 & Ha & Hb)%encode_ok. unfold decodePendingEntry.
  assert (len (entryWire e) = 26 + len e.(submission) + len e.(successor)) as Hl
    by (unfold entryWire; autorewrite with len; lia).
  unfold maximumPendingBytes in Ha, Hb |- *.
  rewrite Hl, (proj2 (Z.ltb_ge _ _)), (proj2 (Z.ltb_ge _ _)) by lia. cbn [orb].
  assert (Reads entryFields (entryWire e)
    (pendingEntrySchema, e.(sequence), e.(decisionAt), e.(submission), e.(successor))) as Hr.
  { unfold entryFields, entryWire.
    eapply reads_bind; [by apply reads_uint16|]. eapply reads_bind; [by apply reads_uint64|].
    eapply reads_bind; [apply reads_uint64_wrap|]. eapply reads_bind; [by apply reads_field|].
    rewrite <- (app_nil_r (be_bytes 4 _ ++ successor e)).
    eapply reads_bind; [by apply reads_field|]. rewrite i64_u64 by done. apply reads_ret. }
  rewrite (reads_all _ _ _ Hr), Z.eqb_refl, (bool_decide_eq_true_2 ([] = [])) by done. cbn [negb orb].
  replace (encode _) with (Ok (entryWire e)) by (symmetry; exact He). by destruct e.
Qed.

Lemma decode_sound raw e :
  decodePendingEntry raw = Ok e -> e.(name) = [] /\ TypedEntry e /\ encode e = Ok raw.
Proof.
  unfold decodePendingEntry. intros Hdec. inv_ok. destruct a as [[[[[sch sq] at_] sub] suc] rest]. inv_ok. goprop. subst.
  unfold entryFields in Hok. inv_decode. injection Hok as -> <- <- <- <- ->.
  repeat match goal with X : take_uint _ _ _ = Ok _ |- _ => apply take_uint_ok in X as [-> ?]; [|done] end.
  repeat match goal with X : readField _ = Ok _ |- _ => apply readField_ok in X as [-> ?] end.
  split; [done|]. split; [constructor; cbn; [done|auto with go]|]. rewrite Hok0. f_equal.
  apply encode_ok in Hok0 as (-> & _). unfold entryWire. cbn [sequence decisionAt submission successor].
  rewrite app_nil_r. change (Z.to_nat 2) with 2%nat. change (Z.to_nat 8) with 8%nat.
  rewrite <- (be_bytes_mod 8 (i64 v1)), <- (be_bytes_mod 8 v1).
  change (256 ^ Z.of_nat 8) with (2 ^ 64).
  assert (i64 v1 mod 2 ^ 64 = v1 mod 2 ^ 64) as -> by (unfold i64; rewrite Zminus_mod_idemp_l; f_equal; lia).
  done.
Qed.

(** [decodePendingEntry] accepts exactly the encodings of well-formed entries
    and returns the encoded entry, not yet named. *)
Theorem decodePendingEntry_exact raw e :
  decodePendingEntry raw = Ok e <-> e.(name) = [] /\ TypedEntry e /\ encode e = Ok raw.
Proof.
  split; [apply decode_sound|]. intros (Hn & Ht & He). rewrite (decode_complete e raw) by done.
  destruct e. cbn in *. by subst.
Qed.

(** ** The journal *)

(** The entry of one journal directory. *)
Definition entryOf (item : gostring * option bytes) : option pendingEntry :=
  match readEntries [item] with Ok [e] => Some e | _ => None end.

Lemma readEntries_cons item items :
  readEntries (item :: items) =
  match entryOf item with
  | Some e => values ← readEntries items; Ok (e :: values)
  | None => match readEntries [item] with Err e => Err e | Ok _ => Err entryInvalid end
  end.
Proof.
  unfold entryOf. destruct item as [n file]. cbn [readEntries]. destruct (negb _); [done|].
  destruct (readNamespaceFile _ _) as [raw|e]; [|done]. destruct (decodePendingEntry raw) as [e|e]; [|done].
  cbn [mbind result_bind]. by destruct (negb _).
Qed.

Lemma readEntries_ok items values : readEntries items = Ok values <-> entryOf <$> items = Some <$> values.
Proof.
  revert values. induction items as [|item items IH]; intros values.
  { cbn. split; [by intros [= <-]|]. intros E. by destruct values. }
  rewrite readEntries_cons. cbn [fmap list_fmap]. destruct (entryOf item) as [e|] eqn:Ee.
  - destruct (readEntries items) as [vs|] eqn:Ev; cbn.
    + pose proof (proj1 (IH vs) eq_refl) as IHv. split.
      * intros [= <-]. cbn. by rewrite IHv.
      * intros E. destruct values as [|v values]; [done|]. injection E as -> E. do 2 f_equal.
        pose proof (proj2 (IH values) E) as Hv. congruence.
    + split; [done|]. intros E. destruct values as [|v values]; [done|]. injection E as -> E.
      by apply IH in E.
  - split; [by destruct (readEntries [item])|]. intros E. by destruct values.
Qed.

Definition Ordered (es : list pendingEntry) : Prop :=
  forall i e, es !! i = Some e -> e.(sequence) = Z.of_nat i + 1.

Lemma inSequence_true index es :
  0 <= index -> index + len es < 2 ^ 64 ->
  inSequence index es = true <-> forall i e, es !! i = Some e -> e.(sequence) = index + Z.of_nat i + 1.
Proof.
  revert index. induction es as [|e es IH]; intros index Hi Hl; cbn [inSequence]; [done|].
  rewrite len_cons in Hl. pose proof (len_nonneg es).
  rewrite andb_true_iff, Z.eqb_eq, u64_id, IH by (unfold in_u64; lia). split.
  - intros [He Hes] [|i] x; cbn; [intros [= <-]; lia|]. intros Hx. rewrite (Hes i x Hx). lia.
  - intros Hall. split; [rewrite (Hall 0%nat e eq_refl); lia|]. intros i x Hx.
    rewrite (Hall (S i) x Hx). lia.
Qed.

Lemma sortBySequence_perm es : sortBySequence es ≡ₚ es.
Proof.
  assert (forall e l, insertBySequence e l ≡ₚ e :: l) as Hi.
  { intros e l. induction l as [|x l IH]; [done|]. cbn [insertBySequence]. destruct (_ <? _); [|done].
    rewrite IH. apply Permutation_swap. }
  induction es as [|e es IH]; [done|]. simpl. by rewrite Hi, IH.
Qed.

Definition seq_le (a b : pendingEntry) : Prop := a.(sequence) <= b.(sequence).

Lemma sortBySequence_sorted es : StronglySorted seq_le (sortBySequence es).
Proof.
  induction es as [|e es IH]; [constructor|]. cbn [sortBySequence foldr]. fold (sortBySequence es).
  induction IH as [|x l Hs IHl Hall]; cbn [insertBySequence]; [repeat constructor|].
  destruct (Z.ltb_spec (sequence x) (sequence e)) as [E|E].
  - constructor; [done|]. rewrite Forall_forall in *. intros y Hy.
    assert (y ∈ e :: l) as [->|Hy']%elem_of_cons; [|unfold seq_le; lia|by apply Hall].
    revert Hy. clear. induction l as [|z l IH]; cbn [insertBySequence]; [done|]. destruct (_ <? _); set_solver.
  - constructor; [by constructor|]. constructor; [done|]. eapply Forall_impl; [exact Hall|].
    unfold seq_le. intros y. lia.
Qed.

Lemma Ordered_sorted es : Ordered es -> StronglySorted seq_le es.
Proof.
  unfold Ordered. assert (forall k, (forall i e, es !! i = Some e -> e.(sequence) = Z.of_nat i + k) ->
    StronglySorted seq_le es) as Hk; [|apply Hk].
  induction es as [|e es IH]; intros k Ho; [constructor|]. constructor.
  - apply (IH (k + 1)). intros i x Hx. rewrite (Ho (S i) x Hx). lia.
  - apply Forall_lookup. intros i x Hx. unfold seq_le. rewrite (Ho 0%nat e eq_refl), (Ho (S i) x Hx). lia.
Qed.

Lemma sortBySequence_ordered es values : Ordered es -> values ≡ₚ es -> sortBySequence values = es.
Proof.
  intros Ho Hp. apply (StronglySorted_unique_strong seq_le).
  - intros x y Hx Hy Hxy Hyx. rewrite sortBySequence_perm, Hp in Hx.
    apply list_elem_of_lookup in Hx as [i Hi]. apply list_elem_of_lookup in Hy as [j Hj].
    pose proof (Ho _ _ Hi). pose proof (Ho _ _ Hj). unfold seq_le in *.
    assert (i = j) as -> by lia. congruence.
  - apply sortBySequence_sorted.
  - by apply Ordered_sorted.
  - by rewrite sortBySequence_perm.
Qed.

(** The journal holds exactly the directories of its entries, which are numbered
    from 1. *)
Lemma loadNamespacePending_ok j es :
  loadNamespacePending j = Ok es <->
  Z.of_nat (size j) <= maximumPendingEntries /\ entryOf <$> map_to_list j ≡ₚ Some <$> es /\ Ordered es.
Proof.
  unfold loadNamespacePending, readNamespaceDirectory, len. rewrite length_map_to_list.
  destruct (Z.ltb_spec maximumPendingEntries (Z.of_nat (size j))) as [Hs|Hs]; [split; [done|]; intros (? & _); lia|].
  assert (forall vs, readEntries (sortNamed (map_to_list j)) = Ok vs -> len vs = Z.of_nat (size j)) as Hlen.
  { intros vs E%readEntries_ok%(f_equal length). rewrite !length_fmap, sortNamed_perm, length_map_to_list in E.
    unfold len. by rewrite E. }
  unfold maximumPendingEntries in Hs. split.
  - intros Hl. inv_ok. subst es. goprop. pose proof (Hlen _ eq_refl) as Hn. pose proof (sortBySequence_perm a) as Hp.
    assert (len (sortBySequence a) = len a) as Hla by (unfold len; by rewrite Hp).
    apply readEntries_ok in Hok. split_and!; [done| |].
    + rewrite <- (sortNamed_perm (map_to_list j)), Hok, Hp. done.
    + intros i e Hi. pose proof (proj1 (inSequence_true 0 (sortBySequence a) ltac:(lia) ltac:(lia))) as Hsq.
      rewrite (Hsq ltac:(done) i e Hi). lia.
  - intros (_ & Hp & Ho). rewrite <- (sortNamed_perm (map_to_list j)) in Hp.
    apply Permutation_map_inv in Hp as (values & Hv & Hp).
    pose proof (proj2 (readEntries_ok _ _) Hv) as Hr. rewrite Hr. cbn [mbind result_bind].
    rewrite (sortBySequence_ordered es values) by done.
    assert (len es = Z.of_nat (size j)) as Hn by (rewrite <- (Hlen _ Hr); unfold len; by rewrite Hp).
    rewrite (proj2 (inSequence_true 0 es ltac:(lia) ltac:(lia))); [done|].
    intros i e Hi. rewrite (Ho i e Hi). lia.
Qed.

Lemma load_length j es : loadNamespacePending j = Ok es -> length es = size j.
Proof.
  intros (_ & Hp & _)%loadNamespacePending_ok. apply Permutation_length in Hp.
  rewrite !length_fmap, length_map_to_list in Hp. done.
Qed.

(** ** Appending *)

Lemma hex_generationName (a : array 32) : namespaceGenerationName (hex_EncodeToString a) = true.
Proof.
  unfold namespaceGenerationName. rewrite len_hex_Encode, len_array. cbn [Z.mul Z.of_nat Z.eqb Pos.eqb andb Pos.of_succ_nat].
  apply andb_true_iff. split; [done|]. apply forallb_true.
  assert (forall v, 0 <= v < 16 -> isLowerHex (hex_digit v) = true) as Hd.
  { intros v Hv. assert (forallb (fun n => isLowerHex (hex_digit (Z.of_nat n))) (seq 0 16) = true) as Hall
      by (vm_compute; done).
    rewrite forallb_true, Forall_forall in Hall. rewrite <- (Z2Nat.id v) by lia. apply Hall, elem_of_seq. lia. }
  induction (array_bytes a) as [|b l IH]; [constructor|]. cbn [hex_EncodeToString].
  destruct (nibble_range b). repeat constructor; auto.
Qed.

(** The entry that an append stores, for a journal of [n] entries. *)
Definition numbered (entry : pendingEntry) (n : nat) : pendingEntry :=
  let e := entry <| sequence := Z.of_nat n + 1 |> in e <| name := hex_EncodeToString (digest e) |>.

Lemma digest_name e n : digest (e <| name := n |>) = digest e.
Proof. by destruct e. Qed.

Lemma encode_name e n : encode (e <| name := n |>) = encode e.
Proof. by destruct e. Qed.

Lemma entryOf_numbered entry n raw :
  in_i64 entry.(decisionAt) -> Z.of_nat n < 2 ^ 63 -> encode (numbered entry n) = Ok raw ->
  entryOf ((numbered entry n).(name), Some raw) = Some (numbered entry n).
Proof.
  intros Hd Hn He. unfold entryOf. cbn [readEntries].
  assert ((numbered entry n).(name) = hex_EncodeToString (digest (numbered entry n))) as Hname by done.
  rewrite Hname, hex_generationName. cbn [negb].
  pose proof He as (Hraw & _ & _ & Ha & Hb)%encode_ok.
  assert (len raw = 26 + len entry.(submission) + len entry.(successor)) as Hl
    by (rewrite Hraw; unfold entryWire; autorewrite with len; cbn; lia).
  unfold readNamespaceFile. cbn in Ha, Hb.
  rewrite (proj2 (Z.ltb_ge _ _)) by (unfold maximumPendingBytes in *; lia).
  assert (TypedEntry (numbered entry n)) as Ht by (constructor; cbn; [unfold in_u64; lia|done]).
  rewrite (decode_complete (numbered entry n) raw) by done.
  cbn [mbind result_bind]. rewrite digest_name, bool_decide_eq_true_2 by done. done.
Qed.

Lemma append_ok root entry stage acts e es :
  in_i64 entry.(decisionAt) -> loadNamespacePending root.(disk_of).(journal) = Ok es ->
  root_appendPending root entry stage = (acts, Ok e) ->
  root.(closed) = false /\ len es < maximumPendingEntries /\ e = numbered entry (length es) /\
  exists raw, encode e = Ok raw /\ root.(disk_of).(journal) !! e.(name) = None /\
    acts = [MkdirEntry stage; WriteEntry stage raw; PublishEntry stage e.(name)].
Proof.
  intros Hd Hes. unfold root_appendPending, available. destruct (closed root) eqn:Hc; [done|]. rewrite Hes.
  destruct (Z.leb_spec maximumPendingEntries (len es)) as [|Hn]; [done|].
  assert (u64 (len es + 1) = Z.of_nat (length es) + 1) as ->.
  { apply u64_id. unfold in_u64, len, maximumPendingEntries in *. lia. }
  set (e1 := entry <| sequence := _ |>). destruct (encode e1) as [raw|] eqn:He; [|done].
  change (e1 <| name := hex_EncodeToString (digest e1) |>) with (numbered entry (length es)).
  assert (encode (numbered entry (length es)) = Ok raw) as He' by done.
  unfold writeNamespacePending. rewrite He'.
  destruct (journal (disk_of root) !! name (numbered entry (length es))) as [file|] eqn:Ef.
  2:{ intros [= <- <-]. split_and!; try done. by exists raw. }
  destruct (readNamespaceFile file _) as [persisted|] eqn:Ep; [|done]. case_bool_decide as Er; [|done]. subst persisted.
  intros [= <- <-]. exfalso. destruct file as [file|]; [|done].
  assert (file = raw) as -> by (unfold readNamespaceFile in Ep; by inv_ok).
  apply loadNamespacePending_ok in Hes as (_ & Hp & Ho).
  assert (Some (numbered entry (length es)) ∈ Some <$> es) as Hin.
  { rewrite <- Hp. apply list_elem_of_fmap. exists (name (numbered entry (length es)), Some raw).
    split; [|by apply elem_of_map_to_list]. symmetry. apply entryOf_numbered; [done| |done].
    unfold len, maximumPendingEntries in Hn. lia. }
  apply list_elem_of_fmap in Hin as (x & [= Ex] & Hx). apply list_elem_of_lookup in Hx as [i Hi].
  pose proof (Ho _ _ Hi) as Hsq. rewrite <- Ex in Hsq. apply lookup_lt_Some in Hi. cbn in Hsq. lia.
Qed.

(** The journal with one more entry. *)
Lemma journal_extends j entry es raw :
  let e := numbered entry (length es) in
  in_i64 entry.(decisionAt) -> loadNamespacePending j = Ok es -> len es < maximumPendingEntries ->
  encode e = Ok raw -> j !! e.(name) = None ->
  loadNamespacePending (<[e.(name) := Some raw]> j) = Ok (es ++ [e]).
Proof.
  intros e Hd Hes Hn He Hf. pose proof (load_length _ _ Hes) as Hlen.
  apply loadNamespacePending_ok in Hes as (Hs & Hp & Ho). apply loadNamespacePending_ok.
  unfold len, maximumPendingEntries in *. split_and!.
  - rewrite map_size_insert_None by done. lia.
  - rewrite map_to_list_insert by done. cbn [fmap list_fmap].
    assert (entryOf (name e, Some raw) = Some e) as -> by (apply entryOf_numbered; [done|lia|done]).
    rewrite Hp, fmap_app. cbn. by rewrite Permutation_cons_append.
  - intros i x Hx. apply lookup_app_Some in Hx as [Hx|[Hi Hx]]; [by apply Ho|].
    destruct (i - length es)%nat as [|k] eqn:Ei; [|done]. injection Hx as <-. cbn. lia.
Qed.

Lemma journal_clean d es : loadNamespacePending d.(journal) = Ok es -> (clean d).(journal) = d.(journal).
Proof.
  intros (_ & Hp & _)%loadNamespacePending_ok. cbn. apply map_filter_id. intros n file Hf. cbn.
  apply generationName_kept. assert (entryOf (n, file) ∈ Some <$> es) as Hin.
  { rewrite <- Hp. by apply list_elem_of_fmap_2, elem_of_map_to_list. }
  apply list_elem_of_fmap in Hin as (x & Ex & _). unfold entryOf in Ex. cbn [readEntries] in Ex.
  by destruct (namespaceGenerationName n).
Qed.

(** An accepted append adds exactly one entry, at the end, with the next
    sequence number and the submission and successor given, and leaves the
    generations and the current pointer alone.  A crash at any point of it leaves,
    after reopening, the old journal or the extended one. *)
Theorem appendPending_extends root entry stage tmp acts e es :
  TempNames root.(disk_of) stage tmp -> in_i64 entry.(decisionAt) ->
  root_pending root = Ok es -> root_appendPending root entry stage = (acts, Ok e) ->
  let d := root.(disk_of) in
  root_pending (MkRoot (run acts d) false) = Ok (es ++ [e]) /\
  e.(sequence) = len es + 1 /\ e.(decisionAt) = entry.(decisionAt) /\
  e.(submission) = entry.(submission) /\ e.(successor) = entry.(successor) /\
  (run acts d).(generations) = d.(generations) /\ (run acts d).(root_files) = d.(root_files) /\
  (forall d' root', crashed acts d d' -> openNamespaceRoot d' = Ok root' ->
     root_pending root' = Ok es \/ root_pending root' = Ok (es ++ [e])).
Proof.
  intros [Hs _ _ _ Hsn] Hd Hpend Happ d. unfold root_pending, available in *.
  destruct (closed root) eqn:Hc; [done|]. cbn [mbind result_bind closed disk_of] in *.
  destruct (append_ok _ _ _ _ _ _ Hd Hpend Happ) as (_ & Hn & -> & raw & He & Hf & ->). fold d in Hpend, Hf, Hsn.
  pose proof (journal_extends _ _ _ _ Hd Hpend Hn He Hf) as Hext.
  set (e := numbered entry (length es)) in *.
  assert (HasPrefix (name e) stagePrefix = false) as Hk by apply generationName_kept, hex_generationName.
  assert (stage <> name e) as Hne by (intros E; congruence).
  assert (run [MkdirEntry stage; WriteEntry stage raw; PublishEntry stage (name e)] d =
    d <| journal := <[name e := Some raw]> d.(journal) |>) as ->.
  { destruct d as [gs rf j]. cbn in *. rewrite lookup_insert_eq. cbn. unfold set, update. cbn.
    rewrite insert_insert_eq, delete_insert_id by done. done. }
  split_and!; try done. intros d' root' Hcr ->%openNamespaceRoot_clean.
  cbn [mbind result_bind closed disk_of]. pose proof (journal_clean d es Hpend) as Hcj. rewrite <- Hcj in Hpend, Hext.
  change ([MkdirEntry stage; WriteEntry stage raw; PublishEntry stage (name e)]) with
    ([MkdirEntry stage; WriteEntry stage raw] ++ [PublishEntry stage (name e)]) in Hcr.
  assert (Forall quiet [MkdirEntry stage; WriteEntry stage raw]) as Hq by (by repeat constructor).
  apply crashed_app in Hcr as [Hcr|Hcr]; [left; by rewrite (quiet_crashed _ _ _ Hq Hcr)|].
  destruct (crashed_atomic (PublishEntry stage (name e)) _ d' ltac:(intros ? ? X; by inversion X) Hcr) as [->| ->].
  - left. by rewrite (quiet_run _ _ Hq).
  - right. rewrite <- Hext. f_equal. destruct d as [gs rf j]. cbn. rewrite lookup_insert_eq. cbn.
    rewrite without_insert_kept, without_delete, !without_insert by done. done.
Qed.

(** The bytes an entry is named after. *)
Definition digestInput (e : pendingEntry) : bytes :=
  pendingDomain ++ [x00] ++ be_bytes 2 pendingEntrySchema ++ be_bytes 8 e.(sequence) ++ be_bytes 8 e.(decisionAt) ++
  be_bytes 4 (u32 (len e.(submission))) ++ e.(submission) ++ be_bytes 4 (u32 (len e.(successor))) ++ e.(successor).

Lemma digest_input e : digest e = sha256 (digestInput e).
Proof. unfold digest, digestInput, AppendUint64, AppendUint32. by rewrite <- !app_assoc. Qed.

Lemma digestInput_sequence e e' :
  in_u64 e.(sequence) -> in_u64 e'.(sequence) -> digestInput e = digestInput e' -> e.(sequence) = e'.(sequence).
Proof.
  intros He He' E. unfold digestInput in E. apply app_inv_head in E. apply app_inv_head in E. apply app_inv_head in E.
  apply app_inj_1 in E as [E _]; [|by rewrite !length_be_bytes]. by apply be_bytes_inj in E.
Qed.

(** An append into a journal that is not full succeeds, unless the bytes the new
    entry is named after collide with those of an earlier entry. *)
Lemma append_accepts root entry stage es :
  root.(closed) = false -> loadNamespacePending root.(disk_of).(journal) = Ok es -> len es < maximumPendingEntries ->
  0 < entry.(decisionAt) -> 0 < len entry.(submission) <= maximumPendingBytes ->
  0 < len entry.(successor) <= maximumPendingBytes ->
  (exists acts e, root_appendPending root entry stage = (acts, Ok e)) \/
  (exists e', e' ∈ es /\ Collision sha256 [digestInput (entry <| sequence := len es + 1 |>); digestInput e']).
Proof.
  intros Hc Hes Hn Hat Hsub Hsuc. unfold root_appendPending, available. rewrite Hc, Hes.
  rewrite (proj2 (Z.leb_gt _ _)) by done.
  assert (u64 (len es + 1) = Z.of_nat (length es) + 1) as ->.
  { apply u64_id. unfold in_u64, len, maximumPendingEntries in *. lia. }
  set (e1 := entry <| sequence := _ |>).
  assert (encode e1 = Ok (entryWire e1)) as He by (apply encode_ok; cbn; split_and!; try done; try lia).
  rewrite He. change (e1 <| name := hex_EncodeToString (digest e1) |>) with (numbered entry (length es)).
  unfold writeNamespacePending. replace (encode (numbered entry (length es))) with (encode e1) by done. rewrite He.
  destruct (journal (disk_of root) !! name (numbered entry (length es))) as [file|] eqn:Ef; [right|left; eauto].
  apply loadNamespacePending_ok in Hes as (_ & Hp & Ho).
  assert (entryOf (name (numbered entry (length es)), file) ∈ Some <$> es) as Hin.
  { rewrite <- Hp. by apply list_elem_of_fmap_2, elem_of_map_to_list. }
  apply list_elem_of_fmap in Hin as (e' & Ee & He'). exists e'. split; [done|]. change (entry <| sequence := len es + 1 |>) with e1.
  destruct (collision_pair sha256 (digestInput e1) (digestInput e')) as [E| ?]; [| |done].
  - rewrite <- !digest_input. unfold entryOf in Ee. cbn [readEntries] in Ee. destruct (negb _); [done|].
    destruct (readNamespaceFile _ _); [|done]. destruct (decodePendingEntry _) as [e2|]; [|done].
    cbn [mbind result_bind] in Ee. case_bool_decide as Hd; [|done].
    injection Ee as <-. symmetry. apply array_eq, (inj hex_EncodeToString). exact Hd.
  - exfalso. apply list_elem_of_lookup in He' as [i Hi]. pose proof (Ho _ _ Hi) as Hs. apply lookup_lt_Some in Hi.
    apply digestInput_sequence in E; [cbn in E; lia|..]; unfold in_u64, len, maximumPendingEntries in *; cbn; lia.
Qed.

(** A refused append leaves the disk as it was, and after a crash nothing of it
    remains. *)
Lemma append_refused root entry stage tmp acts e :
  TempNames root.(disk_of) stage tmp -> root_appendPending root entry stage = (acts, Err e) ->
  run acts root.(disk_of) = root.(disk_of) /\ Forall quiet acts.
Proof.
  intros [Hs _ _ _ Hn]. unfold root_appendPending, writeNamespacePending.
  repeat (case_match; try (by intros [= <- <-])); simplify_eq; intros [= <- <-]; (split; [|by repeat (apply Forall_cons; split; [exact Hs|])]);
    destruct (disk_of root) as [gs rf j]; cbn in *; unfold set, update; cbn;
    by rewrite ?insert_insert_eq, ?delete_insert_id.
Qed.

End Journal.

(** ** An append to an empty journal *)

Section Witnesses.
#[local] Existing Instance sample_golib.

Definition sampleAppend : list action * result pendingEntry :=
  root_appendPending emptyRoot (MkPending [] 0 5 [x01] [x02]) (str ".stage-1").

Lemma appendPending_extends_witness :
  exists e, sampleAppend.2 = Ok e /\ root_pending (MkRoot (run sampleAppend.1 emptyRoot.(disk_of)) false) = Ok [e] /\
    e.(sequence) = 1.
Proof.
  destruct sampleAppend.2 as [e|] eqn:He; [|vm_compute in He; discriminate]. exists e. split; [done|].
  destruct (appendPending_extends emptyRoot (MkPending [] 0 5 [x01] [x02]) (str ".stage-1") (str ".current-1")
    sampleAppend.1 e []) as (Hp & Hs & _).
  - constructor; vm_compute; reflexivity.
  - by vm_compute.
  - vm_compute. reflexivity.
  - unfold sampleAppend in *. destruct (root_appendPending _ _ _) as [acts r]. cbn in *. by subst r.
  - split; [exact Hp|exact Hs].
Defined.

End Witnesses.
End pending.
