(* ===== verification/EpochStore.v ===== *)
(** * The namespace store

    internal/naming/namespace/epoch: the threshold-attested snapshots of
    materialization_store.go, the pending selection of pending_journal.go, the
    installation of epoch_installation.go, [Lookup] of materialization_proof.go
    and the witness of name_authority_reconciliation.go.

    A Store is its open root and its policy.  Mutating methods return the
    file-system actions they perform and their outcome; [stage] and [tmp] are
    the temporary names the operating system picked.  [attest] is the callback
    that collects signatures, any function.  The nil receivers and callbacks the
    methods guard against have no counterpart, except where an [option] says so. *)

From S2P Require Import Prelude Wire GoLib GoTime Naming Recovery Record RecordLifecycle RecordCodec Admission Merkle Claim EpochCodec EpochBuild EpochDisk EpochJournal.

Import epoch build disk pending.

Module store.

Record Store := MkStore { root : namespaceRoot; policy : MaterializationPolicy }.

Record snapshot := MkSnapshot {
  snap_attested : attestedStatement;
  snap_records : list bytes;
  snap_leaves : list bytes;
  snap_pending : Z
}.

Definition attester : Type := bytes -> result (list (array 32) * list bytes).

Section Store.
Context `{GoLib}.

Definition Open (d : Disk) (input : MaterializationPolicy) : result Store :=
  policy ← validMaterializationPolicy input;
  root ← openNamespaceRoot d;
  Ok (MkStore root policy).

Definition snapshotDomain : bytes := str "ardents-naming-state-snapshot-v2" ++ [x00].
Definition pendingTag : bytes := str "pending-v1" ++ [x00].

Definition snapshotGenerationDigest (metadata : bytes) (inputs : list bytes) (pending : Z) : array 32 :=
  let out := snapshotDomain ++ metadata in
  let out := foldl (fun out input => AppendUint32 out (u32 (len input)) ++ input) out inputs in
  let out := if pending =? 0 then out else AppendUint64 (out ++ pendingTag) pending in
  sha256 out.

Definition tampered : error := New "naming state is tampered".

(** The body of the loop of [Store.load] for the current generation. *)
Definition readSnapshot (policy : MaterializationPolicy) (current : gostring) (minimumEpoch : Z)
  (generation : namespaceGeneration) : result snapshot :=
  let digest := snapshotGenerationDigest generation.(gen_Epoch) generation.(gen_Inputs) generation.(gen_Pending) in
  match decodeAttested generation.(gen_Epoch), decodeRecordChunks generation.(gen_Inputs) with
  | Ok attested, Ok persistedRecords =>
      match materializeRecords policy.(policy_Network) persistedRecords with
      | Err _ => Err tampered
      | Ok (records, leaves) =>
          match encodeRecordChunks records with
          | Err _ => Err tampered
          | Ok canonicalChunks =>
              reject tampered
                when ((hex_EncodeToString digest !=? current) || negb (verifyAttestation policy attested) ||
                      (attested.(stmt).(recordRoot) !=? recordRootOf leaves) ||
                      negb (attested.(stmt).(recordLength) =? u32 (len leaves)) ||
                      negb (sameInputs canonicalChunks generation.(gen_Inputs)));
              reject (New "naming state is stale") when (attested.(stmt).(epoch) <? minimumEpoch);
              Ok (MkSnapshot attested records leaves generation.(gen_Pending))
          end
      end
  | _, _ => Err tampered
  end.

Definition Store_load (store : Store) (minimumEpoch : Z) : result snapshot :=
  match load store.(root) with
  | Err _ => Err tampered
  | Ok (current, generations) =>
      reject tampered when (current ==? []);
      match find (fun generation => generation.(gen_Name) ==? current) generations with
      | Some generation => readSnapshot store.(policy) current minimumEpoch generation
      | None => Err tampered
      end
  end.

(** ** Records by Name *)

(** The loop of [CurrentRecords]. *)
Fixpoint collectRecords (network : array 32) (signed : list bytes) (records : gmap gostring record.NameRecord)
  : result (gmap gostring record.NameRecord) :=
  match signed with
  | [] => Ok records
  | raw :: rest =>
      match recordcodec.VerifyRecord network raw with
      | Err _ => Err (New "naming current record is invalid")
      | Ok value =>
          reject (New "naming current record is invalid")
            when (match records !! value.(record.Name) with
                  | Some known => known.(record.Name) !=? []
                  | None => false
                  end);
          collectRecords network rest (<[value.(record.Name) := value]> records)
      end
  end.

Definition CurrentRecords (store : Store) : result (gmap gostring record.NameRecord * Z) :=
  '(current, _) ← load store.(root);
  if current ==? [] then Ok (∅, 0)
  else
    snapshot ← Store_load store 0;
    records ← collectRecords store.(policy).(policy_Network) snapshot.(snap_records) ∅;
    Ok (records, snapshot.(snap_pending)).

(** The signed Records of a corpus by Name; [e] is the error of the caller. *)
Fixpoint signedByName (e : error) (network : array 32) (signed : list bytes) (values : gmap gostring bytes)
  : result (gmap gostring bytes) :=
  match signed with
  | [] => Ok values
  | raw :: rest =>
      match recordcodec.VerifyRecord network raw with
      | Err _ => Err e
      | Ok current =>
          reject e when (bool_decide (is_Some (values !! current.(record.Name))));
          signedByName e network rest (<[current.(record.Name) := raw]> values)
      end
  end.

Definition signedRecordMap (network : array 32) (signed : list bytes) : result (gmap gostring bytes) :=
  signedByName (New "naming materialization Record corpus is invalid") network signed ∅.

Definition sameSignedRecordMap (left right : gmap gostring bytes) : bool :=
  bool_decide (size left = size right) &&
  forallb (fun '(name, value) => value ==? default [] (right !! name)) (map_to_list left).

(** ** The pending journal of a store *)

Fixpoint checkSuccessors (network : array 32) (entries : list pendingEntry) : bool :=
  match entries with
  | [] => true
  | entry :: rest =>
      match recordcodec.VerifyRecord network entry.(successor) with
      | Err _ => false
      | Ok current => (current.(record.Name) !=? []) && checkSuccessors network rest
      end
  end.

Definition Store_pending (store : Store) : result (list pendingEntry) :=
  entries ← root_pending store.(root);
  reject (New "naming pending journal is tampered")
    when (negb (checkSuccessors store.(policy).(policy_Network) entries));
  Ok entries.

Definition Store_appendPending (store : Store) (name : gostring) (submission successor : bytes) (decisionAt : Z)
  (stage : gostring) : list action * result pendingEntry :=
  let invalid := Err (New "naming pending submission is invalid") in
  match recordcodec.VerifyRecord store.(policy).(policy_Network) successor with
  | Err _ => ([], invalid)
  | Ok current =>
      if (name ==? []) || (decisionAt <=? 0) || (len submission =? 0) || (name !=? current.(record.Name))
      then ([], invalid)
      else root_appendPending store.(root) (MkPending [] 0 decisionAt submission successor) stage
  end.

(** The baseline of [pendingCursorFor]: later Records of one Name replace
    earlier ones. *)
Fixpoint baselineOf (network : array 32) (signed : list bytes) (baseline : gmap gostring bytes)
  : result (gmap gostring bytes) :=
  match signed with
  | [] => Ok baseline
  | raw :: rest =>
      match recordcodec.VerifyRecord network raw with
      | Err _ => Err (New "naming current record is invalid")
      | Ok current => baselineOf network rest (<[current.(record.Name) := raw]> baseline)
      end
  end.

Fixpoint selectPrefix (network : array 32) (entries : list pendingEntry) (baseline candidate : gmap gostring bytes)
  : result Z :=
  match entries with
  | [] => Err (New "naming materialization is not selected from pending state")
  | entry :: rest =>
      match recordcodec.VerifyRecord network entry.(successor) with
      | Err _ => Err (New "naming pending journal is tampered")
      | Ok current =>
          let baseline := <[current.(record.Name) := entry.(successor)]> baseline in
          if sameSignedRecordMap baseline candidate then Ok entry.(sequence)
          else selectPrefix network rest baseline candidate
      end
  end.

Definition pendingCursorFor (store : Store) (records : list bytes) : result Z :=
  let network := store.(policy).(policy_Network) in
  match load store.(root) with
  | Err _ => Err tampered
  | Ok (current, _) =>
      '(baseline, cursor) ←
        (if current ==? [] then Ok (∅, 0)
         else
           snapshot ← Store_load store 0;
           baseline ← baselineOf network snapshot.(snap_records) ∅;
           Ok (baseline, snapshot.(snap_pending)));
      entries ← Store_pending store;
      reject (New "naming state pending cursor is invalid") when (len entries <? cursor);
      if len entries =? 0 then Ok 0
      else
        candidate ← signedRecordMap network records;
        selectPrefix network (drop (Z.to_nat cursor) entries) baseline candidate
  end.

(** ** Commits *)

Definition validEpoch (value : Epoch) : bool :=
  (0 <? value.(Number)) && (value.(Digest) !=? zero32) && (0 <=? value.(CutoffOffset)) &&
  (value.(TransitionRoot) !=? zero32) && (value.(RejectionRoot) !=? zero32).

Definition statementOf (policy : MaterializationPolicy) (e : Epoch) (leaves : list bytes) : statement :=
  MkStatement policy.(policy_Network) e.(Number) e.(Digest) policy.(policy_Rule) e.(CutoffOffset)
    (recordRootOf leaves) (u32 (len leaves)) e.(TransitionRoot) e.(TransitionLength)
    e.(RejectionRoot) e.(RejectionLength).

(** Everything [commitAtCurrent] does before it writes: the generation. *)
Definition prepareGeneration (store : Store) (e : Epoch) (signed : list bytes) (pending : Z) (attest : attester)
  : result namespaceGeneration :=
  '(records, leaves) ← materializeRecords store.(policy).(policy_Network) signed;
  let value := statementOf store.(policy) e leaves in
  match attest (statementTranscript value) with
  | Err _ => Err (New "naming materialization threshold is invalid")
  | Ok (ids, signatures) =>
      let attested := MkAttested value ids signatures in
      reject (New "naming materialization threshold is invalid")
        when (negb (verifyAttestation store.(policy) attested));
      match load store.(root) with
      | Err _ => Err tampered
      | Ok (current, _) =>
          _ ← (if current ==? [] then Ok tt
               else
                 previous ← Store_load store 0;
                 reject (New "naming state epoch is not monotonic")
                   when (value.(epoch) <=? previous.(snap_attested).(stmt).(epoch));
                 Ok tt);
          let metadata := encodeAttested attested in
          chunks ← encodeRecordChunks records;
          let name := snapshotGenerationDigest metadata chunks pending in
          Ok (MkGeneration (hex_EncodeToString name) metadata chunks pending true)
      end
  end.

(** The calls of one store follow one another in this model.  The code holds the
    mutex of the root inside [load] and inside [commitCurrent], not from one to the
    other: a commit with an [expected] generation is checked against it again
    under the mutex, the commit of [CommitLegacy], which passes none, is not, so
    that concurrent [CommitLegacy] calls are outside the model. *)
Definition commitAtCurrent (store : Store) (e : Epoch) (signed : list bytes) (pending : Z)
  (expected : option gostring) (attest : attester) (stage tmp : gostring) : list action * result unit :=
  match prepareGeneration store e signed pending attest with
  | Err err => ([], Err err)
  | Ok generation => commitCurrent store.(root) expected generation stage tmp
  end.

Definition CommitLegacy (store : Store) (e : Epoch) (signed : list bytes) (attest : option attester)
  (stage tmp : gostring) : list action * result unit :=
  match attest with
  | None => ([], Err (New "naming materialization input is invalid"))
  | Some attest =>
      if negb (validEpoch e) then ([], Err (New "naming materialization input is invalid"))
      else
        match pendingCursorFor store signed with
        | Err err => ([], Err err)
        | Ok pending => commitAtCurrent store e signed pending None attest stage tmp
        end
  end.

(** ** epoch_installation.go *)

Record EpochInstallation := MkInstallation {
  inst_epoch : Epoch;
  inst_at : Z;
  inst_policy : record.Policy;
  base : gostring;
  inst_records : gmap gostring bytes;
  cursor : Z
}.

#[global] Instance eta_EpochInstallation : Eta EpochInstallation := fun i =>
  MkInstallation i.(inst_epoch) i.(inst_at) i.(inst_policy) i.(base) i.(inst_records) i.(cursor).

Definition BeginEpochInstallation (store : Store) (e : Epoch) (materializedAt : Z) (policy : record.Policy)
  : result EpochInstallation :=
  reject (New "naming Epoch installation input is invalid")
    when (negb (validEpoch e) || IsZero materializedAt || (Unix materializedAt <=? 0));
  match load store.(root) with
  | Err _ => Err tampered
  | Ok (current, _) =>
      let installation := MkInstallation e materializedAt policy current ∅ 0 in
      if current ==? [] then Ok installation
      else
        snapshot ← Store_load store 0;
        records ← signedByName (New "naming current installation state is invalid")
                    store.(store.policy).(policy_Network) snapshot.(snap_records) ∅;
        Ok (installation <| cursor := snapshot.(snap_pending) |> <| inst_records := records |>)
  end.

Definition continuousSuccessor (previous current : record.NameRecord) : bool :=
  if current.(record.Generation) =? previous.(record.Generation)
  then current.(record.Revision) =? u64 (previous.(record.Revision) + 1)
  else (previous.(record.Lease) ==? str "released") &&
       (current.(record.Generation) =? u64 (previous.(record.Generation) + 1)) && (current.(record.Revision) =? 1).

(** The loop of [IncludePendingThrough].  It updates the map in place, so the
    Records before an error stay in it. *)
Fixpoint includeEntries (network : array 32) (entries : list pendingEntry) (records : gmap gostring bytes)
  : gmap gostring bytes * result unit :=
  match entries with
  | [] => (records, Ok tt)
  | entry :: rest =>
      match recordcodec.VerifyRecord network entry.(successor) with
      | Err _ => (records, Err (New "naming Epoch pending successor is invalid"))
      | Ok current =>
          let verdict :=
            match records !! current.(record.Name) with
            | Some predecessor =>
                match recordcodec.VerifyRecord network predecessor with
                | Err _ => Err (New "naming Epoch pending successor forks its predecessor")
                | Ok previous =>
                    reject (New "naming Epoch pending successor forks its predecessor")
                      when (negb (continuousSuccessor previous current));
                    Ok tt
                end
            | None =>
                reject (New "naming Epoch pending successor has no predecessor")
                  when (negb (current.(record.Generation) =? 1) || negb (current.(record.Revision) =? 1));
                Ok tt
            end in
          match verdict with
          | Err e => (records, Err e)
          | Ok _ => includeEntries network rest (<[current.(record.Name) := entry.(successor)]> records)
          end
      end
  end.

Definition IncludePendingThrough (store : Store) (installation : EpochInstallation) (sequence : Z)
  : EpochInstallation * result unit :=
  if sequence <? installation.(cursor)
  then (installation, Err (New "naming Epoch pending selection is invalid"))
  else
    match Store_pending store with
    | Err _ => (installation, Err (New "naming Epoch pending selection is unavailable"))
    | Ok entries =>
        if len entries <? sequence
        then (installation, Err (New "naming Epoch pending selection is unavailable"))
        else
          let selected := take (Z.to_nat (sequence - installation.(cursor)))
                            (drop (Z.to_nat installation.(cursor)) entries) in
          let '(records, outcome) := includeEntries store.(policy).(policy_Network) selected
                                       installation.(inst_records) in
          let installation := installation <| inst_records := records |> in
          match outcome with
          | Err e => (installation, Err e)
          | Ok _ => (installation <| cursor := sequence |>, Ok tt)
          end
    end.

(** [winner] and [signer] are [None] when nil. *)
Definition MaterializeClaim (store : Store) (installation : EpochInstallation) (winner : option claim.claimWinner)
  (signer : option (recordcodec.RecordSigningRequest -> result bytes))
  : EpochInstallation * option claim.claimWinner * result unit :=
  let network := store.(policy).(policy_Network) in
  match winner, signer with
  | None, _ | _, None => (installation, winner, Err (New "naming Epoch claim installation is invalid"))
  | Some _, Some _ =>
      if negb (claim.BelongsTo winner network installation.(inst_epoch).(Number))
      then (installation, winner, Err (New "root claim winner does not belong to this Namespace Epoch"))
      else if installation.(inst_epoch).(Digest) !=? claim.CloseDigest winner
      then (installation, winner, Err (New "root claim close is not bound to this Namespace Epoch"))
      else
        let current :=
          match installation.(inst_records) !! claim.Name winner with
          | None => Ok None
          | Some signed => decoded ← recordcodec.VerifyRecord network signed; Ok (Some decoded)
          end in
        match current with
        | Err _ => (installation, winner, Err (New "naming Epoch claim predecessor is invalid"))
        | Ok current =>
            let '(winner, outcome) := claim.MaterializeSigned winner current installation.(inst_at)
                                        installation.(inst_policy) signer in
            match outcome with
            | Err _ => (installation, winner, Err (New "naming Epoch claim materialization is invalid"))
            | Ok (materialized, signed) =>
                match recordcodec.VerifyRecord network signed with
                | Err _ =>
                    (installation, winner, Err (New "naming Epoch claim signer substituted the derived Record"))
                | Ok verified =>
                    if negb (sameRecord materialized verified)
                    then (installation, winner, Err (New "naming Epoch claim signer substituted the derived Record"))
                    else (installation <| inst_records :=
                             <[materialized.(record.Name) := signed]> installation.(inst_records) |>, winner, Ok tt)
                end
            end
        end
  end.

Definition installationPendingCursor (store : Store) (cursor : Z) (current : gostring) : result Z :=
  installed ← (if current ==? [] then Ok 0
               else snapshot ← Store_load store 0; Ok snapshot.(snap_pending));
  match Store_pending store with
  | Err _ => Err (New "naming Epoch pending selection is unavailable")
  | Ok entries =>
      reject (New "naming Epoch pending selection is unavailable")
        when ((cursor <? installed) || (len entries <? cursor));
      Ok cursor
  end.

Definition commitInstallation (store : Store) (installation : EpochInstallation) (signed : list bytes)
  (attest : option attester) (stage tmp : gostring) : list action * result unit :=
  match attest with
  | None => ([], Err (New "naming Epoch installation is invalid"))
  | Some attest =>
      if negb (validEpoch installation.(inst_epoch)) then ([], Err (New "naming Epoch installation is invalid"))
      else
        match load store.(root) with
        | Err _ => ([], Err (New "naming Epoch installation is stale"))
        | Ok (current, _) =>
            if current !=? installation.(base) then ([], Err (New "naming Epoch installation is stale"))
            else
              match installationPendingCursor store installation.(cursor) current with
              | Err e => ([], Err e)
              | Ok pending =>
                  commitAtCurrent store installation.(inst_epoch) signed pending (Some installation.(base))
                    attest stage tmp
              end
        end
  end.

(** The Records in the order of [sort.Strings] over the names. *)
Definition installedRecords (installation : EpochInstallation) : list bytes :=
  map snd (sortNamed (map_to_list installation.(inst_records))).

Definition Commit (store : Store) (installation : EpochInstallation) (attest : option attester)
  (stage tmp : gostring) : list action * result unit :=
  commitInstallation store installation (installedRecords installation) attest stage tmp.

(** ** Lookup *)

Fixpoint findRecord (network : array 32) (name : gostring) (index : nat) (records : list bytes)
  : result (option nat) :=
  match records with
  | [] => Ok None
  | raw :: rest =>
      match recordcodec.VerifyRecord network raw with
      | Err _ => Err tampered
      | Ok current =>
          if current.(record.Name) ==? name then Ok (Some index) else findRecord network name (S index) rest
      end
  end.

Definition Lookup (store : Store) (rawName : gostring) (minimumEpoch : Z) : result bytes :=
  match Parse rawName with
  | Err _ => Err (New "naming proof name is invalid")
  | Ok name =>
      reject (New "naming proof name is invalid") when (name !=? rawName);
      current ← Store_load store minimumEpoch;
      index ← findRecord store.(policy).(policy_Network) rawName 0 current.(snap_records);
      match index with
      | None => Err (New "name is unavailable")
      | Some index =>
          let leaf := default [] (current.(snap_leaves) !! index) in
          let proof := encodeProof current.(snap_attested) (u32 (Z.of_nat index)) leaf
                         (namespaceProof current.(snap_leaves) (Z.of_nat index) emptyRecordTag) in
          reject (New "naming proof exceeds the fixed response bound") when (maximumProofBytes <? len proof);
          Ok proof
      end
  end.

(** ** name_authority_reconciliation.go *)

Record NameAuthorityReconciliation := MkReconciliation {
  rec_network : array 32;
  rec_authority : array 32;
  rec_generation : Z;
  rec_revision : Z
}.

(** The loop over the Records; [found] is the one accepted so far. *)
Fixpoint soleActive (authority : array 32) (records : list record.NameRecord) (found : option record.NameRecord)
  : result (option record.NameRecord) :=
  match records with
  | [] => Ok found
  | value :: rest =>
      match recordcodec.AuthorityKey value.(record.Authority) with
      | Err _ => soleActive authority rest found
      | Ok public =>
          if public !=? authority then soleActive authority rest found
          else
            reject (New "name Authority reconciliation source is ambiguous")
              when ((value.(record.Lease) !=? str "active") ||
                    match found with Some f => f.(record.Name) !=? [] | None => false end);
            soleActive authority rest (Some value)
      end
  end.

Definition CurrentNameAuthority (store : Store) (authority : array 32) : result NameAuthorityReconciliation :=
  reject (New "name Authority reconciliation source is unavailable") when (authority ==? zero32);
  '(records, _) ← CurrentRecords store;
  found ← soleActive authority (map snd (map_to_list records)) None;
  match found with
  | None => Err (New "name Authority reconciliation source is unavailable")
  | Some found =>
      reject (New "name Authority reconciliation source is unavailable")
        when ((found.(record.Name) ==? []) || (found.(record.Generation) =? 0) || (found.(record.Revision) =? 0));
      Ok (MkReconciliation store.(policy).(policy_Network) authority
            found.(record.Generation) found.(record.Revision))
  end.

Definition Match (store : Store) (source : NameAuthorityReconciliation) (network authority : array 32)
  : result (Z * Z) :=
  reject (New "name Authority reconciliation source is invalid")
    when ((source.(rec_network) !=? network) || (source.(rec_authority) !=? authority) ||
          (source.(rec_generation) =? 0) || (source.(rec_revision) =? 0));
  match CurrentNameAuthority store authority with
  | Err _ => Err (New "name Authority reconciliation source is stale")
  | Ok current =>
      reject (New "name Authority reconciliation source is stale")
        when ((current.(rec_network) !=? source.(rec_network)) ||
              negb (current.(rec_generation) =? source.(rec_generation)) ||
              negb (current.(rec_revision) =? source.(rec_revision)));
      Ok (source.(rec_generation), source.(rec_revision))
  end.

End Store.
End store.
