(* ===== verification/Authority.v ===== *)
(** * Name Authority control

    internal/naming/namespace/authority: the canonical control operation and its
    validation, the signed transitions, unsigned intents and their preparation,
    and the control that admits submissions into the pending journal of a store
    and restores its view from there.

    The clock of a control is the argument [now] of the operation that reads it;
    [now] is a [time.Time], nanoseconds since the Unix epoch. *)

From S2P Require Import Prelude GoLib GoTime Naming Recovery Record RecordCodec Admission Claim Json ClaimWire.
From S2P Require Import EpochCodec EpochDisk EpochJournal EpochStore.

Import json.

Module authority.

(** ** authority_operation.go: data *)

Record controlOperation := MkOperation {
  Kind : gostring;
  SigningMode : gostring;
  OperationDigest : array 32;
  Network : array 32;
  Nonce : array 32;
  Deadline : Z;
  Name : gostring;
  ParentName : gostring;
  Generation : Z;
  ExpectedRevision : Z;
  ParentGeneration : Z;
  ParentRevision : Z;
  ChildGeneration : Z;
  Authority : array 32;
  SuccessorAuthority : array 32;
  Target : array 32;
  LeaseNotAfter : Z;
  RecordNotAfter : Z;
  PolicyNotBefore : Z;
  RecoveryNotBefore : Z;
  PolicyID : array 32;
  RecoveryStep : gostring;
  OrderingProof : bytes;
  AuthorityProof : bytes;
  RecoveryPolicy : bytes;
  RecoveryProof : bytes;
  SuccessorRecord : bytes
}.

#[global] Instance eta_operation : Eta controlOperation := fun o =>
  MkOperation o.(Kind) o.(SigningMode) o.(OperationDigest) o.(Network) o.(Nonce) o.(Deadline) o.(Name) o.(ParentName)
    o.(Generation) o.(ExpectedRevision) o.(ParentGeneration) o.(ParentRevision) o.(ChildGeneration) o.(Authority)
    o.(SuccessorAuthority) o.(Target) o.(LeaseNotAfter) o.(RecordNotAfter) o.(PolicyNotBefore) o.(RecoveryNotBefore)
    o.(PolicyID) o.(RecoveryStep) o.(OrderingProof) o.(AuthorityProof) o.(RecoveryPolicy) o.(RecoveryProof)
    o.(SuccessorRecord).

#[global] Instance operation_eq_dec : EqDecision controlOperation.
Proof. solve_decision. Defined.

Definition zeroOperation : controlOperation :=
  MkOperation [] [] zero32 zero32 zero32 0 [] [] 0 0 0 0 0 zero32 zero32 zero32 0 0 0 0 zero32 [] [] [] [] [] [].

Record Submission := MkSubmission { raw : bytes; digest : array 32 }.

Definition custodyDerivedSigningMode : gostring := str "custody-derived-v1".

(** Fields with and without [omitempty]; a fixed-size array is never empty. *)
Definition always {A} (name : string) (c : codec A) (get : controlOperation -> A)
  (put : A -> controlOperation -> controlOperation) : field controlOperation :=
  Field name (fun _ => false) c get put.

Definition unlessZero (name : string) (c : codec Z) (get : controlOperation -> Z)
  (put : Z -> controlOperation -> controlOperation) : field controlOperation :=
  Field name (fun o => get o =? 0) c get put.

Definition unlessEmpty (name : string) (c : codec bytes) (get : controlOperation -> bytes)
  (put : bytes -> controlOperation -> controlOperation) : field controlOperation :=
  Field name (fun o => get o ==? []) c get put.

Definition operationFields : list (field controlOperation) := [
  always "kind" text Kind (fun v o => o <| Kind := v |>);
  unlessEmpty "signing_mode" text SigningMode (fun v o => o <| SigningMode := v |>);
  always "operation_digest" (array_ 32) OperationDigest (fun v o => o <| OperationDigest := v |>);
  always "network" (array_ 32) Network (fun v o => o <| Network := v |>);
  always "nonce" (array_ 32) Nonce (fun v o => o <| Nonce := v |>);
  unlessZero "deadline" int64 Deadline (fun v o => o <| Deadline := v |>);
  always "name" text Name (fun v o => o <| Name := v |>);
  unlessEmpty "parent_name" text ParentName (fun v o => o <| ParentName := v |>);
  unlessZero "generation" uint64 Generation (fun v o => o <| Generation := v |>);
  unlessZero "expected_revision" uint64 ExpectedRevision (fun v o => o <| ExpectedRevision := v |>);
  unlessZero "parent_generation" uint64 ParentGeneration (fun v o => o <| ParentGeneration := v |>);
  unlessZero "parent_revision" uint64 ParentRevision (fun v o => o <| ParentRevision := v |>);
  unlessZero "child_generation" uint64 ChildGeneration (fun v o => o <| ChildGeneration := v |>);
  always "authority" (array_ 32) Authority (fun v o => o <| Authority := v |>);
  always "successor_authority" (array_ 32) SuccessorAuthority (fun v o => o <| SuccessorAuthority := v |>);
  always "target" (array_ 32) Target (fun v o => o <| Target := v |>);
  unlessZero "lease_not_after" int64 LeaseNotAfter (fun v o => o <| LeaseNotAfter := v |>);
  unlessZero "record_not_after" int64 RecordNotAfter (fun v o => o <| RecordNotAfter := v |>);
  unlessZero "policy_not_before" int64 PolicyNotBefore (fun v o => o <| PolicyNotBefore := v |>);
  unlessZero "recovery_not_before" int64 RecoveryNotBefore (fun v o => o <| RecoveryNotBefore := v |>);
  always "policy_id" (array_ 32) PolicyID (fun v o => o <| PolicyID := v |>);
  unlessEmpty "recovery_step" text RecoveryStep (fun v o => o <| RecoveryStep := v |>);
  unlessEmpty "ordering_proof" slice OrderingProof (fun v o => o <| OrderingProof := v |>);
  unlessEmpty "authority_proof" slice AuthorityProof (fun v o => o <| AuthorityProof := v |>);
  unlessEmpty "recovery_policy" slice RecoveryPolicy (fun v o => o <| RecoveryPolicy := v |>);
  unlessEmpty "recovery_proof" slice RecoveryProof (fun v o => o <| RecoveryProof := v |>);
  unlessEmpty "successor_record" slice SuccessorRecord (fun v o => o <| SuccessorRecord := v |>)].

Definition operationCodec : codec controlOperation := struct zeroOperation operationFields.

(** The recovery types as JSON: untagged fields, and slices that may be nil. *)
Record policyWire := MkPolicyWire {
  pw_policy : recovery.RecoveryPolicy;
  pw_Participants : option (list (array 32))
}.

#[global] Instance eta_policy : Eta recovery.RecoveryPolicy := fun p =>
  recovery.MkPolicy p.(recovery.Network) p.(recovery.Name) p.(recovery.Generation) p.(recovery.Revision)
    p.(recovery.CurrentAuthority) p.(recovery.Threshold) p.(recovery.Participants) p.(recovery.Delay).
#[global] Instance eta_policyWire : Eta policyWire := fun w => MkPolicyWire w.(pw_policy) w.(pw_Participants).

Definition zeroPolicy : recovery.RecoveryPolicy := recovery.MkPolicy zero32 [] 0 0 zero32 0 [] 0.

Definition policyField {A} (name : string) (c : codec A) (get : recovery.RecoveryPolicy -> A)
  (put : A -> recovery.RecoveryPolicy -> recovery.RecoveryPolicy) : field policyWire :=
  Field name (fun _ => false) c (fun w => get w.(pw_policy)) (fun v w => w <| pw_policy := put v w.(pw_policy) |>).

Definition policyFields : list (field policyWire) := [
  policyField "Network" (array_ 32) recovery.Network (fun v p => p <| recovery.Network := v |>);
  policyField "Name" text recovery.Name (fun v p => p <| recovery.Name := v |>);
  policyField "Generation" uint64 recovery.Generation (fun v p => p <| recovery.Generation := v |>);
  policyField "Revision" uint64 recovery.Revision (fun v p => p <| recovery.Revision := v |>);
  policyField "CurrentAuthority" (array_ 32) recovery.CurrentAuthority (fun v p => p <| recovery.CurrentAuthority := v |>);
  policyField "Threshold" uint8 recovery.Threshold (fun v p => p <| recovery.Threshold := v |>);
  Field "Participants" (fun _ => false) (nullable (list_ (array_ 32))) pw_Participants
    (fun v w => w <| pw_Participants := v |>);
  policyField "Delay" int64 recovery.Delay (fun v p => p <| recovery.Delay := v |>)].

Definition policyCodec : codec policyWire := struct (MkPolicyWire zeroPolicy None) policyFields.

Definition policyOf (w : policyWire) : recovery.RecoveryPolicy :=
  w.(pw_policy) <| recovery.Participants := default [] w.(pw_Participants) |>.

Record signatureWire := MkSignatureWire { sw_Signer : array 32; sw_Bytes : option bytes }.
#[global] Instance eta_signatureWire : Eta signatureWire := fun w => MkSignatureWire w.(sw_Signer) w.(sw_Bytes).

Definition signatureCodec : codec signatureWire :=
  struct (MkSignatureWire zero32 None) [
    Field "Signer" (fun _ => false) (array_ 32) sw_Signer (fun v w => w <| sw_Signer := v |>);
    Field "Bytes" (fun _ => false) (nullable slice) sw_Bytes (fun v w => w <| sw_Bytes := v |>)].

Record recoveryProofWire := MkRecoveryProofWire {
  rw_Operation : gostring;
  rw_PolicyDigest : array 32;
  rw_OperationID : array 32;
  rw_Successor : array 32;
  rw_StartedAt : Z;
  rw_CompletesAt : Z;
  rw_Signatures : option (list signatureWire)
}.

#[global] Instance eta_recoveryProofWire : Eta recoveryProofWire := fun w =>
  MkRecoveryProofWire w.(rw_Operation) w.(rw_PolicyDigest) w.(rw_OperationID) w.(rw_Successor) w.(rw_StartedAt)
    w.(rw_CompletesAt) w.(rw_Signatures).

Definition zeroRecoveryProof : recoveryProofWire := MkRecoveryProofWire [] zero32 zero32 zero32 0 0 None.

Definition recoveryProofCodec : codec recoveryProofWire :=
  struct zeroRecoveryProof [
    Field "Operation" (fun _ => false) text rw_Operation (fun v w => w <| rw_Operation := v |>);
    Field "PolicyDigest" (fun _ => false) (array_ 32) rw_PolicyDigest (fun v w => w <| rw_PolicyDigest := v |>);
    Field "OperationID" (fun _ => false) (array_ 32) rw_OperationID (fun v w => w <| rw_OperationID := v |>);
    Field "Successor" (fun _ => false) (array_ 32) rw_Successor (fun v w => w <| rw_Successor := v |>);
    Field "StartedAt" (fun _ => false) int64 rw_StartedAt (fun v w => w <| rw_StartedAt := v |>);
    Field "CompletesAt" (fun _ => false) int64 rw_CompletesAt (fun v w => w <| rw_CompletesAt := v |>);
    Field "Signatures" (fun _ => false) (nullable (list_ signatureCodec)) rw_Signatures
      (fun v w => w <| rw_Signatures := v |>)].

Definition recoveryProofOf (w : recoveryProofWire) : recovery.RecoveryProof :=
  recovery.MkProof w.(rw_Operation) w.(rw_PolicyDigest) w.(rw_OperationID) w.(rw_Successor) w.(rw_StartedAt)
    w.(rw_CompletesAt) (map (fun s => recovery.MkSignature s.(sw_Signer) (default [] s.(sw_Bytes))) (default [] w.(rw_Signatures))).

Record recoveryEnvelope := MkEnvelope { env_Policy : policyWire; env_Proof : recoveryProofWire }.
#[global] Instance eta_envelope : Eta recoveryEnvelope := fun w => MkEnvelope w.(env_Policy) w.(env_Proof).

Definition envelopeCodec : codec recoveryEnvelope :=
  struct (MkEnvelope (MkPolicyWire zeroPolicy None) zeroRecoveryProof) [
    Field "policy" (fun _ => false) policyCodec env_Policy (fun v w => w <| env_Policy := v |>);
    Field "proof" (fun _ => false) recoveryProofCodec env_Proof (fun v w => w <| env_Proof := v |>)].

(** ** Signing requests, controls and intents *)

Record TransitionSigningRequest := MkTransitionRequest {
  request_authority : array 32;
  request_generation : Z;
  request_revision : Z;
  request_transcript : bytes
}.

(** The interface with its two methods. *)
Record ControlSigner := MkControlSigner {
  SignTransition_ : TransitionSigningRequest -> result bytes;
  SignRecord_ : recordcodec.RecordSigningRequest -> result bytes
}.

(** [store = None] is the volatile control of the evidence runner. *)
Record control := MkControl {
  network : array 32;
  gate : admission.Admission;
  order : claim.ClaimOrder;
  records : gmap gostring record.NameRecord;
  policy : record.Policy;
  store : option store.Store
}.

#[global] Instance eta_control : Eta control := fun c =>
  MkControl c.(network) c.(gate) c.(order) c.(records) c.(policy) c.(store).

Record Intent := MkIntent { intent_raw : bytes; intent_digest : array 32 }.

Section Authority.
Context `{GoLib}.

(** ** authority_control.go: digests and durations *)

Definition controlOperationDigest (raw : bytes) : array 32 :=
  sha256 ((str "ardents-name-control-operation-v1" ++ [x00]) ++ raw).

Definition durationUntil (now notAfter : Z) : Z := i64 (i64 (notAfter - UnixMilli now) * Millisecond).

(** ** authority_validation.go *)

Definition validExistingControl (value : controlOperation) : bool :=
  (0 <? value.(Generation)) && (0 <? value.(ExpectedRevision)).

(** The fields every kind keeps. *)
Definition expectedBase (value : controlOperation) : controlOperation :=
  zeroOperation <| Kind := value.(Kind) |> <| SigningMode := value.(SigningMode) |>
    <| OperationDigest := value.(OperationDigest) |> <| Name := value.(Name) |>.

Definition expectedExisting (value : controlOperation) : controlOperation :=
  (expectedBase value) <| Generation := value.(Generation) |> <| ExpectedRevision := value.(ExpectedRevision) |>.

(** The switch over the kind: the value with only the fields of its kind, or
    [None] where a required one is missing. *)
Definition expectedOperation (value : controlOperation) : option controlOperation :=
  let kind := value.(Kind) in
  if kind ==? str "claim" then
    if (value.(Generation) =? 0) || (value.(Authority) ==? zero32) || (value.(LeaseNotAfter) <=? 0) ||
       (len value.(OrderingProof) =? 0)
    then None
    else Some ((expectedBase value) <| Generation := value.(Generation) |> <| Authority := value.(Authority) |>
                 <| LeaseNotAfter := value.(LeaseNotAfter) |> <| OrderingProof := value.(OrderingProof) |>)
  else if kind ==? str "renew" then
    if negb (validExistingControl value) || (value.(LeaseNotAfter) <=? 0) || (len value.(AuthorityProof) =? 0)
    then None
    else Some ((expectedExisting value) <| LeaseNotAfter := value.(LeaseNotAfter) |>
                 <| AuthorityProof := value.(AuthorityProof) |>)
  else if kind ==? str "record" then
    if negb (validExistingControl value) || (value.(Target) ==? zero32) || (value.(RecordNotAfter) <=? 0) ||
       (len value.(AuthorityProof) =? 0)
    then None
    else Some ((expectedExisting value) <| Target := value.(Target) |> <| RecordNotAfter := value.(RecordNotAfter) |>
                 <| AuthorityProof := value.(AuthorityProof) |>)
  else if kind ==? str "release" then
    if negb (validExistingControl value) || (len value.(AuthorityProof) =? 0) then None
    else Some ((expectedExisting value) <| AuthorityProof := value.(AuthorityProof) |>)
  else if kind ==? str "transfer" then
    if negb (validExistingControl value) || (value.(SuccessorAuthority) ==? zero32) || (len value.(AuthorityProof) =? 0)
    then None
    else Some ((expectedExisting value) <| SuccessorAuthority := value.(SuccessorAuthority) |>
                 <| AuthorityProof := value.(AuthorityProof) |>)
  else if kind ==? str "delegate" then
    if match Parse value.(ParentName) with Err _ => true | Ok parent => parent !=? value.(ParentName) end ||
       (value.(ParentGeneration) =? 0) || (value.(ParentRevision) =? 0) || (value.(ChildGeneration) =? 0) ||
       (value.(Authority) ==? zero32) || (value.(LeaseNotAfter) <=? 0) || (len value.(AuthorityProof) =? 0)
    then None
    else Some ((expectedBase value) <| ParentName := value.(ParentName) |> <| ParentGeneration := value.(ParentGeneration) |>
                 <| ParentRevision := value.(ParentRevision) |> <| ChildGeneration := value.(ChildGeneration) |>
                 <| Authority := value.(Authority) |> <| LeaseNotAfter := value.(LeaseNotAfter) |>
                 <| AuthorityProof := value.(AuthorityProof) |>)
  else if kind ==? str "policy" then
    if negb (validExistingControl value) || (value.(PolicyNotBefore) <=? 0) || (len value.(AuthorityProof) =? 0)
    then None
    else Some ((expectedExisting value) <| PolicyNotBefore := value.(PolicyNotBefore) |>
                 <| RecoveryPolicy := value.(RecoveryPolicy) |> <| AuthorityProof := value.(AuthorityProof) |>)
  else if kind ==? str "recovery" then
    if negb (validExistingControl value) || (value.(PolicyID) ==? zero32) || (value.(RecoveryNotBefore) <=? 0)
    then None
    else
      let expected := (expectedExisting value) <| PolicyID := value.(PolicyID) |>
                        <| RecoveryStep := value.(RecoveryStep) |> <| RecoveryNotBefore := value.(RecoveryNotBefore) |> in
      let step := value.(RecoveryStep) in
      if (step ==? str "initiate") || (step ==? str "cancel") || (step ==? str "complete") then
        if len value.(RecoveryProof) =? 0 then None
        else Some (expected <| RecoveryProof := value.(RecoveryProof) |>)
      else if step ==? str "resume" then
        if (value.(Target) ==? zero32) || (value.(RecordNotAfter) <=? 0) || (len value.(AuthorityProof) =? 0) then None
        else Some (expected <| Target := value.(Target) |> <| RecordNotAfter := value.(RecordNotAfter) |>
                     <| AuthorityProof := value.(AuthorityProof) |>)
      else None
  else None.

(** A decoded slice is nil or non-empty, so [reflect.DeepEqual] is equality. *)
Definition validControlOperation (value : controlOperation) : bool :=
  match Parse value.(Name) with
  | Err _ => false
  | Ok name =>
      if (name !=? value.(Name)) || (value.(OperationDigest) ==? zero32) ||
         (2 * 2 ^ 10 <? len value.(OrderingProof)) || (2 * 2 ^ 10 <? len value.(AuthorityProof)) ||
         (2 * 2 ^ 10 <? len value.(RecoveryPolicy)) || (2 * 2 ^ 10 <? len value.(RecoveryProof))
      then false
      else if (value.(SigningMode) !=? []) && (value.(SigningMode) !=? custodyDerivedSigningMode) then false
      else
        match expectedOperation value with
        | None => false
        | Some expected =>
            if 64 * 2 ^ 10 <? len value.(SuccessorRecord) then false
            else
              let expected := if 0 <? len value.(SuccessorRecord)
                              then expected <| SuccessorRecord := value.(SuccessorRecord) |> else expected in
              value ==? expected
        end
  end.

(** ** authority_operation.go: operations *)

Definition canonicalControlDigest (value : controlOperation) : array 32 :=
  let value := value <| OperationDigest := zero32 |> in
  let value := if value.(SigningMode) ==? custodyDerivedSigningMode
               then value <| AuthorityProof := [] |> <| SuccessorRecord := [] |> else value in
  controlOperationDigest (Marshal operationCodec value).

Definition decodeControlOperation (raw : bytes) : result controlOperation :=
  let invalid := New "name Authority operation is invalid" in
  reject invalid when ((len raw =? 0) || (16 * 2 ^ 10 <? len raw));
  match decodeCanonical operationCodec raw with
  | None => Err invalid
  | Some value =>
      reject invalid
        when ((value.(Network) !=? zero32) || (value.(Nonce) !=? zero32) || negb (value.(Deadline) =? 0) ||
              (value.(OperationDigest) ==? zero32));
      reject (New "name Authority operation digest is invalid")
        when (value.(OperationDigest) !=? canonicalControlDigest value);
      reject (New "name Authority operation shape is invalid") when (negb (validControlOperation value));
      Ok value
  end.

Definition OpenSubmission (raw : bytes) : result Submission :=
  operation ← decodeControlOperation raw;
  Ok (MkSubmission raw operation.(OperationDigest)).

Definition MatchesSignatures (submission : Submission) (transition successor : bytes) : bool :=
  match decodeControlOperation submission.(raw) with
  | Err _ => false
  | Ok operation =>
      (operation.(SigningMode) ==? custodyDerivedSigningMode) && (operation.(AuthorityProof) ==? transition) &&
      (64 <=? len operation.(SuccessorRecord)) &&
      (drop (Z.to_nat (len operation.(SuccessorRecord) - 64)) operation.(SuccessorRecord) ==? successor)
  end.

Definition authorityBytes (encoded : gostring) : array 32 := to_array 32 (hex_DecodePrefix encoded).

(** The policy case: the digest and delay of the new policy, or the delay of
    the one being disabled. *)
Definition policyChange (operation : controlOperation) (network : array 32) (current : record.NameRecord) (op : record.Op)
  : result record.Op :=
  if len operation.(RecoveryPolicy) =? 0 then
    reject (New "recovery Policy disable is invalid")
      when ((current.(record.RecoveryPolicy) ==? zero32) || (current.(record.RecoveryPolicyDelay) <=? 0));
    Ok (op <| record.op_PolicyDelay := i64 (current.(record.RecoveryPolicyDelay) * Millisecond) |>)
  else
    let invalid := New "recovery Policy is invalid" in
    match decodeCanonical policyCodec operation.(RecoveryPolicy) with
    | None => Err invalid
    | Some wire =>
        let policy := policyOf wire in
        reject invalid
          when ((policy.(recovery.Network) !=? network) || (policy.(recovery.Name) !=? current.(record.Name)) ||
                negb (policy.(recovery.Generation) =? current.(record.Generation)) ||
                negb (policy.(recovery.Revision) =? op.(record.op_PolicyRevision)) ||
                (policy.(recovery.CurrentAuthority) !=? authorityBytes current.(record.Authority)));
        let digest := recovery.Digest policy in
        reject (New "recovery policy participants are invalid") when (digest ==? zero32);
        Ok (op <| record.op_PolicyDigest := digest |> <| record.op_PolicyDelay := policy.(recovery.Delay) |>)
    end.

(** The recovery case after the resume step. *)
Definition recoveryChange (operation : controlOperation) (network : array 32) (current : record.NameRecord) (now : Z)
  (op : record.Op) : result (record.Op * bool) :=
  match decodeCanonical envelopeCodec operation.(RecoveryProof) with
  | None => Err (New "recovery proof is invalid")
  | Some envelope =>
      let policy := policyOf envelope.(env_Policy) in
      reject (New "recovery proof is invalid")
        when ((policy.(recovery.Network) !=? network) || (policy.(recovery.Name) !=? current.(record.Name)) ||
              (recovery.Digest policy !=? operation.(PolicyID)));
      authorization ← recovery.Authorize policy (recoveryProofOf envelope.(env_Proof));
      let step := operation.(RecoveryStep) in
      kind ←
        (if step ==? str "initiate" then
           reject (New "recovery initiation boundary is invalid")
             when ((authorization.(recovery.Operation) !=? str "initiate") ||
                   negb (operation.(RecoveryNotBefore) =? authorization.(recovery.StartedAt)));
           Ok (str "start-recovery")
         else if step ==? str "cancel" then
           reject (New "recovery cancellation boundary is invalid")
             when ((authorization.(recovery.Operation) !=? str "cancel") ||
                   negb (operation.(RecoveryNotBefore) =? UnixMilli now));
           Ok (str "cancel-recovery")
         else if step ==? str "complete" then
           reject (New "recovery completion boundary is invalid")
             when ((authorization.(recovery.Operation) !=? str "initiate") ||
                   negb (operation.(RecoveryNotBefore) =? authorization.(recovery.CompletesAt)) ||
                   (UnixMilli now <? authorization.(recovery.CompletesAt)));
           Ok (str "complete-recovery")
         else Err (New "recovery step is invalid"));
      Ok (op <| record.op_Kind := kind |> <| record.op_RecoveryAuthorization := authorization |>, true)
  end.

Definition lifecycle (operation : controlOperation) (network : array 32) (current : record.NameRecord) (now : Z)
  : result (record.Op * bool) :=
  let op := record.zeroOp <| record.op_Name := operation.(Name) |>
              <| record.op_ExpectedGeneration := operation.(Generation) |>
              <| record.op_ExpectedRevision := operation.(ExpectedRevision) |>
              <| record.op_Authority := current.(record.Authority) |> in
  let kind := operation.(Kind) in
  let checked (op : record.Op) : result (record.Op * bool) :=
    reject (New "name Authority operation timing is invalid")
      when ((op.(record.op_Kind) ==? []) ||
            ((op.(record.op_Kind) ==? str "renew") && (op.(record.op_LeaseDuration) <=? 0)));
    Ok (op, false) in
  if kind ==? str "renew" then
    checked (op <| record.op_Kind := str "renew" |>
               <| record.op_LeaseDuration := durationUntil now operation.(LeaseNotAfter) |>)
  else if kind ==? str "record" then
    reject (New "name Record expiry is invalid") when (operation.(RecordNotAfter) <=? UnixMilli now);
    checked (op <| record.op_Kind := str "publish" |> <| record.op_Target := operation.(Target) |>
               <| record.op_RecordNotAfter := operation.(RecordNotAfter) |>)
  else if kind ==? str "release" then checked (op <| record.op_Kind := str "release" |>)
  else if kind ==? str "transfer" then
    checked (op <| record.op_Kind := str "transfer" |>
               <| record.op_SuccessorAuthority := hex_EncodeToString operation.(SuccessorAuthority) |>)
  else if kind ==? str "policy" then
    let op := op <| record.op_Kind := str "schedule-recovery-policy" |>
                <| record.op_PolicyRevision := u64 (current.(record.RecoveryPolicyRev) + 1) |> in
    op ← policyChange operation network current op;
    let op := op <| record.op_PolicyActivatesAt := operation.(PolicyNotBefore) |> in
    reject (New "recovery Policy activation is invalid")
      when (negb (operation.(PolicyNotBefore) =? UnixMilli (Add now op.(record.op_PolicyDelay))));
    checked op
  else if kind ==? str "recovery" then
    reject (New "recovery Policy identifier is stale") when (operation.(PolicyID) !=? current.(record.RecoveryPolicy));
    if operation.(RecoveryStep) ==? str "resume" then
      reject (New "recovery resume is premature")
        when ((UnixMilli now <? operation.(RecoveryNotBefore)) || (operation.(RecordNotAfter) <=? UnixMilli now));
      Ok (op <| record.op_Kind := str "resume-recovery" |> <| record.op_Target := operation.(Target) |>
            <| record.op_RecordNotAfter := operation.(RecordNotAfter) |>, false)
    else recoveryChange operation network current now op
  else Err (New "name Authority operation is unavailable").

Definition surface (operation : controlOperation) : gostring :=
  if operation.(Kind) ==? str "claim" then str "root-claim"
  else if (operation.(Kind) ==? str "policy") || (operation.(Kind) ==? str "recovery") then str "policy-recovery"
  else str "renewal-update".

(** ** authority_transition.go *)

Definition transitionDomain : gostring := str "ardents-name-authority-transition-v1".

Definition appendTransitionBytes (out value : bytes) : bytes := AppendUint64 out (len value) ++ value.
Definition appendTransitionText (out : bytes) (value : gostring) : bytes := appendTransitionBytes out value.

Definition supportedTransition (current : record.NameRecord) (op : record.Op) : bool :=
  let kind := op.(record.op_Kind) in
  if (kind ==? str "renew") || (kind ==? str "release") || (kind ==? str "publish") || (kind ==? str "rotate") ||
     (kind ==? str "transfer") || (kind ==? str "schedule-recovery-policy") || (kind ==? str "resume-recovery")
  then current.(record.Name) ==? op.(record.op_Name)
  else if kind ==? str "claim" then
    match op.(record.op_Parents) with
    | parent :: _ => (parent ==? current) && (current.(record.Name) !=? op.(record.op_Name))
    | [] => false
    end
  else false.

Definition transitionSurface (kind : gostring) : option gostring :=
  if (kind ==? str "claim") || (kind ==? str "renew") || (kind ==? str "release") || (kind ==? str "publish") ||
     (kind ==? str "rotate") || (kind ==? str "transfer")
  then Some (str "renewal-update")
  else if (kind ==? str "schedule-recovery-policy") || (kind ==? str "start-recovery") ||
          (kind ==? str "cancel-recovery") || (kind ==? str "complete-recovery") || (kind ==? str "resume-recovery")
  then Some (str "policy-recovery")
  else None.

Definition recoveryThresholdTransition (kind : gostring) : bool :=
  (kind ==? str "start-recovery") || (kind ==? str "cancel-recovery") || (kind ==? str "complete-recovery").

Definition transitionTranscript (network : array 32) (current : record.NameRecord) (op : record.Op) : result bytes :=
  match recordcodec.EncodeRecord current with
  | Err _ => Err (New "current Name Record is invalid")
  | Ok currentWire =>
      let out := appendTransitionText [] transitionDomain in
      let out := out ++ network in
      let out := appendTransitionBytes out currentWire in
      let out := appendTransitionText out op.(record.op_Kind) in
      let out := appendTransitionText out op.(record.op_Name) in
      let out := AppendUint64 out op.(record.op_Generation) in
      let out := AppendUint32 out op.(record.op_ClaimOrdinal) in
      let out := AppendUint64 out op.(record.op_ExpectedGeneration) in
      let out := AppendUint64 out op.(record.op_ExpectedRevision) in
      let out := appendTransitionText out op.(record.op_Authority) in
      let out := appendTransitionText out op.(record.op_SuccessorAuthority) in
      let out := out ++ op.(record.op_Target) in
      let out := AppendUint64 out op.(record.op_RecordNotAfter) in
      let out := AppendUint64 out op.(record.op_LeaseDuration) in
      let out := AppendUint64 out op.(record.op_GraceDuration) in
      let out := appendTransitionText out op.(record.op_ConflictContext) in
      let out := out ++ op.(record.op_PolicyDigest) in
      let out := AppendUint64 out op.(record.op_PolicyRevision) in
      let out := AppendUint64 out (Milliseconds op.(record.op_PolicyDelay)) in
      let out := AppendUint64 out op.(record.op_PolicyActivatesAt) in
      let authorization := op.(record.op_RecoveryAuthorization) in
      let out := appendTransitionText out authorization.(recovery.Operation) in
      let out := out ++ authorization.(recovery.PolicyDigest) in
      let out := AppendUint64 out authorization.(recovery.PolicyRevision) in
      let out := out ++ authorization.(recovery.OperationID) in
      let out := out ++ authorization.(recovery.Successor) in
      let out := AppendUint64 out authorization.(recovery.StartedAt) in
      let out := AppendUint64 out authorization.(recovery.CompletesAt) in
      Ok (out ++ [byte_of authorization.(recovery.ValidSigners)])
  end.

Definition newTransitionSigningRequest (network : array 32) (current : record.NameRecord) (op : record.Op)
  : result TransitionSigningRequest :=
  let invalid := New "invalid Name Authority transition signer or operation" in
  reject invalid when ((network ==? zero32) || negb (supportedTransition current op));
  match recordcodec.AuthorityKey current.(record.Authority) with
  | Err _ => Err invalid
  | Ok public =>
      transcript ← transitionTranscript network current op;
      Ok (MkTransitionRequest (to_array 32 public) current.(record.Generation) current.(record.Revision) transcript)
  end.

Definition seal (request : TransitionSigningRequest) (signature : bytes) : result bytes :=
  reject (New "invalid Name Authority transition signature")
    when ((len request.(request_transcript) =? 0) || negb (len signature =? 64) ||
          negb (ed25519_Verify request.(request_authority) request.(request_transcript) signature));
  Ok signature.

Definition SignTransitionWith (network : array 32) (current : record.NameRecord) (op : record.Op)
  (signer : option (TransitionSigningRequest -> result bytes)) : result bytes :=
  match signer with
  | None => Err (New "invalid Name Authority transition signer or operation")
  | Some sign =>
      request ← newTransitionSigningRequest network current op;
      signature ← sign request;
      seal request signature
  end.

(** [directTransitionSigner]; the public half of a private key is its tail. *)
Definition directTransitionSigner (private : bytes) (request : TransitionSigningRequest) : result bytes :=
  reject (New "invalid Name Authority transition signer") when (negb (len private =? 64));
  let actual := to_array 32 (drop 32 private) in
  reject (New "invalid Name Authority transition signer") when (actual !=? request.(request_authority));
  Ok (ed25519_Sign private request.(request_transcript) : bytes).

Definition SignTransition (network : array 32) (current : record.NameRecord) (op : record.Op) (private : bytes)
  : result bytes :=
  reject (New "invalid Name Authority transition signer or operation") when (negb (len private =? 64));
  SignTransitionWith network current op (Some (directTransitionSigner private)).

Definition TransitionDigest (network : array 32) (current : record.NameRecord) (op : record.Op) : result (array 32) :=
  transcript ← transitionTranscript network current op;
  Ok (sha256 transcript).

Definition applyTransition (network : array 32) (current : record.NameRecord) (op : record.Op) (proof : bytes) (now : Z)
  (policy : record.Policy) : result record.NameRecord :=
  match recordcodec.AuthorityKey current.(record.Authority) with
  | Err _ => Err (New "invalid Name Authority transition proof")
  | Ok public =>
      reject (New "invalid Name Authority transition proof")
        when (negb (len proof =? 64) || negb (supportedTransition current op));
      match transitionTranscript network current op with
      | Err _ => Err (New "invalid Name Authority transition signature")
      | Ok transcript =>
          reject (New "invalid Name Authority transition signature")
            when (negb (ed25519_Verify public transcript proof));
          if op.(record.op_Kind) ==? str "claim" then record.ApplyLegacy None now op policy
          else record.ApplyLegacy (Some current) now op policy
      end
  end.

(** The gate is shared: the result carries it as the call leaves it. *)
Definition ApplyAdmittedTransition (gate : option admission.Admission) (admissionProof : admission.Proof)
  (admissionAt : Z) (admissionDigest network : array 32) (current : record.NameRecord) (op : record.Op) (proof : bytes)
  (now : Z) (policy : record.Policy) : option admission.Admission * result record.NameRecord :=
  let invalid := Err (New "invalid Name Authority transition admission") in
  let challenge := admissionProof.(admission.proof_Challenge) in
  match TransitionDigest network current op, transitionSurface op.(record.op_Kind), gate with
  | Ok _, Some surface, Some g =>
      if (challenge.(admission.Surface) !=? surface) || (admissionDigest ==? zero32) ||
         (challenge.(admission.OperationDigest) !=? admissionDigest)
      then (gate, invalid)
      else
        let '(g, (accepted, _)) := admission.Verify g admissionAt admissionProof in
        (Some g,
         if negb accepted then Err (New "denied Name Authority transition admission")
         else if recoveryThresholdTransition op.(record.op_Kind) then
           reject (New "recovery transition contains an authority bypass")
             when (negb (len proof =? 0) || (op.(record.op_Authority) !=? []));
           record.ApplyLegacy (Some current) now op policy
         else applyTransition network current op proof now policy)
  | _, _, _ => (gate, invalid)
  end.

(** ** authority_control.go *)

(** The walk to the root.  At most 126 parents are taken, so 127 rounds reach
    the end of every chain that is not refused. *)
Fixpoint lineageFrom (fuel : nat) (known : gmap gostring record.NameRecord) (seen : list gostring)
  (parents : list record.NameRecord) (current : record.NameRecord) : result (list record.NameRecord) :=
  if current.(record.ParentName) ==? [] then Ok parents
  else
    match fuel with
    | O => Err (New "name Authority parent lineage is invalid")
    | S fuel =>
        reject (New "name Authority parent lineage is invalid")
          when ((126 <=? len parents) || bool_decide (current.(record.ParentName) ∈ seen));
        match known !! current.(record.ParentName) with
        | None => Err (New "name Authority parent lineage is unavailable")
        | Some parent =>
            reject (New "name Authority parent lineage is unavailable")
              when (negb (parent.(record.Generation) =? current.(record.ParentGeneration)));
            reject (New "name Authority parent lineage is invalid") when (is_err (record.Validate parent));
            lineageFrom fuel known (parent.(record.Name) :: seen) (parents ++ [parent]) parent
        end
    end.

Definition lineage (control : control) (currentRecord : record.NameRecord) (now : Z) : result (list record.NameRecord) :=
  parents ← lineageFrom 127 control.(records) [currentRecord.(record.Name)] [] currentRecord;
  match record.ValidateParents currentRecord.(record.Name) parents (Unix now) with
  | Err _ => Err (New "name Authority parent lineage is not resolvable")
  | Ok _ => Ok parents
  end.

Definition existing (control : control) (operation : controlOperation) (current : record.NameRecord) (now : Z)
  : result record.NameRecord :=
  step ← lifecycle operation control.(network) current now;
  let '(op, threshold) := (step : record.Op * bool) in
  parents ← lineage control current now;
  let op := op <| record.op_Parents := parents |> in
  if threshold then record.ApplyAtLegacy (Some current) now op control.(policy)
  else applyTransition control.(network) current op operation.(AuthorityProof) (Unix now) control.(policy).

Definition delegate (control : control) (operation : controlOperation) (now : Z) : result record.NameRecord :=
  match control.(records) !! operation.(ParentName) with
  | None => Err (New "parent authority predecessor is unavailable")
  | Some parent =>
      reject (New "parent authority predecessor is unavailable")
        when (negb (parent.(record.Generation) =? operation.(ParentGeneration)) ||
              negb (parent.(record.Revision) =? operation.(ParentRevision)));
      parents ← lineage control parent now;
      let op := record.zeroOp <| record.op_Kind := str "claim" |> <| record.op_Name := operation.(Name) |>
                  <| record.op_Generation := operation.(ChildGeneration) |>
                  <| record.op_Authority := hex_EncodeToString operation.(Authority) |>
                  <| record.op_Parents := parent :: parents |>
                  <| record.op_LeaseDuration := durationUntil now operation.(LeaseNotAfter) |> in
      applyTransition control.(network) parent op operation.(AuthorityProof) (Unix now) control.(policy)
  end.

(** A nil proof asks [CanonicalProof] to encode the zero proof instead of
    decoding one. *)
Definition zeroClaimProof : claim.ClaimProof :=
  claim.MkClaimProof zero32 0 [] 0 zero32 0 zero32 0 zero32 0 0 [] [] [] [] [].

Definition claim_ (control : control) (operation : controlOperation) (predecessor : option record.NameRecord) (now : Z)
  : result record.NameRecord :=
  let encoded := if operation.(OrderingProof) ==? [] then None else Some operation.(OrderingProof) in
  match claimwire.CanonicalProof encoded (Some zeroClaimProof) with
  | Err _ => Err (New "root claim proof is invalid")
  | Ok (_, proof) =>
      match claim.OpenClaimWinner control.(order) proof with
      | Err _ => Err (New "root claim ordering is unavailable")
      | Ok winner =>
          match (claim.Materialize (Some winner) predecessor now control.(policy)).2 with
          | Err _ => Err (New "root claim materialization is unavailable")
          | Ok updated =>
              reject (New "root claim materialization is unavailable")
                when ((updated.(record.Name) !=? operation.(Name)) ||
                      (updated.(record.Authority) !=? hex_EncodeToString operation.(Authority)));
              Ok updated
          end
      end
  end.

Definition transitionAt (control : control) (operation : controlOperation) (now : Z) : result record.NameRecord :=
  let current := control.(records) !! operation.(Name) in
  let kind := operation.(Kind) in
  if kind ==? str "claim" then claim_ control operation current now
  else if kind ==? str "delegate" then delegate control operation now
  else if (kind ==? str "renew") || (kind ==? str "record") || (kind ==? str "release") || (kind ==? str "transfer") ||
          (kind ==? str "policy") || (kind ==? str "recovery")
  then
    match current with
    | None => Err (New "name Authority predecessor is unavailable")
    | Some current => existing control operation current now
    end
  else Err (New "name Authority operation is unavailable").

Definition exactSignedSuccessor (control : control) (updated : record.NameRecord) (signed : bytes) : bool :=
  match recordcodec.VerifyRecord control.(network) signed with
  | Err _ => false
  | Ok decoded =>
      match recordcodec.EncodeRecord updated, recordcodec.EncodeRecord decoded with
      | Ok updatedWire, Ok recordWire => updatedWire ==? recordWire
      | _, _ => false
      end
  end.

(** *** The volatile control *)

Fixpoint evidenceRecords (values : gmap gostring record.NameRecord) (input : list record.NameRecord)
  : result (gmap gostring record.NameRecord) :=
  match input with
  | [] => Ok values
  | value :: rest =>
      reject (New "name Authority control state is duplicated")
        when (bool_decide (is_Some (values !! value.(record.Name))));
      reject (New "name Authority control state is invalid") when (is_err (recordcodec.EncodeRecord value));
      evidenceRecords (<[value.(record.Name) := value]> values) rest
  end.

(** [clock] tells whether a clock is given. *)
Definition NewEvidenceControl (network : array 32) (gate : option admission.Admission) (order : claim.ClaimOrder)
  (input : list record.NameRecord) (clock : bool) (policy : record.Policy) : result control :=
  match gate with
  | None => Err (New "name Authority control configuration is invalid")
  | Some gate =>
      reject (New "name Authority control configuration is invalid") when ((network ==? zero32) || negb clock);
      values ← evidenceRecords ∅ input;
      Ok (MkControl network gate order values policy None)
  end.

Definition deniedControl : gostring * Z * Z * bytes := (str "denied", 0, 0, []).

(** Whether the challenge of a proof is for this operation on this network. *)
Definition bindsOperation (control : control) (operation : controlOperation) (proof : admission.Proof) : bool :=
  let challenge := proof.(admission.proof_Challenge) in
  (challenge.(admission.Network) ==? control.(network)) &&
  (challenge.(admission.OperationDigest) ==? operation.(OperationDigest)) &&
  (challenge.(admission.Surface) ==? surface operation).

(** The clock is read twice: [verifyAt] for the admission, [now] for the
    transition. *)
Definition ApplyEvidence (control : control) (raw : bytes) (proof : admission.Proof) (verifyAt now : Z)
  : authority.control * (gostring * Z * Z * bytes) :=
  match decodeControlOperation raw with
  | Err _ => (control, deniedControl)
  | Ok operation =>
      if negb (bindsOperation control operation proof) then (control, deniedControl)
      else
        let '(g, (accepted, _)) := admission.Verify control.(gate) (UnixMilli verifyAt) proof in
        let control := control <| gate := g |> in
        if negb accepted then (control, deniedControl)
        else
          match transitionAt control operation now with
          | Err _ => (control, deniedControl)
          | Ok updated =>
              match recordcodec.EncodeRecord updated with
              | Err _ => (control, deniedControl)
              | Ok state =>
                  (control <| records := <[updated.(record.Name) := updated]> control.(records) |>,
                   (str "accepted", updated.(record.Generation), updated.(record.Revision), state))
              end
          end
  end.

(** *** The durable control *)

(** The loop of [restore] over the entries after the cursor. *)
Fixpoint replay (control : control) (cursor : Z) (entries : list pending.pendingEntry) : result authority.control :=
  match entries with
  | [] => Ok control
  | entry :: rest =>
      if entry.(pending.sequence) <=? cursor then replay control cursor rest
      else
        match decodeControlOperation entry.(pending.submission) with
        | Err _ => Err (New "name Authority pending submission is invalid")
        | Ok operation =>
            reject (New "name Authority pending submission is invalid")
              when ((len operation.(SuccessorRecord) =? 0) || (operation.(SuccessorRecord) !=? entry.(pending.successor)));
            match transitionAt control operation (OfUnixMilli entry.(pending.decisionAt)) with
            | Err _ => Err (New "name Authority pending chain is invalid")
            | Ok updated =>
                reject (New "name Authority pending chain is invalid")
                  when (negb (exactSignedSuccessor control updated entry.(pending.successor)));
                replay (control <| records := <[updated.(record.Name) := updated]> control.(records) |>) cursor rest
            end
        end
  end.

(** The Records of the store replace those of the same Name. *)
Definition restore (control : control) (s : store.Store) : result authority.control :=
  match store.CurrentRecords s with
  | Err _ => Err (New "name Authority control state is tampered")
  | Ok (current, cursor) =>
      let control := control <| records := current ∪ control.(records) |> in
      entries ← store.Store_pending s;
      replay control cursor entries
  end.

Definition OpenControl (s : option store.Store) (gate : option admission.Admission) (order : claim.ClaimOrder) (clock : bool)
  (policy : record.Policy) : result control :=
  match s, gate with
  | Some s, Some gate =>
      reject (New "name Authority control configuration is invalid") when (negb clock);
      restore (MkControl s.(store.policy).(epoch.policy_Network) gate order ∅ policy (Some s)) s
  | _, _ => Err (New "name Authority control configuration is invalid")
  end.

(** The store after the actions of a call. *)
Definition after (s : store.Store) (acts : list disk.action) : store.Store :=
  store.MkStore (disk.MkRoot (disk.run acts s.(store.root).(disk.disk_of)) s.(store.root).(disk.closed)) s.(store.policy).

(** [stage] is the temporary name the journal picks.  The actions are those of
    the journal; the control that is returned has run them. *)
Definition Submit (control : control) (submission : Submission) (proof : admission.Proof) (now : Z) (stage : gostring)
  : list disk.action * authority.control * gostring :=
  let denied := str "denied" in
  match control.(store), decodeControlOperation submission.(raw) with
  | Some s, Ok operation =>
      if (submission.(digest) !=? operation.(OperationDigest)) || (len operation.(SuccessorRecord) =? 0) ||
         (operation.(Kind) ==? str "claim") || negb (bindsOperation control operation proof)
      then ([], control, denied)
      else
        let '(g, (accepted, _)) := admission.Verify control.(gate) (UnixMilli now) proof in
        let control := control <| gate := g |> in
        if negb accepted then ([], control, denied)
        else
          match transitionAt control operation now with
          | Err _ => ([], control, denied)
          | Ok updated =>
              if negb (exactSignedSuccessor control updated operation.(SuccessorRecord)) then ([], control, denied)
              else
                let '(acts, outcome) :=
                  store.Store_appendPending s operation.(Name) submission.(raw) operation.(SuccessorRecord)
                    (UnixMilli now) stage in
                let control := control <| store := Some (after s acts) |> in
                match outcome with
                | Err _ => (acts, control, denied)
                | Ok _ =>
                    (acts, control <| records := <[updated.(record.Name) := updated]> control.(records) |>,
                     str "submitted")
                end
          end
  | _, _ => ([], control, denied)
  end.

(** ** authority_intent.go *)

Definition validControlIntent (value : controlOperation) : bool :=
  if (value.(SigningMode) !=? custodyDerivedSigningMode) || negb (len value.(AuthorityProof) =? 0) ||
     negb (len value.(SuccessorRecord) =? 0)
  then false
  else
    let signed := value <| AuthorityProof := [x01] |> in
    let kind := value.(Kind) in
    if (kind ==? str "renew") || (kind ==? str "record") || (kind ==? str "release") || (kind ==? str "transfer") ||
       (kind ==? str "policy")
    then validControlOperation signed
    else if kind ==? str "recovery" then (value.(RecoveryStep) ==? str "resume") && validControlOperation signed
    else false.

(** The checks of [OpenIntent]; the intent keeps the input and the digest of
    the operation it decodes to. *)
Definition openIntent (raw : bytes) : result (Intent * controlOperation) :=
  let invalid := New "name Authority control intent is invalid" in
  reject invalid when ((len raw =? 0) || (16 * 2 ^ 10 <? len raw));
  match decodeCanonical operationCodec raw with
  | None => Err invalid
  | Some operation =>
      reject invalid
        when ((operation.(Network) !=? zero32) || (operation.(Nonce) !=? zero32) || negb (operation.(Deadline) =? 0) ||
              (operation.(SigningMode) !=? custodyDerivedSigningMode) || negb (len operation.(AuthorityProof) =? 0) ||
              negb (len operation.(SuccessorRecord) =? 0) || (operation.(OperationDigest) ==? zero32));
      reject (New "name Authority control intent digest is invalid")
        when (operation.(OperationDigest) !=? canonicalControlDigest operation);
      reject (New "name Authority control intent shape is invalid") when (negb (validControlIntent operation));
      Ok (MkIntent raw operation.(OperationDigest), operation)
  end.

Definition OpenIntent (raw : bytes) : result Intent :=
  '(intent, _) ← openIntent raw; Ok intent.

Definition decodeControlIntent (raw : bytes) : result controlOperation :=
  let invalid := New "name Authority control intent is invalid" in
  match OpenIntent raw with
  | Err _ => Err invalid
  | Ok intent =>
      reject invalid when (intent.(intent_raw) !=? raw);
      match decodeCanonical operationCodec raw with
      | None => Err invalid
      | Some operation => Ok operation
      end
  end.

Definition Intent_operation (intent : Intent) : result controlOperation :=
  match decodeControlIntent intent.(intent_raw) with
  | Err _ => Err (New "name Authority control intent is invalid")
  | Ok operation =>
      reject (New "name Authority control intent is invalid")
        when (operation.(OperationDigest) !=? intent.(intent_digest));
      Ok operation
  end.

(** ** authority_preparation.go *)

Definition Prepare (control : control) (intent : Intent) (signer : option ControlSigner) (now : Z) : result Submission :=
  match control.(store), signer with
  | Some _, Some signer =>
      operation ← Intent_operation intent;
      match control.(records) !! operation.(Name) with
      | None => Err (New "name Authority predecessor is unavailable")
      | Some current =>
          match lifecycle operation control.(network) current now with
          | Err _ => Err (New "name Authority control intent is unavailable")
          | Ok (op, threshold) =>
              reject (New "name Authority control intent is unavailable") when (threshold);
              parents ← lineage control current now;
              let op := op <| record.op_Parents := parents |> in
              proof ← SignTransitionWith control.(network) current op (Some signer.(SignTransition_));
              updated ← applyTransition control.(network) current op proof (Unix now) control.(policy);
              successor ← recordcodec.SignWith control.(network) updated (Some signer.(SignRecord_));
              let operation := operation <| AuthorityProof := proof |> <| SuccessorRecord := successor |> in
              let raw := Marshal operationCodec operation in
              match OpenSubmission raw with
              | Err _ => Err (New "name Authority prepared submission is invalid")
              | Ok submission =>
                  reject (New "name Authority prepared submission is invalid")
                    when (submission.(digest) !=? intent.(intent_digest));
                  Ok submission
              end
          end
      end
  | _, _ => Err (New "name Authority control preparation is unavailable")
  end.

End Authority.

End authority.
