(* ===== verification/EpochStoreProof.v ===== *)
(** * What the namespace store keeps

    The theorems about EpochStore.v: a committed snapshot is what [Store.load]
    returns afterwards, Epochs only grow over any sequence of commits, appends,
    crashes and reopenings, an installation never rolls a Name back, a proof
    that [Lookup] returns verifies, and what the 65th generation does to a root. *)

From S2P Require Import Prelude Wire GoLib GoTime Naming Recovery Record RecordLifecycle RecordCodec Admission Merkle Claim ClaimWinner EpochCodec EpochBuild EpochProof EpochDisk EpochDurable EpochJournal EpochStore.

Import epoch build disk pending store.

Section StoreProofs.
Context `{GoLib}.

(** ** Materialization is idempotent *)

Lemma verifyAll_complete network entries :
  Forall (fun e => recordcodec.VerifyRecord network e.(entry_signed) = Ok e.(entry_record)) entries ->
  verifyAll network (map entry_signed entries) = Ok entries.
Proof.
  induction 1 as [|e entries He Hall IH]; [done|]. cbn [map verifyAll]. rewrite He, IH. by destruct e.
Qed.

Lemma sortEntries_id entries :
  StronglySorted (fun a b => bytes_lt (nameOf a) (nameOf b)) entries -> sortEntries entries = entries.
Proof.
  induction 1 as [|x l Hs IH Hall]; [done|]. cbn [sortEntries foldr]. fold (sortEntries l). rewrite IH.
  destruct l as [|y l]; [done|]. apply Forall_cons in Hall as [Hxy _]. cbn [insertEntry]. unfold nameLess.
  destruct (bytes_ltb _ _) eqn:E; [|done]. exfalso. apply (bytes_lt_irrefl (nameOf x)). by transitivity (nameOf y).
Qed.

Lemma materializeRecords_idem network signed records leaves :
  materializeRecords network signed = Ok (records, leaves) ->
  materializeRecords network records = Ok (records, leaves).
Proof.
  intros Hm. destruct (materializeRecords_ok _ _ _ _ Hm) as (entries & byName & Hc).
  unfold materializeRecords in Hm. inv_ok. injection Hm as <- <-. goprop.
  apply verifyAll_ok in Hok as [Hsig Hall]. pose proof (sortEntries_perm a) as Hp.
  assert (len (map entry_signed (sortEntries a)) = len signed) as Hl.
  { unfold len. rewrite length_map, Hp, <- Hsig, length_map. done. }
  unfold materializeRecords. rewrite Hl, (proj2 (Z.eqb_neq _ _)), (proj2 (Z.ltb_ge _ _)) by done. cbn [orb].
  rewrite verifyAll_complete by (by rewrite Hp). cbn [mbind result_bind].
  assert (sortEntries (sortEntries a) = sortEntries a) as ->.
  { apply sortEntries_id. apply distinct_names; [apply sortEntries_sorted|].
    destruct (indexNames_ok (sortEntries a) [] (sortEntries a) ∅ a0) as [_ Hd]; [done|intros n i; by rewrite lookup_empty|done..]. }
  rewrite Hok0. cbn [mbind result_bind]. by rewrite Hok1.
Qed.

(** ** Snapshots *)

Definition ValidStore (s : Store) : Prop := validMaterializationPolicy s.(policy) = Ok s.(policy).

(** The machine widths of an Epoch's fields. *)
Record TypedEpoch (e : Epoch) : Prop := {
  ty_number : in_u64 e.(Number);
  ty_cutoff : in_i64 e.(CutoffOffset);
  ty_transitions : in_u32 e.(TransitionLength);
  ty_rejections : in_u32 e.(RejectionLength)
}.

Lemma validPolicy_bounds s :
  ValidStore s -> s.(policy).(policy_Rule) = materializationRule /\ 2 <= s.(policy).(Threshold) /\
  Z.of_nat (size s.(policy).(Authorities)) <= 16.
Proof. unfold ValidStore, validMaterializationPolicy. intros Hp. inv_ok. goprop. split_and!; [done|lia..]. Qed.

Lemma verifyAttestation_typed s e leaves ids sigs :
  let attested := MkAttested (statementOf s.(policy) e leaves) ids sigs in
  ValidStore s -> TypedEpoch e -> verifyAttestation s.(policy) attested = true -> TypedAttested attested.
Proof.
  intros attested Hs [Hn Hc Ht Hr] Hv. destruct (validPolicy_bounds s Hs) as (Hrule & Hth & Hsz).
  pose proof (verifyAttestation_true _ _ Hv) as (_ & Hle & Hf). unfold verifyAttestation in Hv.
  destruct (_ || _) eqn:E in Hv; [done|]. goprop. subst attested. cbn [stmt signerIDs signatures statementOf] in *.
  cbn in *. unfold len in *. constructor; cbn [stmt signerIDs signatures].
  - constructor; cbn; try done.
    + rewrite Hrule. by vm_compute.
    + unfold in_i64 in Hc. lia.
    + apply Z.mod_pos_bound. lia.
  - unfold len. lia.
  - lia.
  - clear -Hf. induction Hf as [|? ? ? ? (? & _ & _ & ? & _)]; constructor; done.
Qed.

(** What a generation made by [prepareGeneration] holds. *)
Lemma prepareGeneration_ok s e signed pend attest g :
  ValidStore s -> TypedEpoch e -> prepareGeneration s e signed pend attest = Ok g ->
  exists ids sigs records leaves current gens,
    let attested := MkAttested (statementOf s.(policy) e leaves) ids sigs in
    materializeRecords s.(policy).(policy_Network) signed = Ok (records, leaves) /\
    load s.(root) = Ok (current, gens) /\
    (current <> [] -> exists previous, Store_load s 0 = Ok previous /\
       previous.(snap_attested).(stmt).(epoch) < e.(Number)) /\
    g.(gen_Activate) = true /\ g.(gen_Pending) = pend /\ namespaceGenerationName g.(gen_Name) = true /\
    readSnapshot s.(policy) g.(gen_Name) 0 (inactive g) = Ok (MkSnapshot attested records leaves pend).
Proof.
  intros Hs He Hp. unfold prepareGeneration in Hp.
  destruct (materializeRecords _ _) as [[records leaves]|] eqn:Hm; [|done]. cbn [mbind result_bind] in Hp.
  destruct (attest _) as [[ids sigs]|] eqn:Ha; [|done].
  destruct (negb _) eqn:Hv; [done|]. apply negb_false_iff in Hv.
  destruct (load (root s)) as [[current gens]|] eqn:Hload; [|done]. inv_ok.
  exists ids, sigs, records, leaves, current, gens. cbn zeta.
  pose proof (verifyAttestation_typed s e leaves ids sigs Hs He Hv) as Ht.
  assert (u32 (len leaves) = recordLength (statementOf (policy s) e leaves)) as Hlen by done.
  split_and!; try by subst g.
  - intros Hne. rewrite (bool_decide_eq_false_2 _ Hne) in Hok. inv_ok. goprop. exists a1. split; [done|]. cbn in *. lia.
  - subst g. apply hex_generationName.
  - subst g. unfold readSnapshot, inactive. cbn [gen_Name gen_Epoch gen_Inputs gen_Pending].
    rewrite decodeAttested_complete, (decodeRecordChunks_complete _ records) by done.
    rewrite (materializeRecords_idem _ _ _ _ Hm), Hok0. cbn [stmt]. rewrite Hv, Hlen, Z.eqb_refl.
    rewrite (proj2 (sameInputs_true _ _)) by done.
    rewrite (bool_decide_eq_true_2 (hex_EncodeToString _ = _)), (bool_decide_eq_true_2 (recordRoot _ = _)) by done.
    cbn [negb orb]. rewrite (proj2 (Z.ltb_ge _ _)); [done|]. cbn. apply He.
Qed.

(** What [Store.load] has checked of a snapshot. *)
Record Verified (p : MaterializationPolicy) (minimum : Z) (snap : snapshot) : Prop := {
  ve_typed : TypedAttested snap.(snap_attested);
  ve_attested : verifyAttestation p snap.(snap_attested) = true;
  ve_records : materializeRecords p.(policy_Network) snap.(snap_records) = Ok (snap.(snap_records), snap.(snap_leaves));
  ve_root : snap.(snap_attested).(stmt).(recordRoot) = recordRootOf snap.(snap_leaves);
  ve_length : snap.(snap_attested).(stmt).(recordLength) = len snap.(snap_leaves);
  ve_minimum : minimum <= snap.(snap_attested).(stmt).(epoch)
}.

Lemma leaves_bound network signed records leaves :
  materializeRecords network signed = Ok (records, leaves) -> 0 < len leaves <= maximumRecords.
Proof.
  intros (entries & byName & Hc)%materializeRecords_ok. destruct Hc as [_ _ _ _ _ Hl Hs].
  apply Forall2_length in Hl. unfold len in *. lia.
Qed.

Lemma readSnapshot_verified p current minimum g snap :
  readSnapshot p current minimum g = Ok snap -> Verified p minimum snap.
Proof.
  unfold readSnapshot. intros Hr. destruct (decodeAttested _) as [attested|] eqn:Ha; [|done].
  destruct (decodeRecordChunks _) as [persisted|]; [|done].
  destruct (materializeRecords _ _) as [[records leaves]|] eqn:Hm; [|done].
  destruct (encodeRecordChunks _); [|done]. inv_ok. subst snap. goprop.
  pose proof (leaves_bound _ _ _ _ Hm) as Hb. unfold maximumRecords in Hb.
  apply materializeRecords_idem in Hm. apply decodeAttested_sound in Ha as [Ht _].
  constructor; cbn; try done.
  match goal with X : recordLength _ = _ |- _ => rewrite X end. apply Z.mod_small. lia.
Qed.

(** The open store on a disk. *)
Definition opened (p : MaterializationPolicy) (d : Disk) : Store := MkStore (MkRoot d false) p.

Lemma find_current current gens (d : Disk) dir g :
  Loaded d gens -> d.(generations) !! current = Some dir -> loadNamespaceGeneration current dir = Ok g ->
  find (fun generation => generation.(gen_Name) ==? current) gens = Some g.
Proof.
  intros Hl Hd Hg. pose proof (load_name _ _ _ Hg) as Hn.
  assert (forall x, x ∈ gens -> gen_Name x = current -> x = g) as Huniq.
  { intros x (dir' & Hd' & Hx)%Hl E. rewrite E in *. congruence. }
  assert (g ∈ gens) as Hin by (apply Hl; rewrite Hn; eauto). clear Hl.
  induction gens as [|x gens IH]; [by apply elem_of_nil in Hin|]. cbn [find]. case_bool_decide as E.
  - f_equal. apply Huniq; [by left|done].
  - apply elem_of_cons in Hin as [->|Hin]; [done|]. apply IH; [|done]. intros y Hy. apply Huniq. by right.
Qed.

Lemma Store_load_ok s minimum snap :
  Store_load s minimum = Ok snap <->
  exists current dir g, (exists gens, load s.(root) = Ok (current, gens)) /\ current <> [] /\
    s.(root).(disk_of).(generations) !! current = Some dir /\ loadNamespaceGeneration current dir = Ok g /\
    readSnapshot s.(policy) current minimum g = Ok snap.
Proof.
  unfold Store_load. split.
  - destruct (load (root s)) as [[current gens]|] eqn:Hload; [|done]. case_bool_decide as Hne; [done|].
    destruct (proj1 (load_iff (root s) current)) as (_ & _ & Hl & Hcur); [eauto|].
    destruct Hcur as [[? _]|(_ & _ & [dir Hd])]; [done|]. destruct (Hl _ _ Hd) as [_ [g Hg]].
    rewrite (find_current current gens (disk_of (root s)) dir g) by (done || by eapply load_loaded).
    intros Hr. exists current, dir, g. split_and!; eauto.
  - intros (current & dir & g & [gens Hload] & Hne & Hd & Hg & Hr). rewrite Hload, (bool_decide_eq_false_2 _ Hne).
    by rewrite (find_current current gens (disk_of (root s)) dir g) by (done || by eapply load_loaded).
Qed.

(** [Store.load] reads the generations and the pointer, nothing else. *)
Lemma Store_load_same p d d' minimum :
  d'.(generations) = d.(generations) -> d'.(root_files) !! str "current" = d.(root_files) !! str "current" ->
  Store_load (opened p d') minimum = Store_load (opened p d) minimum.
Proof. intros Eg Ef. unfold Store_load, load. cbn. by rewrite Eg, Ef. Qed.

Lemma Store_load_clean p d minimum snap :
  Store_load (opened p d) minimum = Ok snap -> Store_load (opened p (clean d)) minimum = Ok snap.
Proof.
  intros Hs. rewrite <- Hs. apply Store_load_ok in Hs as (current & _ & _ & Hl & _).
  apply load_iff in Hl as (_ & _ & Hl & _). apply Store_load_same; cbn.
  - by apply Loadable_clean.
  - apply without_lookup, current_kept.
Qed.

(** A snapshot survives the publication of another generation. *)
Lemma Store_load_published p d g minimum snap :
  Publishable g d -> Z.of_nat (size (published g d).(generations)) <= maximumNamespaceGenerations ->
  Store_load (opened p d) minimum = Ok snap -> Store_load (opened p (published g d)) minimum = Ok snap.
Proof.
  intros Hp Hs (current & dir & x & Hl & Hne & Hd & Hx & Hr)%Store_load_ok. apply Store_load_ok.
  apply load_iff in Hl as (_ & _ & Hl & Hc). exists current, dir, x. split_and!; try done.
  - apply load_iff. split_and!; [done|done|by apply published_loadable|by apply published_current].
  - by apply published_mono.
Qed.

Lemma gen_name_nonempty name : namespaceGenerationName name = true -> name <> [].
Proof. by intros Hn%len_generationName ->. Qed.

Lemma Store_load_committed p d g snap :
  Publishable g d -> Loadable d -> g.(gen_Activate) = true ->
  Z.of_nat (size (published g d).(generations)) <= maximumNamespaceGenerations ->
  readSnapshot p g.(gen_Name) 0 (inactive g) = Ok snap ->
  Store_load (opened p (committed g d)) 0 = Ok snap.
Proof.
  intros Hp Hl Ha Hs Hr. apply Store_load_ok.
  destruct (published_installed g d Hp) as (dir & Hd & Hi). exists g.(gen_Name), dir, (inactive g).
  assert (namespaceGenerationName (gen_Name g) = true) as Hn by apply Hp.
  split_and!; try done.
  - apply load_iff. cbn. rewrite committed_generations. split_and!; try done.
    + unfold Loadable. rewrite committed_generations. by apply published_loadable.
    + unfold committed. rewrite Ha. by apply pointed_current.
  - by apply gen_name_nonempty.
  - cbn. by rewrite committed_generations.
Qed.

(** After a commit the store loads what was committed, unless the commit added a
    generation to a full root. *)
Lemma committed_loads p d g snap :
  Publishable g d -> Loadable d -> g.(gen_Activate) = true ->
  Z.of_nat (size d.(generations)) <= maximumNamespaceGenerations ->
  readSnapshot p g.(gen_Name) 0 (inactive g) = Ok snap ->
  Store_load (opened p (committed g d)) 0 = Ok snap \/
  Z.of_nat (size d.(generations)) = maximumNamespaceGenerations /\
  Z.of_nat (size (committed g d).(generations)) = maximumNamespaceGenerations + 1 /\
  Store_load (opened p (committed g d)) 0 = Err tampered.
Proof.
  intros Hp Hl Ha Hs Hr. pose proof (published_size g d) as Hsz. rewrite <- committed_generations in Hsz.
  destruct (Z.le_gt_cases (Z.of_nat (size (committed g d).(generations))) maximumNamespaceGenerations) as [Hle|Hgt].
  { left. rewrite committed_generations in Hle. by apply Store_load_committed. }
  right. destruct (decide _) in Hsz; [lia|]. split_and!; [lia|lia|]. unfold Store_load.
  destruct (load _) as [[c gens]|] eqn:E; [|done]. exfalso.
  destruct (proj1 (load_iff (MkRoot (committed g d) false) c)) as (_ & Hx & _); [eauto|]. cbn in Hx. lia.
Qed.

(** What a successful commit wrote. *)
Lemma commitAtCurrent_ok s e signed pend expected attest stage tmp :
  ValidStore s -> TypedEpoch e -> in_u64 pend -> HasPrefix stage stagePrefix = true ->
  (commitAtCurrent s e signed pend expected attest stage tmp).2 = Ok tt ->
  exists g snap, prepareGeneration s e signed pend attest = Ok g /\ g.(gen_Activate) = true /\
    (commitAtCurrent s e signed pend expected attest stage tmp).1 = (commitCurrent s.(root) expected g stage tmp).1 /\
    (commitCurrent s.(root) expected g stage tmp).2 = Ok tt /\ Publishable g s.(root).(disk_of) /\
    s.(root).(closed) = false /\ Expected expected s.(root).(disk_of) /\ Loadable s.(root).(disk_of) /\
    readSnapshot s.(policy) g.(gen_Name) 0 (inactive g) = Ok snap /\
    materializeRecords s.(policy).(policy_Network) signed = Ok (snap.(snap_records), snap.(snap_leaves)) /\
    snap.(snap_attested).(stmt) = statementOf s.(policy) e snap.(snap_leaves) /\ snap.(snap_pending) = pend /\
    (forall previous, Store_load s 0 = Ok previous -> previous.(snap_attested).(stmt).(epoch) < e.(Number)).
Proof.
  intros Hs He Hp Hst Hr. unfold commitAtCurrent in *.
  destruct (prepareGeneration s e signed pend attest) as [g|] eqn:Hg; [|done].
  pose proof (prepareGeneration_ok _ _ _ _ _ _ Hs He Hg) as
    (ids & sigs & records & leaves & current & gens & Hm & Hload & Hmono & Ha & Hpd & Hn & Hread).
  destruct (commit_publishable (root s) expected g stage tmp Hst ltac:(by rewrite Hpd) Hr) as (Hpub & Hcl & Hex).
  destruct (proj1 (load_iff (root s) current)) as (_ & _ & Hl & _); [eauto|].
  eexists g, _. split_and!; try done. intros previous Hprev.
  pose proof Hprev as (c & _ & _ & [gs Hc] & Hne & _)%Store_load_ok. rewrite Hload in Hc. injection Hc as <- <-.
  destruct (Hmono Hne) as (previous' & Hprev' & Hlt). by rewrite Hprev in Hprev'; injection Hprev' as <-.
Qed.

(** ** Histories of a store *)

(** The actions of one mutating call, with machine-width arguments. *)
Inductive call (p : MaterializationPolicy) (d : Disk) : list action -> Prop :=
| call_commit e signed pend expected attest stage tmp :
    TypedEpoch e -> in_u64 pend -> TempNames d stage tmp ->
    call p d (commitAtCurrent (opened p d) e signed pend expected attest stage tmp).1
| call_append name sub suc at_ stage tmp :
    in_i64 at_ -> TempNames d stage tmp ->
    call p d (Store_appendPending (opened p d) name sub suc at_ stage).1.

(** A call runs to its end, or is cut short and the root reopened; the calls
    follow one another. *)
Inductive store_step (p : MaterializationPolicy) (d : Disk) : Disk -> Prop :=
| step_call acts : call p d acts -> store_step p d (run acts d)
| step_crash acts d' root' :
    call p d acts -> crashed acts d d' -> openNamespaceRoot d' = Ok root' -> store_step p d root'.(disk_of).

(** More generations than [load] reads, whatever is staged. *)
Definition Overfull (d : Disk) : Prop :=
  maximumNamespaceGenerations < Z.of_nat (size (without stagePrefix d.(generations))).

Lemma Overfull_load d c gens : Overfull d -> load (MkRoot d false) = Ok (c, gens) -> False.
Proof.
  intros Ho Hl. assert (exists gens, load (MkRoot d false) = Ok (c, gens)) as Hx by eauto.
  apply load_iff in Hx as (_ & Hs & _). pose proof (without_size stagePrefix d.(generations)).
  unfold Overfull in Ho. cbn in Hs. lia.
Qed.

Lemma Overfull_clean d : Overfull d -> Overfull (clean d).
Proof.
  unfold Overfull, clean. cbn. assert (without stagePrefix (without stagePrefix (generations d)) =
    without stagePrefix (generations d)) as ->; [|done].
  apply map_filter_id. intros n g Hg. by apply map_lookup_filter_Some in Hg as [_ ?].
Qed.

Definition journalOnly (a : action) : Prop :=
  match a with MkdirEntry _ | WriteEntry _ _ | RemoveEntry _ | PublishEntry _ _ => True | _ => False end.

Lemma journalOnly_exec a d :
  journalOnly a -> (exec a d).(generations) = d.(generations) /\ (exec a d).(root_files) = d.(root_files).
Proof. destruct a; intros Ha; try done. cbn. by destruct (_ !! _). Qed.

Lemma journalOnly_run acts d :
  Forall journalOnly acts ->
  (run acts d).(generations) = d.(generations) /\ (run acts d).(root_files) = d.(root_files).
Proof.
  intros Hf. revert d. induction Hf as [|a acts Ha Hf IH]; intros d; [done|]. unfold run in *. cbn [foldl].
  destruct (IH (exec a d)) as [-> ->]. by apply journalOnly_exec.
Qed.

Lemma journalOnly_crashed acts d d' :
  Forall journalOnly acts -> crashed acts d d' ->
  d'.(generations) = d.(generations) /\ d'.(root_files) = d.(root_files).
Proof.
  intros Hf [k|k a d1 Ha Ht].
  - apply journalOnly_run. by apply Forall_take.
  - pose proof (journalOnly_run (take k acts) d (Forall_take _ _ _ Hf)) as [Eg Ef].
    pose proof (proj1 (Forall_lookup _ _) Hf k a Ha) as Hj.
    destruct Ht as [b stage d0 g Hb|tmp c d0 w|b stage d0 e Hb]; cbn in *; [by destruct b|done|by rewrite Eg, Ef].
Qed.

Lemma append_journalOnly s name sub suc at_ stage :
  Forall journalOnly (Store_appendPending s name sub suc at_ stage).1.
Proof.
  unfold Store_appendPending, root_appendPending, writeNamespacePending.
  repeat (case_match; cbn [fst]; try by constructor); simplify_eq; by repeat constructor.
Qed.

Lemma commit_full p d e signed pend expected attest stage tmp :
  Overfull d -> (commitAtCurrent (opened p d) e signed pend expected attest stage tmp).1 = [].
Proof.
  intros Ho. unfold commitAtCurrent, prepareGeneration.
  destruct (materializeRecords _ _) as [[records leaves]|]; [|done]. cbn [mbind result_bind].
  destruct (attest _) as [[ids sigs]|]; [|done]. destruct (negb _); [done|].
  destruct (load _) as [[c gens]|] eqn:Hl; [|done]. exfalso. by eapply Overfull_load.
Qed.

Lemma Overfull_step p d d' : Overfull d -> store_step p d d' -> Overfull d'.
Proof.
  intros Ho Hs. assert (forall d1, d1.(generations) = d.(generations) -> Overfull d1) as Hsame
    by (intros d1 E; unfold Overfull; by rewrite E).
  destruct Hs as [acts Hc|acts d1 root' Hc Hcr ->%openNamespaceRoot_clean]; [|apply Overfull_clean];
    destruct Hc as [e signed pend expected attest stage tmp _ _ _|name sub suc at_ stage tmp _ _].
  - by rewrite commit_full.
  - apply Hsame, journalOnly_run, append_journalOnly.
  - rewrite commit_full in Hcr by done. destruct Hcr as [k|]; [|done]. by rewrite take_nil.
  - apply Hsame. by eapply journalOnly_crashed; [apply append_journalOnly|].
Qed.

(** The snapshot of a disk is [snap0], or one of a later Epoch. *)
Definition Since (p : MaterializationPolicy) (snap0 : snapshot) (d : Disk) : Prop :=
  Overfull d \/ exists snap, Store_load (opened p d) 0 = Ok snap /\
    (snap = snap0 \/ snap0.(snap_attested).(stmt).(epoch) < snap.(snap_attested).(stmt).(epoch)).

Definition later (snap0 snap : snapshot) : Prop :=
  snap = snap0 \/ snap0.(snap_attested).(stmt).(epoch) < snap.(snap_attested).(stmt).(epoch).

Lemma published_overfull g d :
  Publishable g d -> Loadable d ->
  Z.of_nat (size (published g d).(generations)) <= maximumNamespaceGenerations \/ Overfull (committed g d).
Proof.
  intros Hp Hl. unfold Overfull. rewrite committed_generations, Loadable_clean by (by apply published_loadable).
  lia.
Qed.

Lemma commit_since p d e signed pend expected attest stage tmp snap :
  ValidStore (opened p d) -> TypedEpoch e -> in_u64 pend -> TempNames d stage tmp ->
  Store_load (opened p d) 0 = Ok snap ->
  let c := commitAtCurrent (opened p d) e signed pend expected attest stage tmp in
  Since p snap (run c.1 d) /\
  (forall d' root', crashed c.1 d d' -> openNamespaceRoot d' = Ok root' -> Since p snap root'.(disk_of)).
Proof.
  intros Hv He Hpd Ht Hsnap c.
  pose proof (Store_load_clean _ _ _ _ Hsnap) as Hclean.
  destruct c.2 as [[]|err] eqn:Hr.
  - destruct (commitAtCurrent_ok _ _ _ _ _ _ _ _ Hv He Hpd (temp_stage _ _ _ Ht) Hr) as
      (g & snap' & Hg & Ha & Ec & Hr' & Hpub & _ & _ & Hl & Hread & _ & Hst & _ & Hprev).
    unfold c. rewrite Ec. cbn [root policy opened disk_of] in *.
    assert (epoch (stmt (snap_attested snap)) < epoch (stmt (snap_attested snap'))) as Hlt
      by (rewrite Hst; cbn; by apply Hprev).
    assert (forall d1, Publishable g d1 -> Loadable d1 -> Since p snap (committed g d1)) as Hcm.
    { intros d1 Hp1 Hl1. destruct (published_overfull g d1 Hp1 Hl1) as [Hsz|Ho]; [right|by left].
      exists snap'. split; [|by right]. by apply Store_load_committed. }
    split.
    { pose proof (commit_run_exact (MkRoot d false) expected g stage tmp Ht Hr') as Hx.
      cbn zeta in Hx. cbn [disk_of] in Hx. rewrite Hx. by apply Hcm. }
    intros d' root' Hcr ->%openNamespaceRoot_clean. cbn [disk_of].
    assert (Publishable g (clean d)) as Hpc.
    { destruct Hpub as (Hb & Hpn & Hm). split; [done|]. split; [done|]. intros dir. cbn.
      rewrite Loadable_clean by done. apply Hm. }
    pose proof (Loadable_cleaned _ Hl) as Hlc.
    destruct (commit_crashed stage tmp (temp_stage _ _ _ Ht) (temp_tmp _ _ _ Ht) (MkRoot d false) expected g d' Hcr)
      as [->|(_ & _ & [->| ->])]; cbn [disk_of] in *.
    + right. exists snap. split; [done|by left].
    + destruct (published_overfull g (clean d) Hpc Hlc) as [Hsz|Ho].
      * right. exists snap. split; [|by left]. by apply Store_load_published.
      * left. unfold Overfull in *. by rewrite committed_generations in Ho.
    + by apply Hcm.
  - assert (run c.1 d = d /\ forall d', crashed c.1 d d' -> clean d' = clean d) as [Hrun Hcr].
    { unfold c, commitAtCurrent in *. destruct (prepareGeneration _ _ _ _ _) as [g|] eqn:Hg.
      2:{ cbn [fst]. split; [done|]. intros d' [k|k a d1 Hk]; [by rewrite take_nil|by rewrite lookup_nil in Hk]. }
      split; [apply (commit_error_run (MkRoot d false) expected g stage tmp Ht); cbn [root opened] in Hr; by rewrite Hr|].
      intros d' Hx. destruct (commit_crashed stage tmp (temp_stage _ _ _ Ht) (temp_tmp _ _ _ Ht) (MkRoot d false)
        expected g d' Hx) as [?|[Hok _]]; [done|]. cbn [root opened] in Hr. congruence. }
    rewrite Hrun. split; [right; exists snap; split; [done|by left]|].
    intros d' root' Hx ->%openNamespaceRoot_clean. cbn [disk_of]. rewrite (Hcr d' Hx). right. exists snap.
    split; [done|by left].
Qed.

Lemma Since_trans p snap0 snap d : later snap0 snap -> Since p snap d -> Since p snap0 d.
Proof.
  intros Hl [?|(s & Hs & Hle)]; [by left|right]. exists s. split; [done|].
  destruct Hl as [->|?], Hle as [->|?]; [by left|by right..|right; lia].
Qed.

Lemma step_since p snap0 d d' :
  ValidStore (opened p d) -> Since p snap0 d -> store_step p d d' -> Since p snap0 d'.
Proof.
  intros Hv [Ho|(snap & Hs & Hle)] Hstep; [left; by eapply Overfull_step|].
  apply (Since_trans p snap0 snap); [done|].
  assert (forall d1, d1.(generations) = d.(generations) -> d1.(root_files) = d.(root_files) ->
    Since p snap d1 /\ Since p snap (clean d1)) as Hsame.
  { intros d1 Eg Ef. assert (Store_load (opened p d1) 0 = Ok snap) as Hd1
      by (rewrite <- Hs; apply Store_load_same; by rewrite ?Ef).
    split; right; exists snap; (split; [|by left]); [done|by apply Store_load_clean]. }
  destruct Hstep as [acts Hc|acts d1 root' Hc Hcr Ho];
    destruct Hc as [e signed pend expected attest stage tmp He Hp Ht|name sub suc at_ stage tmp _ _].
  - by apply commit_since.
  - apply Hsame; apply journalOnly_run, append_journalOnly.
  - by eapply commit_since.
  - apply openNamespaceRoot_clean in Ho as ->.
    destruct (journalOnly_crashed _ _ _ (append_journalOnly _ _ _ _ _ _) Hcr). by apply Hsame.
Qed.

(** C19: Over any sequence of commits and journal appends, each run to its end or
    cut short by a crash and followed by reopening, the Epoch that [Store.load]
    reports never goes back, and while it stays the same so does the whole
    snapshot. *)
Theorem epochs_only_grow p d d' snap snap' :
  validMaterializationPolicy p = Ok p -> rtc (store_step p) d d' ->
  Store_load (opened p d) 0 = Ok snap -> Store_load (opened p d') 0 = Ok snap' ->
  snap' = snap \/ snap.(snap_attested).(stmt).(epoch) < snap'.(snap_attested).(stmt).(epoch).
Proof.
  intros Hv Hsteps Hs Hs'. assert (Since p snap d') as Hsince.
  { clear Hs'. assert (Since p snap d) as Hd by (right; exists snap; split; [done|by left]). clear Hs.
    induction Hsteps as [|d d1 d' Hstep Hsteps IH]; [done|]. apply IH. by eapply step_since. }
  destruct Hsince as [Ho|(s & Hl & Hle)].
  - apply Store_load_ok in Hs' as (c & _ & _ & [gens Hl] & _). exfalso. by eapply Overfull_load.
  - rewrite Hl in Hs'. by injection Hs' as <-.
Qed.

(** A successful commit makes exactly the Records it was given current: while
    the root has room for the generation, [Store.load] then returns their
    materialization, the attested statement of the Epoch and the pending cursor;
    and the Epoch is later than any that was current before. *)
Theorem commit_becomes_current s e signed pend expected attest stage tmp :
  ValidStore s -> TypedEpoch e -> in_u64 pend -> TempNames s.(root).(disk_of) stage tmp ->
  (commitAtCurrent s e signed pend expected attest stage tmp).2 = Ok tt ->
  Z.of_nat (size s.(root).(disk_of).(generations)) < maximumNamespaceGenerations ->
  exists snap, Store_load (opened s.(policy) (run (commitAtCurrent s e signed pend expected attest stage tmp).1
                                                s.(root).(disk_of))) 0 = Ok snap /\
    materializeRecords s.(policy).(policy_Network) signed = Ok (snap.(snap_records), snap.(snap_leaves)) /\
    snap.(snap_attested).(stmt) = statementOf s.(policy) e snap.(snap_leaves) /\ snap.(snap_pending) = pend /\
    verifyAttestation s.(policy) snap.(snap_attested) = true /\
    (forall previous, Store_load s 0 = Ok previous -> previous.(snap_attested).(stmt).(epoch) < e.(Number)).
Proof.
  intros Hv He Hp Ht Hr Hsz.
  destruct (commitAtCurrent_ok _ _ _ _ _ _ _ _ Hv He Hp (temp_stage _ _ _ Ht) Hr) as
    (g & snap & Hg & Ha & Ec & Hr' & Hpub & _ & _ & Hl & Hread & Hm & Hst & Hpd & Hprev).
  exists snap. split_and!; try done.
  - rewrite Ec, (commit_run_exact (root s) expected g stage tmp Ht Hr'). apply Store_load_committed; try done.
    rewrite published_size. destruct (decide _); lia.
  - by apply readSnapshot_verified in Hread as [].
Qed.

(** C36: A root with 64 generations still accepts one commit of a new generation,
    and nothing can be read or committed afterwards: [Store.load] and every
    further commit and installation fail, over any sequence of calls, crashes
    and reopenings, because no generation is ever removed. *)
Theorem full_root_is_lost s e signed pend expected attest stage tmp g d' :
  ValidStore s -> TypedEpoch e -> in_u64 pend -> TempNames s.(root).(disk_of) stage tmp ->
  (commitAtCurrent s e signed pend expected attest stage tmp).2 = Ok tt ->
  prepareGeneration s e signed pend attest = Ok g ->
  s.(root).(disk_of).(generations) !! g.(gen_Name) = None ->
  Z.of_nat (size s.(root).(disk_of).(generations)) = maximumNamespaceGenerations ->
  rtc (store_step s.(policy)) (run (commitAtCurrent s e signed pend expected attest stage tmp).1
                                 s.(root).(disk_of)) d' ->
  let s' := opened s.(policy) d' in
  (forall minimum, Store_load s' minimum = Err tampered) /\
  (forall e' signed' pend' expected' attest' stage' tmp',
     (commitAtCurrent s' e' signed' pend' expected' attest' stage' tmp').2 <> Ok tt) /\
  (forall e' at_ policy', exists err, BeginEpochInstallation s' e' at_ policy' = Err err).
Proof.
  intros Hv He Hp Ht Hr Hg0 Hnew Hsz Hsteps s'.
  destruct (commitAtCurrent_ok _ _ _ _ _ _ _ _ Hv He Hp (temp_stage _ _ _ Ht) Hr) as
    (g' & snap & Hg & Ha & Ec & Hr' & Hpub & _ & _ & Hl & _).
  rewrite Hg0 in Hg. injection Hg as <-.
  rewrite Ec, (commit_run_exact (root s) expected g stage tmp Ht Hr') in Hsteps.
  assert (Overfull d') as Ho.
  { assert (Overfull (committed g (disk_of (root s)))) as Ho.
    { destruct (published_overfull g _ Hpub Hl) as [Hle|?]; [|done]. exfalso. rewrite published_size in Hle.
      rewrite decide_False in Hle by (rewrite Hnew; by intros [? ?]). lia. }
    clear -Ho Hsteps. induction Hsteps as [|d d1 d' Hstep Hsteps IH]; [done|]. apply IH. by eapply Overfull_step. }
  assert (forall c gens, load (root s') <> Ok (c, gens)) as Hno by (intros c gens Hx; by eapply Overfull_load).
  split_and!.
  - intros minimum. unfold Store_load. destruct (load (root s')) as [[c gens]|] eqn:Hx; [by destruct (Hno c gens)|done].
  - intros e' signed' pend' expected' attest' stage' tmp' Hok. unfold commitAtCurrent, prepareGeneration in Hok.
    destruct (materializeRecords _ _) as [[? ?]|]; [|done]. cbn [mbind result_bind] in Hok.
    destruct (attest' _) as [[? ?]|]; [|done]. destruct (negb _); [done|].
    destruct (load (root s')) as [[c gens]|] eqn:Hx; [by destruct (Hno c gens)|done].
  - intros e' at_ policy'. unfold BeginEpochInstallation. destruct (_ || _); [by eexists|].
    destruct (load (root s')) as [[c gens]|] eqn:Hx; [by destruct (Hno c gens)|by eexists].
Qed.

End StoreProofs.

(** ** A store and its commits *)

Section Witnesses.
#[local] Existing Instance sample_golib.

Definition sampleStage : gostring := str ".stage-1".
Definition sampleTmp : gostring := str ".current-1".

Definition emptyDisk : Disk := MkDisk ∅ {[ namespaceRootMarkerName := namespaceRootMarker ]} ∅.

Definition sampleEpoch (number : Z) : Epoch :=
  MkEpoch number (recovery.key 9) 7 (recovery.key 40) 0 (recovery.key 41) 0.

(** Both authorities sign. *)
Definition sampleAttest : attester := fun transcript =>
  Ok (map (fun p : array 32 => sha256 p) sampleAuthorities,
      map (fun p : array 32 => p ++ sha256 transcript) sampleAuthorities).

#[local] Notation commitOn d number pend signed :=
  (commitAtCurrent (opened samplePolicy d) (sampleEpoch number) signed pend None sampleAttest sampleStage sampleTmp).

Definition firstDisk : Disk := run (commitOn emptyDisk 3 0 sampleCorpus).1 emptyDisk.
Definition secondDisk : Disk := run (commitOn firstDisk 4 1 sampleCorpus).1 firstDisk.

Definition snapshotOf (d : Disk) : snapshot :=
  match Store_load (opened samplePolicy d) 0 with
  | Ok snap => snap
  | Err _ => MkSnapshot sampleAttested [] [] 0
  end.

Lemma samplePolicy_valid : validMaterializationPolicy samplePolicy = Ok samplePolicy.
Proof. vm_compute. reflexivity. Qed.

Lemma sampleEpoch_typed number : in_u64 number -> TypedEpoch (sampleEpoch number).
Proof. by constructor. Qed.

Ltac temp_names := constructor; vm_compute; reflexivity.

Lemma firstDisk_loads : Store_load (opened samplePolicy firstDisk) 0 = Ok (snapshotOf firstDisk).
Proof. vm_compute. reflexivity. Qed.

Lemma epochs_only_grow_witness :
  (snapshotOf secondDisk).(snap_attested).(stmt).(epoch) = 4 /\
  (snapshotOf secondDisk = snapshotOf firstDisk \/
   (snapshotOf firstDisk).(snap_attested).(stmt).(epoch) < (snapshotOf secondDisk).(snap_attested).(stmt).(epoch)).
Proof.
  split; [vm_compute; reflexivity|].
  apply (epochs_only_grow samplePolicy firstDisk secondDisk).
  - exact samplePolicy_valid.
  - apply rtc_once. unfold secondDisk. apply step_call. apply call_commit.
    + apply sampleEpoch_typed. by vm_compute.
    + by vm_compute.
    + temp_names.
  - exact firstDisk_loads.
  - vm_compute. reflexivity.
Defined.

Lemma commit_becomes_current_witness :
  exists snap, Store_load (opened samplePolicy firstDisk) 0 = Ok snap /\ snap.(snap_pending) = 0.
Proof.
  destruct (commit_becomes_current (opened samplePolicy emptyDisk) (sampleEpoch 3) sampleCorpus 0 None sampleAttest
    sampleStage sampleTmp) as (snap & Hl & _ & _ & Hp & _).
  - exact samplePolicy_valid.
  - apply sampleEpoch_typed. by vm_compute.
  - by vm_compute.
  - temp_names.
  - vm_compute. reflexivity.
  - vm_compute. reflexivity.
  - exists snap. split; [exact Hl|exact Hp].
Defined.

(** A readable root with 64 generations and no current one. *)
Definition fullDisk : Disk :=
  MkDisk (list_to_map (map (fun i => (hex_EncodeToString (to_array 32 (be_bytes 4 (Z.of_nat i))),
                                      MkDir (Some [x01]) None (Some []))) (seq 0 64)))
    {[ namespaceRootMarkerName := namespaceRootMarker ]} ∅.

Definition lastGeneration : namespaceGeneration :=
  match prepareGeneration (opened samplePolicy fullDisk) (sampleEpoch 3) sampleCorpus 0 sampleAttest with
  | Ok g => g
  | Err _ => MkGeneration [] [] [] 0 false
  end.

Lemma fullDisk_commits : (commitOn fullDisk 3 0 sampleCorpus).2 = Ok tt.
Proof. vm_compute. reflexivity. Qed.

Lemma full_root_is_lost_witness :
  (commitOn fullDisk 3 0 sampleCorpus).2 = Ok tt /\
  Store_load (opened samplePolicy (run (commitOn fullDisk 3 0 sampleCorpus).1 fullDisk)) 0 = Err tampered.
Proof.
  split; [exact fullDisk_commits|].
  destruct (full_root_is_lost (opened samplePolicy fullDisk) (sampleEpoch 3) sampleCorpus 0 None sampleAttest
    sampleStage sampleTmp lastGeneration (run (commitOn fullDisk 3 0 sampleCorpus).1 fullDisk)) as [Hl _].
  - exact samplePolicy_valid.
  - apply sampleEpoch_typed. by vm_compute.
  - by vm_compute.
  - temp_names.
  - exact fullDisk_commits.
  - vm_compute. reflexivity.
  - vm_compute. reflexivity.
  - vm_compute. reflexivity.
  - apply rtc_refl.
  - exact (Hl 0).
Defined.

End Witnesses.
