(* ===== verification/EpochInstall.v ===== *)
(** * Installations and lookups

    The theorems about the handlers of EpochStore.v that build and serve a
    corpus: an [EpochInstallation] never takes a Name back to an earlier
    generation or revision, and the proof that [Lookup] returns for a Name is one
    that [VerifyBinding] accepts exactly while the Name's leaf is available. *)

From S2P Require Import Prelude Wire GoLib GoTime Naming Recovery Record RecordLifecycle RecordCodec Admission Merkle Claim ClaimWinner EpochCodec EpochBuild EpochProof EpochDisk EpochDurable EpochJournal EpochStore EpochStoreProof.

Import epoch build disk pending store.

Section Install.
Context `{GoLib}.

(** ** Versions *)

Definition NotBefore (old new : record.NameRecord) : Prop :=
  old.(record.Generation) < new.(record.Generation) \/
  old.(record.Generation) = new.(record.Generation) /\ old.(record.Revision) <= new.(record.Revision).

Lemma NotBefore_refl r : NotBefore r r.
Proof. right. lia. Qed.

Lemma NotBefore_trans a b c : NotBefore a b -> NotBefore b c -> NotBefore a c.
Proof. unfold NotBefore. lia. Qed.

Lemma u64_successor n : in_u64 n -> u64 (n + 1) <> 0 -> u64 (n + 1) = n + 1.
Proof.
  unfold in_u64. intros Hn H0. destruct (decide (n = 2 ^ 64 - 1)) as [->|Hne]; [done|].
  apply u64_id. unfold in_u64. lia.
Qed.

Lemma continuousSuccessor_later network previous current raw raw' :
  recordcodec.VerifyRecord network raw = Ok previous -> recordcodec.VerifyRecord network raw' = Ok current ->
  continuousSuccessor previous current = true -> NotBefore previous current.
Proof.
  intros [_ Ht]%recordcodec.VerifyRecord_valid [Hv _]%recordcodec.VerifyRecord_valid.
  pose proof (valid_generation _ Hv) as Hg. pose proof (valid_revision _ Hv) as Hr.
  pose proof (recordcodec.typed_generation _ Ht) as Hgt. pose proof (recordcodec.typed_revision _ Ht) as Hrt.
  unfold continuousSuccessor, NotBefore. destruct (Z.eqb_spec (record.Generation current) (record.Generation previous)) as [E|E].
  - rewrite Z.eqb_eq. intros Er. right. rewrite u64_successor in Er by congruence. lia.
  - intros Hc. goprop. left.
    match goal with X : record.Generation current = u64 _ |- _ => rewrite u64_successor in X by congruence end. lia.
Qed.

(** ** The Records of an installation *)

(** Every Record stands under its own Name, and no Name of [old] has gone back. *)
Record Continues (network : array 32) (old new : gmap gostring bytes) : Prop := {
  co_named : forall name raw, new !! name = Some raw ->
    exists r, recordcodec.VerifyRecord network raw = Ok r /\ r.(record.Name) = name;
  co_later : forall name raw r, old !! name = Some raw -> recordcodec.VerifyRecord network raw = Ok r ->
    exists raw' r', new !! name = Some raw' /\ recordcodec.VerifyRecord network raw' = Ok r' /\ NotBefore r r'
}.

Lemma Continues_insert network old new raw r :
  Continues network old new -> recordcodec.VerifyRecord network raw = Ok r ->
  (forall raw' r', new !! r.(record.Name) = Some raw' -> recordcodec.VerifyRecord network raw' = Ok r' ->
     NotBefore r' r) ->
  Continues network old (<[r.(record.Name) := raw]> new).
Proof.
  intros [Hn Hl] Hr Hnb. constructor.
  - intros name x. destruct (decide (record.Name r = name)) as [<-|Hne].
    + rewrite lookup_insert_eq. intros [= <-]. eauto.
    + rewrite lookup_insert_ne by done. apply Hn.
  - intros name x y Hx Hy. destruct (Hl _ _ _ Hx Hy) as (raw' & r' & Hraw' & Hr' & Hle).
    destruct (decide (record.Name r = name)) as [<-|Hne].
    + exists raw, r. rewrite lookup_insert_eq. split_and!; try done. eapply NotBefore_trans; [exact Hle|]. eauto.
    + exists raw', r'. by rewrite lookup_insert_ne.
Qed.

Lemma includeEntries_continues network old entries records :
  Continues network old records -> Continues network old (includeEntries network entries records).1.
Proof.
  revert records. induction entries as [|entry entries IH]; intros records Hc; [done|]. cbn [includeEntries].
  destruct (recordcodec.VerifyRecord network (successor entry)) as [current|] eqn:Hv; [|done].
  destruct (records !! record.Name current) as [predecessor|] eqn:Hp.
  - destruct (recordcodec.VerifyRecord network predecessor) as [previous|] eqn:Hv'; [|done].
    destruct (continuousSuccessor previous current) eqn:Hs; [|done]. cbn [negb]. apply IH.
    apply Continues_insert; [done..|]. intros raw' r' Hraw' Hr'. rewrite Hp in Hraw'. injection Hraw' as <-.
    rewrite Hv' in Hr'. injection Hr' as <-. by eapply continuousSuccessor_later.
  - destruct (negb _ || negb _); [done|]. apply IH. apply Continues_insert; [done..|].
    intros raw' r' Hraw'. by rewrite Hp in Hraw'.
Qed.

Lemma include_continues s inst sequence old :
  let network := s.(policy).(policy_Network) in
  Continues network old inst.(inst_records) ->
  Continues network old (IncludePendingThrough s inst sequence).1.(inst_records) /\
  (IncludePendingThrough s inst sequence).1.(base) = inst.(base) /\
  (IncludePendingThrough s inst sequence).1.(inst_epoch) = inst.(inst_epoch).
Proof.
  intros network Hc. unfold IncludePendingThrough. destruct (_ <? _); [done|].
  destruct (Store_pending s) as [entries|]; [|done]. destruct (_ <? _); [done|].
  pose proof (includeEntries_continues network old
    (take (Z.to_nat (sequence - cursor inst)) (drop (Z.to_nat (cursor inst)) entries)) _ Hc) as Hi.
  fold network. destruct (includeEntries network _ _) as [records outcome]. by destruct outcome.
Qed.

Lemma claim_continues s inst winner signer old :
  let network := s.(policy).(policy_Network) in
  Continues network old inst.(inst_records) ->
  Continues network old (MaterializeClaim s inst winner signer).1.1.(inst_records) /\
  (MaterializeClaim s inst winner signer).1.1.(base) = inst.(base) /\
  (MaterializeClaim s inst winner signer).1.1.(inst_epoch) = inst.(inst_epoch).
Proof.
  intros network Hc. unfold MaterializeClaim. destruct winner as [w|]; [|done]. destruct signer as [sign|]; [|done].
  destruct (claim.BelongsTo _ _ _) eqn:Hb; [|done]. cbn [negb]. destruct (negb _); [done|].
  fold network in Hb |- *. cbn [claim.Name].
  destruct (match inst_records inst !! claim.winner_name w with Some signed => _ | None => _ end)
    as [current|] eqn:Hcur; [|done].
  destruct (claim.MaterializeSigned _ _ _ _ _) as [winner' [[m signed]|]] eqn:Hm; [|done].
  apply MaterializeSigned_ok in Hm as (_ & _ & Hw & Hv). cbn in Hb. goprop.
  match goal with X : claim.winner_network w = network |- _ => rewrite X in Hv end.
  rewrite Hv. destruct (negb _); [done|]. split_and!; [|done..]. cbn.
  apply Continues_insert; [done..|]. intros raw' r' Hraw' Hr'. rewrite (wr_name _ _ _ Hw) in Hraw'.
  rewrite Hraw', Hr' in Hcur. cbn in Hcur. injection Hcur as <-.
  left. rewrite (wr_generation _ _ _ Hw).
  pose proof (wr_generation _ _ _ Hw) as Hg. apply recordcodec.VerifyRecord_valid in Hv as [Hval _].
  pose proof (valid_generation _ Hval) as Hg0. apply recordcodec.VerifyRecord_valid in Hr' as [_ Ht].
  rewrite u64_successor; [lia|apply Ht|congruence].
Qed.

(** The installation after calls of its two methods, each against the store as
    it is at that time and whatever its outcome. *)
Inductive inst_step (p : MaterializationPolicy) (inst : EpochInstallation) : EpochInstallation -> Prop :=
| step_include d sequence : inst_step p inst (IncludePendingThrough (opened p d) inst sequence).1
| step_claim d winner signer : inst_step p inst (MaterializeClaim (opened p d) inst winner signer).1.1.

Lemma steps_continue p old inst inst' :
  rtc (inst_step p) inst inst' -> Continues p.(policy_Network) old inst.(inst_records) ->
  Continues p.(policy_Network) old inst'.(inst_records) /\ inst'.(base) = inst.(base) /\
  inst'.(inst_epoch) = inst.(inst_epoch).
Proof.
  induction 1 as [inst|inst inst1 inst' Hs Hsteps IH]; intros Hc; [done|].
  assert (Continues p.(policy_Network) old inst1.(inst_records) /\ inst1.(base) = inst.(base) /\
    inst1.(inst_epoch) = inst.(inst_epoch)) as (Hc1 & <- & <-); [|by apply IH].
  destruct Hs as [d sequence|d winner signer]; [apply (include_continues (opened p d))|apply (claim_continues (opened p d))]; done.
Qed.

Lemma signedByName_ok e network signed m0 m :
  signedByName e network signed m0 = Ok m ->
  forall name raw, m !! name = Some raw <->
    m0 !! name = Some raw \/
    raw ∈ signed /\ exists r, recordcodec.VerifyRecord network raw = Ok r /\ r.(record.Name) = name.
Proof.
  revert m0. induction signed as [|x signed IH]; intros m0; cbn [signedByName].
  { intros [= <-] name raw. split; [by left|]. intros [?|[Hin _]]; [done|by apply elem_of_nil in Hin]. }
  destruct (recordcodec.VerifyRecord network x) as [current|] eqn:Hv; [|done].
  case_bool_decide as Hnew; [done|]. intros Hm name raw. rewrite (IH _ Hm), elem_of_cons.
  destruct (decide (record.Name current = name)) as [<-|Hne].
  - rewrite lookup_insert_eq. split.
    + intros [[= <-]|[Hin Hr]]; right; eauto.
    + intros [Hs|[[->|Hin] Hr]]; [by rewrite Hs in Hnew; destruct Hnew|by left|by right].
  - rewrite lookup_insert_ne by done. split.
    + intros [?|[Hin Hr]]; [by left|right; eauto].
    + intros [?|[[->|Hin] Hr]]; [by left| |by right]. destruct Hr as (r & Hr & E). congruence.
Qed.

Lemma signedByName_self e network signed m :
  signedByName e network signed ∅ = Ok m -> Continues network m m.
Proof.
  intros Hm. pose proof (signedByName_ok _ _ _ _ _ Hm) as Hiff. constructor.
  - intros name raw [Hx|[_ ?]]%Hiff; [by rewrite lookup_empty in Hx|done].
  - intros name raw r Hraw Hr. exists raw, r. split_and!; try done. apply NotBefore_refl.
Qed.

Lemma materialized_records network signed records leaves raw :
  materializeRecords network signed = Ok (records, leaves) -> raw ∈ records <-> raw ∈ signed.
Proof.
  intros (entries & byName & Hc)%materializeRecords_ok. rewrite (corpus_records _ _ _ _ _ _ Hc).
  by rewrite (corpus_signed _ _ _ _ _ _ Hc).
Qed.

Lemma installedRecords_elem inst raw :
  raw ∈ installedRecords inst <-> exists name, inst.(inst_records) !! name = Some raw.
Proof.
  unfold installedRecords. rewrite list_elem_of_fmap. split.
  - intros ([name raw'] & -> & Hin). rewrite sortNamed_perm in Hin. apply elem_of_map_to_list in Hin. eauto.
  - intros [name Hn]. exists (name, raw). split; [done|]. rewrite sortNamed_perm. by apply elem_of_map_to_list.
Qed.

(** ** Generations are immutable *)

Definition Keeps (d d' : Disk) : Prop :=
  forall name dir, namespaceGenerationName name = true -> d.(generations) !! name = Some dir ->
    d'.(generations) !! name = Some dir.

Lemma Keeps_clean d : Keeps d (clean d).
Proof. intros name dir Hn Hd. cbn. by rewrite without_lookup by (by apply generationName_kept). Qed.

Lemma Keeps_trans a b c : Keeps a b -> Keeps b c -> Keeps a c.
Proof. unfold Keeps. eauto. Qed.

Lemma Keeps_eq d d' : d'.(generations) = d.(generations) -> Keeps d d'.
Proof. intros E name dir _. by rewrite E. Qed.

Lemma commit_keeps p d e signed pend expected attest stage tmp :
  TempNames d stage tmp ->
  let c := commitAtCurrent (opened p d) e signed pend expected attest stage tmp in
  Keeps d (run c.1 d) /\ (forall d', crashed c.1 d d' -> Keeps d (clean d')).
Proof.
  intros Ht. cbn zeta. unfold commitAtCurrent. destruct (prepareGeneration _ _ _ _ _) as [g|].
  2:{ cbn [fst]. split; [by apply Keeps_eq|]. intros d' [k|k a d1 Hk]; [rewrite take_nil; apply Keeps_clean|].
      by rewrite lookup_nil in Hk. }
  cbn [root opened]. split.
  - destruct (commitCurrent (MkRoot d false) expected g stage tmp).2 as [[]|err] eqn:Hr.
    + pose proof (commit_run_exact (MkRoot d false) expected g stage tmp Ht Hr) as Hx. cbn zeta in Hx.
      cbn [disk_of] in Hx. rewrite Hx. intros name dir _ Hd. rewrite committed_generations. by apply published_mono.
    + pose proof (commit_error_run (MkRoot d false) expected g stage tmp Ht) as Hx. cbn zeta in Hx.
      cbn [disk_of] in Hx. rewrite Hx by (by rewrite Hr). by apply Keeps_eq.
  - intros d' Hcr. eapply Keeps_trans; [apply Keeps_clean|].
    destruct (commit_crashed stage tmp (temp_stage _ _ _ Ht) (temp_tmp _ _ _ Ht) (MkRoot d false) expected g d' Hcr)
      as [->|(_ & _ & [->| ->])]; cbn [disk_of]; intros name dir _ Hd; rewrite ?committed_generations; [done|..];
      by apply published_mono.
Qed.

Lemma step_keeps p d d' : store_step p d d' -> Keeps d d'.
Proof.
  intros [acts Hc|acts d1 root' Hc Hcr ->%openNamespaceRoot_clean];
    destruct Hc as [e signed pend expected attest stage tmp _ _ Ht|name sub suc at_ stage tmp _ _].
  - by apply commit_keeps.
  - apply Keeps_eq, journalOnly_run, append_journalOnly.
  - by eapply commit_keeps.
  - eapply Keeps_trans; [|apply Keeps_clean]. apply Keeps_eq.
    by eapply journalOnly_crashed; [apply append_journalOnly|].
Qed.

(** While the pointer has the same name, so has the snapshot the same content. *)
Lemma same_current_same_snapshot p d d' current gens gens' snap :
  rtc (store_step p) d d' -> load (MkRoot d false) = Ok (current, gens) ->
  load (MkRoot d' false) = Ok (current, gens') -> Store_load (opened p d) 0 = Ok snap ->
  Store_load (opened p d') 0 = Ok snap.
Proof.
  intros Hsteps Hl Hl' Hs. apply Store_load_ok in Hs as (c & dir & g & [gs Hc] & Hne & Hd & Hg & Hr).
  change (root (opened p d)) with (MkRoot d false) in Hc. rewrite Hl in Hc. injection Hc as <- <-.
  apply Store_load_ok. exists current, dir, g.
  split_and!; eauto. cbn. assert (Keeps d d') as Hk.
  { clear -Hsteps. induction Hsteps; [by apply Keeps_eq|]. eapply Keeps_trans; [by eapply step_keeps|done]. }
  apply Hk; [|done]. assert (exists gens, load (MkRoot d false) = Ok (current, gens)) as Hx by eauto.
  apply load_iff in Hx as (_ & _ & Hload & _). by eapply Hload.
Qed.

Lemma Begin_ok p d e at_ pol inst :
  BeginEpochInstallation (opened p d) e at_ pol = Ok inst ->
  exists gens, load (MkRoot d false) = Ok (inst.(base), gens) /\ inst.(inst_epoch) = e /\
    Continues p.(policy_Network) inst.(inst_records) inst.(inst_records) /\
    (inst.(base) <> [] -> exists snap, Store_load (opened p d) 0 = Ok snap /\
       forall raw r, raw ∈ snap.(snap_records) -> recordcodec.VerifyRecord p.(policy_Network) raw = Ok r ->
         inst.(inst_records) !! r.(record.Name) = Some raw).
Proof.
  unfold BeginEpochInstallation. destruct (_ || _); [done|]. change (root (opened p d)) with (MkRoot d false).
  destruct (load (MkRoot d false)) as [[current gens]|] eqn:Hload; [|done]. exists gens.
  case_bool_decide as Hne.
  - simplify_eq. cbn. split_and!; try done.
  - inv_ok. subst inst. cbn in *. split_and!; try done; [by eapply signedByName_self|]. intros _. exists a.
    split; [done|]. intros raw r Hin Hr. eapply signedByName_ok; [done|]. right. eauto.
Qed.

Lemma Commit_ok s inst attest stage tmp :
  (Commit s inst attest stage tmp).2 = Ok tt ->
  exists gens attest', load s.(root) = Ok (inst.(base), gens) /\
    Commit s inst attest stage tmp =
    commitAtCurrent s inst.(inst_epoch) (installedRecords inst) inst.(cursor) (Some inst.(base)) attest' stage tmp.
Proof.
  unfold Commit, commitInstallation. destruct attest as [attest|]; [|done].
  destruct (negb (validEpoch _)); [done|]. destruct (load (root s)) as [[current gens]|] eqn:Hload; [|done].
  case_bool_decide as Hbase; [|done]. cbn [negb] in *. subst current.
  destruct (installationPendingCursor _ _ _) as [pend|] eqn:Hpend; [|done].
  assert (pend = cursor inst) as -> by (unfold installationPendingCursor in Hpend; by inv_ok).
  intros _. by exists gens, attest.
Qed.

(** C2: However an installation is built by [IncludePendingThrough] and
    [MaterializeClaim] calls, failed ones included, and whatever sequence of
    other calls and crashes happens to the store meanwhile: when its [Commit]
    succeeds, every Name that was current still is, at the same or a later
    generation and revision, and the Epoch is the installation's.  The only exception is a root that
    already held 64 generations, the most [load] accepts: the commit may then
    publish one more, after which nothing can be loaded. *)
Theorem installation_never_rolls_back p d d1 e at_ pol inst inst' attest stage tmp previous :
  validMaterializationPolicy p = Ok p -> TypedEpoch e -> in_u64 inst'.(cursor) ->
  BeginEpochInstallation (opened p d) e at_ pol = Ok inst ->
  rtc (inst_step p) inst inst' -> rtc (store_step p) d d1 -> TempNames d1 stage tmp ->
  (Commit (opened p d1) inst' attest stage tmp).2 = Ok tt ->
  Store_load (opened p d1) 0 = Ok previous ->
  let d2 := run (Commit (opened p d1) inst' attest stage tmp).1 d1 in
  (exists snap, Store_load (opened p d2) 0 = Ok snap /\
    snap.(snap_attested).(stmt).(epoch) = e.(Number) /\
    forall raw r, raw ∈ previous.(snap_records) -> recordcodec.VerifyRecord p.(policy_Network) raw = Ok r ->
      exists raw' r', raw' ∈ snap.(snap_records) /\ recordcodec.VerifyRecord p.(policy_Network) raw' = Ok r' /\
        r'.(record.Name) = r.(record.Name) /\ NotBefore r r') \/
  Z.of_nat (size d1.(generations)) = maximumNamespaceGenerations /\
  Z.of_nat (size d2.(generations)) = maximumNamespaceGenerations + 1 /\
  Store_load (opened p d2) 0 = Err tampered.
Proof.
  intros Hv He Hcur Hbegin Hinst Hsteps Ht Hc Hprev.
  destruct (Begin_ok _ _ _ _ _ _ Hbegin) as (gens & Hload & Hep & Hself & Hsnap).
  destruct (steps_continue _ _ _ _ Hinst Hself) as (Hcont & Hbase & Hep').
  destruct (Commit_ok _ _ _ _ _ Hc) as (gens1 & attest' & Hload1 & Ec). rewrite Ec in *.
  pose proof Hprev as (c & _ & _ & [gs Hgs] & Hne & _)%Store_load_ok. rewrite Hload1 in Hgs. injection Hgs as <- <-.
  rewrite Hbase in Hne, Hload1. destruct (Hsnap Hne) as (snap0 & Hs0 & Hrec).
  pose proof (same_current_same_snapshot _ _ _ _ _ _ _ Hsteps Hload Hload1 Hs0) as Hs1.
  rewrite Hprev in Hs1. injection Hs1 as ->. rewrite Hep', Hep in *.
  destruct (commitAtCurrent_ok (opened p d1) _ _ _ _ _ _ _ Hv He Hcur (temp_stage _ _ _ Ht) Hc) as
    (g & snap & Hg & Ha & Eg & Hr' & Hpub & _ & _ & Hl & Hread & Hm & Hst & _ & _).
  pose proof (commit_run_exact (MkRoot d1 false) _ g stage tmp Ht Hr') as Hx. cbn zeta in Hx.
  cbn [disk_of] in Hx. cbn zeta. rewrite Eg. change (root (opened p d1)) with (MkRoot d1 false). rewrite Hx.
  destruct (proj1 (load_iff (MkRoot d1 false) (base inst))) as (_ & Hsz & _); [eauto|].
  destruct (committed_loads p d1 g snap) as [Hsnap'|Hfull]; try done; [left; exists snap|by right].
  split_and!; [done|by rewrite Hst|]. intros raw r Hin Hr. pose proof (Hrec _ _ Hin Hr) as Hi.
  destruct (co_later _ _ _ Hcont _ _ _ Hi Hr) as (raw' & r' & Hi' & Hr1 & Hnb).
  destruct (co_named _ _ _ Hcont _ _ Hi') as (r'' & Hr2 & Hname). rewrite Hr1 in Hr2. injection Hr2 as <-.
  exists raw', r'. split_and!; try done. eapply materialized_records; [exact Hm|].
  apply installedRecords_elem. eauto.
Qed.

(** ** Lookup *)

Lemma findRecord_ok network name k records i :
  findRecord network name k records = Ok (Some i) ->
  exists raw current, (k <= i)%nat /\ records !! (i - k)%nat = Some raw /\
    recordcodec.VerifyRecord network raw = Ok current /\ current.(record.Name) = name.
Proof.
  revert k. induction records as [|x records IH]; intros k; cbn [findRecord]; [done|].
  destruct (recordcodec.VerifyRecord network x) as [current|] eqn:Hv; [|done]. case_bool_decide as E.
  - intros [= <-]. exists x, current. rewrite Nat.sub_diag. by split_and!.
  - intros (raw & c & Hk & Hraw & Hc & Hn)%IH. exists raw, c. split_and!; try done; [lia|].
    by replace (i - k)%nat with (S (i - S k)) by lia.
Qed.

Lemma Store_load_verified s minimum snap : Store_load s minimum = Ok snap -> Verified s.(policy) minimum snap.
Proof. intros (? & ? & ? & _ & _ & _ & _ & Hr)%Store_load_ok. by eapply readSnapshot_verified. Qed.

(** The leaf that a verified snapshot has for one of its Records. *)
Lemma snapshot_leaf p minimum snap i raw :
  Verified p minimum snap -> Millis p.(policy_Network) snap.(snap_records) ->
  snap.(snap_records) !! i = Some raw ->
  exists leafRaw leaf, snap.(snap_leaves) !! i = Some leafRaw /\ decodeLeaf leafRaw = Ok leaf /\
    leaf.(signedRecord) = raw.
Proof.
  intros Hv Hmil Hraw. destruct (materializeRecords_ok _ _ _ _ (ve_records _ _ _ Hv)) as (entries & byName & Hc).
  pose proof (corpus_records _ _ _ _ _ _ Hc) as Hr. rewrite Hr, list_lookup_fmap in Hraw.
  destruct (entries !! i) as [e|] eqn:He; [|done]. injection Hraw as <-.
  destruct (Forall2_lookup_l _ _ _ _ _ (corpus_leaves _ _ _ _ _ _ Hc) He) as (leafRaw & Hl & _).
  destruct (corpus_leaf _ _ _ _ _ _ _ _ Hc Hmil Hl) as (e' & leaf & rest & He' & _ & _ & _ & -> & Ht & _ & Hcase).
  rewrite He in He'. injection He' as <-. exists (encodeLeaf leaf), leaf.
  split_and!; [done|by apply decodeLeaf_complete|].
  destruct Hcase as [->|[_ _ (sm & _ & ->) _]]; done.
Qed.

(** The parts of a proof that a store made. *)
Lemma snapshot_proof p minimum snap i leafRaw :
  let siblings := namespaceProof snap.(snap_leaves) (Z.of_nat i) emptyRecordTag in
  let proof := encodeProof snap.(snap_attested) (Z.of_nat i) leafRaw siblings in
  Verified p minimum snap -> snap.(snap_leaves) !! i = Some leafRaw -> len proof <= maximumProofBytes ->
  u32 (Z.of_nat i) = Z.of_nat i /\ decodeProof proof = Ok (snap.(snap_attested), Z.of_nat i, leafRaw, siblings).
Proof.
  intros siblings proof Hv Hl Hsize. pose proof (leaves_bound _ _ _ _ (ve_records _ _ _ Hv)) as [_ Hb].
  destruct (namespaceProof_complete _ _ _ emptyRecordTag Hb Hl) as [_ Hshort].
  apply lookup_lt_Some in Hl. unfold maximumRecords, len in Hb. split; [apply Z.mod_small; lia|].
  apply decodeProof_complete. constructor; [apply Hv|unfold in_u32; lia|unfold siblings; lia|done].
Qed.

(** C24: The proof that [Lookup] returns for a Name is accepted by [VerifyBinding],
    for the current Epoch and its digest, at exactly the times the Name's leaf is
    available, and the binding it yields is for that Name. *)
Theorem Lookup_verifies s name minimum proof snap :
  ValidStore s -> Lookup s name minimum = Ok proof -> Store_load s minimum = Ok snap ->
  Millis s.(policy).(policy_Network) snap.(snap_records) ->
  exists i raw current leafRaw leaf,
    snap.(snap_records) !! i = Some raw /\ snap.(snap_leaves) !! i = Some leafRaw /\
    recordcodec.VerifyRecord s.(policy).(policy_Network) raw = Ok current /\ current.(record.Name) = name /\
    decodeLeaf leafRaw = Ok leaf /\ leaf.(signedRecord) = raw /\
    forall at_, let a := snap.(snap_attested).(stmt) in
      leaf.(state) <> 0 /\ 0 <= at_ <= leaf.(notAfter) <->
      exists binding warning,
        VerifyBinding s.(policy) proof minimum a.(epochDigest) at_ = Ok (binding, warning, a.(epoch)) /\
        binding.(recordcodec.bound_Name) = name.
Proof.
  intros Hs Hlook Hload Hmil. unfold Lookup in Hlook. pose proof Hload as Hload'. inv_ok. subst a0.
  destruct a1 as [i|]; [|done]. apply findRecord_ok in Hok1 as (raw & current & _ & Hraw & Hcur & Hname). rewrite Nat.sub_0_r in Hraw.
  pose proof (Store_load_verified _ _ _ Hok0) as Hver.
  destruct (snapshot_leaf _ _ _ _ _ Hver Hmil Hraw) as (leafRaw & leaf & Hl & Hleaf & Hsigned).
  rewrite Hl in Hlook. change (default [] (Some leafRaw)) with leafRaw in Hlook. assert (u32 (Z.of_nat i) = Z.of_nat i) as Hu.
  { pose proof (leaves_bound _ _ _ _ (ve_records _ _ _ Hver)) as [_ Hb]. apply lookup_lt_Some in Hl.
    unfold maximumRecords, len in Hb. apply Z.mod_small. lia. }
  rewrite Hu in Hlook. inv_ok. goprop. subst proof.
  destruct (snapshot_proof _ _ _ _ _ Hver Hl ltac:(done)) as [_ Hdec].
  exists i, raw, current, leafRaw, leaf. split_and!; try done. intros at_. cbn zeta. split.
  - intros [Hst Hat]. destruct (materializeRecords_ok _ _ _ _ (ve_records _ _ _ Hver)) as (entries & byName & Hc).
    destruct (proof_verifies (policy s) _ _ _ _ _ _ _ _ _ minimum at_ Hs Hc Hmil (ve_typed _ _ _ Hver)
      (ve_attested _ _ _ Hver) (ve_root _ _ _ Hver) (ve_length _ _ _ Hver) Hl Hleaf Hst Hat (ve_minimum _ _ _ Hver))
      as (c & binding & warning & Hvl & Hvr); [done|].
    exists binding, warning. rewrite Hsigned, Hcur in Hvr. injection Hvr as <-.
    unfold VerifyBinding. rewrite Hvl. split; [done|].
    apply VerifyLegacy_ok in Hvl as (? & ? & ? & ? & ? & _ & _ & _ & _ & _ & _ & _ & _ & _ & _ & _ & _ & -> & _). done.
  - intros (binding & warning & Hvb & _). unfold VerifyBinding in Hvb.
    destruct (VerifyLegacy _ _ _ _ _) as [[[[c b] w] n]|] eqn:Hvl; [|done].
    apply VerifyLegacy_ok in Hvl as (a1 & o & lr & sib & lf & _ & Hat & Hd & _ & _ & _ & _ & _ & Hlf & Hst & Hna & _).
    rewrite Hdec in Hd. injection Hd as <- <- <- <-. rewrite Hleaf in Hlf. injection Hlf as <-. auto.
Qed.

End Install.

(** ** An installation of one pending successor *)

Section Witnesses.
#[local] Existing Instance sample_golib.

(** The next revision of the Record in the sample corpus. *)
Definition sampleSuccessor : bytes :=
  recordcodec.okBytes (recordcodec.SignRecord sampleNetwork
    (recordcodec.sampleRecord <| record.Revision := 3 |>) recordcodec.samplePrivate).

#[local] Notation appendCall :=
  (Store_appendPending (opened samplePolicy firstDisk) (str "example") [x01] sampleSuccessor 5000 sampleStage).

Definition pendingDisk : Disk := run appendCall.1 firstDisk.

Definition noInstallation : EpochInstallation := MkInstallation (sampleEpoch 4) 0 (record.MkPolicy 0 0) [] ∅ 0.

#[local] Notation begun :=
  (BeginEpochInstallation (opened samplePolicy firstDisk) (sampleEpoch 4) (5000 * Second) (record.MkPolicy Hour 0)).

Definition started : EpochInstallation := match begun with Ok inst => inst | Err _ => noInstallation end.
Definition included : EpochInstallation := (IncludePendingThrough (opened samplePolicy pendingDisk) started 1).1.

#[local] Notation installCall :=
  (Commit (opened samplePolicy pendingDisk) included (Some sampleAttest) sampleStage sampleTmp).

Lemma started_begins : begun = Ok started.
Proof. vm_compute. reflexivity. Qed.

Lemma installCall_commits : installCall.2 = Ok tt.
Proof. vm_compute. reflexivity. Qed.

Lemma pendingDisk_loads : Store_load (opened samplePolicy pendingDisk) 0 = Ok (snapshotOf pendingDisk).
Proof. vm_compute. reflexivity. Qed.

Lemma installation_never_rolls_back_witness :
  exists snap, Store_load (opened samplePolicy (run installCall.1 pendingDisk)) 0 = Ok snap /\
    snap.(snap_attested).(stmt).(epoch) = 4.
Proof.
  destruct (installation_never_rolls_back samplePolicy firstDisk pendingDisk (sampleEpoch 4) (5000 * Second)
    (record.MkPolicy Hour 0) started included (Some sampleAttest) sampleStage sampleTmp (snapshotOf pendingDisk))
    as [(snap & Hl & He & _)|[Hfull _]].
  - exact samplePolicy_valid.
  - apply sampleEpoch_typed. by vm_compute.
  - by vm_compute.
  - exact started_begins.
  - apply rtc_once. unfold included. apply step_include.
  - apply rtc_once. unfold pendingDisk. apply step_call. apply (call_append _ _ _ _ _ _ _ sampleTmp); [by vm_compute|].
    constructor; vm_compute; reflexivity.
  - constructor; vm_compute; reflexivity.
  - exact installCall_commits.
  - exact pendingDisk_loads.
  - exists snap. split; [exact Hl|exact He].
  - by vm_compute in Hfull.
Defined.

Definition sampleLookup : bytes := recordcodec.okBytes (Lookup (opened samplePolicy firstDisk) (str "example") 2).

Lemma Lookup_verifies_witness :
  exists binding warning, VerifyBinding samplePolicy sampleLookup 2 (recovery.key 9) 4000000 = Ok (binding, warning, 3) /\
    binding.(recordcodec.bound_Name) = str "example".
Proof.
  destruct (Lookup_verifies (opened samplePolicy firstDisk) (str "example") 2 sampleLookup (snapshotOf firstDisk))
    as (i & raw & current & leafRaw & leaf & _ & Hl & _ & _ & Hleaf & _ & Hiff).
  - exact samplePolicy_valid.
  - vm_compute. reflexivity.
  - vm_compute. reflexivity.
  - intros raw r Hin Hr. assert (snap_records (snapshotOf firstDisk) = sampleCorpus) as E by (vm_compute; reflexivity).
    rewrite E in Hin. exact (sampleMillis raw r Hin Hr).
  - apply (Hiff 4000000). destruct i as [|i]; [|vm_compute in Hl; discriminate].
    assert (leafRaw = sampleLeaf) as -> by (vm_compute in Hl; injection Hl as <-; vm_compute; reflexivity).
    vm_compute in Hleaf. injection Hleaf as <-. clear. split; [by vm_compute|by vm_compute].
Defined.

End Witnesses.
