(* ===== verification/AuthorityProof.v ===== *)
(** * Name Authority control: theorems

    Decisions taken at a nanosecond clock replay from the millisecond the journal
    keeps; a control rebuilds its view from the store after every submission and
    every crash; what a submission changes was authorized by the holder of the
    name or by its recovery quorum. *)

From S2P Require Import Prelude GoLib GoTime Naming Recovery Record RecordLifecycle RecordProperties RecordCodec Admission Claim Json ClaimWire.
From S2P Require Import EpochCodec EpochDisk EpochDurable EpochJournal EpochStore EpochStoreProof EpochInstall Authority.

Import json authority.

Section Replay.
Context `{GoLib}.

(** ** The clock of a decision *)

(** The instants [time.Time.UnixNano] can represent after the epoch. *)
Definition Clock (now : Z) : Prop := 0 < now < 2 ^ 63.

(** The instant [restore] rebuilds from the journal. *)
Definition journaled (now : Z) : Z := OfUnixMilli (UnixMilli now).

Lemma UnixMilli_clock now : 0 <= now < 2 ^ 64 -> UnixMilli now = now / Millisecond.
Proof. intros Hn. apply UnixMilli_floor. unfold in_i64, Millisecond. Z.div_mod_to_equations. lia. Qed.

Lemma journaled_floor now : Clock now -> journaled now = now / Millisecond * Millisecond.
Proof. intros [H1 H2]. unfold journaled, OfUnixMilli. by rewrite UnixMilli_clock by lia. Qed.

Lemma journaled_UnixMilli now : Clock now -> UnixMilli (journaled now) = UnixMilli now.
Proof.
  intros Hc. rewrite journaled_floor by done. unfold Clock in Hc. rewrite !UnixMilli_clock; unfold Millisecond;
    Z.div_mod_to_equations; lia.
Qed.

Lemma journaled_Unix now : Clock now -> Unix (journaled now) = Unix now.
Proof.
  intros Hc. rewrite journaled_floor by done. unfold Clock in Hc. unfold Unix, Second, Millisecond. Z.div_mod_to_equations. lia.
Qed.

Lemma lifecycle_journaled operation network current now :
  Clock now -> operation.(Kind) <> str "policy" ->
  lifecycle operation network current (journaled now) = lifecycle operation network current now.
Proof.
  intros Hc Hk. unfold lifecycle, recoveryChange, durationUntil. rewrite !journaled_UnixMilli by done.
  rewrite (bool_decide_eq_false_2 (Kind operation = str "policy")) by done. done.
Qed.

Lemma lineage_journaled c r now : Clock now -> lineage c r (journaled now) = lineage c r now.
Proof. intros Hc. unfold lineage. by rewrite journaled_Unix. Qed.

(** The activation instant of a policy that both the operation and the Record
    transition accept does not depend on the sub-millisecond part of the clock. *)
Lemma activation_journaled now delay activates :
  Clock now -> record.minimumRecoveryDelay <= delay <= record.maximumRecoveryDelay ->
  activates = UnixMilli (Add now delay) -> activates = i64 (i64 (Unix now * 1000) + Milliseconds delay) ->
  now mod Second < Millisecond /\ activates = UnixMilli (Add (journaled now) delay).
Proof.
  intros Hc Hd Ha Hb. unfold Clock in Hc. rewrite journaled_floor by done.
  unfold record.minimumRecoveryDelay, record.maximumRecoveryDelay, Hour, Second, Millisecond, Add in *.
  rewrite UnixMilli_clock in Ha by (Z.div_mod_to_equations; lia).
  rewrite UnixMilli_clock by (unfold Millisecond; Z.div_mod_to_equations; lia).
  unfold Milliseconds, Unix, Second, Millisecond in *. rewrite Z.quot_div_nonneg in Hb by lia.
  rewrite (i64_id (now / _ * 1000)) in Hb by (unfold in_i64; Z.div_mod_to_equations; lia).
  rewrite i64_id in Hb by (unfold in_i64; Z.div_mod_to_equations; lia). Z.div_mod_to_equations. lia.
Qed.

Lemma policyChange_ok operation network current op op' :
  policyChange operation network current op = Ok op' ->
  op'.(record.op_Kind) = op.(record.op_Kind) /\ op'.(record.op_Name) = op.(record.op_Name).
Proof. unfold policyChange. intros Hp. case_match; inv_ok; [by subst|]. case_match; [|done]. inv_ok. by subst. Qed.

(** The policy case of [lifecycle], with the instant it depends on. *)
Lemma lifecycle_policy operation network current now op threshold :
  operation.(Kind) = str "policy" -> lifecycle operation network current now = Ok (op, threshold) ->
  threshold = false /\ op.(record.op_Kind) = record.opScheduleRecoveryPolicy /\
  op.(record.op_PolicyActivatesAt) = UnixMilli (Add now op.(record.op_PolicyDelay)) /\
  (forall now', op.(record.op_PolicyActivatesAt) = UnixMilli (Add now' op.(record.op_PolicyDelay)) ->
     lifecycle operation network current now' = Ok (op, threshold)).
Proof.
  intros Hk. unfold lifecycle. rewrite Hk. literals.
  destruct (policyChange _ _ _ _) as [op1|] eqn:Hp; [|done].
  pose proof (policyChange_ok _ _ _ _ _ Hp) as [Hkind _]. cbn in Hkind.
  cbn [mbind result_bind]. set (op2 := op1 <| record.op_PolicyActivatesAt := _ |>).
  assert (record.op_Kind op2 = str "schedule-recovery-policy") as Hk2 by done.
  assert (record.op_PolicyActivatesAt op2 = PolicyNotBefore operation) as Ha by done.
  rewrite !Hk2. intros Hl. inv_ok. injection Hl as <- <-. goprop.
  split; [done|]. split; [exact Hk2|]. split; [congruence|].
  intros now' Hn. rewrite <- Ha, Hn, Z.eqb_refl. cbn [negb]. by literals.
Qed.

Lemma applyTransition_ok network current op proof now policy u :
  applyTransition network current op proof now policy = Ok u ->
  exists public transcript,
    recordcodec.AuthorityKey current.(record.Authority) = Ok public /\ len proof = 64 /\
    supportedTransition current op = true /\ transitionTranscript network current op = Ok transcript /\
    ed25519_Verify public transcript proof = true /\
    record.ApplyLegacy (if op.(record.op_Kind) ==? str "claim" then None else Some current) now op policy = Ok u.
Proof.
  unfold applyTransition. intros Ha.
  destruct (recordcodec.AuthorityKey _) as [public|]; [|done]. inv_ok. goprop.
  exists public, a. split_and!; try done. by destruct (record.op_Kind op ==? str "claim").
Qed.

(** Scheduling a policy succeeds only in the first millisecond of a second, and
    then its replay succeeds too. *)
Lemma existing_policy c operation current now u :
  Clock now -> operation.(Kind) = str "policy" -> existing c operation current now = Ok u ->
  now mod Second < Millisecond /\ existing c operation current (journaled now) = Ok u.
Proof.
  intros Hc Hk. unfold existing. destruct (lifecycle _ _ _ now) as [[op threshold]|] eqn:Hl; [|done].
  destruct (lifecycle_policy _ _ _ _ _ _ Hk Hl) as (-> & Hkind & Ha & Hl'). cbn [mbind result_bind].
  rewrite lineage_journaled, journaled_Unix by done. destruct (lineage c current now) as [parents|]; [|done].
  cbn [mbind result_bind]. intros Happ.
  pose proof (applyTransition_ok _ _ _ _ _ _ _ Happ) as (_ & _ & _ & _ & _ & _ & _ & Hs).
  unfold record.ApplyLegacy, record.apply in Hs. cbn [record.op_Kind record.op_Name] in Hs.
  change (record.op_Kind (op <| record.op_Parents := parents |>)) with (record.op_Kind op) in Hs.
  rewrite !Hkind in Hs. unfold record.opScheduleRecoveryPolicy, record.opClaim, record.opRenew, record.opRelease,
    record.opAdvance, record.opConflict, record.opPublish, record.opRotate, record.opTransfer in Hs. literals.
  destruct (record.validOperationName _); [|done].
  apply schedule_ok in Hs as (r & _ & _ & _ & _ & _ & Hd & Hact & _); [|done].
  change (record.op_PolicyDelay (op <| record.op_Parents := parents |>)) with (record.op_PolicyDelay op) in *.
  change (record.op_PolicyActivatesAt (op <| record.op_Parents := parents |>)) with (record.op_PolicyActivatesAt op) in *.
  destruct (activation_journaled _ _ _ Hc Hd Ha Hact) as [Hmod Hj]. split; [done|]. by rewrite (Hl' _ Hj).
Qed.

Lemma transitionAt_journaled c operation now u :
  Clock now -> transitionAt c operation now = Ok u -> transitionAt c operation (journaled now) = Ok u.
Proof.
  intros Hc. unfold transitionAt. destruct (Kind operation ==? str "claim").
  { unfold claim_, claim.Materialize, claim.prepare, record.ApplyAtLegacy, record.applyAt.
    rewrite journaled_Unix, journaled_UnixMilli by done.
    replace (IsZero (journaled now)) with (IsZero now); [done|]. unfold Clock in Hc.
    pose proof (journaled_floor _ Hc) as ->. unfold IsZero, Second, Millisecond.
    transitivity false; [|symmetry]; apply Z.eqb_neq; Z.div_mod_to_equations; lia. }
  destruct (Kind operation ==? str "delegate").
  { unfold delegate, durationUntil. destruct (_ !! _); [|done].
    by rewrite lineage_journaled, journaled_Unix, journaled_UnixMilli. }
  case_match; [|done]. destruct (_ !! _) as [current|]; [|done].
  destruct (decide (operation.(Kind) = str "policy")) as [Hk|Hk]; [by intros Hu; apply existing_policy in Hu as [_ ?]|].
  unfold existing. rewrite lifecycle_journaled, lineage_journaled, journaled_Unix by done.
  unfold record.ApplyAtLegacy, record.applyAt. by rewrite journaled_Unix, journaled_UnixMilli.
Qed.

(** ** What a control depends on *)

(** Two controls with the same configuration and view. *)
Record Alike (c c' : control) : Prop := {
  alike_network : c'.(network) = c.(network);
  alike_order : c'.(order) = c.(order);
  alike_policy : c'.(policy) = c.(policy);
  alike_records : c'.(records) = c.(records)
}.

Lemma transitionAt_alike c c' operation now :
  Alike c c' -> transitionAt c' operation now = transitionAt c operation now.
Proof. destruct c, c'. by intros [En Eo Ep Er]; cbn in *; subst. Qed.

Definition learned (c : control) (u : record.NameRecord) : control :=
  c <| records := <[u.(record.Name) := u]> c.(records) |>.

Lemma Alike_learned c c' u : Alike c c' -> Alike (learned c u) (learned c' u).
Proof. destruct c, c'. intros [En Eo Ep Er]; cbn in *; subst. by constructor. Qed.

Lemma replay_alike c c' cursor es c1 :
  Alike c c' -> replay c cursor es = Ok c1 -> exists c1', replay c' cursor es = Ok c1' /\ Alike c1 c1'.
Proof.
  revert c c'. induction es as [|e es IH]; intros c c' Ha; cbn [replay]; [intros [= <-]; by exists c'|].
  destruct (_ <=? _); [by apply IH|]. destruct (decodeControlOperation _) as [operation|]; [|done]. case_match; [done|].
  rewrite (transitionAt_alike c c') by done. destruct (transitionAt c operation _) as [u|]; [|done].
  unfold exactSignedSuccessor. rewrite (alike_network _ _ Ha). case_match; [done|].
  apply IH. by apply Alike_learned.
Qed.

Lemma replay_keeps c cursor es c1 :
  replay c cursor es = Ok c1 -> network c1 = network c /\ order c1 = order c /\ policy c1 = policy c /\ store c1 = store c.
Proof.
  revert c. induction es as [|e es IH]; intros c; cbn [replay]; [by intros [= <-]|].
  destruct (_ <=? _); [by apply IH|]. destruct (decodeControlOperation _) as [operation|]; [|done]. case_match; [done|].
  destruct (transitionAt c operation _) as [u|]; [|done]. case_match; [done|]. by intros Hr%IH.
Qed.

Lemma replay_app c cursor es es' c1 :
  replay c cursor es = Ok c1 -> replay c cursor (es ++ es') = replay c1 cursor es'.
Proof.
  revert c. induction es as [|e es IH]; intros c; cbn [replay app]; [by intros [= <-]|].
  destruct (_ <=? _); [by apply IH|]. destruct (decodeControlOperation _) as [operation|]; [|done]. case_match; [done|].
  destruct (transitionAt c operation _) as [u|]; [|done]. case_match; [done|]. apply IH.
Qed.

(** ** The store behind a control *)

Record Stored (p : epoch.MaterializationPolicy) (d : disk.Disk) (base : gmap gostring record.NameRecord) (cursor : Z)
  (es : list pending.pendingEntry) : Prop := {
  stored_current : store.CurrentRecords (opened p d) = Ok (base, cursor);
  stored_pending : store.Store_pending (opened p d) = Ok es
}.

Lemma CurrentRecords_same p d d' :
  d'.(disk.generations) = d.(disk.generations) ->
  d'.(disk.root_files) !! str "current" = d.(disk.root_files) !! str "current" ->
  store.CurrentRecords (opened p d') = store.CurrentRecords (opened p d).
Proof.
  intros Eg Ef. unfold store.CurrentRecords. rewrite (Store_load_same p d d') by done.
  unfold disk.load. cbn. by rewrite Eg, Ef.
Qed.

Lemma CurrentRecords_clean p d v :
  store.CurrentRecords (opened p d) = Ok v -> store.CurrentRecords (opened p (clean d)) = Ok v.
Proof.
  intros Hc. rewrite <- Hc. apply CurrentRecords_same; cbn; [|apply without_lookup, current_kept].
  apply Loadable_clean. unfold store.CurrentRecords in Hc. destruct (disk.load _) as [[current gens]|] eqn:Hl; [|done].
  destruct (proj1 (load_iff (disk.MkRoot d false) current)) as (_ & _ & ? & _); [eauto|done].
Qed.

Lemma Stored_pending p d es :
  store.Store_pending (opened p d) = Ok es <->
  pending.root_pending (disk.MkRoot d false) = Ok es /\ store.checkSuccessors p.(epoch.policy_Network) es = true.
Proof.
  unfold store.Store_pending. cbn [opened store.root store.policy]. split.
  - intros Hp. inv_ok. goprop. by subst.
  - intros [-> Hc]. cbn [mbind result_bind]. by rewrite Hc.
Qed.

Lemma checkSuccessors_app network es es' :
  store.checkSuccessors network (es ++ es') = store.checkSuccessors network es && store.checkSuccessors network es'.
Proof.
  induction es as [|e es IH]; cbn [app store.checkSuccessors]; [done|].
  destruct (recordcodec.VerifyRecord _ _); [|done]. by rewrite IH, andb_assoc.
Qed.

Lemma Stored_clean p d base cursor es : Stored p d base cursor es -> Stored p (clean d) base cursor es.
Proof.
  intros [Hc [Hp Hs]%Stored_pending]. constructor; [by apply CurrentRecords_clean|]. apply Stored_pending. split; [|done].
  unfold pending.root_pending, disk.available in *. cbn [disk.closed disk.disk_of mbind result_bind] in *.
  by rewrite (pending.journal_clean d es Hp).
Qed.

(** The control rebuilt from a stored state. *)
Definition rebuilt (p : epoch.MaterializationPolicy) (g : admission.Admission) (o : claim.ClaimOrder) (pol : record.Policy)
  (d : disk.Disk) (base : gmap gostring record.NameRecord) : control :=
  MkControl p.(epoch.policy_Network) g o base pol (Some (opened p d)).

Lemma OpenControl_stored p d base cursor es g o pol :
  Stored p d base cursor es ->
  OpenControl (Some (opened p d)) (Some g) o true pol = replay (rebuilt p g o pol d base) cursor es.
Proof.
  intros [Hc Hp]. unfold OpenControl, restore. cbn [negb]. rewrite Hc, Hp. cbn [mbind result_bind].
  unfold rebuilt, set, update. cbn [records network gate order policy store opened store.policy].
  by rewrite (right_id_L ∅ (∪)).
Qed.

(** A control whose view is what its store holds; the materialized prefix of the
    journal is part of it. *)
Record Faithful (c : control) (p : epoch.MaterializationPolicy) (d : disk.Disk) : Prop := {
  faithful_store : c.(store) = Some (opened p d);
  faithful_network : c.(network) = p.(epoch.policy_Network);
  faithful_view : exists base cursor es c0, Stored p d base cursor es /\ cursor <= len es /\
    replay (rebuilt p c.(gate) c.(order) c.(policy) d base) cursor es = Ok c0 /\ c0.(records) = c.(records)
}.

(** Opening a control gives a faithful one. *)
Lemma OpenControl_faithful p d base cursor es g o pol c :
  Stored p d base cursor es -> cursor <= len es ->
  OpenControl (Some (opened p d)) (Some g) o true pol = Ok c -> Faithful c p d /\ order c = o /\ policy c = pol.
Proof.
  intros Hs Hle. rewrite (OpenControl_stored _ _ _ _ _ _ _ _ Hs). intros Hr.
  destruct (replay_keeps _ _ _ _ Hr) as (En & Eo & Ep & Est). cbn in *. split; [|done].
  constructor; [done|done|]. exists base, cursor, es.
  destruct (replay_alike (rebuilt p g o pol d base) (rebuilt p (gate c) (order c) (policy c) d base) _ _ _ ltac:(constructor; cbn; congruence) Hr) as (c1 & Hr1 & Ha).
  exists c1. split; [done|]. split; [done|]. split; [done|]. by destruct Ha.
Qed.

(** A faithful control is rebuilt by opening its store again, also after the
    removal of what a crash left. *)
Lemma Faithful_reopens c p d d' base cursor es g c0 :
  Stored p d' base cursor es -> cursor <= len es ->
  replay (rebuilt p c.(gate) c.(order) c.(policy) d base) cursor es = Ok c0 ->
  exists c2, OpenControl (Some (opened p d')) (Some g) c.(order) true c.(policy) = Ok c2 /\ Faithful c2 p d' /\
    c2.(records) = c0.(records).
Proof.
  intros Hs Hle Hr.
  destruct (replay_alike (rebuilt p c.(gate) c.(order) c.(policy) d base) (rebuilt p g c.(order) c.(policy) d' base) _ _ _ ltac:(by constructor) Hr) as (c2 & Hr2 & Ha).
  exists c2. split; [by rewrite (OpenControl_stored _ _ _ _ _ _ _ _ Hs)|]. split; [|apply Ha].
  eapply OpenControl_faithful; [done|done|]. by rewrite (OpenControl_stored _ _ _ _ _ _ _ _ Hs).
Qed.

(** ** Submissions *)

Definition submitted : gostring := str "submitted".
Definition denied : gostring := str "denied".

(** A submission that the control accepted, up to the append to the journal. *)
Record Accepted (c : control) (submission : Submission) (proof : admission.Proof) (now : Z) (operation : controlOperation)
  (u : record.NameRecord) : Prop := {
  acc_decodes : decodeControlOperation submission.(raw) = Ok operation;
  acc_digest : submission.(digest) = operation.(OperationDigest);
  acc_successor : operation.(SuccessorRecord) <> [];
  acc_kind : operation.(Kind) <> str "claim";
  acc_binds : bindsOperation c operation proof = true;
  acc_admitted : (admission.Verify c.(gate) (UnixMilli now) proof).2.1 = true;
  acc_transition : transitionAt c operation now = Ok u;
  acc_signed : exactSignedSuccessor c u operation.(SuccessorRecord) = true
}.

Definition gated (c : control) (now : Z) (proof : admission.Proof) : control :=
  c <| gate := (admission.Verify c.(gate) (UnixMilli now) proof).1 |>.

Definition appended (s : store.Store) (submission : Submission) (operation : controlOperation) (now : Z) (stage : gostring)
  : list disk.action * result pending.pendingEntry :=
  store.Store_appendPending s operation.(Name) submission.(raw) operation.(SuccessorRecord) (UnixMilli now) stage.

(** The three ways [Submit] ends: before the journal, at a refused append, and
    with the new entry. *)
Lemma Submit_cases c submission proof now stage acts c' outcome :
  Submit c submission proof now stage = (acts, c', outcome) ->
  (acts = [] /\ outcome = denied /\ (c' = c \/ c' = gated c now proof)) \/
  exists s operation u, c.(store) = Some s /\ Accepted c submission proof now operation u /\
    let call := appended s submission operation now stage in
    acts = call.1 /\
    ((exists e, call.2 = Err e) /\ outcome = denied /\
     c' = (gated c now proof) <| store := Some (after s acts) |> \/
     (exists e, call.2 = Ok e) /\ outcome = submitted /\
     c' = learned ((gated c now proof) <| store := Some (after s acts) |>) u).
Proof.
  unfold Submit. destruct (store c) as [s|] eqn:Hs; [|intros [= <- <- <-]; left; auto].
  destruct (decodeControlOperation _) as [operation|] eqn:Hd; [|intros [= <- <- <-]; left; auto].
  destruct (_ || _) eqn:Hg; [intros [= <- <- <-]; left; auto|]. rewrite !orb_false_iff in Hg.
  destruct (admission.Verify (gate c) (UnixMilli now) proof) as [g [accepted reason]] eqn:Hv. cbn [fst snd] in *.
  assert (c <| gate := g |> = gated c now proof) as Eg by (unfold gated; by rewrite Hv). rewrite Eg.
  destruct accepted; cbn [negb]; [|intros [= <- <- <-]; left; auto].
  assert (Alike c (gated c now proof)) as Hal by (by destruct c).
  rewrite (transitionAt_alike c) by done. unfold exactSignedSuccessor at 1. rewrite (alike_network _ _ Hal).
  destruct (transitionAt c operation now) as [u|] eqn:Ht; [|intros [= <- <- <-]; left; auto].
  fold (exactSignedSuccessor c u (SuccessorRecord operation)).
  destruct (exactSignedSuccessor c u _) eqn:Hx; cbn [negb]; [|intros [= <- <- <-]; left; auto].
  fold (appended s submission operation now stage). intros Hsub. right. exists s, operation, u.
  split; [done|]. split; [goprop; constructor; rewrite ?Hv; cbn; try done; by intros E; rewrite E in *|].
  destruct (appended s submission operation now stage) as [acts0 [e|e]]; injection Hsub as <- <- <-; cbn; eauto 10.
Qed.

Lemma Submit_accepts c s submission proof now stage operation u e :
  c.(store) = Some s -> Accepted c submission proof now operation u -> (appended s submission operation now stage).2 = Ok e ->
  exists acts c', Submit c submission proof now stage = (acts, c', submitted).
Proof.
  intros Hs [Hd Hdig Hne Hk Hb Hadm Ht Hx] He. unfold Submit. rewrite Hs, Hd.
  rewrite (bool_decide_eq_true_2 _ Hdig), (bool_decide_eq_false_2 _ Hk), Hb.
  replace (len (SuccessorRecord operation) =? 0) with false by (symmetry; by apply Z.eqb_neq; destruct (SuccessorRecord operation)).
  cbn [orb negb]. destruct (admission.Verify _ _ _) as [g [accepted reason]]. cbn in Hadm. subst accepted. cbn [negb].
  assert (Alike c (c <| gate := g |>)) as Ha by (by destruct c).
  rewrite (transitionAt_alike c), Ht by done. unfold exactSignedSuccessor in *. rewrite (alike_network _ _ Ha), Hx. cbn [negb].
  fold (appended s submission operation now stage). destruct (appended s submission operation now stage) as [acts outcome].
  cbn in He. subst outcome. eauto.
Qed.

(** An accepted append: the entry, and the stored state after it or after a
    crash inside it. *)
Lemma appended_ok p d submission operation now stage tmp base cursor es e :
  TempNames d stage tmp -> Stored p d base cursor es -> (appended (opened p d) submission operation now stage).2 = Ok e ->
  let acts := (appended (opened p d) submission operation now stage).1 in
  e.(pending.sequence) = len es + 1 /\ e.(pending.decisionAt) = UnixMilli now /\
  e.(pending.submission) = submission.(raw) /\ e.(pending.successor) = operation.(SuccessorRecord) /\
  Stored p (disk.run acts d) base cursor (es ++ [e]) /\
  (forall d' root', disk.crashed acts d d' -> disk.openNamespaceRoot d' = Ok root' ->
     root' = disk.MkRoot (clean d') false /\
     (Stored p (clean d') base cursor es \/ Stored p (clean d') base cursor (es ++ [e]))).
Proof.
  intros Htmp [Hcur [Hp Hs]%Stored_pending] Hok acts.
  pose proof (append_journalOnly (opened p d) (Name operation) (raw submission) (SuccessorRecord operation) (UnixMilli now) stage) as Hj.
  fold (appended (opened p d) submission operation now stage) in Hj. fold acts in Hj.
  unfold appended, store.Store_appendPending in Hok, acts. cbn [opened store.root store.policy] in *.
  destruct (recordcodec.VerifyRecord _ _) as [cur|] eqn:Hv; [|done]. destruct (_ || _) eqn:Hg; [done|].
  rewrite !orb_false_iff in Hg. destruct (pending.root_appendPending _ _ _) as [acts0 r] eqn:Happ. cbn in Hok, acts. subst r acts.
  assert (in_i64 (UnixMilli now)) as Hi by apply i64_range.
  destruct (pending.appendPending_extends (disk.MkRoot d false)
    (pending.MkPending [] 0 (UnixMilli now) (raw submission) (SuccessorRecord operation)) stage tmp acts0 e es Htmp Hi Hp Happ)
    as (Hp' & Hseq & Hat & Hsub & Hsuc & Egen & Efile & Hcrash). cbn [disk.disk_of pending.submission pending.successor pending.decisionAt] in *.
  assert (store.checkSuccessors (epoch.policy_Network p) (es ++ [e]) = true) as Hs'.
  { rewrite checkSuccessors_app, Hs. cbn [store.checkSuccessors andb]. rewrite Hsuc, Hv. goprop.
    split; [congruence|done]. }
  split_and!; try done.
  - constructor; [|by apply Stored_pending]. rewrite <- Hcur. apply CurrentRecords_same; [done|by rewrite Efile].
  - intros d' root' Hcr Hopen. pose proof (openNamespaceRoot_clean _ _ Hopen) as ->. split; [done|].
    destruct (journalOnly_crashed _ _ _ Hj Hcr) as [Eg Ef].
    assert (store.CurrentRecords (opened p (clean d')) = Ok (base, cursor)) as Hc'.
    { apply CurrentRecords_clean. rewrite <- Hcur. apply CurrentRecords_same; [done|by rewrite Ef]. }
    destruct (Hcrash _ _ Hcr Hopen) as [Hj'|Hj']; [left|right]; (constructor; [done|by apply Stored_pending]).
Qed.

Lemma appended_refused p d submission operation now stage tmp e :
  TempNames d stage tmp -> (appended (opened p d) submission operation now stage).2 = Err e ->
  let acts := (appended (opened p d) submission operation now stage).1 in
  disk.run acts d = d /\ Forall quiet acts.
Proof.
  intros Htmp. unfold appended, store.Store_appendPending. cbn [opened store.root store.policy].
  destruct (recordcodec.VerifyRecord _ _); [|done]. destruct (_ || _); [done|].
  destruct (pending.root_appendPending _ _ _) as [acts r] eqn:Ha. cbn [fst snd]. intros ->.
  by apply (pending.append_refused (disk.MkRoot d false) _ _ tmp _ _ Htmp) in Ha.
Qed.

(** The new entry replays to the Record the submission produced. *)
Lemma replay_submission c c0 submission proof now operation u cursor (es : list pending.pendingEntry) e :
  Clock now -> Accepted c submission proof now operation u -> Alike c c0 -> cursor <= len es ->
  e.(pending.sequence) = len es + 1 -> e.(pending.decisionAt) = UnixMilli now ->
  e.(pending.submission) = submission.(raw) -> e.(pending.successor) = operation.(SuccessorRecord) ->
  replay c0 cursor [e] = Ok (learned c0 u).
Proof.
  intros Hc [Hd _ Hne _ _ _ Ht Hx] Ha Hle Hseq Hat Hsub Hsuc. cbn [replay].
  rewrite Hseq, (proj2 (Z.leb_gt _ _)), Hsub, Hd, Hsuc by lia.
  rewrite (bool_decide_eq_true_2 (SuccessorRecord operation = SuccessorRecord operation)) by done.
  replace (len (SuccessorRecord operation) =? 0) with false.
  2:{ symmetry. apply Z.eqb_neq. unfold len. destruct (SuccessorRecord operation); [done|cbn; lia]. }
  cbn [orb negb]. rewrite Hat. change (OfUnixMilli (UnixMilli now)) with (journaled now).
  rewrite (transitionAt_alike c c0), (transitionAt_journaled _ _ _ _ Hc Ht) by done.
  unfold exactSignedSuccessor in *. rewrite (alike_network _ _ Ha). by rewrite Hx.
Qed.

Lemma same_view (p : epoch.MaterializationPolicy) (d d' : disk.Disk) (base rs : gmap gostring record.NameRecord)
  (cursor : Z) (es : list pending.pendingEntry) (g g' : admission.Admission) (o : claim.ClaimOrder)
  (pol : record.Policy) (c0 : control) :
  Stored p d' base cursor es -> cursor <= len es -> replay (rebuilt p g o pol d base) cursor es = Ok c0 ->
  c0.(records) = rs ->
  exists c1, Stored p d' base cursor es /\ cursor <= len es /\
    replay (rebuilt p g' o pol d' base) cursor es = Ok c1 /\ c1.(records) = rs.
Proof.
  intros Hs Hle Hr <-.
  destruct (replay_alike (rebuilt p g o pol d base) (rebuilt p g' o pol d' base) _ _ _ ltac:(by constructor) Hr) as (c1 & Hr1 & Ha).
  exists c1. split_and!; try done. apply Ha.
Qed.

(** C4: A control never forgets and never invents a decision.  After every
    submission, accepted or denied, its view is what its store holds; and when
    the process crashes at any point of the submission, with the file being
    written torn, the reopened store yields a control with the view from before
    the submission or the view from after it. *)
Theorem submit_survives_crash c p d submission proof now stage tmp acts c' outcome :
  Faithful c p d -> TempNames d stage tmp -> Clock now ->
  Submit c submission proof now stage = (acts, c', outcome) ->
  Faithful c' p (disk.run acts d) /\ (c'.(records) = c.(records) \/ outcome = submitted) /\
  forall d' root' g, disk.crashed acts d d' -> disk.openNamespaceRoot d' = Ok root' ->
    exists c2, OpenControl (Some (store.MkStore root' p)) (Some g) c.(order) true c.(policy) = Ok c2 /\
      Faithful c2 p root'.(disk.disk_of) /\ (c2.(records) = c.(records) \/ c2.(records) = c'.(records)).
Proof.
  intros [Hst Hnet (base & cursor & es & c0 & Hs & Hle & Hr & Er)] Htmp Hclock Hsub.
  assert (forall d' root' g, clean d' = clean d -> disk.openNamespaceRoot d' = Ok root' ->
    exists c2, OpenControl (Some (store.MkStore root' p)) (Some g) (order c) true (policy c) = Ok c2 /\
      Faithful c2 p (disk.disk_of root') /\ records c2 = records c) as Hold.
  { intros d' root' g Ed ->%openNamespaceRoot_clean. rewrite Ed, <- Er.
    exact (Faithful_reopens c p d (clean d) base cursor es g c0 (Stored_clean _ _ _ _ _ Hs) Hle Hr). }
  apply Submit_cases in Hsub as [(-> & -> & Hc')|(s & operation & u & Es & Hacc & Eacts & Hcases)].
  { split; [|split; [left; by destruct Hc' as [->| ->]|]].
    - change (disk.run [] d) with d. destruct Hc' as [->| ->]; constructor; try done; exists base, cursor, es;
        eapply same_view; done.
    - intros d' root' g Hcr Hopen. destruct (Hold d' root' g) as (c2 & ? & ? & ?); eauto 6.
      eapply quiet_crashed; [|done]. constructor. }
  rewrite Hst in Es. injection Es as <-. destruct Hcases as [([e He] & -> & ->)|([e He] & -> & ->)].
  - destruct (appended_refused p d submission operation now stage tmp e Htmp He) as [Erun Hq]. rewrite <- Eacts in *.
    split; [|split; [by left|]].
    + rewrite Erun. constructor; [by unfold after; cbn; rewrite Erun|done|].
      exists base, cursor, es. eapply same_view; done.
    + intros d' root' g Hcr Hopen. destruct (Hold d' root' g) as (c2 & ? & ? & ?); eauto 6. by eapply quiet_crashed.
  - destruct (appended_ok p d submission operation now stage tmp base cursor es e Htmp Hs He)
      as (Hseq & Hat & Hsb & Hsc & Hnew & Hcrash). rewrite <- Eacts in *.
    destruct (replay_keeps _ _ _ _ Hr) as (En & Eo & Ep & _). cbn in En, Eo, Ep.
    assert (Alike c c0) as Ha by (constructor; congruence).
    assert (cursor <= len (es ++ [e])) as Hle' by (rewrite len_app; cbn; unfold len in *; cbn; lia).
    assert (replay (rebuilt p (gate c) (order c) (policy c) d base) cursor (es ++ [e]) = Ok (learned c0 u)) as Hr'.
    { rewrite (replay_app _ _ _ _ _ Hr). by apply (replay_submission c c0 submission proof now operation u cursor es e). }
    split; [|split; [by right|]].
    + constructor; [done|done|]. exists base, cursor, (es ++ [e]). eapply same_view; [done|done|done|].
      unfold learned. cbn. by rewrite Er.
    + intros d' root' g Hcr Hopen. destruct (Hcrash _ _ Hcr Hopen) as [-> [Hs'|Hs']].
      * destruct (Faithful_reopens c p d (clean d') base cursor es g c0 Hs' Hle Hr) as (c2 & ? & ? & E2).
        exists c2. split_and!; try done. left. congruence.
      * destruct (Faithful_reopens c p d (clean d') base cursor (es ++ [e]) g _ Hs' Hle' Hr') as (c2 & ? & ? & E2).
        exists c2. split_and!; try done. right. rewrite E2. unfold learned. cbn. by rewrite Er.
Qed.

(** ** Who may change a name *)

(** The current holder of [r] signed the transition [op] from [r]. *)
Definition SignedTransition (network : array 32) (r : record.NameRecord) (op : record.Op) (proof : bytes) : Prop :=
  exists public transcript, recordcodec.AuthorityKey r.(record.Authority) = Ok public /\
    transitionTranscript network r op = Ok transcript /\ ed25519_Verify public transcript proof = true.

Inductive Authorized (c : control) (operation : controlOperation) (now : Z) (u : record.NameRecord) : Prop :=
| by_holder current op :
    c.(records) !! operation.(Name) = Some current -> SignedTransition c.(network) current op operation.(AuthorityProof) ->
    Step (Unix now) (i64 (Unix now * 1000)) op current u -> Authorized c operation now u
| by_parent parent op :
    c.(records) !! operation.(ParentName) = Some parent ->
    SignedTransition c.(network) parent op operation.(AuthorityProof) ->
    u.(record.Authority) = hex_EncodeToString operation.(Authority) -> within u (Some parent) ->
    Unix now < u.(record.LeaseExpiresAt) -> Authorized c operation now u
| by_quorum current rules evidence op :
    c.(records) !! operation.(Name) = Some current -> recovery.Digest rules = current.(record.RecoveryPolicy) ->
    recovery.Quorum rules evidence -> op.(record.op_RecoveryAuthorization) = recovery.authorizationOf rules evidence ->
    Step (Unix now) (UnixMilli now) op current u -> Authorized c operation now u.

Lemma Step_name s ms op r u : Step s ms op r u -> u.(record.Name) = r.(record.Name).
Proof. by destruct 1. Qed.

Lemma apply_version r s ms op policy u :
  record.apply (Some r) s ms op policy = Ok u -> r.(record.Name) = op.(record.op_Name) /\ Step s ms op r u.
Proof. intros ((action & Hr) & Hs)%apply_Step. by apply requireCurrent_ok in Hr as (_ & ? & _). Qed.

(** The threshold steps carry an authorization of the current policy. *)
Lemma lifecycle_threshold operation network current now op :
  lifecycle operation network current now = Ok (op, true) ->
  op.(record.op_Name) = operation.(Name) /\
  exists rules evidence, recovery.Digest rules = current.(record.RecoveryPolicy) /\
    recovery.Authorize rules evidence = Ok op.(record.op_RecoveryAuthorization).
Proof.
  unfold lifecycle. repeat (case_match; try done); intros Hl; inv_ok; try discriminate; goprop.
  unfold recoveryChange in Hl. destruct (decodeCanonical _ _) as [envelope|]; [|done]. inv_ok. injection Hl as <-. goprop.
  split; [done|]. eexists _, _. split; [|by rewrite Hok]. congruence.
Qed.

Lemma lifecycle_name operation network current now op threshold :
  lifecycle operation network current now = Ok (op, threshold) ->
  op.(record.op_Name) = operation.(Name) /\ (threshold = false -> op.(record.op_Kind) <> str "claim").
Proof.
  destruct threshold; [by intros []%lifecycle_threshold|].
  unfold lifecycle. repeat (case_match; try done); intros Hl; inv_ok; try (by injection Hl as <-).
  - injection Hl as <-. apply policyChange_ok in Hok as [Ek ->]. split; [done|]. intros _. cbn in Ek |- *. by rewrite Ek.
  - unfold recoveryChange in Hl. destruct (decodeCanonical _ _) as [envelope|]; [|done]. inv_ok. discriminate.
Qed.

Lemma existing_authorized c operation current now u :
  c.(records) !! operation.(Name) = Some current -> operation.(Kind) <> str "claim" ->
  existing c operation current now = Ok u -> Authorized c operation now u /\ u.(record.Name) = operation.(Name).
Proof.
  intros Hcur Hk. unfold existing. destruct (lifecycle _ _ _ _) as [[op threshold]|] eqn:Hl; [|done].
  pose proof (lifecycle_name _ _ _ _ _ _ Hl) as [Hn Hkind]. cbn [mbind result_bind].
  destruct (lineage _ _ _) as [parents|]; [|done]. cbn [mbind result_bind].
  set (op' := op <| record.op_Parents := parents |>). destruct threshold.
  - intros Ha. apply apply_version in Ha as [En Hs]. split; [|rewrite (Step_name _ _ _ _ _ Hs), En; done].
    destruct (lifecycle_threshold _ _ _ _ _ Hl) as (_ & rules & evidence & Hd & Hz).
    apply recovery.Authorize_ok in Hz as (_ & _ & Hq & Ez). by eapply (by_quorum _ _ _ _ current rules evidence op').
  - intros (public & transcript & Hkey & _ & Hsup & Ht & Hv & Ha)%applyTransition_ok.
    rewrite (bool_decide_eq_false_2 (record.op_Kind op' = _)) in Ha by (by apply Hkind).
    apply apply_version in Ha as [En Hs]. split; [|rewrite (Step_name _ _ _ _ _ Hs), En; done].
    eapply (by_holder _ _ _ _ current op'); [done| |done]. by exists public, transcript.
Qed.

Lemma delegate_ok c operation now u :
  delegate c operation now = Ok u ->
  exists parent op, c.(records) !! operation.(ParentName) = Some parent /\
    SignedTransition c.(network) parent op operation.(AuthorityProof) /\ u.(record.Name) = operation.(Name) /\
    u.(record.Authority) = hex_EncodeToString operation.(Authority) /\ u.(record.Generation) = 1 /\
    u.(record.Revision) = 1 /\ within u (Some parent) /\ Unix now < u.(record.LeaseExpiresAt).
Proof.
  unfold delegate. destruct (_ !! _) as [parent|]; [|done]. intros Hd. inv_ok. rename a into parents.
  set (op := _ <| record.op_LeaseDuration := _ |>) in Hd.
  apply applyTransition_ok in Hd as (public & transcript & Hkey & _ & _ & Ht & Hv & Ha).
  rewrite (bool_decide_eq_true_2 (record.op_Kind op = _)) in Ha by done.
  apply apply_cases in Ha as (_ & Hc). exists parent, op. split; [done|]. split; [by exists public, transcript|].
  assert (exists ld gd, record.applyClaim None (Unix now) op ld gd = Ok u) as (ld & gd & Hcl) by naive_solver.
  apply applyClaim_ok in Hcl as (p & Hp & _ & _ & Hg & Ht' & Hw & Hr).
  assert (p = Some parent) as ->.
  { apply validateParents_ok in Hp as (_ & Hh). destruct p as [p|]; [|by destruct Hh]. by destruct Hh as [[= <-] _]. }
  destruct Ht' as [Ht' _]. cbn in Hg.
  assert (record.Generation u = record.op_Generation op) as Hgen by (by rewrite Hr).
  split_and!; try done; [by rewrite Hr..| |by rewrite Hr]. by rewrite Hgen.
Qed.

(** C3: Nobody changes a name without its holder, its parent or its recovery
    quorum.  A submission is accepted only for an operation whose Record the
    control then holds for exactly that name, all other names unchanged: either
    the current holder signed this very transition from the current Record, or
    the holder of the parent signed the delegation, or a quorum of the current
    recovery policy authorized it; and the submitted successor is signed and
    encodes exactly that Record. *)
Theorem submit_authorized c submission proof now stage acts c' :
  Submit c submission proof now stage = (acts, c', submitted) ->
  exists operation u decoded wire,
    decodeControlOperation submission.(raw) = Ok operation /\ bindsOperation c operation proof = true /\
    (admission.Verify c.(gate) (UnixMilli now) proof).2.1 = true /\ Authorized c operation now u /\
    c'.(records) = <[operation.(Name) := u]> c.(records) /\
    recordcodec.VerifyRecord c.(network) operation.(SuccessorRecord) = Ok decoded /\
    recordcodec.EncodeRecord decoded = Ok wire /\ recordcodec.EncodeRecord u = Ok wire.
Proof.
  intros [(_ & ? & _)|(s & operation & u & _ & [Hd _ _ Hk Hb Hadm Ht Hx] & _ & [(_ & ? & _)|(_ & _ & ->)])]%Submit_cases;
    [done|done|].
  unfold exactSignedSuccessor in Hx. destruct (recordcodec.VerifyRecord _ _) as [decoded|] eqn:Hv; [|done].
  destruct (recordcodec.EncodeRecord u) as [wire|] eqn:Hu; [|done].
  destruct (recordcodec.EncodeRecord decoded) as [wire'|] eqn:Hw; [|done]. apply bool_decide_eq_true in Hx as <-.
  exists operation, u, decoded, wire.
  assert (Authorized c operation now u /\ u.(record.Name) = operation.(Name)) as [Hauth <-].
  { unfold transitionAt in Ht. rewrite (bool_decide_eq_false_2 _ Hk) in Ht. case_bool_decide as Hdel.
    - apply delegate_ok in Ht as (parent & op & Hp & Hs & Hn & Ha & _ & _ & Hw' & Hl). split; [|done]. by eapply by_parent.
    - case_match; [|done]. destruct (_ !! _) as [current|] eqn:Hcur; [|done]. by apply existing_authorized in Ht. }
  by split_and!.
Qed.

End Replay.
