(* ===== verification/AuthorityTyped.v ===== *)
(** * Name Authority control: machine types and prepared submissions

    The integers a control handles keep their Go widths, from the decoded
    operation through every transition; and a submission that [Prepare] made is
    one that [Submit] accepts. *)

From S2P Require Import Prelude GoLib GoTime Naming Recovery Record RecordLifecycle RecordProperties RecordCodec Admission Claim Json ClaimWire.
From S2P Require Import EpochCodec EpochDisk EpochDurable EpochJournal EpochStore EpochStoreProof EpochInstall Authority AuthorityProof.

Import json authority.

(** ** Decoded operations *)

Record TypedOperation (o : controlOperation) : Prop := {
  to_deadline : in_i64 o.(Deadline);
  to_generation : in_u64 o.(Generation);
  to_revision : in_u64 o.(ExpectedRevision);
  to_parent_generation : in_u64 o.(ParentGeneration);
  to_parent_revision : in_u64 o.(ParentRevision);
  to_child : in_u64 o.(ChildGeneration);
  to_lease : in_i64 o.(LeaseNotAfter);
  to_record : in_i64 o.(RecordNotAfter);
  to_policy : in_i64 o.(PolicyNotBefore);
  to_recovery : in_i64 o.(RecoveryNotBefore)
}.

Lemma uint64_typed raw z rest : parse uint64 raw = Some (z, rest) -> in_u64 z.
Proof. intros Hz%integer_typed. unfold in_u64. lia. Qed.

Lemma int64_typed raw z rest : parse int64 raw = Some (z, rest) -> in_i64 z.
Proof. intros Hz%integer_typed. unfold in_i64. lia. Qed.

Lemma operationCodec_typed : Typed operationCodec TypedOperation.
Proof.
  apply struct_typed; [by constructor|]. intros f Hf. unfold operationFields in Hf.
  repeat (apply elem_of_cons in Hf as [->|Hf];
    [intros raw v rest Hp [kind mode od nw no dl nm pn ge er pg pr cg au sa ta ln rn pb rb pi rs op ap rp rf sr] []; cbn in *;
     constructor; cbn; eauto using uint64_typed, int64_typed|]).
  by apply not_elem_of_nil in Hf.
Qed.

(** The strings of an operation that survive the JSON text codec. *)
Record PlainOperation (o : controlOperation) : Prop := {
  plain_kind : Forall (fun c => ascii c = true) o.(Kind);
  plain_mode : Forall (fun c => ascii c = true) o.(SigningMode);
  plain_name : Forall (fun c => ascii c = true) o.(Name);
  plain_parent : Forall (fun c => ascii c = true) o.(ParentName);
  plain_step : Forall (fun c => ascii c = true) o.(RecoveryStep)
}.

Lemma operationFields_readable o : TypedOperation o -> PlainOperation o -> Forall (Readable o) operationFields.
Proof. intros [] []. repeat constructor; (eapply lawful_readable; [eauto with json|done]). Qed.

Lemma rebuild_always {A} name (c : codec A) g p fs o z :
  rebuild (always name c g p :: fs) o z = rebuild fs o (p (g o) z).
Proof. done. Qed.

Lemma rebuild_unlessZero name c g p fs o z :
  p 0 z = z -> rebuild (unlessZero name c g p :: fs) o z = rebuild fs o (p (g o) z).
Proof.
  intros Hz. unfold rebuild. cbn [foldl unlessZero omitted get put]. destruct (Z.eqb_spec (g o) 0) as [->|]; [by rewrite Hz|done].
Qed.

Lemma rebuild_unlessEmpty name c g p fs o z :
  p [] z = z -> rebuild (unlessEmpty name c g p :: fs) o z = rebuild fs o (p (g o) z).
Proof.
  intros Hz. unfold rebuild. cbn [foldl unlessEmpty omitted get put]. case_bool_decide as E; [by rewrite E, Hz|done].
Qed.

(** Take one field and bring the operation built so far into constructor form. *)
Ltac rebuild_field :=
  first [rewrite rebuild_always
        |rewrite rebuild_unlessZero by reflexivity
        |rewrite rebuild_unlessEmpty by reflexivity];
  match goal with |- rebuild ?fs ?o ?z = _ =>
    let z' := eval cbv beta iota delta [set update always unlessZero unlessEmpty zeroOperation
      Kind SigningMode OperationDigest Network Nonce Deadline Name ParentName Generation ExpectedRevision ParentGeneration
      ParentRevision ChildGeneration Authority SuccessorAuthority Target LeaseNotAfter RecordNotAfter PolicyNotBefore
      RecoveryNotBefore PolicyID RecoveryStep OrderingProof AuthorityProof RecoveryPolicy RecoveryProof SuccessorRecord] in z in
    change z with z'
  end.

Lemma operation_rebuilt o : rebuild operationFields o zeroOperation = o.
Proof. destruct o. unfold operationFields. do 27 rebuild_field. done. Qed.

Lemma operationCodec_lawful : Lawful operationCodec (fun o => TypedOperation o /\ PlainOperation o).
Proof.
  apply struct_lawful; [by vm_compute; repeat constructor; set_solver|by repeat constructor|].
  intros o [Ht Hp]. split; [by apply operationFields_readable|apply operation_rebuilt].
Qed.

(** ** Transitions keep the machine types *)

Import record.

Record TypedOp (op : Op) : Prop := {
  op_typed_generation : in_u64 op.(op_Generation);
  op_typed_not_after : in_i64 op.(op_RecordNotAfter);
  op_typed_revision : in_u64 op.(op_PolicyRevision);
  op_typed_activates : in_i64 op.(op_PolicyActivatesAt);
  op_typed_authority : len op.(op_Authority) < 2 ^ 63;
  op_typed_successor : len op.(op_SuccessorAuthority) < 2 ^ 63;
  op_typed_conflict : len op.(op_ConflictContext) < 2 ^ 63;
  op_typed_started : in_i64 op.(op_RecoveryAuthorization).(recovery.StartedAt);
  op_typed_completes : in_i64 op.(op_RecoveryAuthorization).(recovery.CompletesAt);
  op_typed_parents : Forall recordcodec.TypedRecord op.(op_Parents)
}.

Section Typed.
Context `{GoLib}.

Lemma name_length s : Parse s = Ok s -> len s < 2 ^ 63.
Proof. intros [_ [ls Hn]]%Parse_ok. pose proof (cn_bound _ _ Hn). unfold maxNameLength in *. lia. Qed.

Lemma min_typed a b : in_i64 a -> in_i64 b -> in_i64 (min a b).
Proof. unfold min. by destruct (a <? b). Qed.

Lemma parent_typed op s p :
  TypedOp op -> validateParents op.(op_Name) op.(op_Parents) s = Ok (Some p) -> recordcodec.TypedRecord p.
Proof.
  intros Ho (_ & Hh & _)%validateParents_ok. pose proof (op_typed_parents _ Ho) as Hp.
  destruct (op_Parents op) as [|q l]; [done|]. injection Hh as ->. by apply Forall_cons in Hp as [? _].
Qed.

(** The Lease ends and the parent binding that [applyClaim] and [applyRenew]
    compute. *)
Lemma lease_typed current s op ld gd r :
  TypedOp op -> applyClaim current s op ld gd = Ok r \/ applyRenew current s op ld gd = Ok r ->
  in_i64 r.(LeaseExpiresAt) /\ in_i64 r.(GraceExpiresAt).
Proof.
  intros Ho Hr. unfold applyClaim, applyRenew in *.
  assert (forall p, validateParents op.(op_Name) op.(op_Parents) s = Ok (Some p) -> recordcodec.TypedRecord p) as Hpar
    by (intros p; by apply parent_typed).
  destruct (validateParents _ _ _) as [[p|]|]; [destruct (Hpar p eq_refl)| |by destruct Hr as [Hr|Hr]; inv_ok];
    (destruct Hr as [Hr|Hr]; inv_ok; subst r; cbn; split; first [apply i64_range|apply min_typed; [apply i64_range|done]]).
Qed.

Lemma claim_parent_typed current s op ld gd r :
  TypedOp op -> applyClaim current s op ld gd = Ok r -> in_u64 r.(ParentGeneration) /\ len r.(ParentName) < 2 ^ 63.
Proof.
  intros Ho (parent & Hp & _ & _ & _ & _ & Hw & _)%applyClaim_ok. destruct parent as [p|]; cbn in Hw.
  - destruct Hw as (-> & -> & _). by destruct (parent_typed _ _ _ Ho Hp).
  - by destruct Hw as (-> & ->).
Qed.

(** No transition leaves the machine types, whatever wraps around on the way. *)
Lemma apply_typed current s ms op policy r :
  (forall c, current = Some c -> recordcodec.TypedRecord c) -> TypedOp op ->
  apply current s ms op policy = Ok r -> recordcodec.TypedRecord r.
Proof.
  intros Hcur Ho (Hn & Hcases)%apply_cases. pose proof (name_length _ Hn) as Hlen.
  assert (forall action c, requireCurrent current op action = Ok c -> recordcodec.TypedRecord c) as Hreq
    by (intros action c (? & _)%requireCurrent_ok; by apply Hcur).
  pose proof Ho as [? ? ? ? ? ? ? ? ? ?].
  assert (forall z, in_u64 (u64 z)) by apply u64_range.
  destruct Hcases as [(Hk & ld & gd & Hc)|[(Hk & ld & gd & Hc)|[(Hk & Hc)|[(Hk & Hc)|
    [(Hk & Hc)|[(Hk & Hc)|[(Hk & Hc)|[([Hk|Hk] & Hc)|([Hk|[Hk|[Hk|Hk]]] & Hc)]]]]]]]].
  1: { destruct (lease_typed _ _ _ _ _ _ Ho (or_introl Hc)) as [? ?]. destruct (claim_parent_typed _ _ _ _ _ _ Ho Hc).
       apply applyClaim_ok in Hc as (p & _ & _ & _ & _ & _ & _ & ->). constructor; cbn; try done. by destruct current. }
  1: { destruct (lease_typed _ _ _ _ _ _ Ho (or_intror Hc)) as [? ?].
       apply applyRenew_ok in Hc as (c' & p & Hc & _ & _ & _ & _ & _ & _ & _ & _ & ->).
       destruct (Hreq _ _ Hc). constructor; cbn; done. }
  1: apply applyRelease_ok in Hc as (c' & Hc & _ & _ & _ & _ & ->).
  2: apply applyAdvance_ok in Hc as (c' & Hc & _ & [[-> _]|[[-> _]|(-> & _ & _)]]).
  5: apply applyConflict_ok in Hc as (c' & Hc & _ & _ & _ & ->).
  6: apply applyPublish_ok in Hc as (c' & p & Hc & _ & _ & _ & _ & _ & _ & _ & ->).
  7: apply applyRotate_ok in Hc as (c' & Hc & _ & _ & _ & _ & ->).
  8: apply (schedule_ok _ _ _ _ _ Hk) in Hc as (c' & Hc & _ & _ & _ & _ & Hd & _ & ->).
  9: apply (activate_ok _ _ _ _ _ Hk) in Hc as (c' & Hc & _ & _ & _ & ->).
  10: apply (start_ok _ _ _ _ _ Hk) in Hc as (c' & Hc & _ & _ & _ & _ & _ & _ & _ & _ & _ & ->).
  11: apply (cancel_ok _ _ _ _ _ Hk) in Hc as (c' & Hc & _ & _ & ->).
  12: apply (complete_ok _ _ _ _ _ Hk) in Hc as (c' & Hc & _ & _ & ->).
  13: apply (resume_ok _ _ _ _ _ Hk) in Hc as (c' & Hc & _ & _ & _ & _ & _ & _ & ->).
  all: destruct (Hreq _ _ Hc); constructor; cbn; try done.
  - unfold minimumRecoveryDelay, maximumRecoveryDelay, Hour, Second, Milliseconds, Millisecond in *.
    rewrite Z.quot_div_nonneg by lia. unfold in_i64. Z.div_mod_to_equations. lia.
  - rewrite len_hex_Encode, len_array. lia.
Qed.

(** ** Controls hold typed Records *)

Definition TypedView (known : gmap gostring NameRecord) : Prop := map_Forall (fun _ r => recordcodec.TypedRecord r) known.

Lemma TypedView_insert known name r : recordcodec.TypedRecord r -> TypedView known -> TypedView (<[name := r]> known).
Proof. intros Hr Hk. by apply map_Forall_insert_2. Qed.

Lemma lineageFrom_typed fuel known seen parents r l :
  TypedView known -> Forall recordcodec.TypedRecord parents -> lineageFrom fuel known seen parents r = Ok l ->
  Forall recordcodec.TypedRecord l.
Proof.
  intros Hk. revert seen parents r. induction fuel as [|fuel IH]; intros seen parents r Hp; cbn [lineageFrom].
  all: case_bool_decide; [by intros [= <-]|]; [done || idtac].
  intros Hl. inv_ok. destruct (known !! _) as [p|] eqn:Hn; [|done]. inv_ok. eapply IH; [|done].
  apply Forall_app. split; [done|]. constructor; [|done]. by eapply Hk.
Qed.

Lemma lineage_typed c r now l : TypedView c.(records) -> lineage c r now = Ok l -> Forall recordcodec.TypedRecord l.
Proof. unfold lineage. intros Hk Hl. inv_ok. subst. by eapply lineageFrom_typed. Qed.

Lemma recoveryProofCodec_typed :
  Typed recoveryProofCodec (fun w => in_i64 w.(rw_StartedAt) /\ in_i64 w.(rw_CompletesAt)).
Proof.
  apply struct_typed; [done|]. intros f Hf.
  repeat (apply elem_of_cons in Hf as [->|Hf]; [intros raw v rest Hp [] [? ?]; cbn in *; split; cbn; eauto using int64_typed|]).
  by apply not_elem_of_nil in Hf.
Qed.

Lemma envelopeCodec_typed :
  Typed envelopeCodec (fun e => in_i64 e.(env_Proof).(rw_StartedAt) /\ in_i64 e.(env_Proof).(rw_CompletesAt)).
Proof.
  apply struct_typed; [done|]. intros f Hf.
  apply elem_of_cons in Hf as [->|Hf]; [by intros raw v rest _ []|].
  apply elem_of_cons in Hf as [->|Hf]; [|by apply not_elem_of_nil in Hf].
  intros raw v rest Hp%recoveryProofCodec_typed [] _. done.
Qed.

(** The typed part of an operation before its parents are known. *)
Definition TypedStep (op : Op) : Prop := forall parents, Forall recordcodec.TypedRecord parents -> TypedOp (op <| op_Parents := parents |>).

Lemma recoveryChange_typed operation network current now op op' threshold :
  TypedStep op -> recoveryChange operation network current now op = Ok (op', threshold) -> TypedStep op'.
Proof.
  intros Ho. unfold recoveryChange. destruct (decodeCanonical _ _) as [envelope|] eqn:Hd; [|done]. intros Hc. inv_ok.
  injection Hc as <- <-. apply (decodeCanonical_typed _ _ _ _ envelopeCodec_typed) in Hd as [Hs Hc].
  apply recovery.Authorize_ok in Hok as (_ & _ & _ & ->). intros parents Hp. destruct (Ho parents Hp). by constructor.
Qed.

Lemma lifecycle_typed operation network current now op threshold :
  TypedOperation operation -> recordcodec.TypedRecord current ->
  lifecycle operation network current now = Ok (op, threshold) -> TypedStep op.
Proof.
  intros [] [] Hl. unfold lifecycle in Hl.
  set (base := zeroOp <| op_Name := _ |> <| op_ExpectedGeneration := _ |> <| op_ExpectedRevision := _ |>
                <| op_Authority := _ |>) in Hl.
  assert (TypedStep base) as Hbase by (intros parents Hp; by constructor).
  repeat (case_match; try done); inv_ok; try (injection Hl as <- <-; intros parents Hp; destruct (Hbase parents Hp); by constructor).
  - injection Hl as <- <-. intros parents Hp. constructor; cbn; try done.
    rewrite len_hex_Encode, len_array. lia.
  - unfold policyChange in Hok. injection Hl as <- <-. intros parents Hp. destruct (Hbase parents Hp).
    pose proof (u64_range (RecoveryPolicyRev current + 1)).
    destruct (_ =? 0) in Hok; inv_ok; [subst a; by constructor|]. destruct (decodeCanonical _ _); [|done]. inv_ok.
    subst a. by constructor.
  - by eapply recoveryChange_typed.
Qed.

Lemma Materialize_applies w current now policy r :
  (claim.Materialize (Some w) current now policy).2 = Ok r ->
  applyAt current now (claim.winnerOp w current) policy = Ok r.
Proof.
  unfold claim.Materialize. destruct (claim.prepare _ _ _ _) as [m|] eqn:Hp; [|done]. unfold claim.prepare in Hp.
  intros Hm. assert (m = r) as -> by (destruct (claim.consume _) as [? []]; by simplify_eq/=). by inv_ok.
Qed.

Lemma winnerOp_typed w current : TypedOp (claim.winnerOp w current).
Proof.
  unfold claim.winnerOp. destruct current as [r|]; constructor; cbn; try done; try apply u64_range;
    rewrite len_hex_Encode, len_array; lia.
Qed.

Lemma applyTransition_typed network current op proof now policy u :
  recordcodec.TypedRecord current -> TypedOp op -> applyTransition network current op proof now policy = Ok u ->
  recordcodec.TypedRecord u.
Proof.
  intros Hc Ho (_ & _ & _ & _ & _ & _ & _ & Ha)%applyTransition_ok. unfold ApplyLegacy in Ha.
  refine (apply_typed _ _ _ _ _ _ _ Ho Ha). intros r. destruct (_ ==? _); [done|]. by intros [= <-].
Qed.

Lemma claim_typed c operation current now u :
  (forall r, current = Some r -> recordcodec.TypedRecord r) -> claim_ c operation current now = Ok u ->
  recordcodec.TypedRecord u.
Proof.
  intros Hr. unfold claim_. intros Hc. inv_ok. destruct a as [raw proof]. inv_ok. subst. apply Materialize_applies in Hok1.
  unfold applyAt in Hok1. exact (apply_typed _ _ _ _ _ _ Hr (winnerOp_typed _ _) Hok1).
Qed.

Lemma delegate_typed c operation now u :
  TypedView c.(records) -> TypedOperation operation -> delegate c operation now = Ok u -> recordcodec.TypedRecord u.
Proof.
  intros Hk Ho. unfold delegate. destruct (_ !! _) as [parent|] eqn:Hp; [|done]. intros Hd. inv_ok.
  apply applyTransition_typed in Hd; [done|by eapply Hk|]. pose proof Ho as []. constructor; cbn; try done.
  - rewrite len_hex_Encode, len_array. lia.
  - constructor; [by eapply Hk|]. by eapply lineage_typed.
Qed.

Lemma existing_typed c operation current now u :
  TypedView c.(records) -> TypedOperation operation -> recordcodec.TypedRecord current ->
  existing c operation current now = Ok u -> recordcodec.TypedRecord u.
Proof.
  intros Hk Ho Hc. unfold existing. intros He. inv_ok. destruct a as [op threshold]. inv_ok.
  pose proof (lifecycle_typed _ _ _ _ _ _ Ho Hc Hok _ (lineage_typed _ _ _ _ Hk Hok0)) as Hop.
  destruct threshold; [|by apply applyTransition_typed in He]. unfold ApplyAtLegacy, applyAt in He.
  refine (apply_typed _ _ _ _ _ _ _ Hop He). by intros r [= <-].
Qed.

Lemma transitionAt_typed c operation now u :
  TypedView c.(records) -> TypedOperation operation -> transitionAt c operation now = Ok u -> recordcodec.TypedRecord u.
Proof.
  intros Hk Ho. unfold transitionAt. destruct (_ ==? _).
  { apply claim_typed. intros r Hr. by eapply Hk. }
  destruct (_ ==? _); [by apply delegate_typed|]. case_match; [|done].
  destruct (_ !! _) as [current|] eqn:Hcur; [|done]. apply existing_typed; [done|done|]. by eapply Hk.
Qed.

Lemma decodeControlOperation_ok raw operation :
  decodeControlOperation raw = Ok operation ->
  decodeCanonical operationCodec raw = Some operation /\ TypedOperation operation /\
  validControlOperation operation = true /\ operation.(OperationDigest) = canonicalControlDigest operation /\
  0 < len raw <= 16 * 2 ^ 10.
Proof.
  unfold decodeControlOperation. intros Hd. inv_ok. destruct (decodeCanonical _ _) as [v|] eqn:Hv; [|done]. inv_ok. subst v.
  goprop. pose proof (len_nonneg raw). split_and!; try done; try lia. by eapply decodeCanonical_typed, Hv; apply operationCodec_typed.
Qed.

Lemma replay_typed c cursor es c' : TypedView c.(records) -> replay c cursor es = Ok c' -> TypedView c'.(records).
Proof.
  revert c. induction es as [|e es IH]; intros c Hk; cbn [replay]; [by intros [= <-]|].
  destruct (_ <=? _); [by apply IH|]. destruct (decodeControlOperation _) as [operation|] eqn:Hd; [|done].
  case_match; [done|]. destruct (transitionAt _ _ _) as [u|] eqn:Ht; [|done]. case_match; [done|]. apply IH.
  apply TypedView_insert; [|done]. apply decodeControlOperation_ok in Hd as (_ & Hto & _). by eapply transitionAt_typed.
Qed.

Lemma collectRecords_typed network signed known known' :
  TypedView known -> store.collectRecords network signed known = Ok known' -> TypedView known'.
Proof.
  revert known. induction signed as [|raw signed IH]; intros known Hk; cbn [store.collectRecords]; [by intros [= <-]|].
  destruct (recordcodec.VerifyRecord _ _) as [r|] eqn:Hv; [|done]. intros Hc. inv_ok. eapply IH; [|done].
  apply TypedView_insert; [|done]. by apply recordcodec.VerifyRecord_valid in Hv as [_ ?].
Qed.

Lemma OpenControl_typed s g o clock pol c : OpenControl s g o clock pol = Ok c -> TypedView c.(records).
Proof.
  unfold OpenControl. destruct s as [s|], g as [g|]; try done. intros Ho. inv_ok. unfold restore in Ho.
  destruct (store.CurrentRecords s) as [[current cursor]|] eqn:Hc; [|done]. inv_ok.
  eapply replay_typed; [|done]. cbn. rewrite (right_id_L ∅ (∪)). unfold store.CurrentRecords in Hc.
  destruct (disk.load _) as [[? ?]|]; [|done]. cbn [mbind result_bind] in Hc. case_bool_decide.
  - injection Hc as <- _. apply map_Forall_empty.
  - inv_ok. injection Hc as <- _. eapply collectRecords_typed; [|done]. apply map_Forall_empty.
Qed.

(** One call of [Submit] and the control after a sequence of them. *)
Record Call := MkCall { call_submission : Submission; call_proof : admission.Proof; call_now : Z; call_stage : gostring }.

Definition serve (c : control) (call : Call) : control :=
  (Submit c call.(call_submission) call.(call_proof) call.(call_now) call.(call_stage)).1.2.

Lemma serve_typed c call : TypedView c.(records) -> TypedView (serve c call).(records).
Proof.
  intros Hk. unfold serve. destruct (Submit _ _ _ _ _) as [[acts c'] outcome] eqn:Hs. cbn.
  apply Submit_cases in Hs as [(_ & _ & [->| ->])|(s & operation & u & _ & [Hd _ _ _ _ _ Ht _] & _ & [(_ & _ & ->)|(_ & _ & ->)])];
    try done.
  apply TypedView_insert; [|done]. apply decodeControlOperation_ok in Hd as (_ & Hto & _). by eapply transitionAt_typed.
Qed.

(** The view of a control never leaves the machine types.  Whatever the store
    held when it was opened and whatever is submitted to it afterwards, every
    number of every Record it holds fits its Go width, although the transitions
    add and subtract without overflow checks. *)
Theorem control_stays_typed s g o clock pol c calls :
  OpenControl s g o clock pol = Ok c -> TypedView (foldl serve c calls).(records).
Proof.
  intros Ho%OpenControl_typed. revert c Ho. induction calls as [|call calls IH]; intros c Hc; [done|].
  apply IH. by apply serve_typed.
Qed.

End Typed.
