(* ===== verification/AuthorityPrepare.v ===== *)
(** * Name Authority control: prepared submissions and forked delegations

    What [Prepare] made, [Submit] accepts; the delegation of a name that already
    exists, which the control accepts, can never be installed. *)

From S2P Require Import Prelude GoLib GoTime Naming Recovery Record RecordLifecycle RecordProperties RecordCodec Admission Claim Json ClaimWire.
From S2P Require Import EpochCodec EpochDisk EpochDurable EpochJournal EpochStore EpochStoreProof EpochInstall.
From S2P Require Import Authority AuthorityProof AuthorityTyped.

Import json authority.

Section Prepared.
Context `{GoLib}.

(** ** The strings of an intent are plain *)

Lemma Join_ascii ls : Forall CanonicalLabel ls -> Forall (fun c => ascii c = true) (Join ls dot).
Proof.
  assert (forall l, CanonicalLabel l -> Forall (fun c => ascii c = true) l) as Hlabel.
  { intros l [_ _ Hc _ _ _]. eapply Forall_impl; [exact Hc|]. intros c Hc'. apply Z.ltb_lt. by apply label_char_lower. }
  induction 1 as [|l ls Hl Hls IH]; [constructor|]. destruct ls as [|l' ls]; cbn [Join]; [by apply Hlabel|].
  apply Forall_app. split; [by apply Hlabel|]. by constructor.
Qed.

Lemma name_ascii s : Parse s = Ok s -> Forall (fun c => ascii c = true) s.
Proof. intros [_ [ls [-> _ Hl _ _]]]%Parse_ok. by apply Join_ascii. Qed.

Lemma literal_ascii (s : string) : forallb ascii (str s) = true -> Forall (fun c => ascii c = true) (str s).
Proof. apply forallb_true. Qed.

(** The kinds an intent can have, and what [validControlIntent] fixes. *)
Definition intentKinds : list gostring := [str "renew"; str "record"; str "release"; str "transfer"; str "policy"; str "recovery"].

Lemma validControlIntent_ok o :
  validControlIntent o = true ->
  o.(Kind) ∈ intentKinds /\ o.(SigningMode) = custodyDerivedSigningMode /\ Parse o.(Name) = Ok o.(Name) /\
  (o.(Kind) = str "recovery" -> o.(RecoveryStep) = str "resume") /\
  exists expected, expectedOperation (o <| AuthorityProof := [x01] |>) = Some expected /\
    (o <| AuthorityProof := [x01] |>) = expected.
Proof.
  unfold validControlIntent. destruct (_ || _) eqn:Hg; [done|]. rewrite !orb_false_iff in Hg. goprop. intros Hv.
  set (signed := o <| AuthorityProof := [x01] |>) in *.
  assert (o.(Kind) ∈ intentKinds /\ (o.(Kind) = str "recovery" -> o.(RecoveryStep) = str "resume") /\
    validControlOperation signed = true) as (Hk & Hstep & Hvalid).
  { unfold intentKinds. destruct (_ || _) eqn:Hk in Hv.
    - rewrite !orb_true_iff, !bool_decide_eq_true in Hk. split_and!; [set_solver| |done].
      intros E. rewrite E in Hk. exfalso. vm_compute in Hk. naive_solver.
    - case_bool_decide as Hr; [|done]. goprop. split_and!; [set_solver|done|done]. }
  unfold validControlOperation in Hvalid. destruct (Parse (Name signed)) as [name|] eqn:Hp; [|done].
  destruct (_ || _) eqn:Hg2 in Hvalid; [done|]. rewrite !orb_false_iff in Hg2. goprop. subst name.
  destruct (_ && _) in Hvalid; [done|]. destruct (expectedOperation signed) as [expected|] eqn:He; [|done].
  destruct (_ <? _) in Hvalid; [done|].
  assert (0 <? len (SuccessorRecord signed) = false) as Hs.
  { change (SuccessorRecord signed) with (SuccessorRecord o). apply Z.ltb_ge. lia. }
  rewrite Hs in Hvalid. apply bool_decide_eq_true in Hvalid. split_and!; try done. by exists expected.
Qed.

Lemma expectedOperation_plain signed expected :
  signed.(Kind) <> str "delegate" -> expectedOperation signed = Some expected ->
  expected.(ParentName) = [] /\ (expected.(RecoveryStep) = [] \/ signed.(Kind) = str "recovery").
Proof.
  intros Hk. unfold expectedOperation.
  repeat match goal with
  | |- (if bool_decide (Kind signed = _) then _ else _) = _ -> _ => case_bool_decide
  end; try done; repeat (case_match; try done); intros [= <-]; auto.
Qed.

Lemma intent_plain o : validControlIntent o = true -> PlainOperation o.
Proof.
  intros (Hk & Hm & Hn & Hstep & expected & He & Ex)%validControlIntent_ok.
  assert (o.(Kind) <> str "delegate") as Hd by (intros E; rewrite E in Hk; by vm_compute in Hk; set_solver).
  set (signed := o <| AuthorityProof := [x01] |>) in *.
  destruct (expectedOperation_plain signed expected Hd He) as [Hp Hr]. rewrite <- Ex in Hp, Hr. cbn in Hp, Hr. constructor.
  - unfold intentKinds in Hk. repeat (apply elem_of_cons in Hk as [->|Hk]; [by apply literal_ascii|]). by apply not_elem_of_nil in Hk.
  - rewrite Hm. by apply literal_ascii.
  - by apply name_ascii.
  - by rewrite Hp.
  - destruct Hr as [->|Hr]; [constructor|]. rewrite (Hstep Hr). by apply literal_ascii.
Qed.

Lemma openIntent_ok raw intent operation :
  openIntent raw = Ok (intent, operation) ->
  decodeCanonical operationCodec raw = Some operation /\ validControlIntent operation = true /\
  intent = MkIntent raw operation.(OperationDigest).
Proof.
  unfold openIntent. intros Ho. inv_ok. destruct (decodeCanonical _ _) as [v|]; [|done]. inv_ok.
  injection Ho as <- <-. by goprop.
Qed.

Lemma Intent_operation_ok intent operation :
  Intent_operation intent = Ok operation ->
  TypedOperation operation /\ validControlIntent operation = true /\ operation.(OperationDigest) = intent.(intent_digest).
Proof.
  unfold Intent_operation, decodeControlIntent, OpenIntent. intros Hi.
  destruct (openIntent _) as [[opened o]|] eqn:Ho; [|done]. apply openIntent_ok in Ho as (Hd & Hv & ->).
  cbn [mbind result_bind intent_raw] in Hi. rewrite bool_decide_eq_true_2, Hd in Hi by done. cbn [negb] in Hi. inv_ok. subst o.
  goprop. split; [|done]. by eapply decodeCanonical_typed, Hd; apply operationCodec_typed.
Qed.

(** ** Preparing and submitting *)

(** The operation of a prepared submission: the intent with both signatures. *)
Definition completed (operation : controlOperation) (proof successor : bytes) : controlOperation :=
  operation <| AuthorityProof := proof |> <| SuccessorRecord := successor |>.

Lemma completed_lawful operation proof successor :
  TypedOperation operation -> validControlIntent operation = true ->
  decodeCanonical operationCodec (Marshal operationCodec (completed operation proof successor)) =
  Some (completed operation proof successor).
Proof.
  intros [] Hv%intent_plain. destruct Hv.
  apply (decodeCanonical_complete _ _ _ operationCodec_lawful). by split; constructor.
Qed.

(** The step an operation asks for does not depend on its signatures. *)
Lemma lifecycle_completed operation proof successor network current now :
  lifecycle (completed operation proof successor) network current now = lifecycle operation network current now.
Proof.
  unfold lifecycle, policyChange, recoveryChange.
  change (Kind (completed operation proof successor)) with (Kind operation).
  change (Name (completed operation proof successor)) with (Name operation).
  change (Generation (completed operation proof successor)) with (Generation operation).
  change (ExpectedRevision (completed operation proof successor)) with (ExpectedRevision operation).
  change (LeaseNotAfter (completed operation proof successor)) with (LeaseNotAfter operation).
  change (RecordNotAfter (completed operation proof successor)) with (RecordNotAfter operation).
  change (Target (completed operation proof successor)) with (Target operation).
  change (SuccessorAuthority (completed operation proof successor)) with (SuccessorAuthority operation).
  change (RecoveryPolicy (completed operation proof successor)) with (RecoveryPolicy operation).
  change (PolicyNotBefore (completed operation proof successor)) with (PolicyNotBefore operation).
  change (PolicyID (completed operation proof successor)) with (PolicyID operation).
  change (RecoveryStep (completed operation proof successor)) with (RecoveryStep operation).
  change (RecoveryNotBefore (completed operation proof successor)) with (RecoveryNotBefore operation).
  change (RecoveryProof (completed operation proof successor)) with (RecoveryProof operation).
  reflexivity.
Qed.

(** What [Prepare] established on the way. *)
Record PreparedAs (c : control) (intent : Intent) (now : Z) (submission : Submission) (operation : controlOperation)
  (current u : record.NameRecord) (proof successor : bytes) : Prop := {
  pa_intent : Intent_operation intent = Ok operation;
  pa_current : c.(records) !! operation.(Name) = Some current;
  pa_transition : existing c (completed operation proof successor) current now = Ok u;
  pa_signed : exists signer, recordcodec.SignWith c.(network) u signer = Ok successor;
  pa_submission : decodeControlOperation submission.(raw) = Ok (completed operation proof successor);
  pa_digest : submission.(digest) = operation.(OperationDigest)
}.

Lemma Prepare_steps c intent signer now submission :
  Prepare c intent signer now = Ok submission ->
  exists sign operation current op parents proof u successor,
    Intent_operation intent = Ok operation /\ c.(records) !! operation.(Name) = Some current /\
    lifecycle operation c.(network) current now = Ok (op, false) /\ lineage c current now = Ok parents /\
    applyTransition c.(network) current (op <| record.op_Parents := parents |>) proof (Unix now) c.(policy) = Ok u /\
    recordcodec.SignWith c.(network) u (Some sign) = Ok successor /\
    OpenSubmission (Marshal operationCodec (completed operation proof successor)) = Ok submission /\
    submission.(digest) = intent.(intent_digest).
Proof.
  unfold Prepare. destruct (store c) as [s|]; [|done]. destruct signer as [signer|]; [|done].
  destruct (Intent_operation intent) as [operation|]; [|done]. cbn [mbind result_bind].
  destruct (_ !! _) as [current|] eqn:Hc; [|done].
  destruct (lifecycle _ _ _ _) as [[op threshold]|] eqn:Hl; [|done]. destruct threshold; [done|].
  destruct (lineage _ _ _) as [parents|] eqn:Hp; [|done]. cbn [mbind result_bind].
  destruct (SignTransitionWith _ _ _ _) as [proof|]; [|done]. cbn [mbind result_bind].
  destruct (applyTransition _ _ _ _ _ _) as [u|] eqn:Ha; [|done]. cbn [mbind result_bind].
  destruct (recordcodec.SignWith _ _ _) as [successor|] eqn:Hs; [|done]. cbn [mbind result_bind].
  destruct (OpenSubmission _) as [sub|] eqn:Ho; [|done]. case_bool_decide as Hd; [|done]. intros [= <-].
  by exists (SignRecord_ signer), operation, current, op, parents, proof, u, successor.
Qed.

Lemma Prepare_ok c intent signer now submission :
  Prepare c intent signer now = Ok submission ->
  exists operation current u proof successor, PreparedAs c intent now submission operation current u proof successor.
Proof.
  intros (sign & operation & current & op & parents & proof & u & successor & Hi & Hc & Hl & Hp & Ha & Hs & Ho & Hdig)%Prepare_steps.
  pose proof (Intent_operation_ok _ _ Hi) as (Ht & Hv & Hd).
  pose proof (completed_lawful operation proof successor Ht Hv) as Hlaw.
  revert Ho Hlaw. generalize (Marshal operationCodec (completed operation proof successor)). intros encoded Ho Hlaw.
  unfold OpenSubmission in Ho. destruct (decodeControlOperation encoded) as [v|] eqn:Hsub; [|done].
  injection Ho as <-. cbn [digest] in Hdig.
  pose proof (decodeControlOperation_ok _ _ Hsub) as (Hdec & _). rewrite Hlaw in Hdec. apply (inj Some) in Hdec as <-.
  exists operation, current, u, proof, successor. constructor; [done|done| |by exists (Some sign)|done|done].
  unfold existing. rewrite lifecycle_completed, Hl. cbn [mbind result_bind]. rewrite Hp. exact Ha.
Qed.

Lemma SignWith_verifies network u signer successor :
  recordcodec.TypedRecord u -> recordcodec.SignWith network u signer = Ok successor ->
  recordcodec.VerifyRecord network successor = Ok u /\ exists wire, recordcodec.EncodeRecord u = Ok wire.
Proof.
  unfold recordcodec.SignWith. destruct signer as [sign|]; [|done]. intros Ht Hs. inv_ok. split.
  - by eapply recordcodec.seal_VerifyRecord.
  - apply recordcodec.newRecordSigningRequest_ok in Hok as (_ & ? & _). eauto.
Qed.

Lemma verified_container_length network successor u :
  recordcodec.VerifyRecord network successor = Ok u -> 0 < len successor <= pending.maximumPendingBytes.
Proof.
  intros (wire & signature & _ & -> & Hs & Hw & _)%recordcodec.VerifyRecord_ok. unfold recordcodec.containerOf.
  unfold recordcodec.maximumRecordPayloadBytes, pending.maximumPendingBytes in *. autorewrite with len. lia.
Qed.

(** The journal entry a submission of [operation] asks for, in a journal of [n]
    entries. *)
Definition nextEntry (submission : Submission) (operation : controlOperation) (now n : Z) : pending.pendingEntry :=
  pending.MkPending [] (n + 1) (UnixMilli now) submission.(raw) operation.(SuccessorRecord).

Lemma appended_accepts p d base cursor es submission operation now stage u :
  Stored p d base cursor es -> len es < pending.maximumPendingEntries ->
  recordcodec.VerifyRecord p.(epoch.policy_Network) operation.(SuccessorRecord) = Ok u ->
  u.(record.Name) = operation.(Name) -> operation.(Name) <> [] -> 0 < UnixMilli now ->
  0 < len submission.(raw) <= pending.maximumPendingBytes ->
  (exists e, (appended (opened p d) submission operation now stage).2 = Ok e) \/
  (exists e', e' ∈ es /\
     Collision sha256 [pending.digestInput (nextEntry submission operation now (len es)); pending.digestInput e']).
Proof.
  intros [_ [Hes _]%Stored_pending] Hn Hv Hname Hne Hat Hraw. unfold appended, store.Store_appendPending.
  cbn [opened store.root store.policy]. rewrite Hv, (bool_decide_eq_false_2 _ Hne), (bool_decide_eq_true_2 (Name operation = _)) by done.
  rewrite (proj2 (Z.leb_gt _ _)), (proj2 (Z.eqb_neq _ _)) by lia. cbn [orb negb].
  unfold pending.root_pending in Hes. cbn in Hes.
  destruct (pending.append_accepts (disk.MkRoot d false)
    (pending.MkPending [] 0 (UnixMilli now) (raw submission) (SuccessorRecord operation)) stage es)
    as [(acts & e & ->)|Hcol]; try done; [by eapply verified_container_length| |by right]. left. by exists e.
Qed.

(** C25: What [Prepare] signed, [Submit] accepts.  A submission prepared from an
    intent by a faithful control is accepted at the same instant with an admitted
    challenge for that intent, as long as the journal has room, or else the bytes
    that name its journal entry and those that name an entry of the journal are a
    collision of SHA-256. *)
Theorem prepared_submission_accepted c p d intent signer now submission operation proof stage base cursor es :
  Faithful c p d -> TypedView c.(records) -> Stored p d base cursor es -> len es < pending.maximumPendingEntries ->
  Millisecond <= now < 2 ^ 63 ->
  Prepare c intent signer now = Ok submission -> Intent_operation intent = Ok operation ->
  bindsOperation c operation proof = true -> (admission.Verify c.(gate) (UnixMilli now) proof).2.1 = true ->
  (exists acts c', Submit c submission proof now stage = (acts, c', submitted)) \/
  (exists full e', decodeControlOperation submission.(raw) = Ok full /\ e' ∈ es /\
     Collision sha256 [pending.digestInput (nextEntry submission full now (len es)); pending.digestInput e']).
Proof.
  intros [Hst Hnet _] Htv Hstored Hroom Hnow Hprep Hop Hbind Hadm.
  destruct (Prepare_ok _ _ _ _ _ Hprep) as (operation' & current & u & sig & successor & [Hi Hcur Hex [sign Hsign] Hdec Hdig]).
  rewrite Hop in Hi. injection Hi as <-. set (full := completed operation sig successor) in *.
  pose proof (Intent_operation_ok _ _ Hop) as (Hto & Hvi & _).
  pose proof (validControlIntent_ok _ Hvi) as (Hkind & _ & Hname & _).
  assert (operation.(Kind) <> str "claim") as Hclaim by (intros E; rewrite E in Hkind; by vm_compute in Hkind; set_solver).
  assert (TypedOperation full) as Htf by (destruct Hto; by constructor).
  pose proof (existing_typed _ _ _ _ _ Htv Htf (Htv _ _ Hcur) Hex) as Htu.
  destruct (SignWith_verifies _ _ _ _ Htu Hsign) as (Hv & wire & Henc).
  pose proof (existing_authorized c full current now u Hcur Hclaim Hex) as [_ Hun].
  assert (transitionAt c full now = Ok u) as Htr.
  { unfold transitionAt. change (Kind full) with (Kind operation). change (Name full) with (Name operation). rewrite Hcur.
    unfold intentKinds in Hkind. repeat (apply elem_of_cons in Hkind as [->|Hkind]; [by literals|]). by apply not_elem_of_nil in Hkind. }
  assert (successor <> []) as Hsne by (intros ->; apply verified_container_length in Hv as [Hv _]; by vm_compute in Hv).
  assert (exactSignedSuccessor c u successor = true) as Hx.
  { unfold exactSignedSuccessor. rewrite Hv, Henc. by apply bool_decide_eq_true. }
  pose proof (decodeControlOperation_ok _ _ Hdec) as (_ & _ & _ & _ & Hlen).
  destruct (appended_accepts p d base cursor es submission full now stage u Hstored Hroom) as [[e He]|(e' & He' & Hcol)];
    [by rewrite <- Hnet|done|by apply Parse_nonempty| | |left|by right; exists full, e'].
  { rewrite UnixMilli_clock by (unfold Millisecond in *; lia). unfold Millisecond in *. Z.div_mod_to_equations. lia. }
  { unfold pending.maximumPendingBytes. lia. }
  assert (Accepted c submission proof now full u) as Hacc by (constructor; [done|by rewrite Hdig|done..]).
  destruct (Submit_accepts c (opened p d) submission proof now stage full u e Hst Hacc He) as (acts & c' & E). eauto.
Qed.

(** ** Findings *)

(** C40: A recovery policy can be scheduled only in the first millisecond of a
    second: the operation must name the activation instant in milliseconds of the
    clock, the Record transition recomputes it from the clock in whole seconds. *)
Theorem policy_needs_whole_second c operation now u :
  Clock now -> operation.(Kind) = str "policy" -> transitionAt c operation now = Ok u -> now mod Second < Millisecond.
Proof.
  intros Hc Hk. unfold transitionAt. rewrite Hk. literals. destruct (_ !! _) as [current|]; [|done].
  intros Hu. by apply existing_policy in Hu as [? _].
Qed.

Lemma fork_of_claimed network raw child u :
  recordcodec.VerifyRecord network raw = Ok child -> u.(record.Generation) = 1 -> u.(record.Revision) = 1 ->
  store.continuousSuccessor child u = false.
Proof.
  intros [Hv Ht]%recordcodec.VerifyRecord_valid Hg Hr. unfold store.continuousSuccessor. rewrite Hg, Hr.
  destruct Ht as [Htg Htr]. destruct Hv as [_ Hvg Hvr]. unfold in_u64 in *.
  assert (forall z, 0 <= z < 2 ^ 64 -> z <> 0 -> (1 =? u64 (z + 1)) = false) as Hne.
  { intros z Hz Hz0. apply Z.eqb_neq. unfold u64. destruct (decide (z = 2 ^ 64 - 1)) as [->|]; [done|].
    rewrite Z.mod_small by lia. lia. }
  case_match; [by apply Hne|]. rewrite (Hne child.(record.Generation)) by done. by rewrite andb_false_r.
Qed.

(** C37: A parent can delegate a name that already exists.  The control does not
    look at the existing Record: it accepts a first revision of the first
    generation and appends it to the journal, where it forks the Record of the
    name, so that no installation that already holds the name can ever include
    that entry or any entry after it. *)
Theorem delegation_forks_existing c operation now u child raw e rest known :
  operation.(Kind) = str "delegate" -> transitionAt c operation now = Ok u ->
  recordcodec.VerifyRecord c.(network) raw = Ok child -> known !! operation.(Name) = Some raw ->
  recordcodec.VerifyRecord c.(network) e.(pending.successor) = Ok u ->
  u.(record.Generation) = 1 /\ u.(record.Revision) = 1 /\
  store.includeEntries c.(network) (e :: rest) known =
    (known, Err (New "naming Epoch pending successor forks its predecessor")).
Proof.
  intros Hk Ht Hraw Hknown He. unfold transitionAt in Ht. rewrite Hk in Ht. literals.
  apply delegate_ok in Ht as (parent & op & _ & _ & Hn & _ & Hg & Hr & _). split_and!; [done|done|].
  cbn [store.includeEntries]. rewrite He, Hn, Hknown, Hraw, (fork_of_claimed _ _ _ _ Hraw Hg Hr). done.
Qed.

End Prepared.
