(* ===== verification/AuthorityWitness.v ===== *)
(** * Name Authority control: a control at work

    Concrete runs on which the hypotheses of the theorems of AuthorityProof.v,
    AuthorityTyped.v and AuthorityPrepare.v hold: a control over a store with one
    installed name, a prepared and submitted publication, a scheduled recovery
    policy, and the delegation of a name that exists. *)

From S2P Require Import Prelude GoLib GoTime Naming Recovery Record RecordLifecycle RecordProperties RecordCodec Admission Claim Json ClaimWire.
From S2P Require Import EpochCodec EpochProof EpochDisk EpochDurable EpochJournal EpochStore EpochStoreProof EpochInstall.
From S2P Require Import Authority AuthorityProof AuthorityTyped AuthorityPrepare.

Import json authority.

#[local] Existing Instance sample_golib.

(** ** The control *)

Definition emptyOrder : claim.ClaimOrder := claim.MkOrder sampleNetwork claim.claimOrderRule 1 1 ∅ 1.
Definition leasePolicy : record.Policy := record.MkPolicy Hour 0.
Definition quietGate : admission.Admission :=
  admission.MkAdmission (recovery.key 60) sampleNetwork 3 (recovery.key 61) admission.acceptedProfiles admission.freshSurfaces.

#[local] Notation baseRecords := (<[str "example" := recordcodec.sampleRecord]> (∅ : gmap gostring record.NameRecord)).

Definition sampleControl : control :=
  MkControl sampleNetwork quietGate emptyOrder baseRecords leasePolicy (Some (opened samplePolicy firstDisk)).

Lemma firstDisk_stored : Stored samplePolicy firstDisk baseRecords 0 [].
Proof.
  constructor; [|vm_compute; reflexivity].
  assert (match store.CurrentRecords (opened samplePolicy firstDisk) with
          | Ok (base, cursor) => bool_decide (base = baseRecords /\ cursor = 0) | Err _ => false end = true) as H
    by (vm_compute; reflexivity).
  destruct (store.CurrentRecords _) as [[base cursor]|]; [|done]. by apply bool_decide_eq_true in H as [-> ->].
Qed.

Lemma sampleControl_opens :
  OpenControl (Some (opened samplePolicy firstDisk)) (Some quietGate) emptyOrder true leasePolicy = Ok sampleControl.
Proof. rewrite (OpenControl_stored _ _ _ _ _ _ _ _ firstDisk_stored). reflexivity. Qed.

Lemma sampleControl_faithful : Faithful sampleControl samplePolicy firstDisk.
Proof.
  destruct (OpenControl_faithful _ _ _ _ _ _ _ _ _ firstDisk_stored (Z.le_refl 0) sampleControl_opens) as (Hf & _). exact Hf.
Qed.

(** ** A publication *)

(** Five milliseconds and seven nanoseconds into a second. *)
Definition sampleNow : Z := 4000 * Second + 5 * Millisecond + 7.

Definition sampleSigner : ControlSigner :=
  MkControlSigner (directTransitionSigner recordcodec.samplePrivate)
    (fun request => Ok (ed25519_Sign recordcodec.samplePrivate request.(recordcodec.transcript) : bytes)).

Definition stamped (o : controlOperation) : controlOperation := o <| OperationDigest := canonicalControlDigest o |>.

Definition publication : controlOperation :=
  stamped (zeroOperation <| Kind := str "record" |> <| SigningMode := custodyDerivedSigningMode |> <| Name := str "example" |>
    <| Generation := 1 |> <| ExpectedRevision := 2 |> <| Target := recovery.key 55 |> <| RecordNotAfter := 6000000 |>).

Definition intentOf (o : controlOperation) : Intent := MkIntent (Marshal operationCodec o) o.(OperationDigest).

Definition preparedOf (o : controlOperation) (now : Z) : Submission :=
  match Prepare sampleControl (intentOf o) (Some sampleSigner) now with Ok s => s | Err _ => MkSubmission [] zero32 end.

Definition publicationIssue : admission.Admission * result admission.Challenge :=
  admission.Issue quietGate 4000000 (str "renewal-update") publication.(OperationDigest) (recovery.key 62) 4020000
    (to_array 16 [x07]).

Definition publicationProof : admission.Proof :=
  admission.MkProof
    match publicationIssue.2 with
    | Ok c => c
    | Err _ => admission.MkChallenge zero32 zero32 0 [] zero32 zero32 0 0 (zero 16) 0 zero32
    end 0.

Lemma publication_prepared :
  Prepare sampleControl (intentOf publication) (Some sampleSigner) sampleNow = Ok (preparedOf publication sampleNow).
Proof. vm_compute. reflexivity. Qed.

Lemma publication_intent : Intent_operation (intentOf publication) = Ok publication.
Proof. vm_compute. reflexivity. Qed.

Lemma publication_binds : bindsOperation sampleControl publication publicationProof = true.
Proof. vm_compute. reflexivity. Qed.

Lemma publication_admitted : (admission.Verify quietGate (UnixMilli sampleNow) publicationProof).2.1 = true.
Proof. vm_compute. reflexivity. Qed.

#[local] Notation publish := (Submit sampleControl (preparedOf publication sampleNow) publicationProof sampleNow sampleStage).

Lemma publication_submitted : publish.2 = submitted.
Proof. vm_compute. reflexivity. Qed.

Lemma submit_survives_crash_witness :
  Faithful publish.1.2 samplePolicy (disk.run publish.1.1 firstDisk) /\
  (publish.1.2.(records) = sampleControl.(records) \/ publish.2 = submitted) /\
  forall d' root' g, disk.crashed publish.1.1 firstDisk d' -> disk.openNamespaceRoot d' = Ok root' ->
    exists c2, OpenControl (Some (store.MkStore root' samplePolicy)) (Some g) emptyOrder true leasePolicy = Ok c2 /\
      Faithful c2 samplePolicy root'.(disk.disk_of) /\
      (c2.(records) = sampleControl.(records) \/ c2.(records) = publish.1.2.(records)).
Proof.
  apply (submit_survives_crash sampleControl samplePolicy firstDisk (preparedOf publication sampleNow) publicationProof
    sampleNow sampleStage sampleTmp).
  - exact sampleControl_faithful.
  - constructor; by vm_compute.
  - by vm_compute.
  - destruct publish as [[? ?] ?]. reflexivity.
Defined.

Lemma submit_authorized_witness :
  exists operation u decoded wire,
    decodeControlOperation (preparedOf publication sampleNow).(raw) = Ok operation /\
    bindsOperation sampleControl operation publicationProof = true /\
    (admission.Verify quietGate (UnixMilli sampleNow) publicationProof).2.1 = true /\
    Authorized sampleControl operation sampleNow u /\
    publish.1.2.(records) = <[operation.(Name) := u]> baseRecords /\
    recordcodec.VerifyRecord sampleNetwork operation.(SuccessorRecord) = Ok decoded /\
    recordcodec.EncodeRecord decoded = Ok wire /\ recordcodec.EncodeRecord u = Ok wire.
Proof.
  apply (submit_authorized sampleControl (preparedOf publication sampleNow) publicationProof sampleNow sampleStage publish.1.1).
  rewrite <- publication_submitted. destruct publish as [[? ?] ?]. reflexivity.
Defined.

Lemma prepared_submission_accepted_witness :
  exists acts c', Submit sampleControl (preparedOf publication sampleNow) publicationProof sampleNow sampleStage =
     (acts, c', submitted).
Proof.
  destruct (prepared_submission_accepted sampleControl samplePolicy firstDisk (intentOf publication) (Some sampleSigner)
    sampleNow (preparedOf publication sampleNow) publication publicationProof sampleStage baseRecords 0 [])
    as [Hs|(full & e' & _ & He & _)].
  - exact sampleControl_faithful.
  - exact (OpenControl_typed _ _ _ _ _ _ sampleControl_opens).
  - exact firstDisk_stored.
  - by vm_compute.
  - by vm_compute.
  - exact publication_prepared.
  - exact publication_intent.
  - exact publication_binds.
  - exact publication_admitted.
  - exact Hs.
  - by apply not_elem_of_nil in He.
Defined.

(** A tick, a submission and its replay. *)
Definition sampleCalls : list Call :=
  replicate 2 (MkCall (preparedOf publication sampleNow) publicationProof sampleNow sampleStage).

Lemma control_stays_typed_witness : TypedView (foldl serve sampleControl sampleCalls).(records).
Proof.
  apply (control_stays_typed (Some (opened samplePolicy firstDisk)) (Some quietGate) emptyOrder true leasePolicy).
  exact sampleControl_opens.
Defined.

(** ** A recovery policy *)

Definition policyNow : Z := 4000 * Second.

Definition schedule : controlOperation :=
  stamped (zeroOperation <| Kind := str "policy" |> <| SigningMode := custodyDerivedSigningMode |> <| Name := str "example" |>
    <| Generation := 1 |> <| ExpectedRevision := 2 |> <| PolicyNotBefore := 4000000 + 72 * 3600000 |>
    <| RecoveryPolicy := Marshal policyCodec (MkPolicyWire recovery.samplePolicy (Some recovery.samplePolicy.(recovery.Participants))) |>).

Definition scheduled : controlOperation :=
  match decodeControlOperation (preparedOf schedule policyNow).(raw) with Ok o => o | Err _ => zeroOperation end.

Definition scheduledRecord : record.NameRecord :=
  match transitionAt sampleControl scheduled policyNow with Ok u => u | Err _ => recordcodec.sampleRecord end.

Lemma policy_needs_whole_second_witness : policyNow mod Second < Millisecond.
Proof. apply (policy_needs_whole_second sampleControl scheduled policyNow scheduledRecord); by vm_compute. Defined.

(** ** A delegation over an existing name *)

Definition delegation : controlOperation :=
  stamped (zeroOperation <| Kind := str "delegate" |> <| Name := str "a.example" |> <| ParentName := str "example" |>
    <| ParentGeneration := 1 |> <| ParentRevision := 2 |> <| ChildGeneration := 1 |> <| Authority := recovery.key 100 |>
    <| LeaseNotAfter := 7600000 |>
    <| AuthorityProof :=
         recordcodec.okBytes (SignTransition sampleNetwork recordcodec.sampleRecord
           (record.zeroOp <| record.op_Kind := str "claim" |> <| record.op_Name := str "a.example" |>
              <| record.op_Generation := 1 |> <| record.op_Authority := recordcodec.holder |>
              <| record.op_Parents := [recordcodec.sampleRecord] |> <| record.op_LeaseDuration := Hour |>)
           recordcodec.samplePrivate) |>).

Definition delegatedRecord : record.NameRecord :=
  match transitionAt sampleControl delegation policyNow with Ok u => u | Err _ => recordcodec.sampleRecord end.

(** The Record the name already has: three revisions later. *)
Definition childRecord : record.NameRecord := delegatedRecord <| record.Revision := 4 |>.
Definition signedOf (r : record.NameRecord) : bytes :=
  recordcodec.okBytes (recordcodec.SignRecord sampleNetwork r recordcodec.samplePrivate).

Definition holdingControl : control :=
  sampleControl <| records := <[str "a.example" := childRecord]> baseRecords |>.
Definition delegationEntry : pending.pendingEntry :=
  pending.MkPending [] 1 4000000 (Marshal operationCodec delegation) (signedOf delegatedRecord).

Lemma delegation_forks_existing_witness :
  delegatedRecord.(record.Generation) = 1 /\ delegatedRecord.(record.Revision) = 1 /\
  store.includeEntries sampleNetwork [delegationEntry] {[str "a.example" := signedOf childRecord]} =
    ({[str "a.example" := signedOf childRecord]}, Err (New "naming Epoch pending successor forks its predecessor")).
Proof.
  apply (delegation_forks_existing holdingControl delegation policyNow delegatedRecord childRecord (signedOf childRecord));
    vm_compute; reflexivity.
Defined.
