(* ===== verification/GoNet.v ===== *)
(** * Literal network addresses (packages net, net/netip and strconv)

    The parts of the Go library that decide whether a text is an IP address with
    a port: [strconv.Atoi], [net.SplitHostPort] and [net.ParseIP].  Only whether
    an address parses is modelled, not its value. *)

From S2P Require Import Prelude.

Module net.

Definition colon : byte := x3a.
Definition dot : byte := x2e.
Definition percent : byte := x25.

Definition isDigit (c : byte) : bool := (48 <=? byte_val c) && (byte_val c <=? 57).

Definition isHex (c : byte) : bool :=
  isDigit c || ((97 <=? byte_val c) && (byte_val c <=? 102)) || ((65 <=? byte_val c) && (byte_val c <=? 70)).

(** ** strconv.Atoi *)

Definition decimal (s : gostring) : Z := foldl (fun n c => n * 10 + (byte_val c - 48)) 0 s.

Definition Atoi (s : gostring) : option Z :=
  let '(sign, digits) :=
    match s with
    | c :: rest => if c ==? x2d then (-1, rest) else if c ==? x2b then (1, rest) else (1, s)
    | [] => (1, [])
    end in
  if (digits ==? []) || negb (forallb isDigit digits) then None
  else let n := sign * decimal digits in if (- 2 ^ 63 <=? n) && (n <? 2 ^ 63) then Some n else None.

(** ** net.SplitHostPort *)

(** [strings.IndexByte]; [None] for -1. *)
Fixpoint IndexByte (s : gostring) (c : byte) : option nat :=
  match s with
  | [] => None
  | d :: rest => if d ==? c then Some O else S <$> IndexByte rest c
  end.

Definition LastIndexByte (s : gostring) (c : byte) : option nat :=
  (fun i => (length s - 1 - i)%nat) <$> IndexByte (reverse s) c.

Definition contains (s : gostring) (c : byte) : bool := existsb (fun d => d ==? c) s.

Definition SplitHostPort (hostport : gostring) : option (gostring * gostring) :=
  match LastIndexByte hostport colon with
  | None => None
  | Some i =>
      let port := drop (S i) hostport in
      if head hostport ==? Some x5b then
        match IndexByte hostport x5d with
        | None => None
        | Some close =>
            if (S close =? i)%nat then
              if contains (drop 1 hostport) x5b || contains (drop (S close) hostport) x5d then None
              else Some (drop 1 (take close hostport), port)
            else None
        end
      else
        let host := take i hostport in
        if contains host colon || contains hostport x5b || contains hostport x5d then None else Some (host, port)
  end.

(** ** net.ParseIP *)

(** [parseIPv4Fields]: [pos] fields are complete, [digLen] digits of the current
    one are read and make [val]. *)
Fixpoint ipv4Fields (s : gostring) (pos digLen val : Z) : bool :=
  match s with
  | [] => (pos =? 3) && (0 <? digLen)
  | c :: rest =>
      if isDigit c then
        let val' := val * 10 + (byte_val c - 48) in
        if ((digLen =? 1) && (val =? 0)) || (255 <? val') then false else ipv4Fields rest pos (digLen + 1) val'
      else if c ==? dot then
        if (digLen =? 0) || (pos =? 3) then false else ipv4Fields rest (pos + 1) 0 0
      else false
  end.

Definition parseIPv4 (s : gostring) : bool := ipv4Fields s 0 0 0.

Fixpoint hexRun (s : gostring) : nat :=
  match s with
  | c :: rest => if isHex c then S (hexRun rest) else O
  | [] => O
  end.

(** The loop of [parseIPv6]; [i] bytes are filled and [ellipsis] tells whether
    "::" occurred.  Each round fills two bytes, so eight rounds are enough. *)
Fixpoint ipv6Groups (fuel : nat) (s : gostring) (i : Z) (ellipsis : bool) : bool :=
  let complete (s : gostring) (i : Z) (ellipsis : bool) :=
    if s !=? [] then false else if i <? 16 then ellipsis else negb ellipsis in
  match fuel with
  | O => complete s i ellipsis
  | S fuel =>
      let off := hexRun s in
      if (off =? 0)%nat || (4 <? off)%nat then false
      else if head (drop off s) ==? Some dot then
        if (negb ellipsis && negb (i =? 12)) || (16 <? i + 4) then false
        else parseIPv4 s && complete [] (i + 4) ellipsis
      else
        let i := i + 2 in
        match drop off s with
        | [] => complete [] i ellipsis
        | c :: rest =>
            if c !=? colon then false
            else
              match rest with
              | [] => false
              | d :: rest' =>
                  if d ==? colon then
                    if ellipsis then false
                    else if rest' ==? [] then complete [] i true
                    else ipv6Groups fuel rest' i true
                  else ipv6Groups fuel rest i ellipsis
              end
        end
  end.

Definition parseIPv6 (s : gostring) : bool :=
  match s with
  | c :: d :: rest =>
      if (c ==? colon) && (d ==? colon) then if rest ==? [] then true else ipv6Groups 8 rest 0 true
      else ipv6Groups 8 s 0 false
  | _ => ipv6Groups 8 s 0 false
  end.

(** [net.ParseIP(s) != nil]: the first separator chooses the family, and an
    address with a zone is refused. *)
Fixpoint addressFamily (s : gostring) : option byte :=
  match s with
  | [] => None
  | c :: rest => if (c ==? dot) || (c ==? colon) || (c ==? percent) then Some c else addressFamily rest
  end.

Definition ParseIP (s : gostring) : bool :=
  match addressFamily s with
  | Some c =>
      if c ==? dot then parseIPv4 s else if c ==? colon then negb (contains s percent) && parseIPv6 s else false
  | None => false
  end.

Example ParseIP_samples :
  ParseIP <$> [str "127.0.0.1"; str "255.255.255.255"; str "::"; str "::1"; str "2001:db8::8a2e:370:7334";
               str "::ffff:1.2.3.4"; str "1:2:3:4:5:6:7:8"; str "1:2:3:4:5:6:7::"] = replicate 8 true /\
  ParseIP <$> [str ""; str "localhost"; str "1.2.3"; str "1.2.3.4.5"; str "01.2.3.4"; str "1.2.3.256"; str "1..2.3";
               str "1:2:3:4:5:6:7:8:9"; str "1::2::3"; str "fe80::1%eth0"; str ":1"; str "12345::"; str "1:2:3:4:5:6:7::8"]
    = replicate 13 false.
Proof. vm_compute. done. Qed.

Example SplitHostPort_samples :
  SplitHostPort <$> [str "127.0.0.1:443"; str "[::1]:80"; str "::1:80"; str "[::1]"; str "host"; str "[a]:b]:1"; str ":1"]
    = [Some (str "127.0.0.1", str "443"); Some (str "::1", str "80"); None; None; None; None; Some ([], str "1")].
Proof. vm_compute. reflexivity. Qed.

Example Atoi_samples :
  Atoi <$> [str "443"; str "+7"; str "-7"; str "007"; str ""; str "-"; str "1a"; str "9223372036854775808"]
    = [Some 443; Some 7; Some (-7); Some 7; None; None; None; None].
Proof. vm_compute. reflexivity. Qed.

End net.
