(* ===== verification/StateView.v ===== *)
(** * The authenticated Network State as Resolution sees it
    (internal/network/state)

    The projection of resolution_view.go: from one Snapshot of the Network State
    the Epoch facts, the candidate with a given identity, the one Destination
    Resolution Gateway, the one Transit issuer and the Publisher's attachment,
    each only when it is valid for the whole requested window. *)

From S2P Require Import Prelude GoLib GoTime.

Module state.

(** ** contract.go *)

Record routeCandidate := MkCandidate {
  NodeID : array 32;
  PublicKey : array 32;
  KeyID : array 32;
  FamilyID : array 32;
  RecordDigest : array 32;
  DomainProofDigest : array 32;
  Family : gostring;
  Endpoint : gostring;
  CarrierProfile : gostring;
  Capacity : Z;
  Domain : gostring;
  ValidFrom : Z;
  ValidUntil : Z;
  AssignmentNotAfter : Z
}.

(** The arrays of the Snapshot are lists; a count beside an array says how many of
    its entries are filled, and the model keeps those. *)
Record Snapshot := MkSnapshot {
  Generation : gostring;
  NetworkID : array 32;
  Epoch : Z;
  Digest : array 32;
  EpochValidFrom : Z;
  SnapshotValidUntil : Z;
  Profile : gostring;
  ViewRoot : array 32;
  ViewLength : Z;
  RejectedRoot : array 32;
  RejectedLength : Z;
  Freshness : gostring;
  Conflicting : bool;
  SourceAttempts : Z;
  SourceOutcomes : list gostring;
  LatestCompleteness : gostring;
  ObservedEpochs : list Z;
  ObservedDigests : list (array 32);
  TrustedTime : Z;
  NextAutomatic : Z;
  PendingEpoch : Z;
  PendingDigest : array 32;
  PendingAt : Z;
  EpochAuthorityIDs : list (array 32);
  EpochAuthorityKeys : list (array 32);
  EpochAuthorityCount : Z;
  EpochThreshold : Z;
  RecordPresent : bool;
  SnapshotNodeID : array 32;
  NodePublicKey : array 32;
  RecordGeneration : Z;
  RecordValidFrom : Z;
  RecordValidUntil : Z;
  DeclaredFamily : gostring;
  ProbeEndpoint : gostring;
  SnapshotCarrierProfile : gostring;
  ProbeCapacity : Z;
  Assignment : gostring;
  AssignmentDigest : array 32;
  DestinationResolutionNodeID : array 32;
  DestinationResolutionProfile : bytes;
  DestinationResolutionProfileSize : Z;
  TransitIssuanceNodeID : array 32;
  TransitIssuanceProfile : bytes;
  TransitIssuanceProfileSize : Z;
  CandidateCount : Z;
  Candidates : list routeCandidate
}.
#[global] Instance eta_Snapshot : Eta Snapshot := fun s =>
  MkSnapshot s.(Generation) s.(NetworkID) s.(Epoch) s.(Digest) s.(EpochValidFrom) s.(SnapshotValidUntil)
    s.(Profile) s.(ViewRoot) s.(ViewLength) s.(RejectedRoot) s.(RejectedLength) s.(Freshness)
    s.(Conflicting) s.(SourceAttempts) s.(SourceOutcomes) s.(LatestCompleteness) s.(ObservedEpochs)
    s.(ObservedDigests) s.(TrustedTime) s.(NextAutomatic) s.(PendingEpoch) s.(PendingDigest)
    s.(PendingAt) s.(EpochAuthorityIDs) s.(EpochAuthorityKeys) s.(EpochAuthorityCount)
    s.(EpochThreshold) s.(RecordPresent) s.(SnapshotNodeID) s.(NodePublicKey) s.(RecordGeneration)
    s.(RecordValidFrom) s.(RecordValidUntil) s.(DeclaredFamily) s.(ProbeEndpoint)
    s.(SnapshotCarrierProfile) s.(ProbeCapacity) s.(Assignment) s.(AssignmentDigest)
    s.(DestinationResolutionNodeID) s.(DestinationResolutionProfile)
    s.(DestinationResolutionProfileSize) s.(TransitIssuanceNodeID) s.(TransitIssuanceProfile)
    s.(TransitIssuanceProfileSize) s.(CandidateCount) s.(Candidates).

Record BridgeCandidate := MkBridge {
  bridge_NodeID : array 32;
  bridge_PublicKey : array 32;
  bridge_KeyID : array 32;
  bridge_FamilyID : array 32;
  bridge_RecordDigest : array 32;
  bridge_DomainProofDigest : array 32;
  bridge_Domain : gostring;
  bridge_ValidFrom : Z;
  bridge_ValidUntil : Z;
  bridge_AssignmentNotAfter : Z
}.

(** [BridgeCandidateByKey] of exposure.go. *)
Definition BridgeCandidateByKey (s : Snapshot) (keyID : array 32) : option BridgeCandidate :=
  c ← find (fun c => c.(KeyID) ==? keyID) (take (Z.to_nat s.(CandidateCount)) s.(Candidates));
  Some (MkBridge c.(NodeID) c.(PublicKey) c.(KeyID) c.(FamilyID) c.(RecordDigest) c.(DomainProofDigest) c.(Domain)
          c.(ValidFrom) c.(ValidUntil) c.(AssignmentNotAfter)).

(** ** resolution_view.go *)

Record ResolutionView := MkView { snapshot : Snapshot }.

Record ResolutionAuthority := MkResolutionAuthority { authority_ID : array 32; authority_PublicKey : array 32 }.

Record ResolutionEpoch := MkResolutionEpoch {
  epoch_Generation : gostring;
  epoch_NetworkID : array 32;
  epoch_Number : Z;
  epoch_Digest : array 32;
  epoch_ViewRoot : array 32;
  epoch_Authorities : list ResolutionAuthority;
  epoch_Threshold : Z
}.

Record ResolutionCandidate := MkResolutionCandidate {
  candidate_NodeID : array 32;
  candidate_PublicKey : array 32;
  candidate_Family : gostring;
  candidate_Endpoint : gostring;
  candidate_Domain : gostring;
  candidate_AssignmentNotAfter : Z
}.

(** The type of both [DestinationResolutionGateway] and [TransitIssuer]. *)
Record SelectedNode := MkSelectedNode {
  selected_NodeID : array 32;
  selected_PublicKey : array 32;
  selected_Family : array 32;
  selected_Profile : bytes;
  selected_AssignmentNotAfter : Z
}.

Record PublisherTransitPeer := MkPeer {
  peer_NodeID : array 32;
  peer_PublicKey : array 32;
  peer_Family : array 32;
  peer_Endpoint : gostring
}.

Record PublisherAttachment := MkAttachment {
  attachment_NetworkID : array 32;
  attachment_Digest : array 32;
  attachment_Epoch : Z;
  Introduction : PublisherTransitPeer;
  Rendezvous : PublisherTransitPeer;
  Responder : PublisherTransitPeer;
  attachment_NotAfter : Z
}.

Definition interactiveRouteProfile : gostring := str "ardents-interactive-route-v2".
Definition destinationResolutionDomain : gostring := str "destination-resolution".
Definition transitIssuanceDomain : gostring := str "transit-issuance".

Definition Resolution (s : Snapshot) : result ResolutionView :=
  reject (New "network state resolution view is invalid")
    when ((s.(Generation) ==? []) || (s.(NetworkID) ==? zero32) || (s.(Epoch) =? 0) ||
          (s.(Digest) ==? zero32) || (s.(ViewRoot) ==? zero32) ||
          (s.(EpochAuthorityCount) =? 0) || (16 <? s.(EpochAuthorityCount)) ||
          (s.(EpochThreshold) =? 0) || (s.(EpochAuthorityCount) <? s.(EpochThreshold)));
  Ok (MkView s).

Definition authorities (s : Snapshot) : list ResolutionAuthority :=
  take (Z.to_nat s.(EpochAuthorityCount)) (zip_with MkResolutionAuthority s.(EpochAuthorityIDs) s.(EpochAuthorityKeys)).

Definition View_Epoch (view : ResolutionView) (at_ deadline : Z) : option ResolutionEpoch :=
  let s := view.(snapshot) in
  if (s.(Freshness) !=? str "fresh") || s.(Conflicting) || IsZero at_ || negb (at_ <? deadline) ||
     (Add at_ (15 * Second) <? deadline) || (s.(SnapshotValidUntil) <? deadline)
  then None
  else Some (MkResolutionEpoch s.(Generation) s.(NetworkID) s.(Epoch) s.(Digest) s.(ViewRoot) (authorities s)
               s.(EpochThreshold)).

Definition candidates (view : ResolutionView) : list routeCandidate :=
  take (Z.to_nat view.(snapshot).(CandidateCount)) view.(snapshot).(Candidates).

Definition throughout (c : routeCandidate) (at_ deadline : Z) : bool :=
  negb (at_ <? c.(ValidFrom)) && (deadline <? c.(ValidUntil)) && negb (c.(AssignmentNotAfter) <? deadline).

(** The first candidate with the identity decides. *)
Fixpoint findCandidate (l : list routeCandidate) (nodeID : array 32) (at_ deadline : Z) : option ResolutionCandidate :=
  match l with
  | [] => None
  | c :: rest =>
      if c.(NodeID) !=? nodeID then findCandidate rest nodeID at_ deadline
      else if (0 <? c.(Capacity)) && (c.(Family) !=? []) && (c.(Endpoint) !=? []) && (c.(Domain) !=? []) &&
              throughout c at_ deadline
      then Some (MkResolutionCandidate c.(NodeID) c.(PublicKey) c.(Family) c.(Endpoint) c.(Domain) c.(AssignmentNotAfter))
      else None
  end.

Definition Candidate (view : ResolutionView) (nodeID : array 32) (at_ deadline : Z) : option ResolutionCandidate :=
  if nodeID ==? zero32 then None else findCandidate (candidates view) nodeID at_ deadline.

(** The loops of [Gateway] and [CredentialIssuer]. *)
Fixpoint findSelected (l : list routeCandidate) (nodeID : array 32) (domain : gostring) (profile : bytes) (at_ deadline : Z)
  : option SelectedNode :=
  match l with
  | [] => None
  | c :: rest =>
      if (c.(NodeID) !=? nodeID) || (c.(Domain) !=? domain) then findSelected rest nodeID domain profile at_ deadline
      else if (0 <? c.(Capacity)) && (c.(PublicKey) !=? zero32) && (c.(FamilyID) !=? zero32) && throughout c at_ deadline
      then Some (MkSelectedNode c.(NodeID) c.(PublicKey) c.(FamilyID) profile c.(AssignmentNotAfter))
      else None
  end.

Definition Gateway (view : ResolutionView) (at_ deadline : Z) : option SelectedNode :=
  match View_Epoch view at_ deadline with
  | None => None
  | Some _ =>
      let s := view.(snapshot) in
      let size := s.(DestinationResolutionProfileSize) in
      if (s.(Profile) !=? interactiveRouteProfile) || (s.(DestinationResolutionNodeID) ==? zero32) || (size =? 0) ||
         (len s.(DestinationResolutionProfile) <? size)
      then None
      else findSelected (candidates view) s.(DestinationResolutionNodeID) destinationResolutionDomain
             (take (Z.to_nat size) s.(DestinationResolutionProfile)) at_ deadline
  end.

Definition CredentialIssuer (view : ResolutionView) (at_ deadline : Z) : option SelectedNode :=
  match View_Epoch view at_ deadline with
  | None => None
  | Some _ =>
      let s := view.(snapshot) in
      let size := s.(TransitIssuanceProfileSize) in
      if (s.(Profile) !=? interactiveRouteProfile) || (s.(TransitIssuanceNodeID) ==? zero32) || (size =? 0) ||
         (len s.(TransitIssuanceProfile) <? size)
      then None
      else findSelected (candidates view) s.(TransitIssuanceNodeID) transitIssuanceDomain
             (take (Z.to_nat size) s.(TransitIssuanceProfile)) at_ deadline
  end.

Definition publisherRole (domain : gostring) : bool :=
  (domain ==? str "introduction") || (domain ==? str "rendezvous") || (domain ==? str "responder").

(** The loop over the candidates; [None] where it returns early. *)
Fixpoint selectPeers (l : list routeCandidate) (selected : gmap gostring PublisherTransitPeer) (at_ deadline : Z)
  : option (gmap gostring PublisherTransitPeer) :=
  match l with
  | [] => Some selected
  | c :: rest =>
      if negb (publisherRole c.(Domain)) then selectPeers rest selected at_ deadline
      else if bool_decide (is_Some (selected !! c.(Domain))) || (c.(Capacity) =? 0) || (c.(NodeID) ==? zero32) ||
              (c.(PublicKey) ==? zero32) || (c.(FamilyID) ==? zero32) || (c.(Endpoint) ==? []) ||
              negb (throughout c at_ deadline)
      then None
      else selectPeers rest (<[c.(Domain) := MkPeer c.(NodeID) c.(PublicKey) c.(FamilyID) c.(Endpoint)]> selected)
             at_ deadline
  end.

Fixpoint distinctPeers (peers : list PublisherTransitPeer) : bool :=
  match peers with
  | [] => true
  | p :: rest =>
      forallb (fun q => (q.(peer_NodeID) !=? p.(peer_NodeID)) && (q.(peer_Family) !=? p.(peer_Family))) rest &&
      distinctPeers rest
  end.

Definition attachment (view : ResolutionView) (at_ deadline : Z) : option PublisherAttachment :=
  match View_Epoch view at_ deadline with
  | None => None
  | Some epoch =>
      if view.(snapshot).(Profile) !=? interactiveRouteProfile then None
      else
        match selectPeers (candidates view) ∅ at_ deadline with
        | None => None
        | Some selected =>
            match selected !! str "introduction", selected !! str "rendezvous", selected !! str "responder" with
            | Some introduction, Some rendezvous, Some responder =>
                if distinctPeers [introduction; rendezvous; responder]
                then Some (MkAttachment epoch.(epoch_NetworkID) epoch.(epoch_Digest) epoch.(epoch_Number)
                             introduction rendezvous responder deadline)
                else None
            | _, _, _ => None
            end
        end
  end.

End state.
