(* ===== verification/NamespaceView.v ===== *)
(** * The Namespace as Resolution sees it (internal/naming/namespace)

    resolution_view.go: the Gateway's view binds a store, its trust root and the
    admission gate; the client's view is a trust root alone.  A nil view is
    [None]; the views are immutable but for the gate and the store's disk, which
    the operations take and return. *)

From S2P Require Import Prelude GoLib Recovery RecordCodec Admission EpochCodec EpochBuild EpochDisk EpochStore.

Module namespace.

Record ResolutionGateway := MkGateway {
  gateway_store : store.Store;
  gateway_policy : epoch.MaterializationPolicy;
  minimumEpoch : Z;
  epochDigest : array 32;
  gateway_admission : admission.Admission
}.

#[global] Instance eta_gateway : Eta ResolutionGateway := fun g =>
  MkGateway g.(gateway_store) g.(gateway_policy) g.(minimumEpoch) g.(epochDigest) g.(gateway_admission).

Record ResolutionVerifier := MkVerifier {
  verifier_policy : epoch.MaterializationPolicy;
  verifier_minimumEpoch : Z;
  verifier_epochDigest : array 32
}.

Section View.
Context `{GoLib}.

(** An open store is valid; a closed one is [None] like a nil pointer. *)
Definition OpenResolutionGateway (s : option store.Store) (minimum : Z) (digest : array 32)
  (gate : option admission.Admission) : result ResolutionGateway :=
  match s, gate with
  | Some s, Some gate =>
      reject (New "naming resolution Gateway is invalid")
        when ((minimum =? 0) || (digest ==? zero32) ||
              negb (admission.Matches gate s.(store.policy).(epoch.policy_Network) minimum));
      match build.validMaterializationPolicy s.(store.policy) with
      | Err _ => Err (New "naming resolution Gateway policy is invalid")
      | Ok policy => Ok (MkGateway s policy minimum digest gate)
      end
  | _, _ => Err (New "naming resolution Gateway is invalid")
  end.

Definition Network (gateway : option ResolutionGateway) : array 32 :=
  match gateway with None => zero32 | Some g => g.(gateway_policy).(epoch.policy_Network) end.

Definition AcceptsGateway (gateway : option ResolutionGateway) (node : array 32) : bool :=
  match gateway with None => false | Some g => admission.AcceptsNode g.(gateway_admission) node end.

Definition AdmitResolution (gateway : ResolutionGateway) (now : Z) (node operation : array 32) (proof : admission.Proof)
  : ResolutionGateway * bool :=
  let challenge := proof.(admission.proof_Challenge) in
  if (node ==? zero32) || (operation ==? zero32) || (challenge.(admission.Node) !=? node) ||
     (challenge.(admission.Surface) !=? str "resolution") || (challenge.(admission.OperationDigest) !=? operation)
  then (gateway, false)
  else
    let '(gate, (accepted, _)) := admission.Verify gateway.(gateway_admission) now proof in
    (gateway <| gateway_admission := gate |>, accepted).

Definition LookupBinding (gateway : ResolutionGateway) (name : gostring) (at_ : Z) : option (bytes * recordcodec.Binding) :=
  match store.Lookup gateway.(gateway_store) name gateway.(minimumEpoch) with
  | Err _ => None
  | Ok proof =>
      match build.VerifyBinding gateway.(gateway_policy) proof gateway.(minimumEpoch) gateway.(epochDigest) at_ with
      | Err _ => None
      | Ok (binding, _, _) => Some (proof, binding)
      end
  end.

Definition OpenResolutionVerifier (input : epoch.MaterializationPolicy) (minimum : Z) (digest : array 32)
  : result ResolutionVerifier :=
  match build.validMaterializationPolicy input with
  | Err _ => Err (New "naming resolution verifier is invalid")
  | Ok policy =>
      reject (New "naming resolution verifier is invalid") when ((minimum =? 0) || (digest ==? zero32));
      Ok (MkVerifier policy minimum digest)
  end.

Definition Verify (verifier : option ResolutionVerifier) (proof : bytes) (at_ : Z) : result (recordcodec.Binding * string) :=
  match verifier with
  | None => Err (New "naming resolution verifier is unavailable")
  | Some v =>
      '(binding, warning, _) ← build.VerifyBinding v.(verifier_policy) proof v.(verifier_minimumEpoch)
                                 v.(verifier_epochDigest) at_;
      Ok (binding, warning)
  end.

End View.
End namespace.
