(* ===== verification/Resolution.v ===== *)
(** * Private name resolution (internal/naming/resolution)

    The messages of a private lookup and of a private control operation, the
    Gateway that answers them, the client that selects its roles and checks the
    answer, and the Relay between them.

    HTTP and the OHTTP encapsulation (a third-party package) are outside: a
    handler takes the decapsulated request, and a client takes the function
    [transport] that delivers a plaintext request and returns what came back.
    Random values and the readings of the clock are arguments. *)

From S2P Require Import Prelude Wire GoLib GoTime GoNet Json Naming RecordCodec Admission ClaimWire.
From S2P Require Import EpochCodec EpochBuild EpochDisk EpochStore Authority StateView NamespaceView.

Module resolution.

Import json.

(** ** contract.go *)

Definition fixedMessageSize : Z := 4096.
Definition initiatorDomain : gostring := str "initiator".
Definition rendezvousDomain : gostring := str "rendezvous".
Definition resolvedClass : string := "resolved".
Definition policyDenialClass : string := "local authorization or policy denial".
Definition resolutionUnavailableClass : string := "private resolution unavailable".
Definition invalidEvidenceClass : string := "invalid naming evidence".

Record GatewayProfile := MkProfile {
  profile_NetworkID : array 32;
  profile_NodeID : array 32;
  KeyConfig : bytes;
  KeyConfigDigest : array 32;
  profile_AssignmentNotAfter : Z;
  Signature : bytes
}.

Record Selection := MkSelection {
  At : Z;
  Deadline : Z;
  RelayNodeID : array 32;
  GatewayNodeID : array 32;
  ConnectionRendezvousNodeID : array 32;
  ExcludedIdentities : list (array 32);
  ExcludedFamilies : list gostring;
  AdmissionChallenge : admission.Challenge
}.

Record position := MkPosition {
  NodeID : array 32;
  PublicKey : array 32;
  Family : gostring;
  Endpoint : gostring;
  Domain : gostring;
  AssignmentNotAfter : Z
}.

Record plan := MkPlan {
  NetworkID : array 32;
  Generation : gostring;
  Epoch : Z;
  EpochDigest : array 32;
  ViewRoot : array 32;
  SelectionAt : Z;
  plan_Deadline : Z;
  Relay : position;
  Gateway : position;
  ConnectionRendezvous : position;
  GatewayKeyConfig : bytes;
  GatewayKeyConfigDigest : array 32;
  plan_ExcludedIdentities : list (array 32);
  plan_ExcludedFamilies : list gostring;
  plan_AdmissionChallenge : admission.Challenge;
  NamespaceVerifier : namespace.ResolutionVerifier
}.

Record controlPlan := MkControlPlan {
  control_NetworkID : array 32;
  control_SelectionAt : Z;
  control_Deadline : Z;
  control_Relay : position;
  control_Gateway : position;
  control_GatewayKeyConfig : bytes;
  control_AdmissionChallenge : admission.Challenge
}.

(** The counters are 32-bit. *)
Record gatewayObservation := MkObservation { Requests : Z; Resolved : Z; Rejected : Z }.
#[global] Instance eta_observation : Eta gatewayObservation := fun o => MkObservation o.(Requests) o.(Resolved) o.(Rejected).

Record relayObservation := MkRelayObservation { relay_Requests : Z; RequestBytes : Z; ResponseBytes : Z }.

(** ** role_evidence.go *)

Record resolverRoleEvidence := MkResolverEvidence {
  re_Operation : string;
  re_Name : gostring;
  re_Isolation : array 32;
  re_Network : array 32;
  re_Nonce : array 32;
  re_Target : array 32;
  re_Relay : array 32;
  re_Gateway : array 32;
  re_Rendezvous : array 32;
  re_Deadline : Z;
  re_Result : string;
  re_Generation : Z;
  re_Revision : Z
}.
#[global] Instance eta_resolverEvidence : Eta resolverRoleEvidence := fun e =>
  MkResolverEvidence e.(re_Operation) e.(re_Name) e.(re_Isolation) e.(re_Network) e.(re_Nonce) e.(re_Target)
    e.(re_Relay) e.(re_Gateway) e.(re_Rendezvous) e.(re_Deadline) e.(re_Result) e.(re_Generation) e.(re_Revision).

Record gatewayRoleEvidence := MkGatewayEvidence {
  ge_Operation : string;
  ge_Name : gostring;
  ge_Network : array 32;
  ge_Nonce : array 32;
  ge_Target : array 32;
  ge_Deadline : Z;
  ge_Result : string;
  ge_Generation : Z;
  ge_Revision : Z
}.

Record relayRoleEvidence := MkRelayEvidence {
  Origin : gostring;
  le_Gateway : gostring;
  Request : array 32;
  Response : array 32;
  le_RequestBytes : Z;
  le_ResponseBytes : Z;
  KeyID : byte;
  le_Deadline : Z
}.

(** ** message.go *)

Definition messageSchema : Z := 3.
Definition resolveOperation : byte := x01.
Definition resultResolved : byte := x01.
Definition resultUnavailable : byte := x02.

Record resolutionRequest := MkRequest {
  rq_network : array 32;
  rq_nonce : array 32;
  rq_deadline : Z;
  rq_name : gostring;
  rq_admission : admission.Proof
}.

Record resolutionResponse := MkResponse {
  rs_network : array 32;
  rs_nonce : array 32;
  rs_deadline : Z;
  rs_name : gostring;
  rs_generation : Z;
  rs_revision : Z;
  rs_result : byte;
  rs_proof : bytes
}.

(** admission_codec.go *)
Definition encodeAdmissionProof (proof : admission.Proof) : result bytes :=
  let c := proof.(admission.proof_Challenge) in
  reject (New "resolution admission proof is invalid")
    when ((c.(admission.Node) ==? zero32) || (c.(admission.Network) ==? zero32) || (c.(admission.Epoch) =? 0) ||
          (c.(admission.Surface) !=? str "resolution") || (255 <? len c.(admission.Surface)) ||
          (c.(admission.OperationDigest) ==? zero32) || (c.(admission.IsolationBinding) ==? zero32) ||
          (c.(admission.IssuedAt) <? 0) || (c.(admission.ExpiresAt) <=? c.(admission.IssuedAt)) ||
          (c.(admission.Nonce) ==? zero 16) || negb (c.(admission.WorkBits) =? 16) ||
          (c.(admission.AuthenticationTag) ==? zero32));
  let out := (c.(admission.Node) : bytes) ++ c.(admission.Network) in
  let out := AppendUint64 out c.(admission.Epoch) in
  let out := out ++ [byte_of (len c.(admission.Surface))] in
  let out := out ++ c.(admission.Surface) in
  let out := out ++ c.(admission.OperationDigest) in
  let out := out ++ c.(admission.IsolationBinding) in
  let out := AppendUint64 out (u64 c.(admission.IssuedAt)) in
  let out := AppendUint64 out (u64 c.(admission.ExpiresAt)) in
  let out := out ++ c.(admission.Nonce) in
  let out := out ++ [byte_of c.(admission.WorkBits)] in
  let out := out ++ c.(admission.AuthenticationTag) in
  Ok (AppendUint64 out proof.(admission.WorkNonce)).

Definition admissionFixed : Z := 32 + 32 + 8 + 1 + 32 + 32 + 8 + 8 + 16 + 1 + 32 + 8.

Definition malformedSurface : error := New "resolution admission surface is malformed".

(** The fields, read after the length check; [total] is the length of the
    input. *)
Definition admissionFields (total : Z) : decoder admission.Proof :=
  node ← take_array 32 malformedSurface;
  network ← take_array 32 malformedSurface;
  epoch ← take_uint 8 malformedSurface;
  surfaceSize ← take_uint 1 malformedSurface;
  if (surfaceSize =? 0) || negb (total =? admissionFixed + surfaceSize) then decode_fail malformedSurface
  else
    surface ← take_bytes surfaceSize malformedSurface;
    operation ← take_array 32 malformedSurface;
    isolation ← take_array 32 malformedSurface;
    issued ← take_uint 8 malformedSurface;
    expires ← take_uint 8 malformedSurface;
    nonce ← take_array 16 malformedSurface;
    workBits ← take_uint 1 malformedSurface;
    tag ← take_array 32 malformedSurface;
    work ← take_uint 8 malformedSurface;
    mret (admission.MkProof (admission.MkChallenge node network epoch surface operation isolation (i64 issued)
                               (i64 expires) nonce workBits tag) work).

Definition decodeAdmissionProof (raw : bytes) : result admission.Proof :=
  reject (New "resolution admission proof is truncated") when (len raw <? admissionFixed);
  '(proof, _) ← admissionFields (len raw) raw;
  match encodeAdmissionProof proof with
  | Err _ => Err (New "resolution admission proof is not canonical")
  | Ok canonical =>
      reject (New "resolution admission proof is not canonical") when (canonical !=? raw);
      Ok proof
  end.

Section Messages.
Context `{GoLib}.

Definition resolutionAdmissionDigest (network : array 32) (name : gostring) (deadline : Z) : result (array 32) :=
  parsed ← Parse name;
  wire ← EncodeWire parsed;
  let out := str "ardents-name-resolution-operation-v1" ++ [x00] in
  let out := out ++ network in
  let out := AppendUint64 out (u64 deadline) in
  let out := AppendUint16 out (u16 (len wire)) in
  Ok (sha256 (out ++ wire)).

Definition encodeRequest (value : resolutionRequest) : result bytes :=
  match Parse value.(rq_name) with
  | Err _ => Err (New "resolution request is invalid")
  | Ok name =>
      reject (New "resolution request is invalid")
        when ((value.(rq_network) ==? zero32) || (value.(rq_nonce) ==? zero32) || (value.(rq_deadline) <=? 0));
      match EncodeWire name with
      | Err _ => Err (New "resolution name encoding is invalid")
      | Ok wire =>
          reject (New "resolution name encoding is invalid") when (65535 <? len wire);
          let out := AppendUint16 [] messageSchema in
          let out := out ++ [resolveOperation] in
          let out := out ++ value.(rq_network) in
          let out := out ++ value.(rq_nonce) in
          let out := AppendUint64 out (u64 value.(rq_deadline)) in
          let out := AppendUint16 out (u16 (len wire)) in
          let out := out ++ wire in
          admission ← encodeAdmissionProof value.(rq_admission);
          let out := AppendUint16 out (u16 (len admission)) in
          Ok (out ++ admission)
      end
  end.

Definition requestSchemaError : error := New "resolution request schema is invalid".
Definition requestLengthError : error := New "resolution request length is invalid".
Definition requestNameError : error := New "resolution request name is non-canonical".
Definition requestProofError : error := New "resolution admission proof length is invalid".

(** The header of both messages after the schema and operation. *)
Definition messageHeader (e : error) : decoder (array 32 * array 32 * Z * Z) :=
  network ← take_array 32 e;
  nonce ← take_array 32 e;
  deadline ← take_uint 8 e;
  size ← take_uint 2 e;
  mret (network, nonce, i64 deadline, size).

(** The result of a call inside a decoder. *)
Definition lift {A} (r : result A) : decoder A := fun rest =>
  match r with Ok a => Ok (a, rest) | Err e => Err e end.

(** What precedes the admission proof; [total] is the length of the message. *)
Definition requestFields (total : Z) : decoder (array 32 * array 32 * Z * gostring) :=
  header ← messageHeader requestSchemaError;
  let '(network, nonce, deadline, size) := (header : array 32 * array 32 * Z * Z) in
  if (size =? 0) || (total <? 79 + size) then decode_fail requestLengthError
  else
    wire ← take_bytes size requestLengthError;
    name ← lift (DecodeWire wire);
    canonical ← or_error requestNameError (lift (EncodeWire name));
    if canonical !=? wire then decode_fail requestNameError
    else
      proofSize ← take_uint 2 requestLengthError;
      if (proofSize =? 0) || negb (total =? 79 + size + proofSize) then decode_fail requestProofError
      else mret (network, nonce, deadline, name).

Definition decodeRequest (raw : bytes) : result resolutionRequest :=
  reject requestSchemaError
    when ((len raw <? 77) || negb (be_val (take 2 raw) =? messageSchema) || (head (drop 2 raw) !=? Some resolveOperation));
  match requestFields (len raw) (drop 3 raw) with
  | Err e => Err e
  | Ok ((network, nonce, deadline, name), rest) =>
      admission ← decodeAdmissionProof rest;
      Ok (MkRequest network nonce deadline name admission)
  end.

(** The conditions on the result that both directions check. *)
Definition resultConsistent (value : resolutionResponse) : bool :=
  let resolved := bool_decide (value.(rs_result) = resultResolved) in
  Bool.eqb resolved (0 <? len value.(rs_proof)) &&
  Bool.eqb resolved ((0 <? value.(rs_generation)) && (0 <? value.(rs_revision))) &&
  (resolved || (value.(rs_result) ==? resultUnavailable)).

(** Where [Parse] fails the name is invalid whatever its wire form. *)
Definition encodeResponse (value : resolutionResponse) : result bytes :=
  let invalid := New "resolution response is invalid" in
  match Parse value.(rs_name) with
  | Err _ => Err invalid
  | Ok name =>
      match EncodeWire name with
      | Err _ => Err invalid
      | Ok nameWire =>
          reject invalid
            when ((value.(rs_network) ==? zero32) || (value.(rs_nonce) ==? zero32) || (value.(rs_deadline) <=? 0) ||
                  (65535 <? len value.(rs_proof)) || (65535 <? len nameWire) || negb (resultConsistent value));
          let out := AppendUint16 [] messageSchema in
          let out := out ++ [resolveOperation] in
          let out := out ++ value.(rs_network) in
          let out := out ++ value.(rs_nonce) in
          let out := AppendUint64 out (u64 value.(rs_deadline)) in
          let out := AppendUint16 out (u16 (len nameWire)) in
          let out := out ++ nameWire in
          let out := AppendUint64 out value.(rs_generation) in
          let out := AppendUint64 out value.(rs_revision) in
          let out := out ++ [value.(rs_result)] in
          let out := AppendUint16 out (u16 (len value.(rs_proof))) in
          Ok (out ++ value.(rs_proof))
      end
  end.

Definition responseSchemaError : error := New "resolution response schema is invalid".
Definition responseNameError : error := New "resolution response name is malformed".
Definition responseProofError : error := New "resolution response proof is malformed".

Definition responseFields (total : Z) : decoder resolutionResponse :=
  header ← messageHeader responseSchemaError;
  let '(network, nonce, deadline, nameSize) := (header : array 32 * array 32 * Z * Z) in
  if (nameSize =? 0) || (total <? 96 + nameSize) then decode_fail responseNameError
  else
    wire ← take_bytes nameSize responseNameError;
    name ← lift (DecodeWire wire);
    generation ← take_uint 8 responseNameError;
    revision ← take_uint 8 responseNameError;
    code ← take_uint 1 responseNameError;
    proofSize ← take_uint 2 responseNameError;
    proof ← take_bytes proofSize responseProofError;
    mret (MkResponse network nonce deadline name generation revision (byte_of code) proof).

Definition decodeResponse (raw : bytes) : result resolutionResponse :=
  reject responseSchemaError
    when ((len raw <? 97) || negb (be_val (take 2 raw) =? messageSchema) || (head (drop 2 raw) !=? Some resolveOperation));
  match responseFields (len raw) (drop 3 raw) with
  | Err e => Err e
  | Ok (value, rest) =>
      reject (New "resolution response is non-canonical") when ((rest !=? []) || negb (resultConsistent value));
      Ok value
  end.

Definition padMessage (raw : bytes) : result bytes :=
  reject (New "private resolution message exceeds fixed envelope")
    when ((len raw =? 0) || (fixedMessageSize - 2 <? len raw));
  Ok (be_bytes 2 (u16 (len raw)) ++ raw ++ replicate (Z.to_nat (fixedMessageSize - 2 - len raw)) x00).

Definition unpadMessage (raw : bytes) : result bytes :=
  reject (New "private resolution plaintext has wrong size") when (negb (len raw =? fixedMessageSize));
  let size := be_val (take 2 raw) in
  reject (New "private resolution plaintext length is invalid") when ((size =? 0) || (fixedMessageSize - 2 <? size));
  reject (New "private resolution padding is non-canonical")
    when (negb (forallb (fun value => value ==? x00) (drop (Z.to_nat (2 + size)) raw)));
  Ok (take (Z.to_nat size) (drop 2 raw)).

(** ** gateway_profile.go *)

Definition gatewayProfileDomain : gostring := str "ardents-naming-gateway-v1".

Definition gatewayProfileTranscript (profile : GatewayProfile) : bytes :=
  let out := AppendUint16 [] (len gatewayProfileDomain) in
  let out := out ++ gatewayProfileDomain in
  let out := out ++ profile.(profile_NetworkID) in
  let out := out ++ profile.(profile_NodeID) in
  let out := AppendUint64 out (u64 (UnixNano profile.(profile_AssignmentNotAfter))) in
  let out := AppendUint32 out (u32 (len profile.(KeyConfig))) in
  out ++ profile.(KeyConfig).

Definition signGatewayProfile (profile : GatewayProfile) (private : bytes) : bytes :=
  ed25519_Sign private (gatewayProfileTranscript profile).

Definition validGatewayProfile (profile : GatewayProfile) (public : array 32) : bool :=
  (len profile.(Signature) =? 64) && (profile.(KeyConfigDigest) ==? sha256 profile.(KeyConfig)) &&
  (0 <? len profile.(KeyConfig)) &&
  ed25519_Verify public (gatewayProfileTranscript profile) profile.(Signature).

(** ** selection.go *)

Definition literalEndpoint (endpoint : gostring) : bool :=
  match net.SplitHostPort endpoint with
  | None => false
  | Some (host, port) =>
      match net.Atoi port with
      | None => false
      | Some number => net.ParseIP host && (0 <? number) && (number <=? 65535)
      end
  end.

Definition findPosition (view : state.ResolutionView) (nodeID : array 32) (at_ deadline : Z) : option position :=
  match state.Candidate view nodeID at_ deadline with
  | None => None
  | Some c =>
      if literalEndpoint c.(state.candidate_Endpoint)
      then Some (MkPosition c.(state.candidate_NodeID) c.(state.candidate_PublicKey) c.(state.candidate_Family)
                   c.(state.candidate_Endpoint) c.(state.candidate_Domain) c.(state.candidate_AssignmentNotAfter))
      else None
  end.

(** The loop of [collides]; the maps are the identities and families seen. *)
Fixpoint collidesWith (identities : gset (array 32)) (families : gset gostring) (values : list position) : bool :=
  match values with
  | [] => false
  | value :: rest =>
      bool_decide (value.(NodeID) ∈ identities) || bool_decide (value.(Family) ∈ families) ||
      collidesWith ({[value.(NodeID)]} ∪ identities) ({[value.(Family)]} ∪ families) rest
  end.

Definition collides (values : list position) : bool := collidesWith ∅ ∅ values.

Definition excluded (input : Selection) (p : position) : bool :=
  bool_decide (p.(NodeID) ∈ input.(ExcludedIdentities)) || bool_decide (p.(Family) ∈ input.(ExcludedFamilies)).

(** Both [appendDistinctIdentities] and [appendDistinctFamilies]. *)
Fixpoint appendDistinct {A} `{EqDecision A} (existing values : list A) : list A :=
  match values with
  | [] => existing
  | value :: rest => appendDistinct (if bool_decide (value ∈ existing) then existing else existing ++ [value]) rest
  end.

Definition namespacePolicy (e : state.ResolutionEpoch) : epoch.MaterializationPolicy :=
  epoch.MkPolicy e.(state.epoch_NetworkID) (str "ardents-namespace-materialization-v1")
    (foldl (fun m a => <[a.(state.authority_ID) := (a.(state.authority_PublicKey) : bytes)]> m) ∅
       e.(state.epoch_Authorities))
    e.(state.epoch_Threshold).

Definition validRole (deadline : Z) (p : position) : bool :=
  (p.(NodeID) !=? zero32) && (p.(Family) !=? []) && literalEndpoint p.(Endpoint) &&
  negb (p.(AssignmentNotAfter) <? deadline).

Definition validatePlan (p : plan) : result unit :=
  let selectionAt := p.(SelectionAt) in
  let deadline := p.(plan_Deadline) in
  reject (New "private resolution Plan is invalid")
    when ((p.(NetworkID) ==? zero32) || (p.(Generation) ==? []) || (p.(Epoch) =? 0) || (p.(EpochDigest) ==? zero32) ||
          (p.(ViewRoot) ==? zero32) || (p.(SelectionAt) <=? 0) || negb (selectionAt <? deadline) ||
          (len p.(GatewayKeyConfig) =? 0) || (sha256 p.(GatewayKeyConfig) !=? p.(GatewayKeyConfigDigest)) ||
          (p.(Relay).(Domain) !=? initiatorDomain) || (p.(Gateway).(Domain) !=? rendezvousDomain) ||
          (p.(ConnectionRendezvous).(Domain) !=? rendezvousDomain) ||
          collides [p.(Relay); p.(Gateway); p.(ConnectionRendezvous)]);
  let challenge := p.(plan_AdmissionChallenge) in
  reject (New "private resolution admission Challenge is invalid")
    when ((challenge.(admission.Node) !=? p.(Gateway).(NodeID)) || (challenge.(admission.Network) !=? p.(NetworkID)) ||
          (challenge.(admission.Surface) !=? str "resolution") || negb (challenge.(admission.WorkBits) =? 16) ||
          (UnixMilli selectionAt <? challenge.(admission.IssuedAt)) ||
          (challenge.(admission.ExpiresAt) <? UnixMilli deadline));
  reject (New "private resolution Plan contains an invalid role")
    when (negb (forallb (validRole deadline) [p.(Relay); p.(Gateway); p.(ConnectionRendezvous)]));
  Ok tt.

Definition selectPlan (view : state.ResolutionView) (input : Selection) (profile : GatewayProfile) : result plan :=
  match state.View_Epoch view input.(At) input.(Deadline) with
  | None => Err (New "private resolution selection is invalid")
  | Some e =>
      reject (New "private resolution selection is invalid")
        when ((input.(ConnectionRendezvousNodeID) ==? zero32) ||
              (profile.(profile_NetworkID) !=? e.(state.epoch_NetworkID)) ||
              (profile.(profile_NodeID) !=? input.(GatewayNodeID)) ||
              (profile.(profile_AssignmentNotAfter) <? input.(Deadline)));
      match findPosition view input.(RelayNodeID) input.(At) input.(Deadline),
            findPosition view input.(GatewayNodeID) input.(At) input.(Deadline),
            findPosition view input.(ConnectionRendezvousNodeID) input.(At) input.(Deadline) with
      | Some relay, Some gateway, Some rendezvous =>
          reject (New "private resolution roles conflict or are unavailable")
            when (negb (validGatewayProfile profile gateway.(PublicKey)) ||
                  (relay.(Domain) !=? initiatorDomain) || (gateway.(Domain) !=? rendezvousDomain) ||
                  (rendezvous.(Domain) !=? rendezvousDomain) ||
                  negb (gateway.(AssignmentNotAfter) =? profile.(profile_AssignmentNotAfter)) ||
                  collides [relay; gateway; rendezvous] || excluded input relay || excluded input gateway ||
                  excluded input rendezvous);
          match namespace.OpenResolutionVerifier (namespacePolicy e) e.(state.epoch_Number) e.(state.epoch_Digest) with
          | Err _ => Err (New "private resolution Namespace trust root is invalid")
          | Ok verifier =>
              let p := MkPlan e.(state.epoch_NetworkID) e.(state.epoch_Generation) e.(state.epoch_Number)
                         e.(state.epoch_Digest) e.(state.epoch_ViewRoot) (UnixNano input.(At)) (UnixNano input.(Deadline))
                         relay gateway rendezvous profile.(KeyConfig) profile.(KeyConfigDigest)
                         (appendDistinct input.(ExcludedIdentities) [relay.(NodeID); gateway.(NodeID)])
                         (appendDistinct input.(ExcludedFamilies) [relay.(Family); gateway.(Family)])
                         input.(AdmissionChallenge) verifier in
              _ ← validatePlan p;
              Ok p
          end
      | _, _, _ => Err (New "private resolution roles conflict or are unavailable")
      end
  end.

(** ** control_selection.go *)

Definition controlSurface (surface : gostring) : bool :=
  (surface ==? str "renewal-update") || (surface ==? str "policy-recovery") || (surface ==? str "root-claim").

Definition selectControlPlan (view : state.ResolutionView) (input : Selection) (profile : GatewayProfile)
  : result controlPlan :=
  match state.View_Epoch view input.(At) input.(Deadline) with
  | None => Err (New "private naming control selection is invalid")
  | Some e =>
      reject (New "private naming control selection is invalid")
        when ((input.(ConnectionRendezvousNodeID) !=? zero32) ||
              (profile.(profile_NetworkID) !=? e.(state.epoch_NetworkID)) ||
              (profile.(profile_NodeID) !=? input.(GatewayNodeID)) ||
              (profile.(profile_AssignmentNotAfter) <? input.(Deadline)));
      match findPosition view input.(RelayNodeID) input.(At) input.(Deadline),
            findPosition view input.(GatewayNodeID) input.(At) input.(Deadline) with
      | Some relay, Some gateway =>
          reject (New "private naming control roles conflict or are unavailable")
            when (negb (validGatewayProfile profile gateway.(PublicKey)) ||
                  (relay.(Domain) !=? initiatorDomain) || (gateway.(Domain) !=? rendezvousDomain) ||
                  (relay.(NodeID) ==? gateway.(NodeID)) || (relay.(Family) ==? gateway.(Family)) ||
                  excluded input relay || excluded input gateway);
          let challenge := input.(AdmissionChallenge) in
          reject (New "private naming control admission is invalid")
            when ((challenge.(admission.Node) !=? gateway.(NodeID)) ||
                  (challenge.(admission.Network) !=? e.(state.epoch_NetworkID)) ||
                  negb (controlSurface challenge.(admission.Surface)) ||
                  (UnixMilli input.(At) <? challenge.(admission.IssuedAt)) ||
                  (challenge.(admission.ExpiresAt) <? UnixMilli input.(Deadline)));
          Ok (MkControlPlan e.(state.epoch_NetworkID) (UnixNano input.(At)) (UnixNano input.(Deadline)) relay gateway
                profile.(KeyConfig) challenge)
      | _, _ => Err (New "private naming control roles conflict or are unavailable")
      end
  end.

End Messages.

(** ** control_message.go *)

Definition controlSchema : gostring := str "ardents-private-name-control-v2".

(** admission.Proof as JSON: untagged fields. *)
Definition zeroChallenge : admission.Challenge :=
  admission.MkChallenge zero32 zero32 0 [] zero32 zero32 0 0 (zero 16) 0 zero32.

Definition challengeFields : list (field admission.Challenge) := [
  claimwire.required "Node" (array_ 32) admission.Node (fun v c => c <| admission.Node := v |>);
  claimwire.required "Network" (array_ 32) admission.Network (fun v c => c <| admission.Network := v |>);
  claimwire.required "Epoch" uint64 admission.Epoch (fun v c => c <| admission.Epoch := v |>);
  claimwire.required "Surface" text admission.Surface (fun v c => c <| admission.Surface := v |>);
  claimwire.required "OperationDigest" (array_ 32) admission.OperationDigest
    (fun v c => c <| admission.OperationDigest := v |>);
  claimwire.required "IsolationBinding" (array_ 32) admission.IsolationBinding
    (fun v c => c <| admission.IsolationBinding := v |>);
  claimwire.required "IssuedAt" int64 admission.IssuedAt (fun v c => c <| admission.IssuedAt := v |>);
  claimwire.required "ExpiresAt" int64 admission.ExpiresAt (fun v c => c <| admission.ExpiresAt := v |>);
  claimwire.required "Nonce" (array_ 16) admission.Nonce (fun v c => c <| admission.Nonce := v |>);
  claimwire.required "WorkBits" uint8 admission.WorkBits (fun v c => c <| admission.WorkBits := v |>);
  claimwire.required "AuthenticationTag" (array_ 32) admission.AuthenticationTag
    (fun v c => c <| admission.AuthenticationTag := v |>)].

#[global] Instance eta_proof : Eta admission.Proof := fun p =>
  admission.MkProof p.(admission.proof_Challenge) p.(admission.WorkNonce).

Definition proofCodec : codec admission.Proof :=
  struct (admission.MkProof zeroChallenge 0) [
    claimwire.required "Challenge" (struct zeroChallenge challengeFields) admission.proof_Challenge
      (fun v p => p <| admission.proof_Challenge := v |>);
    claimwire.required "WorkNonce" uint64 admission.WorkNonce (fun v p => p <| admission.WorkNonce := v |>)].

(** The operation is a [json.RawMessage]: its own bytes.  [OpenSubmission] takes
    only the printed form of an operation and the request is refused with the same
    error otherwise, so the parser reads no other JSON value. *)
Definition rawOperation : codec bytes :=
  Codec id (fun raw =>
    match authority.operationCodec.(parse) raw with
    | None => None
    | Some (_, rest) => Some (take (length raw - length rest) raw, rest)
    end).

Record controlRequestWire := MkRequestWire {
  cq_Schema : gostring;
  cq_Network : array 32;
  cq_Nonce : array 32;
  cq_Deadline : Z;
  cq_Operation : bytes;
  cq_Admission : admission.Proof
}.
#[global] Instance eta_requestWire : Eta controlRequestWire := fun w =>
  MkRequestWire w.(cq_Schema) w.(cq_Network) w.(cq_Nonce) w.(cq_Deadline) w.(cq_Operation) w.(cq_Admission).

Definition requestCodec : codec controlRequestWire :=
  struct (MkRequestWire [] zero32 zero32 0 [] (admission.MkProof zeroChallenge 0)) [
    claimwire.required "schema" text cq_Schema (fun v w => w <| cq_Schema := v |>);
    claimwire.required "network" (array_ 32) cq_Network (fun v w => w <| cq_Network := v |>);
    claimwire.required "nonce" (array_ 32) cq_Nonce (fun v w => w <| cq_Nonce := v |>);
    claimwire.required "deadline" int64 cq_Deadline (fun v w => w <| cq_Deadline := v |>);
    claimwire.required "operation" rawOperation cq_Operation (fun v w => w <| cq_Operation := v |>);
    claimwire.required "admission" proofCodec cq_Admission (fun v w => w <| cq_Admission := v |>)].

(** [controlResult] is its class. *)
Record controlResponseWire := MkResponseWire {
  cr_Schema : gostring;
  cr_Network : array 32;
  cr_Nonce : array 32;
  cr_Deadline : Z;
  cr_OperationDigest : array 32;
  cr_Result : gostring
}.
#[global] Instance eta_responseWire : Eta controlResponseWire := fun w =>
  MkResponseWire w.(cr_Schema) w.(cr_Network) w.(cr_Nonce) w.(cr_Deadline) w.(cr_OperationDigest) w.(cr_Result).

Definition resultCodec : codec gostring := struct [] [claimwire.required "class" text id (fun v _ => v)].

Definition responseCodec : codec controlResponseWire :=
  struct (MkResponseWire [] zero32 zero32 0 zero32 []) [
    claimwire.required "schema" text cr_Schema (fun v w => w <| cr_Schema := v |>);
    claimwire.required "network" (array_ 32) cr_Network (fun v w => w <| cr_Network := v |>);
    claimwire.required "nonce" (array_ 32) cr_Nonce (fun v w => w <| cr_Nonce := v |>);
    claimwire.required "deadline" int64 cr_Deadline (fun v w => w <| cr_Deadline := v |>);
    claimwire.required "operation_digest" (array_ 32) cr_OperationDigest (fun v w => w <| cr_OperationDigest := v |>);
    claimwire.required "result" resultCodec cr_Result (fun v w => w <| cr_Result := v |>)].

Record controlBinding := MkControlBinding { cb_network : array 32; cb_nonce : array 32; cb_deadline : Z }.

Record controlRequestValue := MkControlRequest {
  cv_submission : authority.Submission;
  cv_binding : controlBinding;
  cv_admission : admission.Proof
}.

Definition validControlResult (class : gostring) : bool := (class ==? str "submitted") || (class ==? str "denied").

Section Control.
Context `{GoLib}.

Definition controlRequest (submission : authority.Submission) (binding : controlBinding) (proof : admission.Proof)
  : result bytes :=
  reject (New "private naming control request is invalid")
    when ((binding.(cb_network) ==? zero32) || (binding.(cb_nonce) ==? zero32) || (binding.(cb_deadline) <=? 0) ||
          (submission.(authority.digest) ==? zero32) ||
          (proof.(admission.proof_Challenge).(admission.OperationDigest) !=? submission.(authority.digest)));
  padMessage (Marshal requestCodec
    (MkRequestWire controlSchema binding.(cb_network) binding.(cb_nonce) binding.(cb_deadline)
       submission.(authority.raw) proof)).

Definition decodeControlRequest (raw : bytes) : result controlRequestValue :=
  payload ← unpadMessage raw;
  match decodeCanonical requestCodec payload with
  | None => Err (New "private naming control request is invalid")
  | Some wire =>
      reject (New "private naming control request is invalid")
        when ((wire.(cq_Schema) !=? controlSchema) || (wire.(cq_Network) ==? zero32) || (wire.(cq_Nonce) ==? zero32) ||
              (wire.(cq_Deadline) <=? 0));
      match authority.OpenSubmission wire.(cq_Operation) with
      | Err _ => Err (New "private naming control request is invalid")
      | Ok submission =>
          Ok (MkControlRequest submission (MkControlBinding wire.(cq_Network) wire.(cq_Nonce) wire.(cq_Deadline))
                wire.(cq_Admission))
      end
  end.

Definition controlResponse (binding : controlBinding) (digest : array 32) (class : gostring) : result bytes :=
  reject (New "private naming control result is invalid")
    when ((binding.(cb_network) ==? zero32) || (binding.(cb_nonce) ==? zero32) || (binding.(cb_deadline) <=? 0) ||
          (digest ==? zero32) || negb (validControlResult class));
  padMessage (Marshal responseCodec
    (MkResponseWire controlSchema binding.(cb_network) binding.(cb_nonce) binding.(cb_deadline) digest class)).

Definition decodeControlResponse (raw : bytes) : result controlResponseWire :=
  payload ← unpadMessage raw;
  match decodeCanonical responseCodec payload with
  | None => Err (New "private naming control response is invalid")
  | Some wire =>
      reject (New "private naming control response is invalid")
        when ((wire.(cr_Schema) !=? controlSchema) || (wire.(cr_Network) ==? zero32) || (wire.(cr_Nonce) ==? zero32) ||
              (wire.(cr_Deadline) <=? 0) || (wire.(cr_OperationDigest) ==? zero32) ||
              negb (validControlResult wire.(cr_Result)));
      Ok wire
  end.

End Control.

(** ** gateway.go and control_gateway.go *)

(** The control port of a Gateway ([controlAuthority]): what one submission does
    to the state behind it, and its class. *)
Class controlAuthority (A : Type) := Submit : A -> authority.Submission -> admission.Proof -> A * gostring.

(** The decapsulated request; the body is [None] where reading it fails. *)
Record httpRequest := MkHttp { Method : gostring; Path : gostring; Body : option bytes }.

(** [io.ReadAll(io.LimitReader(body, limit))] *)
Definition readLimited (limit : Z) (body : option bytes) : option bytes := take (Z.to_nat limit) <$> body.

Record gateway (A : Type) := MkGatewayState {
  config_NodeID : array 32;
  config_AssignmentNotAfter : Z;
  MaximumPending : Z;
  view : namespace.ResolutionGateway;
  port : option A;
  profile : GatewayProfile;
  seen : gmap (array 32) Z;
  observation : gatewayObservation;
  roleEvidence : list gatewayRoleEvidence
}.
Arguments MkGatewayState {A}.
Arguments config_NodeID {A}.
Arguments config_AssignmentNotAfter {A}.
Arguments MaximumPending {A}.
Arguments view {A}.
Arguments port {A}.
Arguments profile {A}.
Arguments seen {A}.
Arguments observation {A}.
Arguments roleEvidence {A}.

#[global] Instance eta_gatewayState {A} : Eta (gateway A) := fun g =>
  MkGatewayState g.(config_NodeID) g.(config_AssignmentNotAfter) g.(MaximumPending) g.(view) g.(port) g.(profile)
    g.(seen) g.(observation) g.(roleEvidence).

Section Gateway.
Context `{GoLib}.
Context {A : Type} `{controlAuthority A}.

(** BindGatewayState (gateway_state.go). *)
Definition BindGatewayState (v : option namespace.ResolutionGateway) (port : option A)
  : result (namespace.ResolutionGateway * option A) :=
  match v with
  | None => Err (New "naming Gateway state is invalid")
  | Some v' =>
      reject (New "naming Gateway state is invalid") when (namespace.Network v ==? zero32);
      Ok (v', port)
  end.

(** The freshly generated key configuration is an argument, [None] where its
    generation fails. *)
Definition NewGateway (nodeID : array 32) (family domain : gostring) (notAfter maximumPending : Z) (identityKey : bytes)
  (clock : bool) (state : option namespace.ResolutionGateway * option A) (keyConfig : result bytes) : result (gateway A) :=
  let invalid := New "naming Gateway role is invalid" in
  match state.1 with
  | None => Err invalid
  | Some v =>
      reject invalid
        when ((nodeID ==? zero32) || (family ==? []) || (domain !=? rendezvousDomain) || IsZero notAfter ||
              (maximumPending =? 0) || negb clock || negb (len identityKey =? 64) ||
              (namespace.Network (Some v) ==? zero32) || negb (namespace.AcceptsGateway (Some v) nodeID));
      configBytes ← keyConfig;
      let unsigned := MkProfile (namespace.Network (Some v)) nodeID configBytes (sha256 configBytes) notAfter [] in
      let signed := MkProfile (namespace.Network (Some v)) nodeID configBytes (sha256 configBytes) notAfter
                      (signGatewayProfile unsigned identityKey) in
      Ok (MkGatewayState nodeID notAfter maximumPending v state.2 signed ∅ (MkObservation 0 0 0) [])
  end.

Definition rejection : bytes := replicate (Z.to_nat fixedMessageSize) x00.

Definition rejectRequest (g : gateway A) : gateway A * bytes :=
  (g <| observation := g.(observation) <| Rejected := u32 (g.(observation).(Rejected) + 1) |> |>, rejection).

(** The nonces whose deadline has not passed. *)
Definition live (now : Z) (m : gmap (array 32) Z) : gmap (array 32) Z :=
  filter (fun '(_, expiry) => UnixNano now < expiry) m.

Definition acceptNonce (g : gateway A) (nonce : array 32) (deadline now : Z) : gateway A * bool :=
  if nonce ==? zero32 then (g, false)
  else
    let g := g <| seen := live now g.(seen) |> in
    if bool_decide (is_Some (g.(seen) !! nonce)) || (g.(MaximumPending) <=? Z.of_nat (size g.(seen))) then (g, false)
    else (g <| seen := <[nonce := deadline]> g.(seen) |>, true).

(** The window both handlers demand of a deadline. *)
Definition inWindow (deadline now : Z) : bool :=
  negb (deadline <=? UnixNano now) && negb (UnixNano (Add now (15 * Second)) <? deadline).

Definition resolvedEvidence (query : resolutionRequest) (found : option (bytes * recordcodec.Binding)) : gatewayRoleEvidence :=
  match found with
  | None =>
      MkGatewayEvidence "resolve" query.(rq_name) query.(rq_network) query.(rq_nonce) zero32 query.(rq_deadline)
        resolutionUnavailableClass 0 0
  | Some (_, b) =>
      MkGatewayEvidence "resolve" query.(rq_name) query.(rq_network) query.(rq_nonce) b.(recordcodec.bound_Target)
        query.(rq_deadline) resolvedClass b.(recordcodec.bound_Generation) b.(recordcodec.bound_Revision)
  end.

Definition responseTo (query : resolutionRequest) (found : option (bytes * recordcodec.Binding)) : resolutionResponse :=
  match found with
  | None =>
      MkResponse query.(rq_network) query.(rq_nonce) query.(rq_deadline) query.(rq_name) 0 0 resultUnavailable []
  | Some (proof, b) =>
      MkResponse query.(rq_network) query.(rq_nonce) query.(rq_deadline) query.(rq_name)
        b.(recordcodec.bound_Generation) b.(recordcodec.bound_Revision) resultResolved proof
  end.

Definition observe (g : gateway A) (found : bool) (role : gatewayRoleEvidence) : gateway A :=
  let o := g.(observation) in
  g <| observation := MkObservation (u32 (o.(Requests) + 1)) (if found then u32 (o.(Resolved) + 1) else o.(Resolved))
                        (if found then o.(Rejected) else u32 (o.(Rejected) + 1)) |>
    <| roleEvidence := g.(roleEvidence) ++ [role] |>.

(** What [resolve] does with a decoded request: the admission proof is consumed
    before the other checks. *)
Definition answer (g : gateway A) (query : resolutionRequest) (now : Z) : gateway A * bytes :=
  let '(v, admitted) :=
    match resolutionAdmissionDigest query.(rq_network) query.(rq_name) query.(rq_deadline) with
    | Err _ => (g.(view), false)
    | Ok digest => namespace.AdmitResolution g.(view) (UnixMilli now) g.(config_NodeID) digest query.(rq_admission)
    end in
  let g := g <| view := v |> in
  if (query.(rq_network) !=? namespace.Network (Some g.(view))) || negb (inWindow query.(rq_deadline) now) || negb admitted
  then rejectRequest g
  else
    let '(g, fresh) := acceptNonce g query.(rq_nonce) query.(rq_deadline) now in
    if negb fresh then rejectRequest g
    else
      let found := namespace.LookupBinding g.(view) query.(rq_name) (UnixMilli now) in
      match encodeResponse (responseTo query found) ≫= padMessage with
      | Err _ => rejectRequest g
      | Ok response =>
          (observe g (match found with Some _ => true | None => false end) (resolvedEvidence query found), response)
      end.

(** A request that does not decode is the zero request, whose name has no
    admission digest: nothing is consumed. *)
Definition resolve (g : gateway A) (request : httpRequest) (now : Z) : gateway A * bytes :=
  if (request.(Method) !=? str "POST") || (request.(Path) !=? str "/resolve") then rejectRequest g
  else
    match readLimited (fixedMessageSize + 1) request.(Body) with
    | None => rejectRequest g
    | Some fixed =>
        match unpadMessage fixed with
        | Err _ => rejectRequest g
        | Ok payload =>
            match decodeRequest payload with
            | Err _ => rejectRequest g
            | Ok query => answer g query now
            end
        end
    end.

Definition control (g : gateway A) (request : httpRequest) (now : Z) : gateway A * bytes :=
  match g.(port) with
  | None => rejectRequest g
  | Some a =>
      if request.(Method) !=? str "POST" then rejectRequest g
      else
        match readLimited (fixedMessageSize + 1) request.(Body) with
        | None => rejectRequest g
        | Some fixed =>
            match decodeControlRequest fixed with
            | Err _ => rejectRequest g
            | Ok value =>
                let challenge := value.(cv_admission).(admission.proof_Challenge) in
                let binding := value.(cv_binding) in
                let digest := value.(cv_submission).(authority.digest) in
                if (binding.(cb_network) !=? namespace.Network (Some g.(view))) ||
                   negb (inWindow binding.(cb_deadline) now) ||
                   (challenge.(admission.Node) !=? g.(config_NodeID)) ||
                   (challenge.(admission.Network) !=? binding.(cb_network)) ||
                   (challenge.(admission.OperationDigest) !=? digest)
                then rejectRequest g
                else
                  let '(g, fresh) := acceptNonce g binding.(cb_nonce) binding.(cb_deadline) now in
                  if negb fresh then rejectRequest g
                  else
                    let '(a, class) := Submit a value.(cv_submission) value.(cv_admission) in
                    let g := g <| port := Some a |> in
                    let class := if class ==? str "submitted" then str "submitted" else str "denied" in
                    match controlResponse binding digest class with
                    | Err _ => rejectRequest g
                    | Ok response => (g, response)
                    end
            end
        end
  end.

Definition serve (g : gateway A) (request : httpRequest) (now : Z) : gateway A * bytes :=
  if request.(Path) ==? str "/control" then control g request now else resolve g request now.

(** The handler around the OHTTP middleware; [None] is the answer 503. *)
Definition handler (g : gateway A) (request : httpRequest) (arrival now : Z) : gateway A * option bytes :=
  if negb (arrival <? g.(config_AssignmentNotAfter)) then (g, None)
  else let '(g, response) := serve g request now in (g, Some response).

End Gateway.

(** The durable Name Authority control behind the port, with the reading of its
    clock and the name its next journal entry is staged under. *)
Record durableControl := MkDurable { dc_control : authority.control; dc_clock : Z; dc_stage : gostring; dc_log : list disk.action }.

#[global] Instance durable_authority `{GoLib} : controlAuthority durableControl := fun c submission proof =>
  let '(acts, control, class) := authority.Submit c.(dc_control) submission proof c.(dc_clock) c.(dc_stage) in
  (MkDurable control c.(dc_clock) c.(dc_stage) (c.(dc_log) ++ acts), class).

(** ** resolver.go *)

(** What came back from sending a plaintext request through OHTTP. *)
Inductive exchanged :=
| NotEncapsulated
| NotDelivered
| NotDecapsulated
| Received (body : option bytes).

Record resolver := MkResolver { resolver_plan : plan; used : bool; evidence : resolverRoleEvidence }.
#[global] Instance eta_resolver : Eta resolver := fun r => MkResolver r.(resolver_plan) r.(used) r.(evidence).

(** The result of [Resolve]: a binding with its warning, or an error and its
    class. *)
Inductive outcome :=
| ResolvedTo (warning : string) (binding : recordcodec.Binding)
| Failed (class : string).

Section Resolver.
Context `{GoLib}.

(** [validKey] tells whether the OHTTP package reads the key configuration and
    builds a transport from it. *)
Definition Open (view : state.ResolutionView) (selection : Selection) (profile : GatewayProfile) (isolation : array 32)
  (base : bool) (validKey : bytes -> bool) : result resolver :=
  match selectPlan view selection profile with
  | Err _ => Err (New "private resolution client configuration is invalid")
  | Ok p =>
      reject (New "private resolution client configuration is invalid") when ((isolation ==? zero32) || negb base);
      reject (New "private resolution admission does not bind the Isolation Context")
        when (negb (admission.BindsIsolation p.(plan_AdmissionChallenge) isolation));
      reject (New "private resolution Gateway key is invalid") when (negb (validKey p.(GatewayKeyConfig)));
      Ok (MkResolver p false
            (MkResolverEvidence "resolve" [] isolation p.(NetworkID) zero32 zero32 p.(Relay).(NodeID)
               p.(Gateway).(NodeID) p.(ConnectionRendezvous).(NodeID) p.(plan_Deadline) "" 0 0))
  end.

Definition OpenEvidence (snapshot : state.Snapshot) (selection : Selection) (profile : GatewayProfile)
  (isolation : array 32) (base : bool) (validKey : bytes -> bool) : result resolver :=
  match state.Resolution snapshot with
  | Err _ => Err (New "private resolution evidence State view is invalid")
  | Ok view => Open view selection profile isolation base validKey
  end.

Definition failure (r : resolver) (class : string) : resolver * outcome :=
  (r <| evidence := r.(evidence) <| re_Result := class |> |>, Failed class).

(** The part after the reply was read. *)
Definition accept (r : resolver) (serviceName : gostring) (at_ : Z) (nonce : array 32) (fixed : bytes)
  : resolver * outcome :=
  let p := r.(resolver_plan) in
  match unpadMessage fixed ≫= decodeResponse with
  | Err _ => failure r invalidEvidenceClass
  | Ok response =>
      if (response.(rs_network) !=? p.(NetworkID)) || (response.(rs_nonce) !=? nonce) ||
         negb (response.(rs_deadline) =? p.(plan_Deadline)) || (response.(rs_name) !=? serviceName)
      then failure r invalidEvidenceClass
      else if response.(rs_result) !=? resultResolved then failure r resolutionUnavailableClass
      else
        match namespace.Verify (Some p.(NamespaceVerifier)) response.(rs_proof) (UnixMilli at_) with
        | Err _ => failure r invalidEvidenceClass
        | Ok (binding, warning) =>
            if binding.(recordcodec.bound_Name) !=? serviceName then failure r invalidEvidenceClass
            else if negb (binding.(recordcodec.bound_Generation) =? response.(rs_generation)) ||
                    negb (binding.(recordcodec.bound_Revision) =? response.(rs_revision))
            then failure r invalidEvidenceClass
            else
              (r <| evidence := r.(evidence) <| re_Result := resolvedClass |>
                      <| re_Target := binding.(recordcodec.bound_Target) |>
                      <| re_Generation := binding.(recordcodec.bound_Generation) |>
                      <| re_Revision := binding.(recordcodec.bound_Revision) |> |>,
               ResolvedTo warning binding)
        end
  end.

(** [nonce] is what the random source returned, [None] where it fails; [fuel]
    bounds the search of [Solve], and the result is [None] where it is too
    small. *)
Definition Resolve (fuel : nat) (r : resolver) (ctx : bool) (serviceName : gostring) (at_ : Z) (nonce : option (array 32))
  (transport : httpRequest -> exchanged) : option (resolver * outcome) :=
  if r.(used) then Some (failure r policyDenialClass)
  else
    let r := r <| used := true |> in
    let p := r.(resolver_plan) in
    if negb ctx || IsZero at_ || negb (UnixNano at_ =? p.(SelectionAt)) then Some (failure r policyDenialClass)
    else
      match nonce with
      | None => Some (failure r resolutionUnavailableClass)
      | Some nonce =>
          let r := r <| evidence := r.(evidence) <| re_Name := serviceName |> <| re_Nonce := nonce |> |> in
          match resolutionAdmissionDigest p.(NetworkID) serviceName p.(plan_Deadline) with
          | Err _ => Some (failure r policyDenialClass)
          | Ok digest =>
              if digest !=? p.(plan_AdmissionChallenge).(admission.OperationDigest)
              then Some (failure r policyDenialClass)
              else
                match admission.Solve fuel p.(plan_AdmissionChallenge) with
                | None => None
                | Some (proof, _) =>
                    match encodeRequest (MkRequest p.(NetworkID) nonce p.(plan_Deadline) serviceName proof) ≫= padMessage with
                    | Err _ => Some (failure r policyDenialClass)
                    | Ok payload =>
                        Some match transport (MkHttp (str "POST") (str "/resolve") (Some payload)) with
                             | NotEncapsulated | NotDelivered => failure r resolutionUnavailableClass
                             | NotDecapsulated => failure r invalidEvidenceClass
                             | Received body =>
                                 match readLimited (fixedMessageSize + 1) body with
                                 | None => failure r invalidEvidenceClass
                                 | Some fixed => accept r serviceName at_ nonce fixed
                                 end
                             end
                    end
                end
          end
      end.

Definition ConnectionExclusions (r : resolver) : list (array 32) * list gostring * array 32 :=
  (r.(resolver_plan).(plan_ExcludedIdentities), r.(resolver_plan).(plan_ExcludedFamilies),
   r.(resolver_plan).(ConnectionRendezvous).(NodeID)).

(** ** control_client.go *)

Record controlClient := MkControlClient { client_plan : controlPlan; client_used : bool }.

Definition OpenControl (view : state.ResolutionView) (selection : Selection) (profile : GatewayProfile)
  (isolation : array 32) (base : bool) (validKey : bytes -> bool) : result controlClient :=
  match selectControlPlan view selection profile with
  | Err _ => Err (New "private naming control configuration is invalid")
  | Ok p =>
      reject (New "private naming control configuration is invalid")
        when (negb base || (isolation ==? zero32) || negb (admission.BindsIsolation selection.(AdmissionChallenge) isolation));
      reject (New "private naming control Gateway key is invalid") when (negb (validKey p.(control_GatewayKeyConfig)));
      Ok (MkControlClient p false)
  end.

Definition OpenControlEvidence (snapshot : state.Snapshot) (selection : Selection) (profile : GatewayProfile)
  (isolation : array 32) (base : bool) (validKey : bytes -> bool) : result controlClient :=
  match state.Resolution snapshot with
  | Err _ => Err (New "private naming control evidence State view is invalid")
  | Ok view => OpenControl view selection profile isolation base validKey
  end.

(** The class is empty where the call returns no result. *)
Definition Execute (fuel : nat) (client : controlClient) (ctx : bool) (raw : bytes) (at_ : Z) (nonce : result (array 32))
  (transport : httpRequest -> exchanged) : option (controlClient * (gostring * option error)) :=
  let p := client.(client_plan) in
  let used := MkControlClient p true in
  let fail (e : error) := (used, ([] : gostring, Some e)) in
  if client.(client_used) || negb ctx || IsZero at_ || negb (UnixNano at_ =? p.(control_SelectionAt))
  then Some (fail (New "private naming control input is invalid"))
  else
    match authority.OpenSubmission raw with
    | Err e => Some (fail e)
    | Ok submission =>
        let challenge := p.(control_AdmissionChallenge) in
        if submission.(authority.digest) !=? challenge.(admission.OperationDigest)
        then Some (fail (New "private naming control admission does not bind the operation"))
        else
          match nonce with
          | Err e => Some (fail e)
          | Ok nonce =>
              let binding := MkControlBinding p.(control_NetworkID) nonce p.(control_Deadline) in
              match admission.Solve fuel challenge with
              | None => None
              | Some (proof, _) =>
                  match controlRequest submission binding proof with
                  | Err e => Some (fail e)
                  | Ok payload =>
                      Some match transport (MkHttp (str "POST") (str "/control") (Some payload)) with
                           | NotEncapsulated | NotDelivered => fail (New "private naming control is unavailable")
                           | NotDecapsulated => fail (New "private naming control evidence is invalid")
                           | Received body =>
                               match readLimited (fixedMessageSize + 1) body with
                               | None => fail (New "private naming control evidence is invalid")
                               | Some responseRaw =>
                                   match decodeControlResponse responseRaw with
                                   | Err _ => fail (New "private naming control response binding is invalid")
                                   | Ok response =>
                                       if (response.(cr_Network) !=? binding.(cb_network)) ||
                                          (response.(cr_Nonce) !=? binding.(cb_nonce)) ||
                                          negb (response.(cr_Deadline) =? binding.(cb_deadline)) ||
                                          (response.(cr_OperationDigest) !=? submission.(authority.digest))
                                       then fail (New "private naming control response binding is invalid")
                                       else if response.(cr_Result) !=? str "submitted"
                                       then (used, (response.(cr_Result), Some (New "private naming control was denied")))
                                       else (used, (response.(cr_Result), None))
                                   end
                               end
                           end
                  end
              end
          end
    end.

(** ** relay.go *)

Definition maxOHTTPEnvelope : Z := 8 * 2 ^ 10.

Record relay := MkRelay {
  relay_gateway : gostring;
  relay_observation : relayObservation;
  relay_evidence : list relayRoleEvidence
}.

(** The scheme and host that net/url reads from the URL are arguments. *)
Definition NewRelay (gatewayURL : gostring) (parsed : option (gostring * gostring)) (client : bool) : result relay :=
  match parsed with
  | None => Err (New "private resolution Relay requires one HTTPS Gateway")
  | Some (scheme, host) =>
      reject (New "private resolution Relay requires one HTTPS Gateway")
        when ((scheme !=? str "https") || (host ==? []) || negb client);
      Ok (MkRelay gatewayURL (MkRelayObservation 0 0 0) [])
  end.

(** The outer request of a client and the answer of the Gateway's server: status,
    content type and body. *)
Record outerRequest := MkOuter {
  outer_Method : gostring;
  outer_Path : gostring;
  ContentType : gostring;
  outer_Body : option bytes;
  RemoteAddr : gostring;
  outer_Deadline : Z
}.

Inductive relayed :=
| RelayError (status : Z)
| Forwarded (status : Z) (contentType : gostring) (body : bytes).

Definition validEnvelope (body : option bytes) : option bytes :=
  match readLimited (maxOHTTPEnvelope + 1) body with
  | None => None
  | Some b => if (len b =? 0) || (maxOHTTPEnvelope <? len b) then None else Some b
  end.

(** [send] posts the opaque body to the relay's Gateway; [None] is a transport
    error.  The media type is a constant of the OHTTP package. *)
Definition forward (ohttpRequestType : gostring) (r : relay) (request : outerRequest) (send : bytes -> option (Z * gostring * option bytes))
  : relay * relayed :=
  if (request.(outer_Method) !=? str "POST") || (request.(outer_Path) !=? str "/ohttp") ||
     (request.(ContentType) !=? ohttpRequestType)
  then (r, RelayError 400)
  else
    match validEnvelope request.(outer_Body) with
    | None => (r, RelayError 400)
    | Some body =>
        match send body with
        | None => (r, RelayError 502)
        | Some (status, contentType, response) =>
            match validEnvelope response with
            | None => (r, RelayError 502)
            | Some responseBody =>
                let o := r.(relay_observation) in
                (MkRelay r.(relay_gateway)
                   (MkRelayObservation (u32 (o.(relay_Requests) + 1)) (u64 (o.(RequestBytes) + len body))
                      (u64 (o.(ResponseBytes) + len responseBody)))
                   (r.(relay_evidence) ++
                    [MkRelayEvidence request.(RemoteAddr) r.(relay_gateway) (sha256 body) (sha256 responseBody)
                       (len body) (len responseBody) (default x00 (head body)) request.(outer_Deadline)]),
                 Forwarded status contentType responseBody)
            end
        end
    end.

End Resolver.
End resolution.
