(* ===== verification/ResolutionProof.v ===== *)
(** * Private name resolution: the messages and the Gateway

    The envelope and the two messages of a lookup are read back exactly, every
    answer of a Gateway has the size of every other, and a nonce is accepted once
    until its deadline. *)

From S2P Require Import Prelude Wire GoLib GoTime Json Naming RecordCodec Admission Authority StateView NamespaceView Resolution.

Import resolution.

(** ** The fixed envelope *)

Lemma take_two v (l : bytes) : take 2 (be_bytes 2 v ++ l) = be_bytes 2 v.
Proof. by rewrite take_app_length'. Qed.

Lemma drop_two v (l : bytes) : drop 2 (be_bytes 2 v ++ l) = l.
Proof. by rewrite drop_app_length'. Qed.

Lemma be_val_two v : 0 <= v < 2 ^ 16 -> be_val (be_bytes 2 v) = v.
Proof. intros Hv. rewrite be_val_bytes. by apply Z.mod_small. Qed.

Lemma padMessage_ok m raw :
  padMessage m = Ok raw <->
  0 < len m <= fixedMessageSize - 2 /\
  raw = be_bytes 2 (len m) ++ m ++ replicate (Z.to_nat (fixedMessageSize - 2 - len m)) x00.
Proof.
  unfold padMessage. pose proof (len_nonneg m). unfold fixedMessageSize in *. split.
  - destruct (_ || _) eqn:E; [done|]. intros [= <-]. goprop. unfold u16. rewrite Z.mod_small by lia. split; [lia|done].
  - intros [Hm ->]. rewrite (proj2 (Z.eqb_neq _ _)), (proj2 (Z.ltb_ge _ _)) by lia. cbn [orb].
    unfold u16. by rewrite Z.mod_small by lia.
Qed.

Lemma padMessage_length m raw : padMessage m = Ok raw -> len raw = fixedMessageSize.
Proof.
  intros [Hm ->]%padMessage_ok. autorewrite with len. unfold len in *. rewrite length_replicate.
  unfold fixedMessageSize in *. lia.
Qed.

Lemma zeros_replicate (l : bytes) : forallb (fun v => v ==? x00) l = true -> l = replicate (length l) x00.
Proof.
  induction l as [|c l IH]; [done|]. cbn [forallb length replicate]. intros [Hc Hl]%andb_true_iff.
  apply bool_decide_eq_true in Hc as ->. by rewrite <- IH.
Qed.

Lemma forallb_zeros n : forallb (fun v => v ==? x00) (replicate n x00) = true.
Proof. induction n; [done|]. cbn [forallb replicate]. by rewrite IHn. Qed.

Lemma unpadMessage_padMessage m raw : padMessage m = Ok raw -> unpadMessage raw = Ok m.
Proof.
  intros Hp. pose proof (padMessage_length _ _ Hp) as Hl. apply padMessage_ok in Hp as [Hm ->].
  unfold unpadMessage. rewrite Hl, take_two, be_val_two by (unfold fixedMessageSize in *; lia).
  rewrite Z.eqb_refl, (proj2 (Z.eqb_neq _ _)), (proj2 (Z.ltb_ge _ _)) by lia. cbn [negb orb].
  replace (Z.to_nat (2 + len m)) with (2 + length m)%nat by (unfold len; lia).
  rewrite <- drop_drop, drop_two, drop_app_length, forallb_zeros. cbn [negb]. rewrite take_app_length'; [done|]. unfold len. lia.
Qed.

Lemma unpadMessage_sound m raw : unpadMessage raw = Ok m -> padMessage m = Ok raw.
Proof.
  unfold unpadMessage. intros Hu. inv_ok. goprop. apply padMessage_ok. unfold fixedMessageSize in *. subst m.
  set (size := be_val (take 2 raw)) in *.
  pose proof (be_val_range (take 2 raw)).
  assert (len (take (Z.to_nat size) (drop 2 raw)) = size) as Hm.
  { unfold len in *. rewrite length_take, length_drop. lia. }
  rewrite Hm. split; [lia|].
  assert (be_bytes 2 size = take 2 raw) as ->.
  { unfold size. assert (length (take 2 raw) = 2%nat) as E by (rewrite length_take; unfold len in *; lia).
    rewrite <- E at 1. by rewrite be_bytes_val. }
  rewrite <- (take_drop 2 raw) at 1. f_equal. rewrite <- (take_drop (Z.to_nat size) (drop 2 raw)) at 1. f_equal.
  rewrite drop_drop. replace (2 + Z.to_nat size)%nat with (Z.to_nat (2 + size)) by lia.
  rewrite (zeros_replicate (drop _ raw)) at 1 by done. f_equal. rewrite length_drop. unfold len in *. lia.
Qed.

(** ** The admission proof on the wire *)

Lemma reads_octet e v : 0 <= v < 256 -> Reads (take_uint 1 e) [byte_of v] v.
Proof. exact (reads_take_uint 1 e v). Qed.

Record TypedAdmission (p : admission.Proof) : Prop := {
  ta_epoch : in_u64 p.(admission.proof_Challenge).(admission.Epoch);
  ta_expires : p.(admission.proof_Challenge).(admission.ExpiresAt) < 2 ^ 63;
  ta_work : in_u64 p.(admission.WorkNonce)
}.

(** What the encoder demands of a challenge. *)
Definition Encodable (c : admission.Challenge) : Prop :=
  c.(admission.Node) <> zero32 /\ c.(admission.Network) <> zero32 /\ c.(admission.Epoch) <> 0 /\
  c.(admission.Surface) = str "resolution" /\ c.(admission.OperationDigest) <> zero32 /\
  c.(admission.IsolationBinding) <> zero32 /\ 0 <= c.(admission.IssuedAt) < c.(admission.ExpiresAt) /\
  c.(admission.Nonce) <> zero 16 /\ c.(admission.WorkBits) = 16 /\ c.(admission.AuthenticationTag) <> zero32.

Definition admissionWire (p : admission.Proof) : bytes :=
  let c := p.(admission.proof_Challenge) in
  c.(admission.Node) ++ c.(admission.Network) ++ be_bytes 8 c.(admission.Epoch) ++ [byte_of 10] ++ str "resolution" ++
  c.(admission.OperationDigest) ++ c.(admission.IsolationBinding) ++ be_bytes 8 (u64 c.(admission.IssuedAt)) ++
  be_bytes 8 (u64 c.(admission.ExpiresAt)) ++ c.(admission.Nonce) ++ [byte_of 16] ++
  c.(admission.AuthenticationTag) ++ be_bytes 8 p.(admission.WorkNonce).

Lemma encodeAdmissionProof_ok p raw :
  encodeAdmissionProof p = Ok raw <-> Encodable p.(admission.proof_Challenge) /\ raw = admissionWire p.
Proof.
  unfold encodeAdmissionProof, Encodable, admissionWire, AppendUint64. split.
  - intros He. cbv zeta in He. inv_ok. subst raw. goprop. split; [split_and!; try done; lia|].
    match goal with X : admission.Surface _ = _ |- _ => rewrite X end.
    match goal with X : admission.WorkBits _ = _ |- _ => rewrite X end.
    change (len (str "resolution")) with 10. by rewrite <- !app_assoc.
  - intros [(H1 & H2 & H3 & H4 & H5 & H6 & [H7 H8] & H9 & H10 & H11) ->]. rewrite H4, H10.
    rewrite (bool_decide_eq_true_2 (str "resolution" = _)), !bool_decide_eq_false_2 by done.
    rewrite (proj2 (Z.eqb_neq _ _) H3), (proj2 (Z.ltb_ge _ _) H7), (proj2 (Z.leb_gt _ _) H8).
    cbn [negb orb Z.eqb Pos.eqb]. change (255 <? len (str "resolution")) with false. cbn [negb orb].
    change (len (str "resolution")) with 10. by rewrite <- !app_assoc.
Qed.

Lemma reads_admission p :
  TypedAdmission p -> Encodable p.(admission.proof_Challenge) ->
  Reads (admissionFields (admissionFixed + 10)) (admissionWire p) p.
Proof.
  intros [He Hx Hw] (_ & _ & _ & Hs & _ & _ & [Hi Hx'] & _ & Hb & _). unfold admissionFields, admissionWire.
  do 2 (eapply reads_bind; [apply reads_array|]). eapply reads_bind; [by apply reads_uint64|].
  eapply reads_bind; [by apply reads_octet|]. cbn [Z.eqb Z.add Pos.add Pos.eqb Pos.succ admissionFixed orb negb].
  eapply reads_bind; [by apply reads_take_bytes|]. do 2 (eapply reads_bind; [apply reads_array|]).
  do 2 (eapply reads_bind; [apply reads_uint64, u64_range|]). eapply reads_bind; [apply reads_array|].
  eapply reads_bind; [by apply reads_octet|]. eapply reads_bind; [apply reads_array|].
  rewrite <- (app_nil_r (be_bytes 8 (admission.WorkNonce p))). eapply reads_bind; [by apply reads_uint64|].
  rewrite !i64_u64 by (unfold in_i64; lia). destruct p as [[] ?]. cbn in *. subst. apply reads_ret.
Qed.

Lemma len_admissionWire p : len (admissionWire p) = admissionFixed + 10.
Proof. unfold admissionWire. autorewrite with len. done. Qed.

Lemma decodeAdmissionProof_ok raw p :
  decodeAdmissionProof raw = Ok p <-> TypedAdmission p /\ encodeAdmissionProof p = Ok raw.
Proof.
  unfold decodeAdmissionProof. split.
  - intros Hd. inv_ok. destruct a as [q rest]. inv_ok. goprop. subst. split; [|done].
    apply encodeAdmissionProof_ok in Hok0 as [(_ & _ & _ & _ & _ & _ & Hi & _) _].
    unfold admissionFields in Hok. inv_decode. injection Hok as <- _. cbn in Hi.
    repeat match goal with X : take_uint _ _ _ = Ok _ |- _ => apply take_uint_ok in X as [_ X]; [|done] end.
    constructor; cbn; try done. match goal with |- i64 ?z < _ => pose proof (i64_range z) as R end. apply R.
  - intros [Ht He]. pose proof He as [Hen ->]%encodeAdmissionProof_ok.
    rewrite len_admissionWire, (proj2 (Z.ltb_ge _ _)) by done.
    rewrite (reads_all _ _ _ (reads_admission p Ht Hen)). cbn [mbind result_bind]. rewrite He.
    by rewrite bool_decide_eq_true_2.
Qed.

(** ** Requests and responses *)

Section Messages.
Context `{GoLib}.

Definition headerWire (network nonce : array 32) (deadline size : Z) : bytes :=
  network ++ nonce ++ be_bytes 8 (u64 deadline) ++ be_bytes 2 size.

Lemma reads_header e network nonce deadline size :
  in_i64 deadline -> 0 <= size < 2 ^ 16 ->
  Reads (messageHeader e) (headerWire network nonce deadline size) (network, nonce, deadline, size).
Proof.
  intros Hd Hs. unfold messageHeader, headerWire. do 2 (eapply reads_bind; [apply reads_array|]).
  eapply reads_bind; [apply reads_uint64, u64_range|]. rewrite <- (app_nil_r (be_bytes 2 size)).
  eapply reads_bind; [by apply reads_uint16|]. rewrite i64_u64 by done. apply reads_ret.
Qed.

Lemma reads_lift {A} (r : result A) (v : A) : r = Ok v -> Reads (lift r) [] v.
Proof. by intros -> rest. Qed.

Lemma lift_ok {A} (r : result A) raw v rest : lift r raw = Ok (v, rest) -> r = Ok v /\ raw = rest.
Proof. unfold lift. destruct r; [|done]. by intros [= -> ->]. Qed.

(** The first three bytes. *)
Definition opening : bytes := be_bytes 2 messageSchema ++ [resolveOperation].

Lemma opening_ok raw limit :
  3 <= limit ->
  (len raw <? limit) || negb (be_val (take 2 raw) =? messageSchema) || (head (drop 2 raw) !=? Some resolveOperation) = false ->
  limit <= len raw /\ raw = opening ++ drop 3 raw.
Proof.
  intros Hl Hc. goprop. split; [done|]. unfold opening.
  assert (be_bytes 2 messageSchema = take 2 raw) as ->.
  { match goal with X : be_val _ = _ |- _ => rewrite <- X end.
    assert (length (take 2 raw) = 2%nat) as E by (rewrite length_take; unfold len in *; lia).
    rewrite <- E at 1. by rewrite be_bytes_val. }
  rewrite <- (take_drop 2 raw) at 1. rewrite <- app_assoc. f_equal.
  destruct (drop 2 raw) as [|c l] eqn:E; [done|]. cbn in *. simplify_eq. f_equal.
  change 3%nat with (2 + 1)%nat. by rewrite <- drop_drop, E.
Qed.

Lemma opening_accepted l limit :
  limit <= len (opening ++ l) ->
  (len (opening ++ l) <? limit) || negb (be_val (take 2 (opening ++ l)) =? messageSchema) ||
  (head (drop 2 (opening ++ l)) !=? Some resolveOperation) = false /\ drop 3 (opening ++ l) = l.
Proof. intros Hl. rewrite (proj2 (Z.ltb_ge _ _)) by done. done. Qed.

Record TypedRequest (v : resolutionRequest) : Prop := {
  tr_deadline : in_i64 v.(rq_deadline);
  tr_admission : TypedAdmission v.(rq_admission)
}.

(** The conditions on the binding of a message. *)
Definition Bound (network nonce : array 32) (deadline : Z) : Prop :=
  network <> zero32 /\ nonce <> zero32 /\ 0 < deadline.

Definition requestWire (v : resolutionRequest) (wire proof : bytes) : bytes :=
  opening ++ headerWire v.(rq_network) v.(rq_nonce) v.(rq_deadline) (len wire) ++ wire ++ be_bytes 2 (len proof) ++ proof.

Lemma encodeRequest_ok v raw :
  encodeRequest v = Ok raw <->
  Bound v.(rq_network) v.(rq_nonce) v.(rq_deadline) /\
  exists wire, Parse v.(rq_name) = Ok v.(rq_name) /\ EncodeWire v.(rq_name) = Ok wire /\
    Encodable v.(rq_admission).(admission.proof_Challenge) /\
    raw = requestWire v wire (admissionWire v.(rq_admission)).
Proof.
  unfold encodeRequest, Bound. split.
  - intros He. inv_ok. pose proof Hok as [-> _]%Parse_ok. goprop.
    apply encodeAdmissionProof_ok in Hok1 as [Hen ->]. subst raw. split; [split_and!; try done; lia|].
    exists a0. split_and!; try done. unfold requestWire, headerWire, opening, AppendUint16, AppendUint64.
    pose proof (len_nonneg a0). unfold u16. rewrite !Z.mod_small by (rewrite ?len_admissionWire; unfold admissionFixed; lia).
    by rewrite <- !app_assoc.
  - intros ((Hn & Ho & Hd) & wire & Hp & Hw & Hen & ->). rewrite Hp, Hw.
    rewrite !bool_decide_eq_false_2, (proj2 (Z.leb_gt _ _)) by done. cbn [orb].
    pose proof (EncodeWire_DecodeWire _ Hp) as (w & Hw' & _ & Hlen). rewrite Hw in Hw'. injection Hw' as <-.
    apply Parse_ok in Hp as [_ [ls Hcn]]. pose proof (len_nonneg (rq_name v)). pose proof (cn_bound _ _ Hcn).
    unfold maxNameLength in *.
    rewrite (proj2 (Z.ltb_ge _ _)) by lia. rewrite (proj2 (encodeAdmissionProof_ok _ _)) by done. cbn [mbind result_bind].
    unfold requestWire, headerWire, opening, AppendUint16, AppendUint64, u16.
    rewrite !Z.mod_small by (rewrite ?len_admissionWire; unfold admissionFixed; lia). by rewrite <- !app_assoc.
Qed.

Lemma wire_of_name name wire :
  Parse name = Ok name -> EncodeWire name = Ok wire -> DecodeWire wire = Ok name /\ 0 < len wire <= 300.
Proof.
  intros Hp Hw. pose proof (EncodeWire_DecodeWire _ Hp) as (w & Hw' & Hd & Hlen).
  rewrite Hw in Hw'. injection Hw' as <-. split; [done|]. apply Parse_ok in Hp as [_ [ls Hcn]].
  pose proof (cn_bound _ _ Hcn). pose proof (len_nonneg name). unfold maxNameLength in *. lia.
Qed.

Lemma reads_request v (wire proof : bytes) :
  TypedRequest v -> Parse v.(rq_name) = Ok v.(rq_name) -> EncodeWire v.(rq_name) = Ok wire -> 0 < len proof < 2 ^ 16 ->
  Reads (requestFields (79 + len wire + len proof))
    (headerWire v.(rq_network) v.(rq_nonce) v.(rq_deadline) (len wire) ++ wire ++ be_bytes 2 (len proof))
    (v.(rq_network), v.(rq_nonce), v.(rq_deadline), v.(rq_name)).
Proof.
  intros [Hd _] Hp Hw Hs. destruct (wire_of_name _ _ Hp Hw) as [Hdec Hlen]. unfold requestFields.
  eapply reads_bind; [apply reads_header; [done|lia]|]. cbv beta iota.
  rewrite (proj2 (Z.eqb_neq _ _)), (proj2 (Z.ltb_ge _ _)) by lia. cbn [orb].
  eapply reads_bind; [by apply reads_take_bytes|]. rewrite <- (app_nil_l (be_bytes 2 _)).
  eapply reads_bind; [by apply reads_lift|]. rewrite <- (app_nil_l (be_bytes 2 _)).
  eapply reads_bind; [by apply reads_or_error, reads_lift|]. rewrite bool_decide_eq_true_2 by done. cbn [negb].
  rewrite <- (app_nil_r (be_bytes 2 (len proof))). eapply reads_bind; [apply reads_uint16; lia|].
  rewrite (proj2 (Z.eqb_neq _ _)), Z.eqb_refl by lia. apply reads_ret.
Qed.

Lemma u64_of_i64 z : in_u64 z -> u64 (i64 z) = z.
Proof.
  unfold in_u64, u64, i64. intros Hz. rewrite Zminus_mod_idemp_l. replace (z + 2 ^ 63 - 2 ^ 63) with z by lia.
  by apply Z.mod_small.
Qed.

Lemma messageHeader_ok e raw network nonce deadline size rest :
  messageHeader e raw = Ok ((network, nonce, deadline, size), rest) ->
  raw = headerWire network nonce deadline size ++ rest /\ in_i64 deadline /\ 0 <= size < 2 ^ 16.
Proof.
  unfold messageHeader, headerWire. intros Hd. inv_decode. injection Hd as <- <- <- <- <-.
  repeat match goal with
    | X : take_uint _ _ _ = Ok _ |- _ => apply take_uint_ok in X as [-> X]; [|done]
    | X : take_array _ _ _ = Ok _ |- _ => apply take_array_ok in X; subst
    end.
  split_and!; try (apply i64_range || lia). rewrite u64_of_i64 by done. by rewrite <- !app_assoc.
Qed.

Lemma requestFields_ok total raw network nonce deadline name rest :
  requestFields total raw = Ok ((network, nonce, deadline, name), rest) ->
  exists wire proofSize, DecodeWire wire = Ok name /\ EncodeWire name = Ok wire /\ in_i64 deadline /\
    total = 79 + len wire + proofSize /\
    raw = headerWire network nonce deadline (len wire) ++ wire ++ be_bytes 2 proofSize ++ rest.
Proof.
  unfold requestFields. intros Hf. apply bind_ok in Hf as ([[[n o] d] size] & r1 & Hh & Hf). cbv beta iota in Hf.
  apply messageHeader_ok in Hh as (-> & Hd & Hs). inv_decode.
  repeat match goal with X : lift _ _ = Ok _ |- _ => apply lift_ok in X as [? ->] end.
  match goal with X : take_bytes _ _ _ = Ok _ |- _ => apply take_bytes_ok in X as [-> Hl]; [|lia] end.
  match goal with X : take_uint _ _ _ = Ok _ |- _ => apply take_uint_ok in X as [-> X]; [|done] end.
  injection Hf as <- <- <- <- <-. goprop. subst. eexists _, _. split_and!; try done; lia.
Qed.

Lemma DecodeWire_Parse wire name : DecodeWire wire = Ok name -> Parse name = Ok name.
Proof. intros (ls & _ & _ & _ & _ & Hcn)%DecodeWire_ok. by apply Parse_ok. Qed.

Lemma decodeRequest_sound raw v :
  decodeRequest raw = Ok v -> Bound v.(rq_network) v.(rq_nonce) v.(rq_deadline) ->
  TypedRequest v /\ encodeRequest v = Ok raw.
Proof.
  unfold decodeRequest.
  intros Hd Hb. destruct (_ || _ || _) eqn:Ho; [done|]. apply opening_ok in Ho as [Hlen Hraw]; [|done].
  destruct (requestFields _ _) as [[[[[network nonce] deadline] name] rest]|] eqn:Hf; [|done]. inv_ok. subst v. cbn in Hb.
  apply requestFields_ok in Hf as (wire & size & Hdw & Hew & Hdl & Htot & Hrest).
  apply decodeAdmissionProof_ok in Hok as [Hta Hea]. split; [by constructor|]. apply encodeRequest_ok. cbn.
  apply encodeAdmissionProof_ok in Hea as [Hen ->]. split; [done|]. exists wire. split_and!; try done; [by eapply DecodeWire_Parse|].
  rewrite Hraw, Hrest. unfold requestWire. cbn. do 4 f_equal.
  rewrite Hraw, Hrest in Htot. unfold headerWire, opening in Htot. autorewrite with len in Htot. f_equal. lia.
Qed.

Lemma decodeRequest_complete raw v : TypedRequest v -> encodeRequest v = Ok raw -> decodeRequest raw = Ok v.
Proof.
  unfold decodeRequest.
  intros Ht He. pose proof He as (Hb & wire & Hp & Hw & Hen & ->)%encodeRequest_ok.
  destruct (wire_of_name _ _ Hp Hw) as [_ Hwl]. pose proof (len_admissionWire (rq_admission v)) as Hal.
  set (proof := admissionWire (rq_admission v)) in *. unfold admissionFixed in Hal. cbn in Hal.
  assert (len (requestWire v wire proof) = 79 + len wire + len proof) as Hlen.
  { unfold requestWire, headerWire, opening. autorewrite with len. lia. }
  assert (77 <= len (requestWire v wire proof)) as Hmin by lia.
  unfold requestWire in *. destruct (opening_accepted _ 77 Hmin) as [-> ->]. rewrite Hlen, !app_assoc.
  rewrite <- (app_assoc (headerWire _ _ _ _)), reads_request by (done || lia).
  rewrite (proj2 (decodeAdmissionProof_ok _ (rq_admission v))).
  + by destruct v.
  + split; [apply Ht|]. by apply encodeAdmissionProof_ok.
Qed.

(** [decodeRequest] reads exactly the encodings of requests: what it accepts,
    with a binding the encoder would take, is the canonical encoding of the value
    it returns, and every encoding of a typed request is read back. *)
Theorem decodeRequest_exact raw v :
  (decodeRequest raw = Ok v /\ Bound v.(rq_network) v.(rq_nonce) v.(rq_deadline)) <->
  (TypedRequest v /\ encodeRequest v = Ok raw).
Proof.
  split; [intros [Hd Hb]; by apply decodeRequest_sound|]. intros [Ht He]. split; [by apply decodeRequest_complete|].
  by apply encodeRequest_ok in He as [Hb _].
Qed.

Record TypedResponse (v : resolutionResponse) : Prop := {
  tv_deadline : in_i64 v.(rs_deadline);
  tv_generation : in_u64 v.(rs_generation);
  tv_revision : in_u64 v.(rs_revision)
}.

Definition responseWire (v : resolutionResponse) (wire : bytes) : bytes :=
  opening ++ headerWire v.(rs_network) v.(rs_nonce) v.(rs_deadline) (len wire) ++ wire ++
  be_bytes 8 v.(rs_generation) ++ be_bytes 8 v.(rs_revision) ++ [v.(rs_result)] ++ be_bytes 2 (len v.(rs_proof)) ++ v.(rs_proof).

Lemma encodeResponse_ok v raw :
  encodeResponse v = Ok raw <->
  Bound v.(rs_network) v.(rs_nonce) v.(rs_deadline) /\ len v.(rs_proof) < 2 ^ 16 /\ resultConsistent v = true /\
  exists wire, Parse v.(rs_name) = Ok v.(rs_name) /\ EncodeWire v.(rs_name) = Ok wire /\ raw = responseWire v wire.
Proof.
  unfold encodeResponse, Bound. pose proof (len_nonneg (rs_proof v)) as Hnn. split.
  - intros He. inv_ok. pose proof Hok as [-> _]%Parse_ok. goprop. destruct (wire_of_name _ _ Hok Hok0) as [_ Hl]. subst raw.
    split_and!; try (done || lia). exists a0. split_and!; try done.
    unfold responseWire, headerWire, opening, AppendUint16, AppendUint64, u16. rewrite !Z.mod_small by lia. by rewrite <- !app_assoc.
  - intros ((Hn & Ho & Hd) & Hs & Hc & wire & Hp & Hw & ->). rewrite Hp, Hw, Hc. destruct (wire_of_name _ _ Hp Hw) as [_ Hl].
    rewrite !bool_decide_eq_false_2, (proj2 (Z.leb_gt _ _)), !(proj2 (Z.ltb_ge 65535 _)) by (done || lia). cbn [negb orb].
    unfold responseWire, headerWire, opening, AppendUint16, AppendUint64, u16. rewrite !Z.mod_small by lia. by rewrite <- !app_assoc.
Qed.

Lemma reads_response v (wire : bytes) total :
  TypedResponse v -> Parse v.(rs_name) = Ok v.(rs_name) -> EncodeWire v.(rs_name) = Ok wire ->
  len v.(rs_proof) < 2 ^ 16 -> 96 + len wire <= total ->
  Reads (responseFields total)
    (headerWire v.(rs_network) v.(rs_nonce) v.(rs_deadline) (len wire) ++ wire ++ be_bytes 8 v.(rs_generation) ++
     be_bytes 8 v.(rs_revision) ++ [v.(rs_result)] ++ be_bytes 2 (len v.(rs_proof)) ++ v.(rs_proof)) v.
Proof.
  intros [Hd Hg Hr] Hp Hw Hs Ht. destruct (wire_of_name _ _ Hp Hw) as [Hdec Hl]. unfold responseFields.
  pose proof (len_nonneg (rs_proof v)). eapply reads_bind; [apply reads_header; [done|lia]|]. cbv beta iota.
  rewrite (proj2 (Z.eqb_neq _ _)), (proj2 (Z.ltb_ge _ _)) by lia. cbn [orb].
  eapply reads_bind; [by apply reads_take_bytes|]. rewrite <- (app_nil_l (be_bytes 8 _ ++ _)).
  eapply reads_bind; [by apply reads_lift|]. do 2 (eapply reads_bind; [by apply reads_uint64|]).
  eapply reads_bind; [rewrite <- (byte_of_val (rs_result v)); apply reads_octet, byte_val_range|].
  eapply reads_bind; [apply reads_uint16; lia|]. rewrite <- (app_nil_r (rs_proof v)) at 2.
  eapply reads_bind; [by apply reads_take_bytes|]. rewrite byte_of_val. destruct v. apply reads_ret.
Qed.

Lemma decodeResponse_encodeResponse v raw :
  TypedResponse v -> encodeResponse v = Ok raw -> decodeResponse raw = Ok v.
Proof.
  intros Ht (Hb & Hs & Hc & wire & Hp & Hw & ->)%encodeResponse_ok. destruct (wire_of_name _ _ Hp Hw) as [Hdec Hl].
  pose proof (len_nonneg (rs_proof v)). unfold decodeResponse.
  assert (len (responseWire v wire) = 96 + len wire + len (rs_proof v)) as Hlen.
  { unfold responseWire, headerWire, opening. autorewrite with len. lia. }
  assert (97 <= len (responseWire v wire)) as Hmin by lia.
  unfold responseWire in *. destruct (opening_accepted _ 97 Hmin) as [-> ->]. rewrite Hlen.
  rewrite (reads_all _ _ _ (reads_response v wire (96 + len wire + len (rs_proof v)) Ht Hp Hw Hs ltac:(lia))), Hc. done.
Qed.

End Messages.

(** ** The Gateway *)

Section Gateway.
Context `{GoLib}.
Context {A : Type} `{controlAuthority A}.

Implicit Types g : gateway A.

Lemma rejection_length : len rejection = fixedMessageSize.
Proof. by vm_compute. Qed.

Lemma padded_length (r : result bytes) raw : r ≫= padMessage = Ok raw -> len raw = fixedMessageSize.
Proof. intros Hp. inv_ok. by eapply padMessage_length. Qed.

Lemma answer_length g query now : len (answer g query now).2 = fixedMessageSize.
Proof.
  unfold answer. destruct (match resolutionAdmissionDigest _ _ _ with Ok _ => _ | Err _ => _ end) as [v adm].
  cbv zeta. case_match; [apply rejection_length|]. destruct (acceptNonce _ _ _ _) as [g' fresh].
  destruct fresh; cbn [negb]; [|apply rejection_length].
  destruct (_ ≫= padMessage) eqn:Hp; [by eapply padded_length|apply rejection_length].
Qed.

Lemma control_length g request now : len (control g request now).2 = fixedMessageSize.
Proof.
  unfold control. destruct (port g); [|apply rejection_length]. case_match; [apply rejection_length|].
  destruct (readLimited _ _); [|apply rejection_length]. destruct (decodeControlRequest _); [|apply rejection_length].
  cbv zeta. case_match; [apply rejection_length|]. destruct (acceptNonce _ _ _ _) as [g' fresh].
  destruct fresh; cbn [negb]; [|apply rejection_length]. destruct (Submit _ _ _).
  destruct (controlResponse _ _ _) eqn:Hp; [|apply rejection_length]. unfold controlResponse in Hp. inv_ok.
  by eapply padMessage_length.
Qed.

(** Every answer of a Gateway has the same size: whatever the request asks for
    and however it is answered, the plaintext of the response is 4096 bytes. *)
Theorem serve_fixed_size g request now : len (serve g request now).2 = fixedMessageSize.
Proof.
  unfold serve, resolve. case_match; [apply control_length|]. case_match; [apply rejection_length|].
  destruct (readLimited _ _); [|apply rejection_length]. destruct (unpadMessage _); [|apply rejection_length].
  destruct (decodeRequest _); [apply answer_length|apply rejection_length].
Qed.

(** The nonce and deadline a request carries. *)
Definition offered (request : httpRequest) : option (array 32 * Z) :=
  match readLimited (fixedMessageSize + 1) request.(Body) with
  | None => None
  | Some fixed =>
      if request.(Path) ==? str "/control" then
        match decodeControlRequest fixed with
        | Ok v => Some (v.(cv_binding).(cb_nonce), v.(cv_binding).(cb_deadline))
        | Err _ => None
        end
      else
        match unpadMessage fixed ≫= decodeRequest with
        | Ok q => Some (q.(rq_nonce), q.(rq_deadline))
        | Err _ => None
        end
  end.

(** What one call does to the nonces. *)
Inductive Remembers (now : Z) (maximum : Z) (before : gmap (array 32) Z) : option (array 32 * Z) -> gmap (array 32) Z -> Prop :=
| remembers_same : Remembers now maximum before None before
| remembers_live : Remembers now maximum before None (live now before)
| remembers_new n d :
    live now before !! n = None -> Z.of_nat (size (live now before)) < maximum ->
    Remembers now maximum before (Some (n, d)) (<[n := d]> (live now before)).

Lemma acceptNonce_ok g nonce deadline now g' fresh :
  acceptNonce g nonce deadline now = (g', fresh) ->
  g'.(MaximumPending) = g.(MaximumPending) /\
  Remembers now g.(MaximumPending) g.(seen) (if fresh then Some (nonce, deadline) else None) g'.(seen).
Proof.
  unfold acceptNonce. case_bool_decide; [intros [= <- <-]; split; [done|constructor]|]. cbn [set].
  destruct (_ || _) eqn:E; intros [= <- <-]; (split; [done|]); [constructor|]. cbn in *.
  apply orb_false_iff in E as [E1 E2]. apply bool_decide_eq_false, eq_None_not_Some in E1.
  apply remembers_new; [done|]. apply Z.leb_gt in E2. done.
Qed.

(** The effect of a call: an answer that is not the rejection comes from a call
    that took the nonce of its request as new. *)
Definition Effect g (request : httpRequest) (now : Z) (r : gateway A * bytes) : Prop :=
  r.1.(MaximumPending) = g.(MaximumPending) /\
  exists taken, Remembers now g.(MaximumPending) g.(seen) taken r.1.(seen) /\
    (r.2 <> rejection -> is_Some taken) /\ (is_Some taken -> taken = offered request).

Lemma rejected_effect g g' request now taken :
  g'.(MaximumPending) = g.(MaximumPending) -> Remembers now g.(MaximumPending) g.(seen) taken g'.(seen) ->
  (is_Some taken -> taken = offered request) -> Effect g request now (rejectRequest g').
Proof. intros Hm Hr Ht. split; [done|]. exists taken. by split_and!. Qed.

Lemma rejected_unchanged g request now : Effect g request now (rejectRequest g).
Proof. eapply rejected_effect; [done|constructor|by intros [? ?]]. Qed.

Lemma answer_effect g request query now :
  offered request = Some (query.(rq_nonce), query.(rq_deadline)) -> Effect g request now (answer g query now).
Proof.
  intros Ho. unfold answer. destruct (match resolutionAdmissionDigest _ _ _ with Ok _ => _ | Err _ => _ end) as [v adm].
  cbv zeta. case_match; [eapply rejected_effect; [done|constructor|by intros [? ?]]|].
  destruct (acceptNonce _ _ _ _) as [g' fresh] eqn:Ha. apply acceptNonce_ok in Ha as [Hm Hr].
  destruct fresh; cbn [negb]; [|eapply rejected_effect; [done|exact Hr|by intros [? ?]]].
  destruct (_ ≫= padMessage) eqn:Hp; [|eapply rejected_effect; [done|exact Hr|done]].
  split; [done|]. exists (Some (rq_nonce query, rq_deadline query)). split_and!; [exact Hr|by eexists|done].
Qed.

Lemma serve_effect g request now : Effect g request now (serve g request now).
Proof.
  unfold serve. case_bool_decide as Hpath.
  - unfold control. destruct (port g) as [a|]; [|apply rejected_unchanged].
    case_match; [apply rejected_unchanged|]. destruct (readLimited _ _) as [fixed|] eqn:Hread; [|apply rejected_unchanged].
    destruct (decodeControlRequest _) as [v|] eqn:Hd; [|apply rejected_unchanged].
    assert (offered request = Some (cb_nonce (cv_binding v), cb_deadline (cv_binding v))) as Ho.
    { unfold offered. by rewrite Hread, bool_decide_eq_true_2, Hd. }
    cbv zeta. case_match; [apply rejected_unchanged|].
    destruct (acceptNonce _ _ _ _) as [g' fresh] eqn:Ha. apply acceptNonce_ok in Ha as [Hm Hr].
    destruct fresh; cbn [negb]; [|eapply rejected_effect; [done|exact Hr|by intros [? ?]]].
    destruct (Submit _ _ _) as [a' class].
    destruct (controlResponse _ _ _); [|eapply rejected_effect; [done|exact Hr|done]].
    split; [done|]. eexists. split_and!; [exact Hr|by eexists|done].
  - unfold resolve. case_match; [apply rejected_unchanged|].
    destruct (readLimited _ _) as [fixed|] eqn:Hread; [|apply rejected_unchanged].
    destruct (unpadMessage _) as [payload|] eqn:Hu; [|apply rejected_unchanged].
    destruct (decodeRequest _) as [query|] eqn:Hd; [|apply rejected_unchanged].
    apply answer_effect. unfold offered. rewrite Hread, bool_decide_eq_false_2, Hu by done. cbn [mbind result_bind].
    by rewrite Hd.
Qed.

Lemma live_lookup now m n d : live now m !! n = Some d <-> m !! n = Some d /\ UnixNano now < d.
Proof. unfold live. by rewrite map_lookup_filter_Some. Qed.

(** A remembered nonce stays until a call reads the clock past its deadline. *)
Lemma Remembers_keeps now maximum before taken m n d :
  Remembers now maximum before taken m -> before !! n = Some d -> UnixNano now < d ->
  m !! n = Some d /\ forall d', taken <> Some (n, d').
Proof.
  intros Hr Hn Hd. assert (live now before !! n = Some d) as Hl by by apply live_lookup.
  destruct Hr as [| |n' d'' Hnew _]; [done..|]. assert (n' <> n) by congruence.
  split; [by rewrite lookup_insert_ne|]. intros d' [= <- <-]. done.
Qed.

(** One call after the other, with the readings of the clock; the answers. *)
Fixpoint serveAll g (calls : list (httpRequest * Z)) : gateway A * list bytes :=
  match calls with
  | [] => (g, [])
  | (request, now) :: rest =>
      let '(g1, response) := serve g request now in
      let '(g2, responses) := serveAll g1 rest in
      (g2, response :: responses)
  end.

Lemma remembered_rejected g calls n d j request now d' response :
  g.(seen) !! n = Some d -> (forall k rq t, (k <= j)%nat -> calls !! k = Some (rq, t) -> UnixNano t < d) ->
  calls !! j = Some (request, now) -> offered request = Some (n, d') ->
  (serveAll g calls).2 !! j = Some response -> response = rejection.
Proof.
  revert g j. induction calls as [|[rq t] calls IH]; intros g j Hn Hclock Hj Ho Hres; [done|]. cbn [serveAll] in Hres.
  pose proof (serve_effect g rq t) as (Hm & taken & Hr & Hans & Htaken).
  destruct (serve g rq t) as [g1 resp]. destruct (serveAll g1 calls) as [g2 responses] eqn:Hrest. cbn in *.
  destruct (Remembers_keeps _ _ _ _ _ _ _ Hr Hn (Hclock 0%nat rq t ltac:(lia) eq_refl)) as [Hn1 Hnot].
  destruct j as [|j].
  - cbn in *. simplify_eq. destruct (decide (response = rejection)) as [|Hne]; [done|].
    specialize (Hans Hne). specialize (Htaken Hans). rewrite Ho in Htaken. by destruct (Hnot d').
  - eapply (IH g1 j); try done; [|by rewrite Hrest]. intros k rq' t' Hk Hlk. apply (Hclock (S k) rq' t'); [lia|done].
Qed.

(** C16: A nonce is taken once.  When a sequence of requests is served and two of
    them with the same nonce are answered (not rejected), then between them, or at
    the second, the clock was read at or past the deadline of the first. *)
Theorem nonce_once g calls i j request request' now now' n d d' response response' :
  (serveAll g calls).2 !! i = Some response -> calls !! i = Some (request, now) -> offered request = Some (n, d) ->
  response <> rejection ->
  (serveAll g calls).2 !! j = Some response' -> calls !! j = Some (request', now') -> offered request' = Some (n, d') ->
  response' <> rejection -> (i < j)%nat ->
  exists k rq t, (i < k <= j)%nat /\ calls !! k = Some (rq, t) /\ d <= UnixNano t.
Proof.
  revert g i j. induction calls as [|[rq t] calls IH]; intros g i j Hi Hci Hoi Hri Hj Hcj Hoj Hrj Hij; [done|].
  cbn [serveAll] in Hi, Hj. pose proof (serve_effect g rq t) as (Hm & taken & Hr & Hans & Htaken).
  destruct (serve g rq t) as [g1 resp]. destruct (serveAll g1 calls) as [g2 responses] eqn:Hrest. cbn in *.
  destruct j as [|j]; [lia|]. cbn in *. destruct i as [|i].
  - cbn in *. simplify_eq. specialize (Hans Hri). specialize (Htaken Hans). rewrite Hoi in Htaken. subst taken.
    assert (seen g1 !! n = Some d) as Hn by (inversion Hr; subst; apply lookup_insert_eq).
    destruct (decide (Forall (fun c => UnixNano c.2 < d) (take (S j) calls))) as [Hall|Hnot].
    + exfalso. apply Hrj. eapply (remembered_rejected g1 calls n d j); try done; [|by rewrite Hrest].
      intros k rq t Hk Hlk. rewrite Forall_lookup in Hall. apply (Hall k (rq, t)). rewrite lookup_take_lt; [done|lia].
    + apply not_Forall_Exists in Hnot; [|intros ?; apply _]. apply Exists_exists in Hnot as ([rq t] & Hin & Hd).
      apply list_elem_of_lookup in Hin as [k Hk]. apply lookup_take_Some in Hk as [Hk Hlt].
      exists (S k), rq, t. split_and!; [lia|lia|done|]. cbn in Hd. lia.
  - cbn in Hi, Hci. destruct (IH g1 i j) as (k & rq' & t' & Hk & Hck & Hd); try done; [by rewrite Hrest..|lia|].
    exists (S k), rq', t'. split_and!; [lia|lia|done|done].
Qed.

(** The nonces remembered never exceed the bound. *)
Lemma serve_bounded g request now :
  Z.of_nat (size g.(seen)) <= g.(MaximumPending) ->
  Z.of_nat (size (serve g request now).1.(seen)) <= (serve g request now).1.(MaximumPending).
Proof.
  intros Hb. destruct (serve_effect g request now) as (-> & taken & Hr & _).
  assert ((size (live now (seen g)) <= size (seen g))%nat) as Hl by apply map_size_filter.
  destruct Hr as [| |n d Hn Hlt]; [lia..|]. rewrite map_size_insert_None by done. lia.
Qed.

End Gateway.
