(* ===== verification/ResolutionEnd.v ===== *)
(** * Private name resolution: from end to end

    What a client may conclude from a resolved name whatever the network did, and
    that an honest Gateway with a current store does resolve it. *)

From S2P Require Import Prelude Wire GoLib GoTime Json Naming Recovery Record RecordCodec Admission Merkle.
From S2P Require Import EpochCodec EpochBuild EpochProof EpochDisk EpochDurable EpochStore EpochStoreProof EpochInstall.
From S2P Require Import Authority StateView NamespaceView Resolution ResolutionProof.

Import resolution.

(** Pass a check whose failing branch does not resolve. *)
Ltac pass := match goal with |- (if ?c then _ else _) = _ -> _ => destruct c eqn:?; [done|] end.

Section End_.
Context `{GoLib}.

(** ** Soundness *)

Lemma accept_resolved r name at_ nonce fixed r' warning binding :
  accept r name at_ nonce fixed = (r', ResolvedTo warning binding) ->
  binding.(recordcodec.bound_Name) = name /\ r'.(used) = r.(used) /\ exists proof,
    namespace.Verify (Some r.(resolver_plan).(NamespaceVerifier)) proof (UnixMilli at_) = Ok (binding, warning).
Proof.
  unfold accept. destruct (_ ≫= decodeResponse) as [response|]; [|done]. cbv zeta. do 2 pass.
  destruct (namespace.Verify _ _ _) as [[b w]|] eqn:Hv; [|done]. do 2 pass. intros Ha. injection Ha as <- -> ->.
  goprop. eauto.
Qed.

Lemma Resolve_resolved fuel r ctx name at_ nonce transport r' warning binding :
  Resolve fuel r ctx name at_ nonce transport = Some (r', ResolvedTo warning binding) ->
  r.(used) = false /\ r'.(used) = true /\ UnixNano at_ = r.(resolver_plan).(SelectionAt) /\
  binding.(recordcodec.bound_Name) = name /\ exists proof,
    namespace.Verify (Some r.(resolver_plan).(NamespaceVerifier)) proof (UnixMilli at_) = Ok (binding, warning).
Proof.
  unfold Resolve. destruct (used r) eqn:Hu; [done|]. cbv zeta. destruct (_ || _ || _) eqn:Hc; [done|].
  destruct nonce as [nonce|]; [|done]. destruct (resolutionAdmissionDigest _ _ _) as [digest|]; [|done].
  case_match; [done|]. destruct (admission.Solve _ _) as [[proof tried]|]; [|done].
  destruct (_ ≫= padMessage) as [payload|]; [|done]. destruct (transport _) as [| | |body]; [done..|].
  destruct (readLimited _ _) as [fixed|]; [|done]. intros Ha. apply (inj Some) in Ha.
  apply accept_resolved in Ha as (Hn & Hu' & Hp). goprop. by split_and!.
Qed.

Lemma collidesWith_false identities families values :
  collidesWith identities families values = false <->
  NoDup (NodeID <$> values) /\ NoDup (Family <$> values) /\
  forall v, v ∈ values -> v.(NodeID) ∉ identities /\ v.(Family) ∉ families.
Proof.
  revert identities families. induction values as [|v values IH]; intros ids fams.
  { split; [intros _|done]. split_and!; [constructor..|]. by intros v Hv%elem_of_nil. }
  cbn [collidesWith fmap list_fmap]. rewrite !orb_false_iff, !bool_decide_eq_false, IH, !NoDup_cons. split.
  - intros ((Hi & Hf) & Hni & Hnf & Hall). split_and!; try done.
    + intros (w & Hw & Hin)%list_elem_of_fmap. destruct (Hall w Hin) as [Hx _]. set_solver.
    + intros (w & Hw & Hin)%list_elem_of_fmap. destruct (Hall w Hin) as [_ Hx]. set_solver.
    + intros w [->|Hin]%elem_of_cons; [done|]. destruct (Hall w Hin). set_solver.
  - intros ((Hvi & Hni) & (Hvf & Hnf) & Hall). destruct (Hall v ltac:(left)) as [Hi Hf]. split_and!; try done.
    intros w Hin. destruct (Hall w ltac:(by right)) as [Hwi Hwf].
    assert (NodeID w <> NodeID v) by (intros E; apply Hvi; rewrite <- E; by apply list_elem_of_fmap_2).
    assert (Family w <> Family v) by (intros E; apply Hvf; rewrite <- E; by apply list_elem_of_fmap_2). set_solver.
Qed.

Lemma collides_false values : collides values = false <-> NoDup (NodeID <$> values) /\ NoDup (Family <$> values).
Proof. unfold collides. rewrite collidesWith_false. set_solver. Qed.

(** The three roles of a selection are three nodes of three families. *)
Record Separated (selection : Selection) (p : plan) : Prop := {
  sep_nodes : NoDup (NodeID <$> [p.(Relay); p.(Gateway); p.(ConnectionRendezvous)]);
  sep_families : NoDup (Family <$> [p.(Relay); p.(Gateway); p.(ConnectionRendezvous)]);
  sep_domains : p.(Relay).(Domain) = initiatorDomain /\ p.(Gateway).(Domain) = rendezvousDomain /\
    p.(ConnectionRendezvous).(Domain) = rendezvousDomain;
  sep_excluded : Forall (fun role => role.(NodeID) ∉ selection.(ExcludedIdentities) /\
    role.(Family) ∉ selection.(ExcludedFamilies)) [p.(Relay); p.(Gateway); p.(ConnectionRendezvous)];
  sep_window : Forall (fun role => p.(plan_Deadline) <= role.(AssignmentNotAfter)) [p.(Relay); p.(Gateway); p.(ConnectionRendezvous)]
}.

Lemma excluded_false input role :
  excluded input role = false -> role.(NodeID) ∉ input.(ExcludedIdentities) /\ role.(Family) ∉ input.(ExcludedFamilies).
Proof. unfold excluded. intros He. by goprop. Qed.

Lemma validRole_window deadline role : validRole deadline role = true -> deadline <= role.(AssignmentNotAfter).
Proof. unfold validRole. intros Hv. by goprop. Qed.

Lemma validatePlan_ok p :
  validatePlan p = Ok tt -> 0 < p.(SelectionAt) < p.(plan_Deadline) /\
  Forall (fun role => p.(plan_Deadline) <= role.(AssignmentNotAfter)) [p.(Relay); p.(Gateway); p.(ConnectionRendezvous)].
Proof.
  unfold validatePlan. cbv zeta. intros Hv. inv_ok. clear Heqb0. apply negb_false_iff in Heqb1.
  rewrite !orb_false_iff in Heqb. destruct_and! Heqb. split; [goprop; lia|].
  cbn [forallb] in Heqb1. rewrite !andb_true_iff in Heqb1. destruct Heqb1 as (Hr1 & Hr2 & Hr3 & _).
  repeat constructor; by apply validRole_window.
Qed.

Lemma selectPlan_ok view selection profile p :
  selectPlan view selection profile = Ok p ->
  Separated selection p /\ exists e, state.View_Epoch view selection.(At) selection.(Deadline) = Some e /\
    build.validMaterializationPolicy (namespacePolicy e) = Ok (namespacePolicy e) /\
    p.(NamespaceVerifier) = namespace.MkVerifier (namespacePolicy e) e.(state.epoch_Number) e.(state.epoch_Digest) /\
    p.(NetworkID) = e.(state.epoch_NetworkID) /\ p.(SelectionAt) = UnixNano selection.(At).
Proof.
  unfold selectPlan. destruct (state.View_Epoch _ _ _) as [e|] eqn:He; [|done]. intros Hs. inv_ok.
  destruct (findPosition _ _ _ _) as [relay|]; [|done]. destruct (findPosition _ _ _ _) as [gw|]; [|done].
  destruct (findPosition _ _ _ _) as [rendezvous|]; [|done]. inv_ok. destruct a0.
  rewrite !orb_false_iff in Heqb0. destruct_and! Heqb0. subst p. split.
  - apply validatePlan_ok in Hok0 as [_ Hw].
    match goal with X : collides _ = false |- _ => apply collides_false in X as [Hn Hf] end.
    repeat match goal with X : excluded _ _ = false |- _ => apply excluded_false in X end.
    constructor; try done; [split_and!; by goprop|]. by repeat (constructor; [done|]).
  - exists e. unfold namespace.OpenResolutionVerifier in *. inv_ok. subst. apply validMaterializationPolicy_same in Hok1 as E.
    subst. by split_and!.
Qed.

(** C13: What a resolved name means, whatever Relay and Gateway did.  A client that
    opened a resolver on a view of the Network State and got a binding for a name
    holds one that at least two of the authorities of that view attested for the
    view's Epoch and digest.  If the attested root is that of a materialized
    corpus, the binding is the one the record lifecycle resolves for the name from
    that corpus at the selected instant; otherwise two of the hashed strings are a
    SHA-256 collision.  The Adapter is spent, and its three roles are three nodes of
    three families outside the exclusions. *)
Theorem resolve_sound view selection profile isolation base validKey r fuel ctx name at_ nonce transport r' warning binding :
  Open view selection profile isolation base validKey = Ok r ->
  Resolve fuel r ctx name at_ nonce transport = Some (r', ResolvedTo warning binding) ->
  r'.(used) = true /\ binding.(recordcodec.bound_Name) = name /\ Separated selection r.(resolver_plan) /\
  exists e attested ordinal leafRaw siblings,
    let input := namespacePolicy e in
    state.View_Epoch view selection.(At) selection.(Deadline) = Some e /\
    NoDup attested.(epoch.signerIDs) /\ 2 <= e.(state.epoch_Threshold) <= len attested.(epoch.signerIDs) /\
    Forall2 (SignedBy input (epoch.statementTranscript attested.(epoch.stmt))) attested.(epoch.signerIDs)
      attested.(epoch.signatures) /\
    e.(state.epoch_Number) <= attested.(epoch.stmt).(epoch.epoch) /\
    attested.(epoch.stmt).(epoch.epochDigest) = e.(state.epoch_Digest) /\
    forall signed records leaves,
      build.materializeRecords e.(state.epoch_NetworkID) signed = Ok (records, leaves) ->
      Millis e.(state.epoch_NetworkID) signed ->
      attested.(epoch.stmt).(epoch.recordRoot) = build.recordRootOf leaves ->
      attested.(epoch.stmt).(epoch.recordLength) = len leaves ->
      (exists raw current parents resolved lifecycleWarning,
         raw ∈ signed /\ recordcodec.VerifyRecord e.(state.epoch_NetworkID) raw = Ok current /\
         UnixMilli at_ <= current.(record.RecordNotAfter) /\
         Forall (fun p => exists raw, raw ∈ signed /\ recordcodec.VerifyRecord e.(state.epoch_NetworkID) raw = Ok p) parents /\
         recordcodec.resolveBinding current (UnixMilli at_ / 1000) parents = Ok (resolved, lifecycleWarning) /\
         binding = resolved <| recordcodec.Commitment := sha256 (build.materializedDomain ++ sha256 leafRaw) |> /\
         (lifecycleWarning <> ""%string -> warning <> ""%string)) \/
      Collision sha256 (proofInputs (build.commitmentLeafInput leafRaw) (map build.commitmentLeafInput leaves) ordinal siblings
                          (sha256 [build.emptyRecordTag])).
Proof.
  intros Ho Hr. apply Resolve_resolved in Hr as (_ & Hu & _ & Hn & proof & Hv).
  unfold Open in Ho. destruct (selectPlan _ _ _) as [p|] eqn:Hsel; [|done]. inv_ok. subst r. cbn [resolver_plan] in *.
  apply selectPlan_ok in Hsel as (Hsep & e & He & Hpol & Hver & Hnet & _). split_and!; try done. rewrite Hver in Hv.
  unfold namespace.Verify in Hv. cbn [namespace.verifier_policy namespace.verifier_minimumEpoch namespace.verifier_epochDigest] in Hv.
  destruct (build.VerifyBinding _ _ _ _ _) as [[[b w] number]|] eqn:Hb; [|done]. injection Hv as -> ->.
  pose proof Hb as Hb'. unfold build.VerifyBinding in Hb'.
  destruct (build.VerifyLegacy _ _ _ _ _) as [[[[c b'] w'] n']|] eqn:Hl; [|done]. injection Hb' as -> -> ->.
  apply VerifyLegacy_ok in Hl as (attested & ordinal & leafRaw & siblings & leaf & _ & _ & Hd & -> & Hmin & Hdig & Hatt & _).
  apply verifyAttestation_true in Hatt as (Hnd & Hth & Hsigned). exists e, attested, ordinal, leafRaw, siblings.
  split_and!; try done.
  - by apply validMaterializationPolicy_threshold in Hpol.
  - intros signed records leaves Hm Hmil Hroot Hlen.
    destruct (VerifyBinding_resolves _ _ _ _ _ _ _ _ _ _ _ _ _ _ _ Hb Hd Hm Hmil Hroot Hlen) as (_ & _ & _ & _ & Hcases). exact Hcases.
Qed.

(** ** An honest exchange *)

(** Gateway and client trust the same Epoch of the same Namespace, and the client
    holds a challenge of the Gateway for this lookup. *)
Record Agreed {A} (g : gateway A) (p : plan) (name : gostring) : Prop := {
  ag_policy : p.(NamespaceVerifier) =
    namespace.MkVerifier g.(view).(namespace.gateway_policy) g.(view).(namespace.minimumEpoch) g.(view).(namespace.epochDigest);
  ag_network : p.(NetworkID) = namespace.Network (Some g.(view));
  ag_node : p.(plan_AdmissionChallenge).(admission.Node) = g.(config_NodeID);
  ag_challenge : Encodable p.(plan_AdmissionChallenge);
  ag_operation : resolutionAdmissionDigest p.(NetworkID) name p.(plan_Deadline) =
    Ok p.(plan_AdmissionChallenge).(admission.OperationDigest)
}.

(** The call arrives in time, with a nonce the Gateway has room for. *)
Record Arrives {A} (g : gateway A) (deadline : Z) (nonce : array 32) (now : Z) : Prop := {
  ar_deadline : in_i64 deadline /\ 0 < deadline;
  ar_window : inWindow deadline now = true;
  ar_nonce : nonce <> zero32;
  ar_fresh : live now g.(seen) !! nonce = None;
  ar_room : Z.of_nat (size (live now g.(seen))) < g.(MaximumPending)
}.

Lemma Arrives_accepted {A} (g : gateway A) deadline nonce now :
  Arrives g deadline nonce now ->
  acceptNonce g nonce deadline now = (g <| seen := <[nonce := deadline]> (live now g.(seen)) |>, true).
Proof.
  intros [_ _ Hnz Hfresh Hroom]. unfold acceptNonce. rewrite bool_decide_eq_false_2 by done.
  change (seen (g <| seen := live now (seen g) |>)) with (live now (seen g)).
  rewrite bool_decide_eq_false_2 by (rewrite Hfresh; by intros [? ?]). by rewrite (proj2 (Z.leb_gt _ _)).
Qed.

Lemma LookupBinding_ok v name at_ proof binding :
  namespace.LookupBinding v name at_ = Some (proof, binding) ->
  store.Lookup v.(namespace.gateway_store) name v.(namespace.minimumEpoch) = Ok proof /\
  exists warning number, build.VerifyBinding v.(namespace.gateway_policy) proof v.(namespace.minimumEpoch)
    v.(namespace.epochDigest) at_ = Ok (binding, warning, number).
Proof.
  unfold namespace.LookupBinding. destruct (store.Lookup _ _ _) as [pr|] eqn:Hl; [|done].
  destruct (build.VerifyBinding _ _ _ _ _) as [[[b w] n]|] eqn:Hb; [|done]. intros [= -> ->]. eauto.
Qed.

(** The binding does not depend on the time at which its proof is verified. *)
Lemma VerifyBinding_ok input proof minimum digest at_ binding warning number :
  build.VerifyBinding input proof minimum digest at_ = Ok (binding, warning, number) ->
  input.(epoch.policy_Network) <> zero32 /\ 0 < len proof /\
  in_u64 binding.(recordcodec.bound_Generation) /\ in_u64 binding.(recordcodec.bound_Revision) /\
  0 < binding.(recordcodec.bound_Generation) /\ 0 < binding.(recordcodec.bound_Revision) /\
  forall at' binding' warning' number',
    build.VerifyBinding input proof minimum digest at' = Ok (binding', warning', number') -> binding' = binding.
Proof.
  unfold build.VerifyBinding. destruct (build.VerifyLegacy _ _ _ _ at_) as [[[[c b] w] n]|] eqn:Hl; [|done].
  intros [= -> -> ->]. apply VerifyLegacy_ok in Hl as (attested & ordinal & leafRaw & siblings & leaf & Hpol & _ & Hd & _ & _ & _ &
    _ & _ & Hleaf & _ & _ & Hver & -> & _).
  pose proof (recordcodec.VerifyRecord_valid _ _ _ Hver) as [[_ Hg Hr] Ht]. destruct Ht as [Htg Htr]. cbn.
  unfold in_u64 in *. split_and!; try (done || lia).
  - unfold build.validMaterializationPolicy in Hpol. inv_ok. by goprop.
  - unfold epoch.decodeProof in Hd. inv_ok. goprop. pose proof (len_nonneg proof). lia.
  - intros at' b' w' n'. destruct (build.VerifyLegacy _ _ _ _ at') as [[[[c' b''] w''] n'']|] eqn:Hl'; [|done].
    intros [= -> -> ->]. apply VerifyLegacy_ok in Hl' as (attested' & ordinal' & leafRaw' & siblings' & leaf' & _ & _ & Hd' & _ & _ &
      _ & _ & _ & Hleaf' & _ & _ & Hver' & -> & _).
    rewrite Hd in Hd'. injection Hd' as <- <- <- <-. rewrite Hleaf in Hleaf'. injection Hleaf' as <-.
    rewrite Hver in Hver'. by injection Hver' as <-.
Qed.

Lemma readLimited_fixed m : len m = fixedMessageSize -> readLimited (fixedMessageSize + 1) (Some m) = Some m.
Proof. intros Hl. unfold readLimited. cbn. rewrite take_ge; [done|]. unfold len, fixedMessageSize in *. lia. Qed.

Lemma resolved_response_encodes query (proof : bytes) binding :
  Bound query.(rq_network) query.(rq_nonce) query.(rq_deadline) -> Parse query.(rq_name) = Ok query.(rq_name) ->
  0 < len proof -> 0 < binding.(recordcodec.bound_Generation) -> 0 < binding.(recordcodec.bound_Revision) ->
  len query.(rq_name) + len proof + 99 <= fixedMessageSize - 2 ->
  exists raw fixed, encodeResponse (responseTo query (Some (proof, binding))) = Ok raw /\ padMessage raw = Ok fixed.
Proof.
  intros Hb Hp Hl Hg Hr Hfit. destruct (EncodeWire_DecodeWire _ Hp) as (wire & Hw & _ & Hwl).
  unfold fixedMessageSize in *. pose proof (len_nonneg query.(rq_name)).
  set (v := responseTo query (Some (proof, binding))).
  assert (encodeResponse v = Ok (responseWire v wire)) as He.
  { apply encodeResponse_ok. split_and!; [done|cbn; lia| |by exists wire].
    unfold resultConsistent, v. cbn [responseTo rs_result rs_proof rs_generation rs_revision].
    by rewrite bool_decide_eq_true_2, !(proj2 (Z.ltb_lt _ _)). }
  assert (len (responseWire v wire) = 96 + len wire + len proof) as Hlen.
  { unfold responseWire, headerWire, opening. autorewrite with len. cbn [rs_proof v responseTo]. lia. }
  exists (responseWire v wire). destruct (padMessage (responseWire v wire)) as [fixed|] eqn:Hpad; [by eauto|].
  exfalso. unfold padMessage, fixedMessageSize in Hpad.
  rewrite (proj2 (Z.eqb_neq _ _)), (proj2 (Z.ltb_ge _ _)) in Hpad by lia. done.
Qed.

Lemma gateway_answers {A} `{controlAuthority A} (g : gateway A) p name nonce now proof binding adm payload fixed :
  Agreed g p name -> Arrives g p.(plan_Deadline) nonce now -> TypedAdmission adm ->
  adm.(admission.proof_Challenge) = p.(plan_AdmissionChallenge) ->
  (admission.Verify g.(view).(namespace.gateway_admission) (UnixMilli now) adm).2.1 = true ->
  namespace.LookupBinding g.(view) name (UnixMilli now) = Some (proof, binding) ->
  len name + len proof + 99 <= fixedMessageSize - 2 ->
  let query := MkRequest p.(NetworkID) nonce p.(plan_Deadline) name adm in
  encodeRequest query = Ok payload -> padMessage payload = Ok fixed ->
  exists raw, encodeResponse (responseTo query (Some (proof, binding))) = Ok raw /\
    padMessage raw = Ok (serve g (MkHttp (str "POST") (str "/resolve") (Some fixed)) now).2.
Proof.
  intros [_ Hnet Hnode Hen Hop] Har Hta Hch Hadm Hlook Hfit query He Hpad.
  assert (decodeRequest payload = Ok query) as Hdec by (apply decodeRequest_complete; [constructor; [apply Har|done]|done]).
  pose proof He as (Hbound & _ & Hparse & _)%encodeRequest_ok.
  destruct (LookupBinding_ok _ _ _ _ _ Hlook) as (_ & w & n & Hvb).
  destruct (VerifyBinding_ok _ _ _ _ _ _ _ _ Hvb) as (_ & Hpl & _ & _ & Hg & Hr & _).
  destruct (resolved_response_encodes query proof binding Hbound Hparse Hpl Hg Hr Hfit) as (raw & padded & Hraw & Hpadded).
  exists raw. split; [done|]. rewrite Hpadded. f_equal.
  unfold serve, resolve. cbn [Path Method Body]. literals. rewrite readLimited_fixed by by eapply padMessage_length.
  rewrite (unpadMessage_padMessage _ _ Hpad), Hdec. unfold answer. cbn [query rq_network rq_name rq_deadline rq_admission rq_nonce].
  rewrite Hop. unfold namespace.AdmitResolution. rewrite Hch, Hnode.
  destruct Hen as (Hnd & _ & _ & Hsurf & Hopd & _). rewrite Hnode in Hnd. rewrite Hsurf. literals.
  rewrite !bool_decide_eq_false_2, !bool_decide_eq_true_2 by done. cbn [negb orb].
  destruct (admission.Verify _ _ _) as [gate [accepted e]]. cbn [fst snd] in Hadm. subst accepted.
  set (g1 := g <| view := _ |>). change (namespace.Network (Some (view g1))) with (namespace.Network (Some (view g))).
  rewrite Hnet, bool_decide_eq_true_2, (ar_window _ _ _ _ Har) by done. cbn [negb orb].
  rewrite (Arrives_accepted g1 _ nonce now) by (destruct Har; by constructor).
  cbn [negb]. set (g2 := g1 <| seen := _ |>).
  change (namespace.LookupBinding (view g2) name (UnixMilli now)) with (namespace.LookupBinding (view g) name (UnixMilli now)).
  rewrite Hlook, Hraw. cbn [mbind result_bind]. by rewrite Hpadded.
Qed.

Lemma accept_complete r name at_ nonce fixed raw response binding warning :
  padMessage raw = Ok fixed -> decodeResponse raw = Ok response ->
  response.(rs_network) = r.(resolver_plan).(NetworkID) -> response.(rs_nonce) = nonce ->
  response.(rs_deadline) = r.(resolver_plan).(plan_Deadline) -> response.(rs_name) = name ->
  response.(rs_result) = resultResolved -> binding.(recordcodec.bound_Name) = name ->
  binding.(recordcodec.bound_Generation) = response.(rs_generation) ->
  binding.(recordcodec.bound_Revision) = response.(rs_revision) ->
  namespace.Verify (Some r.(resolver_plan).(NamespaceVerifier)) response.(rs_proof) (UnixMilli at_) = Ok (binding, warning) ->
  exists r', accept r name at_ nonce fixed = (r', ResolvedTo warning binding).
Proof.
  intros Hpad Hdec Hn Ho Hd Hname Hres Hb Hg Hr Hv. unfold accept. rewrite (unpadMessage_padMessage _ _ Hpad).
  cbn [mbind result_bind]. rewrite Hdec, Hn, Ho, Hd, Hname, Hres, !bool_decide_eq_true_2, Z.eqb_refl, Hv by done.
  cbn [negb orb]. rewrite Hb, Hg, Hr, !Z.eqb_refl, bool_decide_eq_true_2 by done. cbn [negb orb]. by eexists.
Qed.

(** C14: The honest journey.  When the client and the Gateway agree on the Namespace
    Epoch, the challenge is solved and admitted, the request arrives in its window
    with a fresh nonce, and the Gateway's store has the name at the Gateway's and at
    the client's time, with a proof that fits the fixed envelope, then the private
    lookup returns exactly the store's binding. *)
Theorem honest_resolution {A} `{controlAuthority A} (g : gateway A) r name nonce at_ now fuel adm tried proof binding binding' :
  r.(used) = false -> IsZero at_ = false -> UnixNano at_ = r.(resolver_plan).(SelectionAt) ->
  Agreed g r.(resolver_plan) name -> Arrives g r.(resolver_plan).(plan_Deadline) nonce now -> Parse name = Ok name ->
  admission.Solve fuel r.(resolver_plan).(plan_AdmissionChallenge) = Some (adm, tried) -> TypedAdmission adm ->
  (admission.Verify g.(view).(namespace.gateway_admission) (UnixMilli now) adm).2.1 = true ->
  namespace.LookupBinding g.(view) name (UnixMilli now) = Some (proof, binding) ->
  namespace.LookupBinding g.(view) name (UnixMilli at_) = Some (proof, binding') ->
  binding.(recordcodec.bound_Name) = name -> len name + len proof + 99 <= fixedMessageSize - 2 ->
  exists r' warning,
    Resolve fuel r true name at_ (Some nonce) (fun request => Received (Some (serve g request now).2)) =
    Some (r', ResolvedTo warning binding).
Proof.
  intros Hused Hz Hat Hag Har Hparse Hsolve Hta Hadm Hlook Hlook' Hname Hfit.
  pose proof Hag as [Hver Hnet _ Hen Hop]. pose proof Har as [[Hi64 Hpos] _ Hnz _ _].
  destruct (admission.Solve_from_ok _ _ _ _ _ Hsolve) as [Hch _].
  destruct (LookupBinding_ok _ _ _ _ _ Hlook) as (_ & w & n & Hvb).
  destruct (LookupBinding_ok _ _ _ _ _ Hlook') as (_ & w' & n' & Hvb').
  destruct (VerifyBinding_ok _ _ _ _ _ _ _ _ Hvb) as (Hnz' & Hpl & Hg64 & Hr64 & Hg & Hr & Hsame).
  pose proof (Hsame _ _ _ _ Hvb') as ->. set (p := resolver_plan r) in *.
  set (query := MkRequest p.(NetworkID) nonce p.(plan_Deadline) name adm).
  destruct (EncodeWire_DecodeWire _ Hparse) as (wire & Hw & _ & Hwl).
  assert (encodeRequest query = Ok (requestWire query wire (admissionWire adm))) as He.
  { apply encodeRequest_ok. split; [split_and!; [cbn; by rewrite Hnet|done|done]|]. exists wire. split_and!; try done. cbn. by rewrite Hch. }
  destruct (padMessage (requestWire query wire (admissionWire adm))) as [fixed|] eqn:Hpad.
  2:{ exfalso. apply Parse_ok in Hparse as [_ [ls Hcn]]. pose proof (cn_bound _ _ Hcn) as Hb. unfold maxNameLength in Hb.
      pose proof (len_admissionWire adm) as Hal. unfold admissionFixed in Hal. pose proof (len_nonneg name).
      assert (len (requestWire query wire (admissionWire adm)) = 79 + len wire + len (admissionWire adm)) as Hlen.
      { unfold requestWire, headerWire, opening. autorewrite with len. lia. }
      unfold padMessage, fixedMessageSize in Hpad. rewrite (proj2 (Z.eqb_neq _ _)), (proj2 (Z.ltb_ge _ _)) in Hpad by lia. done. }
  destruct (gateway_answers g p name nonce now proof binding adm _ fixed Hag Har Hta Hch Hadm Hlook Hfit He Hpad) as (raw & Hraw & Hpraw).
  assert (decodeResponse raw = Ok (responseTo query (Some (proof, binding)))) as Hdec
    by (by apply decodeResponse_encodeResponse).
  unfold Resolve. rewrite Hused, Hz, Hat, Z.eqb_refl. cbn [negb orb]. change (resolver_plan (r <| used := true |>)) with p.
  rewrite Hop, bool_decide_eq_true_2, Hsolve by done. cbn [negb]. change (MkRequest _ _ _ _ _) with query.
  rewrite He. cbn [mbind result_bind]. rewrite Hpad, readLimited_fixed by by eapply padMessage_length.
  match goal with |- context [accept ?r' _ _ _ _] =>
    destruct (accept_complete r' name at_ nonce _ raw _ binding w' Hpraw Hdec) as [r'' ->] end; try done; [|eauto].
  change (namespace.Verify (Some (NamespaceVerifier p)) proof (UnixMilli at_) = Ok (binding, w')). rewrite Hver.
  unfold namespace.Verify. cbn [namespace.verifier_policy namespace.verifier_minimumEpoch namespace.verifier_epochDigest].
  by rewrite Hvb'.
Qed.

End End_.
