(* ===== verification/ResolutionControl.v ===== *)
(** * Private control operations from end to end

    The JSON messages of a control operation are read back, and an exchange with
    an honest Gateway reports exactly what the Name Authority behind it decided. *)

From S2P Require Import Prelude Wire GoLib GoTime Json Naming Recovery Record RecordCodec Admission ClaimWire.
From S2P Require Import Authority AuthorityProof AuthorityTyped AuthorityPrepare StateView NamespaceView Resolution ResolutionProof ResolutionEnd.

Import json resolution.

Section Control.
Context `{GoLib}.

(** ** Operations survive the text codec *)

Definition kinds : list gostring :=
  [str "claim"; str "renew"; str "record"; str "release"; str "transfer"; str "delegate"; str "policy"; str "recovery"].

Definition steps : list gostring := [[]; str "initiate"; str "cancel"; str "complete"; str "resume"].

Lemma expectedOperation_shape v e :
  authority.expectedOperation v = Some e ->
  v.(authority.Kind) ∈ kinds /\
  (e.(authority.ParentName) = [] \/ (e.(authority.ParentName) = v.(authority.ParentName) /\
     Parse v.(authority.ParentName) = Ok v.(authority.ParentName))) /\
  e.(authority.RecoveryStep) ∈ steps.
Proof.
  unfold authority.expectedOperation, kinds, steps. cbv zeta. intros He.
  repeat match type of He with
  | (if bool_decide (authority.Kind v = _) then _ else _) = _ =>
      destruct (bool_decide _) eqn:? in He; [match goal with X : bool_decide (_ = _) = true |- _ => apply bool_decide_eq_true in X end|]
  end; try done; (split; [set_solver|]).
  6: { destruct (_ || _) eqn:Hg in He; [done|]. injection He as <-. rewrite !orb_false_iff in Hg. destruct_and! Hg.
       split; [right|left]. split; [done|]. destruct (Parse _) as [parent|] eqn:Hp; [|done].
       match goal with X : negb _ = false |- _ => apply negb_false_iff, bool_decide_eq_true in X as -> end. done. }
  7: { destruct (_ || _) eqn:Hg in He; [done|].
       repeat match type of He with (if ?c then _ else _) = _ => destruct c eqn:? in He; try done end; injection He as <-;
         (split; [by left|]); rewrite ?orb_true_iff, ?bool_decide_eq_true in *; set_solver. }
  all: destruct (_ || _) in He; [done|]; injection He as <-; split; left; done.
Qed.

Lemma operation_plain o : authority.validControlOperation o = true -> PlainOperation o.
Proof.
  unfold authority.validControlOperation. destruct (Parse (authority.Name o)) as [name|] eqn:Hn; [|done].
  destruct (_ || _) eqn:Hg; [done|]. rewrite !orb_false_iff in Hg. destruct Hg as (((((Hname & _) & _) & _) & _) & _).
  apply negb_false_iff, bool_decide_eq_true in Hname as ->. destruct (_ && _) eqn:Hm; [done|].
  destruct (authority.expectedOperation o) as [e|] eqn:He; [|done]. destruct (_ <? _); [done|]. intros Hv.
  apply expectedOperation_shape in He as (Hk & Hp & Hs).
  assert (authority.ParentName o = authority.ParentName e /\ authority.RecoveryStep o = authority.RecoveryStep e) as [Ep Er].
  { destruct (_ <? _) in Hv; apply bool_decide_eq_true in Hv as ->; done. }
  constructor.
  - unfold kinds in Hk. repeat (apply elem_of_cons in Hk as [->|Hk]; [by apply literal_ascii|]). by apply not_elem_of_nil in Hk.
  - apply andb_false_iff in Hm. rewrite !negb_false_iff, !bool_decide_eq_true in Hm.
    destruct Hm as [->| ->]; [constructor|by apply literal_ascii].
  - by apply name_ascii.
  - rewrite Ep. destruct Hp as [->|[-> Hp]]; [constructor|by apply name_ascii].
  - rewrite Er. unfold steps in Hs. apply elem_of_cons in Hs as [->|Hs]; [constructor|].
    repeat (apply elem_of_cons in Hs as [->|Hs]; [by apply literal_ascii|]). by apply not_elem_of_nil in Hs.
Qed.

(** ** The JSON messages *)

Record JsonProof (p : admission.Proof) : Prop := {
  jp_epoch : in_u64 p.(admission.proof_Challenge).(admission.Epoch);
  jp_surface : Forall (fun c => ascii c = true) p.(admission.proof_Challenge).(admission.Surface);
  jp_issued : in_i64 p.(admission.proof_Challenge).(admission.IssuedAt);
  jp_expires : in_i64 p.(admission.proof_Challenge).(admission.ExpiresAt);
  jp_work : 0 <= p.(admission.proof_Challenge).(admission.WorkBits) <= 255;
  jp_nonce : in_u64 p.(admission.WorkNonce)
}.

Lemma challenge_lawful :
  Lawful (struct zeroChallenge challengeFields) (fun c => JsonProof (admission.MkProof c 0)).
Proof.
  apply struct_lawful; [by vm_compute; repeat constructor; set_solver|by repeat constructor|].
  intros c []. split; [|by destruct c]. repeat constructor; claimwire.readable.
Qed.

Lemma proof_lawful : Lawful proofCodec JsonProof.
Proof.
  apply struct_lawful; [by vm_compute; repeat constructor; set_solver|by repeat constructor|].
  intros p Hp. split; [|by destruct p]. pose proof challenge_lawful as Hc. destruct Hp.
  repeat constructor; claimwire.readable.
Qed.

(** A printed operation. *)
Definition Printed (raw : bytes) : Prop := exists o, authority.decodeControlOperation raw = Ok o.

Lemma rawOperation_lawful : Lawful rawOperation Printed.
Proof.
  intros raw rest [o Ho] Hends. apply decodeControlOperation_ok in Ho as (Hd & Ht & Hv & _).
  apply decodeCanonical_sound in Hd as <-. apply operation_plain in Hv. cbn [rawOperation print parse id].
  unfold Marshal. rewrite (operationCodec_lawful o rest (conj Ht Hv) Hends), length_app.
  replace (length _ + length rest - length rest)%nat with (length (print authority.operationCodec o)) by lia.
  by rewrite take_app_length.
Qed.

Record JsonRequest (w : controlRequestWire) : Prop := {
  jr_schema : Forall (fun c => ascii c = true) w.(cq_Schema);
  jr_deadline : in_i64 w.(cq_Deadline);
  jr_operation : Printed w.(cq_Operation);
  jr_admission : JsonProof w.(cq_Admission)
}.

Lemma request_lawful : Lawful requestCodec JsonRequest.
Proof.
  apply struct_lawful; [by vm_compute; repeat constructor; set_solver|by repeat constructor|].
  intros w []. split; [|by destruct w]. pose proof proof_lawful. pose proof rawOperation_lawful.
  repeat constructor; claimwire.readable.
Qed.

Lemma result_lawful : Lawful resultCodec (fun class => Forall (fun c => ascii c = true) class).
Proof.
  apply struct_lawful; [by vm_compute; repeat constructor; set_solver|by repeat constructor|].
  intros c Hc. split; [|done]. repeat constructor; claimwire.readable.
Qed.

Record JsonResponse (w : controlResponseWire) : Prop := {
  js_schema : Forall (fun c => ascii c = true) w.(cr_Schema);
  js_deadline : in_i64 w.(cr_Deadline);
  js_result : Forall (fun c => ascii c = true) w.(cr_Result)
}.

Lemma response_lawful : Lawful responseCodec JsonResponse.
Proof.
  apply struct_lawful; [by vm_compute; repeat constructor; set_solver|by repeat constructor|].
  intros w []. split; [|by destruct w]. pose proof result_lawful. repeat constructor; claimwire.readable.
Qed.

Lemma OpenSubmission_ok raw submission :
  authority.OpenSubmission raw = Ok submission ->
  Printed raw /\ submission.(authority.raw) = raw /\ authority.OpenSubmission submission.(authority.raw) = Ok submission.
Proof.
  unfold authority.OpenSubmission. destruct (authority.decodeControlOperation raw) as [o|] eqn:Hd; [|done].
  intros Ho. apply (inj Ok) in Ho as <-. split_and!; [by exists o|done|]. cbn [authority.raw]. by rewrite Hd.
Qed.

Lemma controlRequest_decodes raw submission binding proof fixed :
  authority.OpenSubmission raw = Ok submission -> in_i64 binding.(cb_deadline) -> JsonProof proof ->
  controlRequest submission binding proof = Ok fixed ->
  decodeControlRequest fixed = Ok (MkControlRequest submission binding proof) /\ len fixed = fixedMessageSize.
Proof.
  intros (Hpr & Hraw & Hopen)%OpenSubmission_ok Hd Hp. unfold controlRequest.
  destruct (_ || _) eqn:Hc; [done|]. rewrite !orb_false_iff in Hc. destruct Hc as ((((Hn & Ho) & Hpos) & _) & _).
  set (w := MkRequestWire _ _ _ _ _ _). intros Hpad. split; [|by eapply padMessage_length].
  rewrite <- Hraw in Hpr. assert (JsonRequest w) as Hw by (constructor; [by apply literal_ascii|exact Hd|exact Hpr|exact Hp]).
  pose proof (decodeCanonical_complete requestCodec JsonRequest w request_lawful Hw) as Hdec. unfold decodeControlRequest.
  rewrite (unpadMessage_padMessage _ _ Hpad). cbn [mbind result_bind]. rewrite Hdec. unfold w.
  cbn [cq_Schema cq_Network cq_Nonce cq_Deadline cq_Operation cq_Admission].
  rewrite (bool_decide_eq_true_2 (controlSchema = _)), Hn, Ho, Hpos, Hopen by done. by destruct binding.
Qed.

Lemma controlResponse_decodes binding digest class fixed :
  in_i64 binding.(cb_deadline) -> controlResponse binding digest class = Ok fixed ->
  decodeControlResponse fixed =
    Ok (MkResponseWire controlSchema binding.(cb_network) binding.(cb_nonce) binding.(cb_deadline) digest class) /\
  len fixed = fixedMessageSize.
Proof.
  intros Hd. unfold controlResponse. destruct (_ || _) eqn:Hc; [done|]. rewrite !orb_false_iff in Hc.
  destruct Hc as ((((Hn & Ho) & Hpos) & Hdig) & Hres). set (w := MkResponseWire _ _ _ _ _ _). intros Hpad.
  split; [|by eapply padMessage_length]. apply negb_false_iff in Hres.
  assert (Forall (fun c => ascii c = true) class) as Hascii.
  { unfold validControlResult in Hres. rewrite orb_true_iff, !bool_decide_eq_true in Hres.
    destruct Hres as [->| ->]; by apply literal_ascii. }
  assert (JsonResponse w) as Hw by (constructor; [by apply literal_ascii|done|done]).
  pose proof (decodeCanonical_complete responseCodec JsonResponse w response_lawful Hw) as Hdec. unfold decodeControlResponse.
  rewrite (unpadMessage_padMessage _ _ Hpad). cbn [mbind result_bind]. rewrite Hdec.
  cbn [w cr_Schema cr_Network cr_Nonce cr_Deadline cr_OperationDigest cr_Result].
  by rewrite (bool_decide_eq_true_2 (controlSchema = _)), Hn, Ho, Hpos, Hdig, Hres.
Qed.

(** ** The journey of a control operation *)

(** The client's challenge is the Gateway's, for this submission. *)
Record Addressed {A} (g : gateway A) (p : controlPlan) (submission : authority.Submission) : Prop := {
  bd_network : p.(control_NetworkID) = namespace.Network (Some g.(view)) /\ p.(control_NetworkID) <> zero32;
  bd_node : p.(control_AdmissionChallenge).(admission.Node) = g.(config_NodeID);
  bd_challenge : p.(control_AdmissionChallenge).(admission.Network) = p.(control_NetworkID);
  bd_operation : submission.(authority.digest) = p.(control_AdmissionChallenge).(admission.OperationDigest) /\
    submission.(authority.digest) <> zero32
}.

(** What the client reports for the class the authority gave. *)
Definition reported (class : gostring) : gostring * option error :=
  if class ==? str "submitted" then (str "submitted", None)
  else (str "denied", Some (New "private naming control was denied")).

(** *** A response always fits its envelope *)

Lemma digits_length fuel n : (length (digits fuel n) <= fuel)%nat.
Proof.
  revert n. induction fuel as [|fuel IH]; intros n; cbn [digits]; [done|]. destruct (n <? 10); [cbn; lia|].
  rewrite length_app. specialize (IH (n / 10)). cbn [length]. lia.
Qed.

Lemma print_int_length z : (length (print_int z) <= 21)%nat.
Proof. unfold print_int. destruct (z <? 0); cbn [length]; pose proof (digits_length 20); [specialize (H0 (- z))|specialize (H0 z)]; lia. Qed.

Lemma printItems_bound {A} (c : codec A) k l :
  (forall x, length (print c x) <= k)%nat -> (length (printItems c l) <= (k + 1) * length l + 1)%nat.
Proof.
  intros Hk. induction l as [|x l IH]; [cbn; lia|]. pose proof (Hk x) as Hx. destruct l as [|y l].
  - cbn [printItems length]. rewrite length_app. cbn [length]. lia.
  - rewrite printItems_more, length_app. cbn [length] in *. lia.
Qed.

Lemma array_print_length n (a : array n) : (length (print (array_ n) a) <= 22 * n + 2)%nat.
Proof.
  cbn [array_ via print list_ length].
  pose proof (printItems_bound uint8 21 (map byte_val (array_bytes a)) print_int_length) as Hb.
  rewrite length_map in Hb. pose proof (len_array a) as Hl. unfold len in Hl. lia.
Qed.

(** The sum over the fields of their separators, keys and values. *)
Fixpoint fieldsBound {R} (fs : list (field R)) (bounds : list nat) : nat :=
  match fs, bounds with
  | f :: fs, b :: bounds => 1 + length (key f.(field_name)) + b + fieldsBound fs bounds
  | _, _ => 1
  end.

Lemma printFields_bound {R} first (fs : list (field R)) bounds r :
  Forall2 (fun f b => length (f.(field_codec).(print) (f.(get) r)) <= b)%nat fs bounds ->
  (length (printFields first fs r) <= fieldsBound fs bounds)%nat.
Proof.
  intros Hf. revert first. induction Hf as [|f b fs bounds Hb _ IH]; intros first; [done|]. cbn [printFields fieldsBound].
  destruct (omitted f r); [specialize (IH first); lia|]. rewrite !length_app. specialize (IH false).
  destruct first; cbn [length]; lia.
Qed.

Lemma response_length w :
  w.(cr_Schema) = controlSchema -> validControlResult w.(cr_Result) = true ->
  0 < len (Marshal responseCodec w) <= fixedMessageSize - 2.
Proof.
  intros Hs Hc. unfold Marshal, responseCodec. cbn [struct print]. rewrite len_cons. unfold len, fixedMessageSize.
  set (fs := [_; _; _; _; _; _]).
  assert (length (printFields true fs w) <= fieldsBound fs [33; 706; 706; 21; 706; 100])%nat as Hb.
  { apply printFields_bound. unfold fs. rewrite !Forall2_cons. split_and!; cbn [claimwire.required field_codec get]; [..|constructor].
    - rewrite Hs. apply Nat.leb_le. vm_compute. reflexivity.
    - apply array_print_length.
    - apply array_print_length.
    - apply print_int_length.
    - apply array_print_length.
    - unfold validControlResult in Hc. rewrite orb_true_iff, !bool_decide_eq_true in Hc. destruct Hc as [->| ->];
        apply Nat.leb_le; vm_compute; reflexivity. }
  assert (fieldsBound fs [33; 706; 706; 21; 706; 100] <= 3000)%nat by (apply Nat.leb_le; vm_compute; reflexivity). lia.
Qed.

Lemma controlResponse_fits binding digest class :
  binding.(cb_network) <> zero32 -> binding.(cb_nonce) <> zero32 -> 0 < binding.(cb_deadline) -> digest <> zero32 ->
  validControlResult class = true -> exists fixed, controlResponse binding digest class = Ok fixed.
Proof.
  intros Hn Ho Hd Hdig Hc. unfold controlResponse.
  rewrite !bool_decide_eq_false_2, (proj2 (Z.leb_gt _ _)), Hc by done. cbn [negb orb].
  set (w := MkResponseWire _ _ _ _ _ _). pose proof (response_length w eq_refl Hc) as Hfit.
  unfold padMessage. rewrite (proj2 (Z.eqb_neq _ _)), (proj2 (Z.ltb_ge _ _)) by lia. cbn [orb]. by eexists.
Qed.

Lemma reported_valid class :
  validControlResult (reported class).1 = true /\
  (if class ==? str "submitted" then str "submitted" else str "denied") = (reported class).1.
Proof. unfold reported. by case_bool_decide. Qed.

(** What an honest Gateway does with a control request. *)
Lemma gateway_submits {A} `{controlAuthority A} (g : gateway A) p raw submission nonce now adm a a' class fixed :
  Addressed g p submission -> Arrives g p.(control_Deadline) nonce now -> authority.OpenSubmission raw = Ok submission ->
  adm.(admission.proof_Challenge) = p.(control_AdmissionChallenge) -> JsonProof adm ->
  g.(port) = Some a -> Submit a submission adm = (a', class) ->
  let binding := MkControlBinding p.(control_NetworkID) nonce p.(control_Deadline) in
  controlRequest submission binding adm = Ok fixed ->
  let served := serve g (MkHttp (str "POST") (str "/control") (Some fixed)) now in
  served.1.(port) = Some a' /\ controlResponse binding submission.(authority.digest) (reported class).1 = Ok served.2.
Proof.
  intros [[Hnet Hnz] Hnode Hch [Hop Hdig]] Har Hopen Hadm Hj Hport Hsub binding Hreq.
  destruct (controlRequest_decodes raw submission binding adm fixed Hopen (proj1 (ar_deadline _ _ _ _ Har)) Hj Hreq) as [Hdec Hlen].
  destruct (reported_valid class) as [Hval Hclass].
  destruct (controlResponse_fits binding submission.(authority.digest) (reported class).1) as [response Hresp];
    [done|apply Har|apply Har|done|done|].
  unfold serve, control. cbn [Path Method Body]. literals. rewrite Hport, readLimited_fixed, Hdec by done.
  cbn [cv_admission cv_binding cv_submission].
  rewrite (bool_decide_eq_true_2 (cb_network binding = _)) by exact Hnet.
  rewrite (bool_decide_eq_true_2 (admission.Node _ = _)) by (rewrite Hadm; exact Hnode).
  rewrite (bool_decide_eq_true_2 (admission.Network _ = _)) by (rewrite Hadm; exact Hch).
  rewrite (bool_decide_eq_true_2 (admission.OperationDigest _ = _)) by (rewrite Hadm; by symmetry).
  rewrite (ar_window _ _ _ _ Har : inWindow (cb_deadline binding) now = true). cbn [negb orb].
  rewrite (Arrives_accepted _ _ _ _ Har : acceptNonce g (cb_nonce binding) (cb_deadline binding) now = _). cbn [negb].
  by rewrite Hsub, Hclass, Hresp.
Qed.

(** C15: A control operation from end to end.  A client that submits a canonical
    operation to an honest Gateway, in time, with a fresh nonce and a solved
    challenge of that Gateway for that operation, learns exactly what the Name
    Authority behind the Gateway decided, and that decision was taken once on this
    submission with this proof. *)
Theorem control_journey {A} `{controlAuthority A} (g : gateway A) client raw submission nonce at_ now fuel adm tried a a' class payload :
  client.(client_used) = false -> IsZero at_ = false -> UnixNano at_ = client.(client_plan).(control_SelectionAt) ->
  authority.OpenSubmission raw = Ok submission -> Addressed g client.(client_plan) submission ->
  Arrives g client.(client_plan).(control_Deadline) nonce now ->
  admission.Solve fuel client.(client_plan).(control_AdmissionChallenge) = Some (adm, tried) -> JsonProof adm ->
  controlRequest submission (MkControlBinding client.(client_plan).(control_NetworkID) nonce client.(client_plan).(control_Deadline))
    adm = Ok payload ->
  g.(port) = Some a -> Submit a submission adm = (a', class) ->
  Execute fuel client true raw at_ (Ok nonce) (fun request => Received (Some (serve g request now).2)) =
    Some (MkControlClient client.(client_plan) true, reported class) /\
  (serve g (MkHttp (str "POST") (str "/control") (Some payload)) now).1.(port) = Some a'.
Proof.
  intros Hused Hz Hat Hopen Had Har Hsolve Hj Hreq Hport Hsub. set (p := client_plan client) in *.
  destruct (admission.Solve_from_ok _ _ _ _ _ Hsolve) as [Hch _].
  destruct (gateway_submits g p raw submission nonce now adm a a' class payload Had Har Hopen Hch Hj Hport Hsub Hreq) as [Hp Hresp].
  split; [|done]. destruct (controlResponse_decodes (MkControlBinding p.(control_NetworkID) nonce p.(control_Deadline)) _ _ _
    (proj1 (ar_deadline _ _ _ _ Har)) Hresp) as [Hdec Hlen].
  unfold Execute. rewrite Hused, Hz. fold p. rewrite Hat, Z.eqb_refl, Hopen. cbn [negb orb].
  rewrite (proj1 (bd_operation _ _ _ Had)), bool_decide_eq_true_2, Hsolve, Hreq by done. cbn [negb].
  rewrite readLimited_fixed, Hdec by done.
  cbn [cr_Network cr_Nonce cr_Deadline cr_OperationDigest cr_Result cb_network cb_nonce cb_deadline].
  rewrite (proj1 (bd_operation _ _ _ Had)), !bool_decide_eq_true_2, Z.eqb_refl by done. cbn [negb orb].
  unfold reported. destruct (bool_decide (class = str "submitted")); cbn [fst]; by literals.
Qed.

End Control.
