(* ===== verification/ResolutionWitness.v ===== *)
(** * Private name resolution: one network at work

    A Network State view with a Relay, a Gateway and a Rendezvous, a Gateway over
    the store of one installed name, a client that resolves the name and one that
    publishes a new Record for it. *)

From S2P Require Import Prelude Wire GoLib GoTime Json Naming Recovery Record RecordCodec Admission Claim Merkle.
From S2P Require Import EpochCodec EpochBuild EpochProof EpochDisk EpochDurable EpochStore EpochStoreProof EpochInstall.
From S2P Require Import Authority AuthorityProof AuthorityTyped AuthorityPrepare AuthorityWitness.
From S2P Require Import StateView NamespaceView Resolution ResolutionProof ResolutionEnd ResolutionControl.

Import resolution.

#[local] Existing Instance sample_golib.

Definition startAt : Z := 4000 * Second.
Definition endAt : Z := 4010 * Second.

(** ** The network *)

Definition candidate (node : Z) (family endpoint : string) (domain : gostring) : state.routeCandidate :=
  state.MkCandidate (recovery.key node) (recovery.key node) zero32 (recovery.key (node + 100)) zero32 zero32 (str family) (str endpoint)
    [] 1 domain
    0 (9000 * Second) (9000 * Second).

Definition sampleSnapshot : state.Snapshot :=
  state.MkSnapshot (str "generation-3") sampleNetwork 3 (recovery.key 9) 0 (9000 * Second) state.interactiveRouteProfile
    (recovery.key 2) 3 zero32 0 (str "fresh") false 0 [] [] [] [] 0 0 0 zero32 0
    (map (fun p : array 32 => sha256 p) sampleAuthorities) sampleAuthorities 2 2
    false zero32 zero32 0 0 0 [] [] [] 0 [] zero32 zero32 [] 0 zero32 [] 0 3
    [candidate 70 "first" "10.0.0.1:443" initiatorDomain; candidate 60 "second" "10.0.0.2:443" rendezvousDomain;
     candidate 72 "third" "[2001:db8::1]:443" rendezvousDomain].

Definition sampleView : state.ResolutionView := state.MkView sampleSnapshot.

Definition gatewayView : namespace.ResolutionGateway :=
  namespace.MkGateway (opened samplePolicy firstDisk) samplePolicy 3 (recovery.key 9) quietGate.

Definition sampleDurable : durableControl := MkDurable sampleControl sampleNow sampleStage [].

Definition sampleGateway : gateway durableControl :=
  match NewGateway (recovery.key 60) (str "second") rendezvousDomain (9000 * Second) 4 (zero32 ++ recovery.key 60) true
          (Some gatewayView, Some sampleDurable) (Ok [x01; x02]) with
  | Ok g => g
  | Err _ => MkGatewayState zero32 0 0 gatewayView None (MkProfile zero32 zero32 [] zero32 0 []) ∅ (MkObservation 0 0 0) []
  end.

(** ** A lookup *)

Definition challengeFor (digest : array 32) (surface : string) (salt : Z) : admission.Challenge :=
  match (admission.Issue quietGate 4000000 (str surface) digest (recovery.key 62) 4020000 (to_array 16 [byte_of salt])).2 with
  | Ok c => c
  | Err _ => zeroChallenge
  end.

Definition lookupDigest (deadline : Z) : array 32 :=
  match resolutionAdmissionDigest sampleNetwork (str "example") deadline with Ok d => d | Err _ => zero32 end.

Definition sampleSelection : Selection :=
  MkSelection startAt endAt (recovery.key 70) (recovery.key 60) (recovery.key 72) [recovery.key 90] [str "other"]
    (challengeFor (lookupDigest endAt) "resolution" 7).

Definition sampleResolver : result resolver :=
  Open sampleView sampleSelection sampleGateway.(profile) (recovery.key 62) true (fun _ => true).

Definition opened_ : resolver :=
  match sampleResolver with
  | Ok r => r
  | Err _ => MkResolver (MkPlan zero32 [] 0 zero32 zero32 0 0 (MkPosition zero32 zero32 [] [] [] 0) (MkPosition zero32 zero32 [] [] [] 0)
      (MkPosition zero32 zero32 [] [] [] 0) [] zero32 [] [] zeroChallenge (namespace.MkVerifier samplePolicy 0 zero32)) true
      (MkResolverEvidence "" [] zero32 zero32 zero32 zero32 zero32 zero32 zero32 0 "" 0 0)
  end.

Definition clientNonce : array 32 := recovery.key 33.

Lemma sampleResolver_opens : sampleResolver = Ok opened_.
Proof. vm_compute. reflexivity. Qed.

Definition exchange : httpRequest -> exchanged := fun request => Received (Some (serve sampleGateway request startAt).2).

Definition resolved_ : option (resolver * outcome) :=
  Resolve 1 opened_ true (str "example") startAt (Some clientNonce) exchange.

Definition lookupBinding (at_ : Z) : option (bytes * recordcodec.Binding) :=
  namespace.LookupBinding gatewayView (str "example") (UnixMilli at_).

Definition lookedUp : bytes * recordcodec.Binding :=
  match lookupBinding startAt with Some found => found | None => ([], recordcodec.sampleBinding) end.

Definition spent : resolver := match resolved_ with Some (r, _) => r | None => opened_ end.
Definition warned : string := match resolved_ with Some (_, ResolvedTo w _) => w | _ => ""%string end.

Lemma sampleResolver_resolves : resolved_ = Some (spent, ResolvedTo warned lookedUp.2).
Proof. vm_compute. reflexivity. Qed.

Lemma resolve_sound_witness :
  spent.(used) = true /\ lookedUp.2.(recordcodec.bound_Name) = str "example" /\ Separated sampleSelection opened_.(resolver_plan).
Proof.
  pose proof (resolve_sound sampleView sampleSelection sampleGateway.(profile) (recovery.key 62) true (fun _ => true) opened_
    1 true (str "example") startAt (Some clientNonce) exchange spent warned lookedUp.2 sampleResolver_opens sampleResolver_resolves)
    as (Hused & Hname & Hsep & _).
  exact (conj Hused (conj Hname Hsep)).
Defined.

(** The client and the Gateway agree, and the call arrives in time. *)
Lemma sample_agreed : Agreed sampleGateway opened_.(resolver_plan) (str "example").
Proof.
  constructor; [by vm_compute..| |by vm_compute].
  unfold Encodable. split_and!; try (by vm_compute); by apply bool_decide_unpack; vm_compute.
Qed.

Lemma sample_arrives : Arrives sampleGateway opened_.(resolver_plan).(plan_Deadline) clientNonce startAt.
Proof. constructor; by vm_compute. Qed.

Lemma sample_solved :
  admission.Solve 1 opened_.(resolver_plan).(plan_AdmissionChallenge) =
    Some (admission.MkProof opened_.(resolver_plan).(plan_AdmissionChallenge) 0, 1).
Proof. vm_compute. reflexivity. Qed.

Lemma sample_looked : namespace.LookupBinding sampleGateway.(view) (str "example") (UnixMilli startAt) = Some (lookedUp.1, lookedUp.2).
Proof. vm_compute. reflexivity. Qed.

Lemma honest_resolution_witness :
  exists r' warning,
    Resolve 1 opened_ true (str "example") startAt (Some clientNonce) exchange = Some (r', ResolvedTo warning lookedUp.2).
Proof.
  unfold exchange.
  simple apply (honest_resolution sampleGateway opened_ (str "example") clientNonce startAt startAt 1
    (admission.MkProof opened_.(resolver_plan).(plan_AdmissionChallenge) 0) 1 lookedUp.1 lookedUp.2 lookedUp.2).
  - by vm_compute.
  - by vm_compute.
  - by vm_compute.
  - exact sample_agreed.
  - exact sample_arrives.
  - by vm_compute.
  - exact sample_solved.
  - constructor; by vm_compute.
  - by vm_compute.
  - exact sample_looked.
  - exact sample_looked.
  - by vm_compute.
  - by vm_compute.
Defined.

(** ** A nonce used again after its deadline *)

(** The client asks for the name with a given deadline, on a challenge of its own. *)
Definition lookupCall (deadline salt : Z) : httpRequest :=
  let query := MkRequest sampleNetwork clientNonce deadline (str "example")
    (admission.MkProof (challengeFor (lookupDigest deadline) "resolution" salt) 0) in
  MkHttp (str "POST") (str "/resolve")
    match encodeRequest query ≫= padMessage with Ok fixed => Some fixed | Err _ => None end.

Definition lateAt : Z := 4011 * Second.
Definition lookupCalls : list (httpRequest * Z) :=
  [(lookupCall endAt 7, startAt); (lookupCall endAt 8, startAt); (lookupCall (4019 * Second) 9, lateAt)].

Definition lookupAnswers : list bytes := (serveAll sampleGateway lookupCalls).2.

Lemma repeated_rejected : lookupAnswers !! 1%nat = Some rejection.
Proof. vm_compute. reflexivity. Qed.

Lemma nonce_once_witness :
  exists k rq t, (0 < k <= 2)%nat /\ lookupCalls !! k = Some (rq, t) /\ endAt <= UnixNano t.
Proof.
  refine (nonce_once sampleGateway lookupCalls 0 2 (lookupCall endAt 7) (lookupCall (4019 * Second) 9) startAt lateAt
    clientNonce endAt (4019 * Second) (nth 0 lookupAnswers []) (nth 2 lookupAnswers []) _ _ _ _ _ _ _ _ _).
  - vm_compute. reflexivity.
  - reflexivity.
  - vm_compute. reflexivity.
  - apply (bool_decide_unpack _). vm_compute. exact I.
  - vm_compute. reflexivity.
  - reflexivity.
  - vm_compute. reflexivity.
  - apply (bool_decide_unpack _). vm_compute. exact I.
  - lia.
Defined.

(** ** A publication through the Gateway *)

Definition controlSelection : Selection :=
  MkSelection startAt endAt (recovery.key 70) (recovery.key 60) zero32 [recovery.key 90] [str "other"]
    (challengeFor publication.(authority.OperationDigest) "renewal-update" 7).

Definition sampleClient : controlClient :=
  match OpenControl sampleView controlSelection sampleGateway.(profile) (recovery.key 62) true (fun _ => true) with
  | Ok client => client
  | Err _ => MkControlClient (MkControlPlan zero32 0 0 (MkPosition zero32 zero32 [] [] [] 0) (MkPosition zero32 zero32 [] [] [] 0)
      [] zeroChallenge) true
  end.

Definition submission_ : authority.Submission := preparedOf publication sampleNow.
Definition clientProof : admission.Proof := admission.MkProof sampleClient.(client_plan).(control_AdmissionChallenge) 0.
Definition clientPayload : bytes :=
  recordcodec.okBytes (controlRequest submission_ (MkControlBinding sampleNetwork clientNonce endAt) clientProof).

Lemma sample_submits : (Submit sampleDurable submission_ clientProof).2 = str "submitted".
Proof. vm_compute. reflexivity. Qed.

Lemma control_journey_witness :
  Execute 1 sampleClient true submission_.(authority.raw) startAt (Ok clientNonce) exchange =
    Some (MkControlClient sampleClient.(client_plan) true, (str "submitted", None)) /\
  (serve sampleGateway (MkHttp (str "POST") (str "/control") (Some clientPayload)) startAt).1.(port) =
    Some (Submit sampleDurable submission_ clientProof).1.
Proof.
  refine (control_journey sampleGateway sampleClient submission_.(authority.raw) submission_ clientNonce startAt startAt 1
    clientProof 1 sampleDurable (Submit sampleDurable submission_ clientProof).1 (str "submitted") clientPayload
    _ _ _ _ _ _ _ _ _ _ _).
  - vm_compute. reflexivity.
  - vm_compute. reflexivity.
  - vm_compute. reflexivity.
  - vm_compute. reflexivity.
  - constructor; [split; [by vm_compute|by apply (bool_decide_unpack _); vm_compute]|by vm_compute..|].
    split; [by vm_compute|by apply (bool_decide_unpack _); vm_compute].
  - constructor; by vm_compute.
  - vm_compute. reflexivity.
  - constructor; try (by vm_compute). by vm_compute; repeat constructor.
  - vm_compute. reflexivity.
  - reflexivity.
  - rewrite <- sample_submits. apply surjective_pairing.
Defined.
