(* ===== verification/NetEpoch.v ===== *)
(** * Network Epochs (internal/network/state)

    What a node must check before it takes over a new state of the network: the
    parser of the signed Epoch and of the Node records, the signatures and the
    chain, the evaluation of the input log into the candidate view with its
    rejections, the commitments, the assignment of families to role domains, the
    inclusion proofs, the decision that joins them, the walk back through the
    stored generations, and the Snapshot shown to clients. *)

From S2P Require Import Prelude Wire GoLib GoTime Json Merkle StateView.

Import json.

Module netstate.

(** [time.Unix(sec, 0)]: the seconds are kept from the year 1, in 64 bits. *)
Definition OfUnix (sec : Z) : Z := (i64 (sec + 62135596800) - 62135596800) * Second.

(** ** decoder.go *)

Definition truncated : error := New "truncated canonical bytes".

(** [utf8.Valid]; the length is enough fuel. *)
Fixpoint utf8_Valid (fuel : nat) (raw : bytes) : bool :=
  match fuel, raw with
  | _, [] => true
  | O, _ => false
  | S fuel, c :: rest =>
      if byte_val c <? 128 then utf8_Valid fuel rest
      else match utf8Width raw with Some n => utf8_Valid fuel (drop n raw) | None => false end
  end.

Definition printing (c : byte) : bool := (33 <=? byte_val c) && (byte_val c <=? 126).

Definition text (maximum : Z) : decoder gostring :=
  length ← take_uint 1 truncated;
  if (length =? 0) || (maximum <? length) then decode_fail (New "canonical text length is invalid")
  else
    value ← take_bytes length truncated;
    if negb (utf8_Valid (List.length value) value) then decode_fail (New "canonical text is not UTF-8")
    else if negb (forallb printing value) then decode_fail (New "canonical text contains a non-printing byte")
    else mret value.

Definition take_int64 (e : error) : decoder Z := value ← take_uint 8 e; mret (i64 value).

(** ** epoch_profile.go *)

Definition roleProbeProfile : gostring := str "h3-role-probe-v1".
Definition closedRouteProfile : gostring := str "ardents-route-v3".

Definition knownProfile (profile : gostring) : bool :=
  (profile ==? roleProbeProfile) || (profile ==? state.interactiveRouteProfile) || (profile ==? closedRouteProfile).

Definition matchProfile (expected actual : gostring) : result unit :=
  let expected := if expected ==? [] then roleProbeProfile else expected in
  reject (New "epoch profile does not match the configured consumer") when (expected !=? actual);
  Ok tt.

Definition requiredCapability (profile : gostring) : Z :=
  if (profile ==? state.interactiveRouteProfile) || (profile ==? closedRouteProfile) then 2 else 1.

(** ** epoch_record.go *)

Definition maximumRecordBytes : Z := 32 * 2 ^ 10.

Definition legacyTCPCarrierProfile : gostring := str "ardents-carrier-tcp-tls-v1".
Definition quicCarrierProfile : gostring := str "ardents-carrier-quic-v1".
Definition closedTCPCarrierProfile : gostring := str "ardents-carrier-tcp-tls-v2".
Definition closedQUICCarrierProfile : gostring := str "ardents-carrier-quic-v2".

Record nodeRecord := MkNode {
  raw : bytes;
  rec_networkID : array 32;
  nodeID : array 32;
  generation : Z;
  notBefore : Z;
  notAfter : Z;
  family : gostring;
  capability : Z;
  endpoint : gostring;
  carrier : gostring;
  capacity : Z;
  publicKey : bytes;
  keyID : array 32;
  signature : bytes
}.

(** The zero value, kept for an input that does not parse. *)
Definition zeroRecord : nodeRecord := MkNode [] zero32 zero32 0 0 0 [] 0 [] [] 0 [] zero32 [].

Section Records.
Context `{GoLib}.

Definition recordFields (input : bytes) : decoder nodeRecord :=
  magic ← or_error (New "record magic is invalid") (take_bytes 4 truncated);
  if magic !=? str "ARNR" then decode_fail (New "record magic is invalid") else
  version ← or_error (New "record schema version is invalid") (take_uint 1 truncated);
  if negb ((version =? 1) || (version =? 2)) then decode_fail (New "record schema version is invalid") else
  network ← take_array 32 truncated;
  node ← take_array 32 truncated;
  number ← take_uint 8 (New "record generation is invalid");
  if number =? 0 then decode_fail (New "record generation is invalid") else
  from ← take_int64 truncated;
  until ← take_int64 (New "record validity interval is invalid");
  if until <=? from then decode_fail (New "record validity interval is invalid") else
  declared ← text 32;
  able ← take_uint 1 truncated;
  address ← text 96;
  profile ← (if version =? 2 then text 48 else mret legacyTCPCarrierProfile);
  size ← take_uint 2 truncated;
  public ← take_bytes 32 truncated;
  signed ← take_bytes 64 truncated;
  mret (MkNode input network node number (OfUnix from) (OfUnix until) declared able address profile size public
          (sha256 public) signed).

Definition parseRecord (input : bytes) : result nodeRecord :=
  reject (New "record framing length is invalid") when ((len input =? 0) || (maximumRecordBytes <? len input));
  match recordFields input input with
  | Err e => Err e
  | Ok (record, rest) =>
      reject (New "record contains trailing bytes") when (negb (len rest =? 0));
      Ok record
  end.

Definition validCarrierProfile (profile : gostring) : bool :=
  (profile ==? legacyTCPCarrierProfile) || (profile ==? quicCarrierProfile) ||
  (profile ==? closedTCPCarrierProfile) || (profile ==? closedQUICCarrierProfile).

Definition validCarrierForEpoch (profile carrier : gostring) : bool :=
  if profile ==? closedRouteProfile then (carrier ==? closedTCPCarrierProfile) || (carrier ==? closedQUICCarrierProfile)
  else validCarrierProfile carrier.

Definition signatureValid (record : nodeRecord) : bool :=
  ed25519_Verify record.(publicKey) (take (Z.to_nat (len record.(raw) - 64)) record.(raw)) record.(signature).

End Records.

(** ** epoch_envelope.go *)

Definition maximumEpochBytes : Z := 2 ^ 20.
Definition maximumEpochChain : Z := 64.
Definition assignmentV1 : gostring := str "ardents-h3-role-domain-v1".
Definition emptyInputTag : byte := x10.
Definition emptyViewTag : byte := x11.
Definition emptyRejectionTag : byte := x12.
Definition maximumProfileBytes : Z := 4096.

Record epochSignature := MkSignature { sig_id : array 32; sig_signature : bytes }.

Record roleDomain := MkDomain { dom_id : gostring; dom_count : Z; dom_capacity : Z }.

Record epochEnvelope := MkEnvelope {
  digest : array 32;
  networkID : array 32;
  number : Z;
  previous : array 32;
  validFrom : Z;
  validUntil : Z;
  profile : gostring;
  cutoff : Z;
  inputRoot : array 32;
  viewRoot : array 32;
  viewLength : Z;
  rejectedRoot : array 32;
  rejectedLength : Z;
  assignmentSeed : array 32;
  eligibleCount : Z;
  eligibleCapacity : Z;
  familyCount : Z;
  maxFamilyCount : Z;
  maxFamilyCapacity : Z;
  domains : list roleDomain;
  version : Z;
  destinationResolutionNodeID : array 32;
  destinationResolutionProfile : bytes;
  transitIssuanceNodeID : array 32;
  transitIssuanceProfile : bytes;
  signatures : list epochSignature
}.
#[global] Instance eta_envelope : Eta epochEnvelope := fun e =>
  MkEnvelope e.(digest) e.(networkID) e.(number) e.(previous) e.(validFrom) e.(validUntil) e.(profile) e.(cutoff)
    e.(inputRoot) e.(viewRoot) e.(viewLength) e.(rejectedRoot) e.(rejectedLength) e.(assignmentSeed) e.(eligibleCount)
    e.(eligibleCapacity) e.(familyCount) e.(maxFamilyCount) e.(maxFamilyCapacity) e.(domains) e.(version)
    e.(destinationResolutionNodeID) e.(destinationResolutionProfile) e.(transitIssuanceNodeID) e.(transitIssuanceProfile)
    e.(signatures).

Definition zeroEnvelope : epochEnvelope :=
  MkEnvelope zero32 zero32 0 zero32 0 0 [] 0 zero32 zero32 0 zero32 0 zero32 0 0 0 0 0 [] 0 zero32 [] zero32 [] [].

(** A bounded integer field. *)
Definition atMost (maximum : Z) (size : Z) (e : error) : decoder Z :=
  value ← take_uint size e;
  if maximum <? value then decode_fail e else mret value.

Fixpoint decodeDomains (count : nat) (known : list roleDomain) : decoder (list roleDomain) :=
  match count with
  | O => mret known
  | S count =>
      domain ← text 32;
      if match last known with Some d => bytes_geb d.(dom_id) domain | None => false end
      then decode_fail (New "role domains are not in strict canonical order")
      else
        members ← atMost 64 2 (New "role domain count summary is invalid");
        room ← take_uint 4 truncated;
        decodeDomains count (known ++ [MkDomain domain members room])
  end.

Definition decodeSummaries (epoch : epochEnvelope) : decoder epochEnvelope :=
  eligible ← atMost 64 4 (New "eligible count is invalid");
  room ← take_uint 4 truncated;
  families ← atMost 64 2 (New "family count is invalid");
  concentration ← atMost 64 2 (New "family concentration is invalid");
  largest ← take_uint 4 truncated;
  domainCount ← take_uint 1 (New "role domain count is invalid");
  if (domainCount =? 0) || (16 <? domainCount) then decode_fail (New "role domain count is invalid") else
  roles ← decodeDomains (Z.to_nat domainCount) [];
  mret (epoch <| eligibleCount := eligible |> <| eligibleCapacity := room |> <| familyCount := families |>
          <| maxFamilyCount := concentration |> <| maxFamilyCapacity := largest |> <| domains := roles |>).

Definition decodeViewCommitment (epoch : epochEnvelope) : decoder epochEnvelope :=
  inputs ← take_array 32 truncated;
  view ← take_array 32 truncated;
  viewSize ← atMost 64 4 (New "view length is invalid");
  rejected ← take_array 32 truncated;
  rejectedSize ← atMost 64 4 (New "rejection length is invalid");
  seed ← take_array 32 truncated;
  algorithm ← or_error (New "assignment algorithm is unsupported") (text 64);
  if algorithm !=? assignmentV1 then decode_fail (New "assignment algorithm is unsupported") else
  decodeSummaries (epoch <| inputRoot := inputs |> <| viewRoot := view |> <| viewLength := viewSize |>
    <| rejectedRoot := rejected |> <| rejectedLength := rejectedSize |> <| assignmentSeed := seed |>).

Definition decodeEpochCommitment (epoch : epochEnvelope) : decoder epochEnvelope :=
  network ← take_array 32 truncated;
  ordinal ← take_uint 8 (New "epoch number is invalid");
  if ordinal =? 0 then decode_fail (New "epoch number is invalid") else
  prior ← take_array 32 truncated;
  from ← take_int64 truncated;
  until ← take_int64 (New "epoch validity interval is invalid");
  if until <=? from then decode_fail (New "epoch validity interval is invalid") else
  inputs ← atMost 64 4 (New "epoch input cutoff is invalid");
  kind ← or_error (New "epoch profile is unsupported") (text 64);
  if negb (knownProfile kind) then decode_fail (New "epoch profile is unsupported") else
  decodeViewCommitment (epoch <| networkID := network |> <| number := ordinal |> <| previous := prior |>
    <| validFrom := OfUnix from |> <| validUntil := OfUnix until |> <| cutoff := inputs |> <| profile := kind |>).

(** The node of a duty with its opaque profile; both present or both absent. *)
Definition dutyFields (lengthError incomplete : error) : decoder (array 32 * bytes) :=
  node ← take_array 32 truncated;
  size ← atMost maximumProfileBytes 2 lengthError;
  kept ← take_bytes size truncated;
  if bool_decide (node = zero32) !=? (len kept =? 0) then decode_fail incomplete else mret (node, kept).

Definition decodeDestinationResolutionGateway (epoch : epochEnvelope) : decoder epochEnvelope :=
  duty ← dutyFields (New "destination resolution gateway profile length is invalid")
    (New "destination resolution gateway projection is incomplete");
  mret (epoch <| destinationResolutionNodeID := (duty : array 32 * bytes).1 |> <| destinationResolutionProfile := duty.2 |>).

Definition decodeTransitIssuanceDuty (epoch : epochEnvelope) : decoder epochEnvelope :=
  duty ← dutyFields (New "transit issuance profile length is invalid") (New "transit issuance projection is incomplete");
  mret (epoch <| transitIssuanceNodeID := (duty : array 32 * bytes).1 |> <| transitIssuanceProfile := duty.2 |>).

(** Everything that the signatures cover. *)
Definition unsignedFields : decoder epochEnvelope :=
  magic ← or_error (New "epoch magic is invalid") (take_bytes 4 truncated);
  if magic !=? str "AREP" then decode_fail (New "epoch magic is invalid") else
  kind ← or_error (New "epoch schema version is invalid") (take_uint 1 truncated);
  if negb ((kind =? 1) || (kind =? 2) || (kind =? 3)) then decode_fail (New "epoch schema version is invalid") else
  epoch ← decodeEpochCommitment (zeroEnvelope <| version := kind |>);
  epoch ← (if 2 <=? epoch.(version) then decodeDestinationResolutionGateway epoch else mret epoch);
  (if 3 <=? epoch.(version) then decodeTransitIssuanceDuty epoch else mret epoch).

Fixpoint decodeSignatures (count : nat) (known : list epochSignature) : decoder (list epochSignature) :=
  match count with
  | O => mret known
  | S count =>
      id ← take_array 32 truncated;
      signed ← take_bytes 64 truncated;
      if match last known with Some s => bytes_geb s.(sig_id) (id : array 32) | None => false end
      then decode_fail (New "epoch signers are not in strict canonical order")
      else decodeSignatures count (known ++ [MkSignature id signed])
  end.

Definition signatureFields : decoder (list epochSignature) :=
  signerCount ← take_uint 1 (New "epoch signer count is invalid");
  if (signerCount =? 0) || (16 <? signerCount) then decode_fail (New "epoch signer count is invalid")
  else decodeSignatures (Z.to_nat signerCount) [].

Section Envelope.
Context `{GoLib}.

Definition parseEpoch (input : bytes) : result epochEnvelope :=
  reject (New "epoch framing length is invalid") when ((len input =? 0) || (maximumEpochBytes <? len input));
  match unsignedFields input with
  | Err e => Err e
  | Ok (epoch, signed) =>
      match signatureFields signed with
      | Err e => Err e
      | Ok (signers, rest) =>
          reject (New "epoch contains trailing bytes") when (negb (len rest =? 0));
          let unsigned := take (Z.to_nat (len input - len signed)) input in
          Ok (epoch <| signatures := signers |> <| digest := sha256 unsigned |>)
      end
  end.

End Envelope.

(** ** epoch_verifier_contract.go *)

Record epochVerificationSnapshot := MkVerified {
  vs_Generation : gostring;
  vs_NetworkID : array 32;
  vs_Epoch : Z;
  vs_Digest : array 32;
  vs_PreviousDigest : array 32;
  vs_EpochValidFrom : Z;
  vs_ValidUntil : Z;
  vs_Profile : gostring;
  vs_ViewRoot : array 32;
  vs_ViewLength : Z;
  vs_RejectedRoot : array 32;
  vs_RejectedLength : Z;
  vs_RecordPresent : bool;
  vs_NodeID : array 32;
  vs_NodePublicKey : array 32;
  vs_RecordGeneration : Z;
  vs_RecordValidFrom : Z;
  vs_RecordValidUntil : Z;
  vs_DeclaredFamily : gostring;
  vs_ProbeEndpoint : gostring;
  vs_CarrierProfile : gostring;
  vs_ProbeCapacity : Z;
  vs_Assignment : gostring;
  vs_AssignmentDigest : array 32;
  vs_DestinationResolutionNodeID : array 32;
  vs_DestinationResolutionProfile : bytes;
  vs_DestinationResolutionProfileSize : Z;
  vs_TransitIssuanceNodeID : array 32;
  vs_TransitIssuanceProfile : bytes;
  vs_TransitIssuanceProfileSize : Z
}.
#[global] Instance eta_verified : Eta epochVerificationSnapshot := fun v =>
  MkVerified v.(vs_Generation) v.(vs_NetworkID) v.(vs_Epoch) v.(vs_Digest) v.(vs_PreviousDigest) v.(vs_EpochValidFrom)
    v.(vs_ValidUntil) v.(vs_Profile) v.(vs_ViewRoot) v.(vs_ViewLength) v.(vs_RejectedRoot) v.(vs_RejectedLength)
    v.(vs_RecordPresent) v.(vs_NodeID) v.(vs_NodePublicKey) v.(vs_RecordGeneration) v.(vs_RecordValidFrom)
    v.(vs_RecordValidUntil) v.(vs_DeclaredFamily) v.(vs_ProbeEndpoint) v.(vs_CarrierProfile) v.(vs_ProbeCapacity)
    v.(vs_Assignment) v.(vs_AssignmentDigest) v.(vs_DestinationResolutionNodeID) v.(vs_DestinationResolutionProfile)
    v.(vs_DestinationResolutionProfileSize) v.(vs_TransitIssuanceNodeID) v.(vs_TransitIssuanceProfile)
    v.(vs_TransitIssuanceProfileSize).

(** Of its predecessor a policy holds the Epoch and the digest. *)
Record epochPolicy := MkEpochPolicy {
  policy_NetworkID : array 32;
  policy_Authorities : gmap (array 32) bytes;
  policy_Threshold : Z;
  policy_Profile : gostring;
  policy_Now : Z;
  policy_MaterializationIndex : Z;
  policy_Previous : option (Z * array 32)
}.

Section Verify.
Context `{GoLib}.

(** *** epoch_chain.go *)

Definition verifyEpochChain (current : option (Z * array 32)) (epoch : epochEnvelope) : result unit :=
  reject (New "epoch exceeds the retained chain bound") when (maximumEpochChain <? epoch.(number));
  match current with
  | None =>
      reject (New "genesis epoch chain is invalid")
        when (negb (epoch.(number) =? 1) || (epoch.(previous) !=? zero32));
      Ok tt
  | Some (currentEpoch, currentDigest) =>
      reject (New "epoch transition does not extend current state")
        when (negb (epoch.(number) =? u64 (currentEpoch + 1)) || (epoch.(previous) !=? currentDigest));
      Ok tt
  end.

(** The loop over the signers; every one of them must be known and valid. *)
Fixpoint countSignatures (config : epochPolicy) (message : bytes) (signed : list epochSignature) (valid : Z) : result Z :=
  match signed with
  | [] => Ok valid
  | s :: rest =>
      match config.(policy_Authorities) !! s.(sig_id) with
      | None => Err (New "epoch has an unknown signer")
      | Some public =>
          reject (New "epoch signature is invalid") when (negb (ed25519_Verify public message s.(sig_signature)));
          countSignatures config message rest (valid + 1)
      end
  end.

Definition authenticateEnvelope (config : epochPolicy) (epoch : epochEnvelope) (now : Z) : result unit :=
  reject (New "epoch network identity is wrong") when (epoch.(networkID) !=? config.(policy_NetworkID));
  reject (New "epoch is not strictly current")
    when ((now <? epoch.(validFrom)) || negb (now <? epoch.(validUntil)));
  valid ← countSignatures config epoch.(digest) epoch.(signatures) 0;
  reject (Fmt "epoch has too few valid signatures") when (valid <? config.(policy_Threshold));
  Ok tt.

Definition verifyEpoch (config : epochPolicy) (current : option (Z * array 32)) (input : bytes) : result epochEnvelope :=
  epoch ← parseEpoch input;
  reject (New "epoch exceeds the retained chain bound") when (maximumEpochChain <? epoch.(number));
  _ ← matchProfile config.(policy_Profile) epoch.(profile);
  _ ← verifyEpochChain current epoch;
  _ ← authenticateEnvelope config epoch config.(policy_Now);
  Ok epoch.

(** ** epoch_commitment.go, epoch_commitment_proof.go *)

Definition leafInput (value : bytes) : bytes := [x00] ++ be_bytes 4 (u32 (len value)) ++ value.

Definition epochCommitmentLeaf (value : bytes) : array 32 := sha256 (leafInput value).

Definition rejectionInput (index code : Z) (input : bytes) : bytes :=
  [x02] ++ be_bytes 4 index ++ be_bytes 2 code ++ sha256 input.

Definition epochRejectionLeaf (index code : Z) (input : bytes) : array 32 := sha256 (rejectionInput index code input).

Definition epochCommitmentBranch (left right : array 32) : array 32 := sha256 ([x01] ++ left ++ right).

Definition epochHashedCommitmentRoot (leaves : list (array 32)) (emptyTag : byte) : array 32 :=
  treeRoot epochCommitmentBranch leaves (sha256 [emptyTag]).

Definition epochCommitmentRoot (values : list bytes) (emptyTag : byte) : array 32 :=
  epochHashedCommitmentRoot (map epochCommitmentLeaf values) emptyTag.

Definition epochCommitmentProof (values : list bytes) (index : Z) (emptyTag : byte) : list (array 32) :=
  treePath epochCommitmentBranch (map epochCommitmentLeaf values) index (sha256 [emptyTag]).

Definition verifyEpochCommitment (record : bytes) (index length : Z) (siblings : list (array 32)) (expected : array 32)
  : bool :=
  verifyPath epochCommitmentBranch (epochCommitmentLeaf record) index length siblings expected.

End Verify.

(** ** epoch_materialization.go *)

Record materialization := MkMaterial {
  mat_epochDigest : array 32;
  mat_index : Z;
  mat_record : bytes;
  mat_siblings : list (array 32)
}.

Definition memberLengthError : error := New "materialization member length is invalid".

Definition lengthBytes (maximum : Z) : decoder bytes :=
  length ← take_uint 4 truncated;
  if (length =? 0) || (maximum <? length) then decode_fail memberLengthError else take_bytes length truncated.

Definition materialFields : decoder materialization :=
  epochDigest ← take_array 32 truncated;
  index ← take_uint 4 truncated;
  record ← lengthBytes maximumRecordBytes;
  count ← take_uint 2 truncated;
  if 64 <? count then decode_fail (New "materialization proof count is invalid") else
  siblings ← take_many (Z.to_nat count) (take_array 32 truncated);
  mret (MkMaterial epochDigest index record siblings).

Definition decodeMaterialization (input : bytes) : result materialization :=
  match materialFields input with
  | Err e => Err e
  | Ok (value, rest) =>
      reject (New "materialization has trailing bytes") when (negb (len rest =? 0));
      Ok value
  end.

Fixpoint decodeEach (encoded : list bytes) : result (list materialization) :=
  match encoded with
  | [] => Ok []
  | input :: rest =>
      reject (New "materialization framing length is invalid") when ((len input =? 0) || (35 * 2 ^ 10 <? len input));
      value ← decodeMaterialization input;
      values ← decodeEach rest;
      Ok (value :: values)
  end.

Definition decodeMaterializations (encoded : list bytes) : result (list materialization) :=
  reject (New "materialization count exceeds 64") when (64 <? len encoded);
  decodeEach encoded.

Definition encodeMaterialization (value : materialization) : bytes :=
  value.(mat_epochDigest) ++ be_bytes 4 value.(mat_index) ++
  be_bytes 4 (u32 (len value.(mat_record))) ++ value.(mat_record) ++
  be_bytes 2 (u16 (len value.(mat_siblings))) ++ concat (map array_bytes value.(mat_siblings)).

(** ** epoch_assignment.go, epoch_role_assignment.go *)

Section Assignment.
Context `{GoLib}.

Definition epochAssignmentDigest (network : array 32) (epoch : Z) (seed : array 32) (family domain : gostring) : array 32 :=
  sha256 (str "ardents-h3-role-domain-v1" ++ [x00] ++ network ++ be_bytes 8 epoch ++ seed ++ family ++ domain).

(** The loop: [selected] with its digest; [first] is the round of index 0. *)
Fixpoint lowestDomain (digestOf : gostring -> array 32) (first : bool) (selected : gostring) (selectedDigest : array 32)
  (candidates : list gostring) : result gostring :=
  match candidates with
  | [] => Ok selected
  | domain :: rest =>
      let digest := digestOf domain in
      reject (New "role assignment digest tie") when (negb first && (digest ==? selectedDigest));
      if (selected ==? []) || bytes_ltb digest selectedDigest
      then lowestDomain digestOf false domain digest rest
      else lowestDomain digestOf false selected selectedDigest rest
  end.

Definition selectEpochDomain (network : array 32) (epoch : Z) (seed : array 32) (family : gostring) (candidates : list gostring)
  : result gostring :=
  selected ← lowestDomain (epochAssignmentDigest network epoch seed family) true [] zero32 candidates;
  reject (New "role assignment requires a domain") when (selected ==? []);
  Ok selected.

Definition assignedDomain (epoch : epochEnvelope) (family : gostring) : result gostring :=
  selectEpochDomain epoch.(networkID) epoch.(number) epoch.(assignmentSeed) family (map dom_id epoch.(domains)).

(** Go visits the families in an arbitrary order. *)
Fixpoint addFamilies (epoch : epochEnvelope) (families : list (gostring * (Z * Z))) (computed : gmap gostring (Z * Z))
  : result (gmap gostring (Z * Z)) :=
  match families with
  | [] => Ok computed
  | (family, summary) :: rest =>
      domain ← assignedDomain epoch family;
      let current := default (0, 0) (computed !! domain) in
      addFamilies epoch rest (<[domain := (u32 (current.1 + summary.1), u32 (current.2 + summary.2))]> computed)
  end.

Definition verifyDomainSummaries (epoch : epochEnvelope) (families : gmap gostring (Z * Z)) : result unit :=
  computed ← addFamilies epoch (map_to_list families) (list_to_map (map (fun d => (d.(dom_id), (0, 0))) epoch.(domains)));
  reject (New "role domain summaries are inconsistent")
    when (negb (forallb (fun expected =>
            let actual := default (0, 0) (computed !! expected.(dom_id)) in
            (u16 actual.1 =? expected.(dom_count)) && (actual.2 =? expected.(dom_capacity))) epoch.(domains)));
  Ok tt.

End Assignment.

(** ** epoch_candidate_view.go *)

Inductive rejectCode :=
| rejectMalformed
| rejectNetwork
| rejectSignature
| rejectTime
| rejectProfile
| rejectCapacity
| rejectSourceCollision
| rejectNodeCollision
| rejectGeneration
| rejectKeyCollision
| rejectEndpoint
| rejectCarrier.

Definition codeNumber (code : rejectCode) : Z :=
  match code with
  | rejectMalformed => 1
  | rejectNetwork => 2
  | rejectSignature => 3
  | rejectTime => 4
  | rejectProfile => 5
  | rejectCapacity => 6
  | rejectSourceCollision => 7
  | rejectNodeCollision => 8
  | rejectGeneration => 9
  | rejectKeyCollision => 10
  | rejectEndpoint => 11
  | rejectCarrier => 12
  end.

Record rejection := MkRejection { rej_index : Z; rej_code : rejectCode; rej_raw : bytes }.

(** The input is kept with its evaluation; no code stands for 0. *)
Record evaluatedRecord := MkEvaluated { ev_index : Z; ev_input : bytes; ev_record : nodeRecord; ev_code : option rejectCode }.
#[global] Instance eta_evaluated : Eta evaluatedRecord := fun e =>
  MkEvaluated e.(ev_index) e.(ev_input) e.(ev_record) e.(ev_code).

Section View.
Context `{GoLib}.

Definition authorityOwnsKey (config : epochPolicy) (key : array 32) : bool :=
  bool_decide (is_Some (config.(policy_Authorities) !! key)).

Definition evaluate (config : epochPolicy) (epoch : epochEnvelope) (input : bytes) : nodeRecord * option rejectCode :=
  match parseRecord input with
  | Err _ => (zeroRecord, Some rejectMalformed)
  | Ok record =>
      (record,
       if record.(rec_networkID) !=? config.(policy_NetworkID) then Some rejectNetwork
       else if negb (signatureValid record) then Some rejectSignature
       else if (epoch.(validFrom) <? record.(notBefore)) || negb (epoch.(validFrom) <? record.(notAfter)) then Some rejectTime
       else if negb (record.(capability) =? requiredCapability epoch.(profile)) then Some rejectProfile
       else if (record.(capacity) =? 0) || (1024 <? record.(capacity)) then Some rejectCapacity
       else if negb (validCarrierForEpoch epoch.(profile) record.(carrier)) then Some rejectCarrier
       else if authorityOwnsKey config record.(keyID) then Some rejectSourceCollision
       else None)
  end.

Fixpoint evaluateFrom (config : epochPolicy) (epoch : epochEnvelope) (index : Z) (inputs : list bytes) : list evaluatedRecord :=
  match inputs with
  | [] => []
  | input :: rest =>
      let '(record, code) := evaluate config epoch input in
      MkEvaluated index input record code :: evaluateFrom config epoch (index + 1) rest
  end.

Definition generationKey (record : nodeRecord) : gostring :=
  array_bytes record.(nodeID) ++ str "/" ++ print_int record.(generation).

(** A counter per key over the records without a code. *)
Definition tally {K} `{Countable K} (key : nodeRecord -> K) (records : list evaluatedRecord) : gmap K Z :=
  foldl (fun counts item =>
    match item.(ev_code) with
    | None => let k := key item.(ev_record) in <[k := default 0 (counts !! k) + 1]> counts
    | Some _ => counts
    end) ∅ records.

Definition countOf {K} `{Countable K} (counts : gmap K Z) (k : K) : Z := default 0 (counts !! k).

Definition markCollisions (records : list evaluatedRecord) : list evaluatedRecord :=
  let nodes := tally nodeID records in
  let generations := tally generationKey records in
  let keys := tally keyID records in
  let endpoints := tally endpoint records in
  map (fun item =>
    match item.(ev_code) with
    | Some _ => item
    | None =>
        let record := item.(ev_record) in
        if 1 <? countOf nodes record.(nodeID) then item <| ev_code := Some rejectNodeCollision |>
        else if 1 <? countOf generations (generationKey record) then item <| ev_code := Some rejectGeneration |>
        else if 1 <? countOf keys record.(keyID) then item <| ev_code := Some rejectKeyCollision |>
        else if 1 <? countOf endpoints record.(endpoint) then item <| ev_code := Some rejectEndpoint |>
        else item
    end) records.

(** [sort.Slice] by an identity.  It is not stable, but the identities are
    distinct where it is used, so that the order is unique. *)
Fixpoint insertBy {A} (key : A -> array 32) (x : A) (l : list A) : list A :=
  match l with
  | [] => [x]
  | y :: rest => if bytes_ltb (key y) (key x) then y :: insertBy key x rest else x :: l
  end.

Definition sortBy {A} (key : A -> array 32) (l : list A) : list A := foldr (insertBy key) [] l.

Definition acceptedOf (items : list evaluatedRecord) : list nodeRecord :=
  omap (fun item => match item.(ev_code) with None => Some item.(ev_record) | Some _ => None end) items.

Definition rejectedOf (items : list evaluatedRecord) : list rejection :=
  omap (fun item =>
    match item.(ev_code) with Some code => Some (MkRejection (u32 item.(ev_index)) code item.(ev_input)) | None => None end) items.

Definition evaluateInputs (config : epochPolicy) (epoch : epochEnvelope) (inputs : list bytes)
  : list nodeRecord * list rejection :=
  let evaluated := markCollisions (evaluateFrom config epoch 0 inputs) in
  (sortBy nodeID (acceptedOf evaluated), rejectedOf evaluated).

(** Records and capacity per family. *)
Definition familySummaries (accepted : list nodeRecord) : gmap gostring (Z * Z) :=
  foldl (fun families record =>
    let current := default (0, 0) (families !! record.(family)) in
    <[record.(family) := (u32 (current.1 + 1), u32 (current.2 + record.(capacity)))]> families) ∅ accepted.

Definition totalCapacity (accepted : list nodeRecord) : Z :=
  foldl (fun total record => u32 (total + record.(capacity))) 0 accepted.

Definition largest (values : list Z) : Z := foldl Z.max 0 values.

Definition verifyViewCommitment (epoch : epochEnvelope) (accepted : list nodeRecord) (rejected : list rejection) : result unit :=
  let families := familySummaries accepted in
  let leaves := map (fun r => epochRejectionLeaf r.(rej_index) (codeNumber r.(rej_code)) r.(rej_raw)) rejected in
  let maxCount := largest (map (fun f => f.2.1) (map_to_list families)) in
  let maxCapacity := largest (map (fun f => f.2.2) (map_to_list families)) in
  reject (New "candidate view or rejection commitment is inconsistent")
    when (negb (u32 (len accepted) =? epoch.(viewLength)) || negb (u32 (len rejected) =? epoch.(rejectedLength)) ||
          (epochCommitmentRoot (map raw accepted) emptyViewTag !=? epoch.(viewRoot)) ||
          (epochHashedCommitmentRoot leaves emptyRejectionTag !=? epoch.(rejectedRoot)));
  reject (New "candidate view summaries are inconsistent")
    when (negb (epoch.(eligibleCount) =? u32 (len accepted)) || negb (epoch.(eligibleCapacity) =? totalCapacity accepted) ||
          negb (epoch.(familyCount) =? u16 (Z.of_nat (size families))) || negb (epoch.(maxFamilyCount) =? u16 maxCount) ||
          negb (epoch.(maxFamilyCapacity) =? maxCapacity));
  verifyDomainSummaries epoch families.

Fixpoint checkMaterials (epoch : epochEnvelope) (accepted : list nodeRecord) (materials : list materialization) (seen : gset Z)
  : result unit :=
  match materials with
  | [] => Ok tt
  | m :: rest =>
      reject (New "candidate materialization identity is invalid")
        when ((m.(mat_epochDigest) !=? epoch.(digest)) || (u32 (len accepted) <=? m.(mat_index)) || bool_decide (m.(mat_index) ∈ seen));
      match accepted !! Z.to_nat m.(mat_index) with
      | None => Err (New "unreachable: the index is in range")
      | Some record =>
          reject (New "candidate materialization proof is invalid")
            when ((m.(mat_record) !=? record.(raw)) ||
                  negb (verifyEpochCommitment record.(raw) m.(mat_index) (u32 (len accepted)) m.(mat_siblings) epoch.(viewRoot)));
          checkMaterials epoch accepted rest ({[m.(mat_index)]} ∪ seen)
      end
  end.

Definition verifyMaterializations (epoch : epochEnvelope) (accepted : list nodeRecord) (materials : list materialization)
  (required : bool) : result unit :=
  reject (New "candidate materialization is required") when ((0 <? len accepted) && required && (len materials =? 0));
  checkMaterials epoch accepted materials ∅.

Definition preflightDecision (epoch : bytes) (inputs : list bytes) (materials : list materialization) : result unit :=
  reject (New "offline decision exceeds its framing bounds")
    when ((len epoch =? 0) || (maximumEpochBytes <? len epoch) || (64 <? len inputs) || (64 <? len materials));
  reject (New "offline input exceeds its framing bounds")
    when (existsb (fun input => (len input =? 0) || (maximumRecordBytes <? len input)) inputs);
  reject (New "materialization exceeds its framing bounds")
    when (existsb (fun m => (len m.(mat_record) =? 0) || (maximumRecordBytes <? len m.(mat_record)) ||
                            (64 <? len m.(mat_siblings))) materials);
  Ok tt.

End View.

(** ** The verified decision *)

Record verifiedEpochDecision := MkDecision {
  EpochBytes : bytes;
  Inputs : list bytes;
  vd_Snapshot : epochVerificationSnapshot;
  NodeIDs : list (array 32);
  KeyIDs : list (array 32);
  PublicKeys : list (array 32);
  FamilyIDs : list (array 32);
  Families : list gostring;
  RecordDigests : list (array 32);
  DomainProofs : list bytes;
  Endpoints : list gostring;
  CarrierProfiles : list gostring;
  Capacities : list Z;
  Domains : list gostring;
  vd_ValidFrom : list Z;
  vd_ValidUntil : list Z;
  vd_AssignmentNotAfter : list Z;
  vd_epoch : epochEnvelope;
  accepted : list nodeRecord;
  rejections : list rejection
}.
#[global] Instance eta_decision : Eta verifiedEpochDecision := fun d =>
  MkDecision d.(EpochBytes) d.(Inputs) d.(vd_Snapshot) d.(NodeIDs) d.(KeyIDs) d.(PublicKeys) d.(FamilyIDs) d.(Families)
    d.(RecordDigests) d.(DomainProofs) d.(Endpoints) d.(CarrierProfiles) d.(Capacities) d.(Domains) d.(vd_ValidFrom)
    d.(vd_ValidUntil) d.(vd_AssignmentNotAfter) d.(vd_epoch) d.(accepted) d.(rejections).

Section Decision.
Context `{GoLib}.

Definition Materialization (decision : verifiedEpochDecision) (index : Z) : result bytes :=
  match decision.(accepted) !! Z.to_nat index with
  | None => Err (New "requested materialization index is unavailable")
  | Some record =>
      Ok (encodeMaterialization
            (MkMaterial decision.(vd_epoch).(digest) index record.(raw)
               (epochCommitmentProof (map raw decision.(accepted)) index emptyViewTag)))
  end.

Definition VerifyMaterials (decision : verifiedEpochDecision) (encoded : list bytes) : result unit :=
  materials ← decodeMaterializations encoded;
  verifyMaterializations decision.(vd_epoch) decision.(accepted) materials true.

(** epoch_candidate_projection.go *)
Fixpoint attachFrom (index : Z) (decision : verifiedEpochDecision) (records : list nodeRecord) (epoch : epochEnvelope)
  : result verifiedEpochDecision :=
  match records with
  | [] => Ok decision
  | record :: rest =>
      domain ← assignedDomain epoch record.(family);
      proof ← Materialization decision (u32 index);
      attachFrom (index + 1)
        (decision <| NodeIDs := decision.(NodeIDs) ++ [record.(nodeID)] |>
                  <| KeyIDs := decision.(KeyIDs) ++ [record.(keyID)] |>
                  <| PublicKeys := decision.(PublicKeys) ++ [to_array 32 record.(publicKey)] |>
                  <| FamilyIDs := decision.(FamilyIDs) ++ [sha256 record.(family)] |>
                  <| Families := decision.(Families) ++ [record.(family)] |>
                  <| RecordDigests := decision.(RecordDigests) ++ [sha256 record.(raw)] |>
                  <| DomainProofs := decision.(DomainProofs) ++ [proof] |>
                  <| Endpoints := decision.(Endpoints) ++ [record.(endpoint)] |>
                  <| CarrierProfiles := decision.(CarrierProfiles) ++ [record.(carrier)] |>
                  <| Capacities := decision.(Capacities) ++ [record.(capacity)] |>
                  <| Domains := decision.(Domains) ++ [domain] |>
                  <| vd_ValidFrom := decision.(vd_ValidFrom) ++ [record.(notBefore)] |>
                  <| vd_ValidUntil := decision.(vd_ValidUntil) ++ [record.(notAfter)] |>
                  <| vd_AssignmentNotAfter := decision.(vd_AssignmentNotAfter) ++ [epoch.(validUntil)] |>)
        rest epoch
  end.

Definition attachCandidates (decision : verifiedEpochDecision) (records : list nodeRecord) (epoch : epochEnvelope)
  : result verifiedEpochDecision := attachFrom 0 decision records epoch.

(** The loop that looks for the one candidate with the duty's domain. *)
Fixpoint soleDuty (duty : gostring) (ambiguous : error) (domains : list gostring) (nodes families : list (array 32))
  (selected : option (array 32)) : result (option (array 32)) :=
  match domains, nodes, families with
  | domain :: domains, node :: nodes, family :: families =>
      if domain !=? duty then soleDuty duty ambiguous domains nodes families selected
      else
        reject ambiguous when (bool_decide (is_Some selected) || (node ==? zero32) || (family ==? zero32));
        soleDuty duty ambiguous domains nodes families (Some node)
  | _, _, _ => Ok selected
  end.

Definition padded (profile : bytes) : bytes := to_array (Z.to_nat maximumProfileBytes) profile.

Definition attachDestinationResolutionGateway (decision : verifiedEpochDecision) : result verifiedEpochDecision :=
  let epoch := decision.(vd_epoch) in
  let node := epoch.(destinationResolutionNodeID) in
  let profileBytes := epoch.(destinationResolutionProfile) in
  if epoch.(version) <? 2 then Ok decision
  else if epoch.(profile) !=? state.interactiveRouteProfile then
    reject (New "non-Route Epoch carries a Destination Resolution Gateway")
      when ((node !=? zero32) || negb (len profileBytes =? 0));
    Ok decision
  else
    reject (New "interactive Route Epoch lacks a Destination Resolution Gateway profile")
      when ((node ==? zero32) || (len profileBytes =? 0) || (maximumProfileBytes <? len profileBytes));
    selected ← soleDuty state.destinationResolutionDomain
      (New "destination resolution gateway state assignment is ambiguous")
      decision.(Domains) decision.(NodeIDs) decision.(FamilyIDs) None;
    reject (New "destination resolution gateway profile does not match its state assignment")
      when (bool_decide (selected <> Some node));
    Ok (decision <| vd_Snapshot := decision.(vd_Snapshot) <| vs_DestinationResolutionNodeID := node |>
                     <| vs_DestinationResolutionProfile := padded profileBytes |>
                     <| vs_DestinationResolutionProfileSize := u16 (len profileBytes) |> |>).

Definition attachTransitIssuanceDuty (decision : verifiedEpochDecision) : result verifiedEpochDecision :=
  let epoch := decision.(vd_epoch) in
  let node := epoch.(transitIssuanceNodeID) in
  let profileBytes := epoch.(transitIssuanceProfile) in
  if epoch.(version) <? 3 then Ok decision
  else if epoch.(profile) !=? state.interactiveRouteProfile then
    reject (New "non-Route Epoch carries a transit issuance duty")
      when ((node !=? zero32) || negb (len profileBytes =? 0));
    Ok decision
  else
    reject (New "interactive Route Epoch lacks a transit issuance profile")
      when ((node ==? zero32) || (len profileBytes =? 0) || (maximumProfileBytes <? len profileBytes));
    selected ← soleDuty state.transitIssuanceDomain (New "transit issuance State assignment is ambiguous")
      decision.(Domains) decision.(NodeIDs) decision.(FamilyIDs) None;
    reject (New "transit issuance profile does not match its State assignment")
      when (bool_decide (selected <> Some node));
    Ok (decision <| vd_Snapshot := decision.(vd_Snapshot) <| vs_TransitIssuanceNodeID := node |>
                     <| vs_TransitIssuanceProfile := padded profileBytes |>
                     <| vs_TransitIssuanceProfileSize := u16 (len profileBytes) |> |>).

(** epoch_materialized_snapshot.go *)
Definition attachMaterializedRecord (index : Z) (decision : verifiedEpochDecision) : verifiedEpochDecision :=
  match decision.(accepted) !! Z.to_nat index with
  | None => decision
  | Some record =>
      let epoch := decision.(vd_epoch) in
      match assignedDomain epoch record.(family) with
      | Err _ => decision
      | Ok domain =>
          decision <| vd_Snapshot := decision.(vd_Snapshot)
            <| vs_RecordPresent := true |> <| vs_NodeID := record.(nodeID) |>
            <| vs_NodePublicKey := to_array 32 record.(publicKey) |> <| vs_RecordGeneration := record.(generation) |>
            <| vs_RecordValidFrom := record.(notBefore) |> <| vs_RecordValidUntil := record.(notAfter) |>
            <| vs_DeclaredFamily := record.(family) |> <| vs_ProbeEndpoint := record.(endpoint) |>
            <| vs_CarrierProfile := record.(carrier) |> <| vs_ProbeCapacity := record.(capacity) |>
            <| vs_Assignment := domain |>
            <| vs_AssignmentDigest :=
                 epochAssignmentDigest epoch.(networkID) epoch.(number) epoch.(assignmentSeed) record.(family) domain |> |>
      end
  end.

Definition verifyEpochCandidate (config : epochPolicy) (current : option (Z * array 32)) (epochBytes : bytes)
  (inputs : list bytes) (materials : list materialization) (requireMaterials : bool) : result verifiedEpochDecision :=
  _ ← preflightDecision epochBytes inputs materials;
  epoch ← verifyEpoch config current epochBytes;
  reject (New "input log does not match the committed cutoff")
    when (negb (len inputs =? epoch.(cutoff)) || (64 <? len inputs));
  reject (New "input log root does not match the epoch")
    when (epochCommitmentRoot inputs emptyInputTag !=? epoch.(inputRoot));
  let '(records, rejected) := evaluateInputs config epoch inputs in
  _ ← verifyViewCommitment epoch records rejected;
  _ ← verifyMaterializations epoch records materials requireMaterials;
  let snapshot :=
    MkVerified (hex_EncodeToString epoch.(digest)) epoch.(networkID) epoch.(number) epoch.(digest) epoch.(previous)
      epoch.(validFrom) epoch.(validUntil) epoch.(profile) epoch.(viewRoot) epoch.(viewLength) epoch.(rejectedRoot)
      epoch.(rejectedLength) false zero32 zero32 0 (OfUnix (-62135596800)) (OfUnix (-62135596800)) [] [] [] 0 [] zero32
      zero32 (padded []) 0 zero32 (padded []) 0 in
  let decision :=
    MkDecision epochBytes inputs snapshot [] [] [] [] [] [] [] [] [] [] [] [] [] [] epoch records rejected in
  decision ← attachCandidates decision records epoch;
  decision ← attachDestinationResolutionGateway decision;
  decision ← attachTransitIssuanceDuty decision;
  Ok (attachMaterializedRecord config.(policy_MaterializationIndex) decision).

Definition verifyEpochDecision (policy : epochPolicy) (epochBytes : bytes) (inputs encodedMaterials : list bytes)
  (requireMaterials : bool) : result verifiedEpochDecision :=
  materials ← decodeMaterializations encodedMaterials;
  verifyEpochCandidate policy policy.(policy_Previous) epochBytes inputs materials requireMaterials.

End Decision.

(** ** epoch.go *)

(** The configuration of a running Network State that verification reads. *)
Record config := MkConfig {
  config_networkID : array 32;
  authorities : gmap (array 32) bytes;
  threshold : Z;
  acceptedProfile : gostring;
  config_now : Z;
  MaterialIndex : Z
}.
#[global] Instance eta_config : Eta config := fun c =>
  MkConfig c.(config_networkID) c.(authorities) c.(threshold) c.(acceptedProfile) c.(config_now) c.(MaterialIndex).

Record candidateDecision := MkCandidateDecision {
  cd_epoch : epochEnvelope;
  cd_epochBytes : bytes;
  cd_inputs : list bytes;
  cd_snapshot : state.Snapshot;
  cd_verified : verifiedEpochDecision
}.

Definition zeroTime : Z := OfUnix (-62135596800).

Definition zeroSnapshot : state.Snapshot :=
  state.MkSnapshot [] zero32 0 zero32 zeroTime zeroTime [] zero32 0 zero32 0 [] false 0 [[]; []; []; []] [] [0; 0; 0; 0]
    [zero32; zero32; zero32; zero32] zeroTime zeroTime 0 zero32 zeroTime [] [] 0 0 false zero32 zero32 0 zeroTime zeroTime
    [] [] [] 0 [] zero32 zero32 (padded []) 0 zero32 (padded []) 0 0 [].

Definition snapshotFromEpoch (value : epochVerificationSnapshot) : state.Snapshot :=
  zeroSnapshot <| state.Generation := value.(vs_Generation) |> <| state.NetworkID := value.(vs_NetworkID) |>
    <| state.Epoch := value.(vs_Epoch) |> <| state.Digest := value.(vs_Digest) |>
    <| state.EpochValidFrom := value.(vs_EpochValidFrom) |> <| state.SnapshotValidUntil := value.(vs_ValidUntil) |>
    <| state.Profile := value.(vs_Profile) |> <| state.ViewRoot := value.(vs_ViewRoot) |>
    <| state.ViewLength := value.(vs_ViewLength) |> <| state.RejectedRoot := value.(vs_RejectedRoot) |>
    <| state.RejectedLength := value.(vs_RejectedLength) |> <| state.RecordPresent := value.(vs_RecordPresent) |>
    <| state.SnapshotNodeID := value.(vs_NodeID) |> <| state.NodePublicKey := value.(vs_NodePublicKey) |>
    <| state.RecordGeneration := value.(vs_RecordGeneration) |> <| state.RecordValidFrom := value.(vs_RecordValidFrom) |>
    <| state.RecordValidUntil := value.(vs_RecordValidUntil) |> <| state.DeclaredFamily := value.(vs_DeclaredFamily) |>
    <| state.ProbeEndpoint := value.(vs_ProbeEndpoint) |> <| state.SnapshotCarrierProfile := value.(vs_CarrierProfile) |>
    <| state.ProbeCapacity := value.(vs_ProbeCapacity) |> <| state.Assignment := value.(vs_Assignment) |>
    <| state.AssignmentDigest := value.(vs_AssignmentDigest) |>
    <| state.DestinationResolutionNodeID := value.(vs_DestinationResolutionNodeID) |>
    <| state.DestinationResolutionProfile := value.(vs_DestinationResolutionProfile) |>
    <| state.DestinationResolutionProfileSize := value.(vs_DestinationResolutionProfileSize) |>
    <| state.TransitIssuanceNodeID := value.(vs_TransitIssuanceNodeID) |>
    <| state.TransitIssuanceProfile := value.(vs_TransitIssuanceProfile) |>
    <| state.TransitIssuanceProfileSize := value.(vs_TransitIssuanceProfileSize) |>.

Section State.
Context `{GoLib}.

Definition policyOf (c : config) (current : option state.Snapshot) : epochPolicy :=
  MkEpochPolicy c.(config_networkID) c.(authorities) c.(threshold) c.(acceptedProfile) c.(config_now) c.(MaterialIndex)
    ((fun s => (s.(state.Epoch), s.(state.Digest))) <$> current).

Definition verifyDecision (c : config) (current : option state.Snapshot) (epochBytes : bytes) (inputs materials : list bytes)
  (requireMaterials : bool) : result candidateDecision :=
  verified ← verifyEpochDecision (policyOf c current) epochBytes inputs materials requireMaterials;
  Ok (MkCandidateDecision verified.(vd_epoch) verified.(EpochBytes) verified.(Inputs)
        (snapshotFromEpoch verified.(vd_Snapshot)) verified).

Definition verifyDecisionMaterials (decision : candidateDecision) (materials : list bytes) : result unit :=
  match VerifyMaterials decision.(cd_verified) materials with
  | Err e => Err (Wrap "verify Candidate Materialization: " e)
  | Ok _ => Ok tt
  end.

(** ** storage.go, recovery.go *)

Record durableGeneration := MkStored { stored_Epoch : bytes; stored_Inputs : list bytes }.

Definition loadGeneration (c : config) (value : durableGeneration) (prior : option state.Snapshot) : result candidateDecision :=
  match parseEpoch value.(stored_Epoch) with
  | Err e => Err (Wrap "parse persisted Epoch: " e)
  | Ok parsed =>
      reject (New "persisted input count does not match its Epoch") when (negb (parsed.(cutoff) =? len value.(stored_Inputs)));
      verifyDecision (c <| config_now := parsed.(validFrom) |>) prior value.(stored_Epoch) value.(stored_Inputs) [] false
  end.

(** The recursion back through the predecessors; [None] is out of fuel. *)
Fixpoint loadGenerationChain (fuel : nat) (c : config) (generations : gmap gostring durableGeneration) (name : gostring)
  (seen : gset gostring) : option (result candidateDecision * gset gostring) :=
  match fuel with
  | O => None
  | S fuel =>
      match generations !! name with
      | None => Some (Err (New "generation chain identity, cycle, or length is invalid"), seen)
      | Some value =>
          if bool_decide (name ∈ seen) || (maximumEpochChain <=? Z.of_nat (size seen))
          then Some (Err (New "generation chain identity, cycle, or length is invalid"), seen)
          else
            let seen := {[name]} ∪ seen in
            let finish prior (seen : gset gostring) :=
              Some (match loadGeneration c value prior with
                    | Err e => Err e
                    | Ok decision =>
                        reject (New "generation identity does not match its verified digest")
                          when (decision.(cd_snapshot).(state.Generation) !=? name);
                        Ok decision
                    end, seen) in
            match parseEpoch value.(stored_Epoch) with
            | Err e => Some (Err (Wrap "parse generation chain Epoch: " e), seen)
            | Ok parsed =>
                if 1 <? parsed.(number) then
                  match loadGenerationChain fuel c generations (hex_EncodeToString parsed.(previous)) seen with
                  | None => None
                  | Some (Err e, seen) => Some (Err e, seen)
                  | Some (Ok prior, seen) => finish (Some prior.(cd_snapshot)) seen
                  end
                else finish None seen
            end
      end
  end.

(** [loadCurrent] and [loadStoredChain] start with nothing seen. *)
Definition loadChain (c : config) (generations : gmap gostring durableGeneration) (name : gostring)
  : option (result candidateDecision * gset gostring) :=
  loadGenerationChain (S (Z.to_nat maximumEpochChain)) c generations name ∅.

(** The current generation of a root, from its pointer and its generations. *)
Definition loadCurrent (c : config) (current : gostring) (generations : gmap gostring durableGeneration)
  : option (result (option (state.Snapshot * candidateDecision))) :=
  if current ==? [] then
    Some (reject (New "network state recovery required: current pointer is missing from a non-empty root")
            when (negb (Z.of_nat (size generations) =? 0));
          Ok None)
  else
    match loadChain c generations current with
    | None => None
    | Some (Err e, _) => Some (Err e)
    | Some (Ok decision, _) =>
        Some (reject (New "current pointer does not match the verified generation")
                when (decision.(cd_snapshot).(state.Generation) !=? current);
              Ok (Some (decision.(cd_snapshot), decision)))
    end.

(** ** config_validation.go *)

Definition authorityThreshold (pinned : gmap (array 32) bytes) (needed : Z) : result unit :=
  reject (New "authority threshold is outside the authority set") when ((needed <? 1) || (Z.of_nat (size pinned) <? needed));
  reject (New "authority set exceeds 16 keys") when (16 <? Z.of_nat (size pinned));
  Ok tt.

Fixpoint checkAuthorities (pinned : list (array 32 * bytes)) : result unit :=
  match pinned with
  | [] => Ok tt
  | (id, public) :: rest =>
      reject (New "authority public key has invalid length") when (negb (len public =? 32));
      reject (New "authority identifier does not match its public key") when (sha256 public !=? id);
      checkAuthorities rest
  end.

(** ** exposure.go *)

Definition candidateAt (verified : verifiedEpochDecision) (index : nat) : option state.routeCandidate :=
  node ← verified.(NodeIDs) !! index;
  public ← verified.(PublicKeys) !! index;
  key ← verified.(KeyIDs) !! index;
  familyID ← verified.(FamilyIDs) !! index;
  record ← verified.(RecordDigests) !! index;
  proof ← verified.(DomainProofs) !! index;
  declared ← verified.(Families) !! index;
  address ← verified.(Endpoints) !! index;
  carried ← verified.(CarrierProfiles) !! index;
  room ← verified.(Capacities) !! index;
  domain ← verified.(Domains) !! index;
  from ← verified.(vd_ValidFrom) !! index;
  until ← verified.(vd_ValidUntil) !! index;
  assigned ← verified.(vd_AssignmentNotAfter) !! index;
  Some (state.MkCandidate node public key familyID record (sha256 proof) declared address carried room domain from until assigned).

(** The filled part of the array, and its length. *)
Definition routeCandidates (decision : option candidateDecision) : list state.routeCandidate * Z :=
  match decision with
  | None => ([], 0)
  | Some d => (omap (candidateAt d.(cd_verified)) (seq 0 (length d.(cd_verified).(NodeIDs))), u8 (len d.(cd_verified).(NodeIDs)))
  end.

End State.

End netstate.
