(* ===== verification/NetEpochProof.v ===== *)
(** * Network Epochs: the parser, the signatures and the view

    What an accepted decision rests on: the signers of the Epoch, the input log
    behind the commitments, and the candidates that the log leaves.  One digest
    stands for one view; the stored chain is always walked to an end. *)

From S2P Require Import Prelude Wire GoLib GoTime Json Merkle StateView NetEpoch.

Import netstate.

(** ** Decoders read a prefix and nothing else *)

Definition Local {A} (p : decoder A) : Prop :=
  forall input v rest, p input = Ok (v, rest) -> exists pre, input = pre ++ rest /\ Reads p pre v.

Create HintDb locality.

Lemma local_ret {A} (v : A) : Local (mret v).
Proof. intros input w rest [= <- <-]. exists []. split; [done|apply reads_ret]. Qed.

Lemma local_fail {A} e : Local (@decode_fail A e).
Proof. by intros ???. Qed.

Lemma local_bind {A B} (p : decoder A) (k : A -> decoder B) : Local p -> (forall v, Local (k v)) -> Local (p ≫= k).
Proof.
  intros Hp Hk input w rest Hb. apply bind_ok in Hb as (v & rest' & Hv & Hw).
  apply Hp in Hv as (pre & -> & Hr). apply Hk in Hw as (pre' & -> & Hr'). exists (pre ++ pre').
  split; [by rewrite app_assoc|by eapply reads_bind].
Qed.

Lemma local_or_error {A} e (p : decoder A) : Local p -> Local (or_error e p).
Proof.
  intros Hp input v rest Hv. apply or_error_ok, Hp in Hv as (pre & -> & Hr). exists pre. split; [done|by apply reads_or_error].
Qed.

Lemma local_if {A} (c : bool) (p q : decoder A) : Local p -> Local q -> Local (if c then p else q).
Proof. by destruct c. Qed.

Lemma local_bytes n e : Local (take_bytes n e).
Proof.
  intros input v rest. unfold take_bytes. destruct (Z.ltb_spec (len input) n) as [|Hn]; [done|]. intros [= <- <-].
  exists (take (Z.to_nat n) input). split; [by rewrite take_drop|]. intros rest. unfold take_bytes, len in *.
  assert (length (take (Z.to_nat n) input) = Z.to_nat n) as Hl by (rewrite length_take; lia).
  rewrite length_app, Hl, (proj2 (Z.ltb_ge _ _)) by lia. by rewrite take_app_length', drop_app_length'.
Qed.

Lemma local_uint n e : Local (take_uint n e).
Proof.
  intros input v rest. unfold take_uint. destruct (take_bytes n e input) as [[l rest']|] eqn:E; [|done]. intros [= <- <-].
  apply local_bytes in E as (pre & -> & Hr). exists pre. split; [done|]. intros rest. by rewrite (Hr rest).
Qed.

Lemma local_array n e : Local (take_array n e).
Proof.
  intros input v rest. unfold take_array. destruct (take_bytes _ e input) as [[l rest']|] eqn:E; [|done]. intros [= <- <-].
  apply local_bytes in E as (pre & -> & Hr). exists pre. split; [done|]. intros rest. by rewrite (Hr rest).
Qed.

#[export] Hint Resolve local_ret local_fail local_or_error local_bytes local_uint local_array : locality.

Ltac local :=
  repeat match goal with
  | |- Local (_ ≫= _) => apply local_bind; [|intros ?]; cbv beta
  | |- Local (if _ then _ else _) => apply local_if
  | |- _ => solve [auto with locality]
  end.

Lemma local_text maximum : Local (text maximum).
Proof. unfold text. local. Qed.

Lemma local_int64 e : Local (take_int64 e).
Proof. unfold take_int64. local. Qed.

Lemma local_atMost m n e : Local (atMost m n e).
Proof. unfold atMost. local. Qed.

#[export] Hint Resolve local_text local_int64 local_atMost : locality.

Lemma local_domains count known : Local (decodeDomains count known).
Proof. revert known. induction count as [|count IH]; intros known; cbn [decodeDomains]; local. Qed.

#[export] Hint Resolve local_domains : locality.

Lemma local_commitment e : Local (decodeEpochCommitment e).
Proof. unfold decodeEpochCommitment, decodeViewCommitment, decodeSummaries. local. Qed.

Lemma local_duty a b : Local (dutyFields a b).
Proof. unfold dutyFields. local. Qed.

#[export] Hint Resolve local_commitment local_duty : locality.

Lemma local_unsigned : Local unsignedFields.
Proof. unfold unsignedFields, decodeDestinationResolutionGateway, decodeTransitIssuanceDuty. local. Qed.

(** ** The signed Epoch *)

Lemma sorted_snoc {A} (R : relation A) `{!Transitive R} l x :
  StronglySorted R l -> (forall y, last l = Some y -> R y x) -> StronglySorted R (l ++ [x]).
Proof.
  intros Hs Hx. induction Hs as [|a l Hs IH Ha]; cbn [app]; [by repeat constructor|].
  destruct l as [|b l]; [repeat constructor; by apply Hx|].
  specialize (IH Hx). constructor; [done|]. rewrite Forall_app. split; [done|]. constructor; [|done].
  inversion IH as [|? ? ? Hb]; subst. rewrite Forall_app in Hb. destruct Hb as [_ Hb]. inversion Hb; subst.
  inversion Ha; subst. by transitivity b.
Qed.

Definition idLess (a b : array 32) : Prop := bytes_lt a b.

#[global] Instance idLess_transitive : Transitive idLess.
Proof. intros a b c. apply bytes_lt_trans. Qed.

Lemma idLess_NoDup ids : StronglySorted idLess ids -> NoDup ids.
Proof.
  induction 1 as [|a l Hs IH Ha]; constructor; [|done]. intros Hin. rewrite Forall_forall in Ha.
  by apply Ha, bytes_lt_irrefl in Hin.
Qed.

Lemma decodeSignatures_sorted count known input signed rest :
  StronglySorted idLess (map sig_id known) -> decodeSignatures count known input = Ok (signed, rest) ->
  StronglySorted idLess (map sig_id signed).
Proof.
  revert known input. induction count as [|count IH]; intros known input Hs Hd; cbn [decodeSignatures] in Hd.
  { by injection Hd as <- <-. }
  inv_decode. eapply IH, Hd. rewrite map_app. apply sorted_snoc; [apply _|done|]. intros y Hy.
  change (last (sig_id <$> known) = Some y) in Hy. rewrite fmap_last in Hy.
  destruct (last known) as [s|]; [|done]. injection Hy as <-. by apply bytes_geb_false.
Qed.

Section Epoch.
Context `{GoLib}.

(** The bytes that the signatures of an Epoch cover. *)
Definition unsignedOf (input : bytes) : bytes :=
  match unsignedFields input with
  | Ok (_, signed) => take (Z.to_nat (len input - len signed)) input
  | Err _ => []
  end.

Lemma parseEpoch_ok input e :
  parseEpoch input = Ok e ->
  exists body signers, Reads unsignedFields (unsignedOf input) body /\
    e = (body <| signatures := signers |> <| digest := sha256 (unsignedOf input) |>) /\
    StronglySorted idLess (map sig_id signers).
Proof.
  unfold parseEpoch, unsignedOf. intros Hp. destruct (_ || _) in Hp; [done|].
  destruct (unsignedFields input) as [[body signed]|] eqn:Hu; [|done].
  destruct (signatureFields signed) as [[signers rest]|] eqn:Hs; [|done]. inv_ok.
  exists body, signers. apply local_unsigned in Hu as (pre & -> & Hr).
  assert (take (Z.to_nat (len (pre ++ signed) - len signed)) (pre ++ signed) = pre) as E.
  { rewrite len_app. replace (len pre + len signed - len signed) with (len pre) by lia. unfold len.
    by rewrite Nat2Z.id, take_app_length. }
  rewrite E in *. split_and!; [done|by symmetry|]. unfold signatureFields in Hs. inv_decode.
  eapply decodeSignatures_sorted, Hs. constructor.
Qed.

(** One digest, one Epoch: apart from the signatures. *)
Lemma parseEpoch_digest input input' e e' :
  parseEpoch input = Ok e -> parseEpoch input' = Ok e' -> e.(digest) = e'.(digest) ->
  e' = e <| signatures := e'.(signatures) |> \/ Collision sha256 [unsignedOf input; unsignedOf input'].
Proof.
  intros He He' Hd. apply parseEpoch_ok in He as (b & s & Hr & -> & _). apply parseEpoch_ok in He' as (b' & s' & Hr' & -> & _).
  cbn [digest] in Hd. destruct (collision_pair sha256 _ _ Hd) as [E|Hc]; [left|by right].
  rewrite E in Hr. specialize (Hr []). specialize (Hr' []). rewrite Hr in Hr'. injection Hr' as ->. by rewrite E.
Qed.

Record SignedEpoch (c : epochPolicy) (input : bytes) (e : epochEnvelope) : Prop := {
  se_signers : NoDup (map sig_id e.(signatures));
  se_threshold : c.(policy_Threshold) <= len e.(signatures);
  se_valid : Forall (fun s => exists public, c.(policy_Authorities) !! s.(sig_id) = Some public /\
    ed25519_Verify public (sha256 (unsignedOf input)) s.(sig_signature) = true) e.(signatures);
  se_digest : e.(digest) = sha256 (unsignedOf input);
  se_network : e.(networkID) = c.(policy_NetworkID);
  se_window : e.(validFrom) <= c.(policy_Now) < e.(validUntil)
}.

(** What the Epoch says of its place in the chain. *)
Definition Extends (current : option (Z * array 32)) (e : epochEnvelope) : Prop :=
  e.(number) <= maximumEpochChain /\
  match current with
  | None => e.(number) = 1 /\ e.(previous) = zero32
  | Some (n, d) => e.(number) = u64 (n + 1) /\ e.(previous) = d
  end.

Lemma countSignatures_ok c message signed valid v :
  countSignatures c message signed valid = Ok v ->
  v = valid + len signed /\
  Forall (fun s => exists public, c.(policy_Authorities) !! s.(sig_id) = Some public /\
    ed25519_Verify public message s.(sig_signature) = true) signed.
Proof.
  revert valid. induction signed as [|s signed IH]; intros valid Hc; cbn [countSignatures] in Hc.
  { injection Hc as <-. unfold len. cbn. split; [lia|constructor]. }
  destruct (policy_Authorities c !! sig_id s) as [public|] eqn:Ha; [|done]. inv_ok. apply IH in Hc as [-> Hf].
  rewrite len_cons. split; [lia|]. constructor; [|done]. exists public. split; [done|by apply negb_false_iff].
Qed.

Lemma verifyEpoch_ok c current input e :
  verifyEpoch c current input = Ok e -> parseEpoch input = Ok e /\ SignedEpoch c input e /\ Extends current e.
Proof.
  unfold verifyEpoch, authenticateEnvelope. intros Hv. inv_ok. subst.
  match goal with X : parseEpoch _ = Ok _ |- _ => pose proof X as Hp end.
  apply parseEpoch_ok in Hp as (b & s & _ & E & Hs). split; [done|].
  match goal with X : countSignatures _ _ _ _ = Ok _ |- _ => apply countSignatures_ok in X as [-> Hf] end.
  split.
  - constructor; [subst e; by apply idLess_NoDup|lia| |by subst e|by goprop|lia].
    by subst e.
  - match goal with X : verifyEpochChain _ _ = Ok _ |- _ => unfold verifyEpochChain in X end.
    destruct current as [[n d]|]; inv_ok; split; try lia; goprop; by split.
Qed.

End Epoch.

(** ** The candidate view *)

Section Lists.
Context {A B K : Type} `{EqDecision K}.

(** A key that occurs once among the results of [g] belongs to one position. *)
Lemma unique_count (g : A -> option B) (key : B -> K) l i x b :
  l !! i = Some x -> g x = Some b ->
  (length (filter (fun y => key y = key b) (omap g l)) <= 1)%nat <->
  (forall j y b', l !! j = Some y -> j <> i -> g y = Some b' -> key b' <> key b).
Proof.
  intros Hi Hg. rewrite <- (take_drop_middle l i x Hi) at 1. rewrite omap_app. cbn [omap list_omap]. rewrite Hg.
  rewrite filter_app, filter_cons_True, length_app by done. cbn [length].
  pose proof (lookup_lt_Some _ _ _ Hi) as Hlt. split.
  - intros Hc j y b' Hj Hne Hb' Hk.
    assert (forall l', y ∈ l' -> (0 < length (filter (fun y => key y = key b) (omap g l')))%nat) as Hin.
    { intros l' Hy. apply Nat.neq_0_lt_0. intros E. apply nil_length_inv in E.
      assert (b' ∈ filter (fun y => key y = key b) (omap g l')) as Hb; [|rewrite E in Hb; by apply elem_of_nil in Hb].
      apply list_elem_of_filter. split; [done|]. apply list_elem_of_omap. eauto. }
    destruct (decide (j < i)%nat).
    + specialize (Hin (take i l)).
      assert (y ∈ take i l) as Hy by (apply (list_elem_of_lookup_2 _ j); by rewrite lookup_take_lt). apply Hin in Hy. lia.
    + specialize (Hin (drop (S i) l)).
      assert (y ∈ drop (S i) l) as Hy.
      { apply (list_elem_of_lookup_2 _ (j - S i)). rewrite lookup_drop. by replace (S i + (j - S i))%nat with j by lia. }
      apply Hin in Hy. lia.
  - intros Hu.
    assert (forall l', (forall y, y ∈ l' -> exists j, l !! j = Some y /\ j <> i) ->
      filter (fun y => key y = key b) (omap g l') = []) as Hnil.
    { intros l' Hl. apply elem_of_nil_inv. intros c Hc. apply list_elem_of_filter in Hc as [Hk Hc]. apply list_elem_of_omap in Hc as (y & Hy & Hgy).
      destruct (Hl y Hy) as (j & Hj & Hne). by destruct (Hu j y c Hj Hne Hgy). }
    rewrite (Hnil (take i l)), (Hnil (drop (S i) l)); [cbn; lia|..]; intros y Hy; apply list_elem_of_lookup in Hy as [j Hj].
    + rewrite lookup_drop in Hj. exists (S i + j)%nat. split; [done|lia].
    + apply lookup_take_Some in Hj as [Hj ?]. exists j. split; [done|lia].
Qed.

Lemma omap_shorter (g : A -> option B) l : (length (omap g l) <= length l)%nat.
Proof. induction l as [|x l IH]; [done|]. cbn [omap list_omap length]. destruct (g x); cbn [length]; lia. Qed.

(** Keys that occur once stay apart. *)
Lemma NoDup_unique (key : B -> K) (P : B -> Prop) `{!forall x, Decision (P x)} l :
  (forall x, x ∈ l -> P x -> (length (filter (fun y => key y = key x) l) <= 1)%nat) -> NoDup (key <$> filter P l).
Proof.
  induction l as [|x l IH]; intros Hu; [constructor|].
  assert (NoDup (key <$> filter P l)) as Hl.
  { apply IH. intros y Hy HP. specialize (Hu y ltac:(by right) HP). rewrite filter_cons in Hu. destruct (decide _); cbn in Hu; lia. }
  rewrite filter_cons. destruct (decide (P x)) as [HP|]; [|done]. cbn [fmap list_fmap]. constructor; [|done].
  intros Hin. apply list_elem_of_fmap in Hin as (y & Hk & Hy). apply list_elem_of_filter in Hy as [_ Hy].
  specialize (Hu x ltac:(by left) HP). rewrite filter_cons_True in Hu by done. cbn [length] in Hu.
  assert (y ∈ filter (fun z => key z = key x) l) as Hf by (by apply list_elem_of_filter).
  assert (length (filter (fun z => key z = key x) l) = 0%nat) as E by lia. apply nil_length_inv in E.
  rewrite E in Hf. by apply elem_of_nil in Hf.
Qed.

End Lists.

Section View.
Context `{GoLib}.

(** What a record must be, on its own, to enter the view of an Epoch. *)
Record Eligible (c : epochPolicy) (e : epochEnvelope) (r : nodeRecord) : Prop := {
  el_network : r.(rec_networkID) = c.(policy_NetworkID);
  el_signature : signatureValid r = true;
  el_window : r.(notBefore) <= e.(validFrom) < r.(notAfter);
  el_capability : r.(capability) = requiredCapability e.(profile);
  el_capacity : r.(capacity) <> 0 /\ r.(capacity) <= 1024;
  el_carrier : validCarrierForEpoch e.(profile) r.(carrier) = true;
  el_key : c.(policy_Authorities) !! r.(keyID) = None
}.

Lemma evaluate_eligible c e input r : evaluate c e input = (r, None) <-> parseRecord input = Ok r /\ Eligible c e r.
Proof.
  unfold evaluate, authorityOwnsKey. destruct (parseRecord input) as [r'|]; [|split; [done|by intros [? _]]]. split.
  - intros E. injection E as -> E. repeat (destruct (_ : bool) eqn:? in E; [done|]). split; [done|]. goprop.
    constructor; try done. by apply eq_None_not_Some.
  - intros [[= ->] [-> -> [? ?] -> [? ?] -> Hk]]. rewrite Hk, bool_decide_eq_true_2 by done.
    rewrite (proj2 (Z.ltb_ge _ _)), (proj2 (Z.ltb_lt _ _)), Z.eqb_refl, (proj2 (Z.eqb_neq _ _)), (proj2 (Z.ltb_ge _ _)) by done.
    by rewrite bool_decide_eq_false_2 by (by intros [? ?]).
Qed.

(** The record that an input contributes before collisions are looked at. *)
Definition contributed (c : epochPolicy) (e : epochEnvelope) (input : bytes) : option nodeRecord :=
  match evaluate c e input with (r, None) => Some r | _ => None end.

Lemma contributed_eligible c e input r : contributed c e input = Some r <-> parseRecord input = Ok r /\ Eligible c e r.
Proof.
  rewrite <- evaluate_eligible. unfold contributed. destruct (evaluate c e input) as [r' [code|]]; split; intros E; simplify_eq; done.
Qed.

Lemma acceptedOf_evaluate c e index inputs :
  acceptedOf (evaluateFrom c e index inputs) = omap (contributed c e) inputs.
Proof.
  revert index. induction inputs as [|input inputs IH]; intros index; [done|]. cbn [evaluateFrom omap list_omap]. unfold contributed.
  destruct (evaluate c e input) as [r [code|]]; unfold acceptedOf in *; cbn [omap list_omap ev_code ev_record]; by rewrite IH.
Qed.

Lemma tally_count {K} `{Countable K} (key : nodeRecord -> K) items k :
  countOf (tally key items) k = Z.of_nat (length (filter (fun r => key r = k) (acceptedOf items))).
Proof.
  unfold tally. assert (forall m, countOf (foldl (fun counts item => match item.(ev_code) with
      | None => let k := key item.(ev_record) in <[k := default 0 (counts !! k) + 1]> counts | Some _ => counts end) m items) k =
    countOf m k + Z.of_nat (length (filter (fun r => key r = k) (acceptedOf items)))) as Hm; [|rewrite Hm; by unfold countOf; rewrite lookup_empty].
  induction items as [|item items IH]; intros m; [cbn; lia|]. cbn [foldl]. rewrite IH. unfold acceptedOf. cbn [omap list_omap].
  destruct (ev_code item); [done|]. cbv zeta. rewrite filter_cons. unfold countOf.
  destruct (decide (key (ev_record item) = k)) as [->|Hne].
  - rewrite lookup_insert_eq. cbn [length from_option]. unfold default. fold (acceptedOf items). unfold id. lia.
  - by rewrite lookup_insert_ne.
Qed.

(** No other of the records shares the identity, the key or the endpoint. *)
Definition Alone (base : list nodeRecord) (r : nodeRecord) : Prop :=
  (length (filter (fun x => nodeID x = nodeID r) base) <= 1)%nat /\
  (length (filter (fun x => keyID x = keyID r) base) <= 1)%nat /\
  (length (filter (fun x => endpoint x = endpoint r) base) <= 1)%nat.

#[global] Instance Alone_dec base r : Decision (Alone base r).
Proof. unfold Alone. apply _. Defined.

Lemma generationKey_node a b : generationKey a = generationKey b -> nodeID a = nodeID b.
Proof. unfold generationKey. intros E. apply app_inj_1 in E as [E _]; [|by rewrite !array_length]. by apply array_eq. Qed.

Lemma generation_count base r :
  (length (filter (fun x => generationKey x = generationKey r) base) <= length (filter (fun x => nodeID x = nodeID r) base))%nat.
Proof.
  induction base as [|x base IH]; [done|]. rewrite !filter_cons.
  destruct (decide (generationKey x = generationKey r)) as [E|].
  - rewrite decide_True by (by apply generationKey_node). cbn [length]. lia.
  - destruct (decide (nodeID x = nodeID r)); cbn [length]; lia.
Qed.

Lemma acceptedOf_mark items : acceptedOf (markCollisions items) = filter (Alone (acceptedOf items)) (acceptedOf items).
Proof.
  unfold markCollisions. set (base := acceptedOf items) at 1 2.
  assert (forall r, countOf (tally nodeID items) (nodeID r) = Z.of_nat (length (filter (fun x => nodeID x = nodeID r) base))) as Hn
    by (intros; apply tally_count).
  assert (forall r, countOf (tally generationKey items) (generationKey r) =
    Z.of_nat (length (filter (fun x => generationKey x = generationKey r) base))) as Hg by (intros; apply tally_count).
  assert (forall r, countOf (tally keyID items) (keyID r) = Z.of_nat (length (filter (fun x => keyID x = keyID r) base))) as Hk
    by (intros; apply tally_count).
  assert (forall r, countOf (tally endpoint items) (endpoint r) = Z.of_nat (length (filter (fun x => endpoint x = endpoint r) base))) as He
    by (intros; apply tally_count).
  clearbody base. revert Hn Hg Hk He. generalize (tally nodeID items), (tally generationKey items), (tally keyID items), (tally endpoint items).
  intros nodes generations keys endpoints Hn Hg Hk He.
  induction items as [|item items IH]; [done|]. unfold acceptedOf in *. cbn [map omap list_omap].
  destruct (ev_code item) as [code|] eqn:Hc; [rewrite Hc; exact IH|]. rewrite filter_cons, <- IH.
  set (r := ev_record item). rewrite Hn, Hg, Hk, He. pose proof (generation_count base r) as Hle.
  destruct (decide (Alone base r)) as [(H1 & H2 & H3)|Hnot].
  - rewrite !(proj2 (Z.ltb_ge 1 _)) by lia. by rewrite Hc.
  - repeat (destruct (1 <? _) eqn:? at 1; [done|]). destruct Hnot. repeat split; lia.
Qed.

(** *** Sorting by distinct identities *)

Lemma insertBy_perm {A} (key : A -> array 32) x l : insertBy key x l ≡ₚ x :: l.
Proof.
  induction l as [|y l IH]; [done|]. cbn [insertBy]. destruct (bytes_ltb _ _); [|done]. rewrite IH. apply Permutation_swap.
Qed.

Lemma sortBy_perm {A} (key : A -> array 32) l : sortBy key l ≡ₚ l.
Proof. induction l as [|x l IH]; [done|]. cbn [sortBy foldr]. rewrite insertBy_perm. by constructor. Qed.

Lemma insertBy_sorted {A} (key : A -> array 32) x l :
  StronglySorted idLess (map key l) -> key x ∉ map key l -> StronglySorted idLess (map key (insertBy key x l)).
Proof.
  induction l as [|y l IH]; cbn [insertBy map]; intros Hs Hx; [by repeat constructor|].
  inversion Hs as [|? ? Hl Hy]; subst. apply not_elem_of_cons in Hx as [Hne Hx]. destruct (bytes_ltb _ _) eqn:E; cbn [map].
  - constructor; [by apply IH|]. rewrite (Permutation_map key (insertBy_perm key x l)). by constructor.
  - constructor; [done|]. assert (idLess (key x) (key y)) as Hlt.
    { destruct (proj1 (bytes_geb_true (key y) (key x))) as [Heq|Hlt]; [by unfold bytes_geb; rewrite E| |done].
      by apply array_eq in Heq. }
    constructor; [done|]. eapply Forall_impl; [exact Hy|]. intros z Hz. by transitivity (key y).
Qed.

Lemma sortBy_sorted {A} (key : A -> array 32) l : NoDup (map key l) -> StronglySorted idLess (map key (sortBy key l)).
Proof.
  induction l as [|x l IH]; intros Hn; [constructor|]. inversion Hn; subst. cbn [sortBy foldr].
  apply insertBy_sorted; [by apply IH|]. by rewrite (Permutation_map key (sortBy_perm key l)).
Qed.

(** Whatever sorts the list by its distinct identities gives this order. *)
Lemma sortBy_unique {A} (key : A -> array 32) l l' :
  NoDup (map key l) -> l' ≡ₚ l -> StronglySorted idLess (map key l') -> l' = sortBy key l.
Proof.
  intros Hn Hp Hs'. assert (l' ≡ₚ sortBy key l) as Hp' by (by rewrite sortBy_perm). pose proof (sortBy_sorted key l Hn) as Hs.
  clear Hp Hn. revert Hp' Hs. generalize (sortBy key l) as m. clear l. induction l' as [|x l' IH]; intros m Hp Hs.
  { by apply Permutation_nil in Hp. }
  destruct m as [|y m]; [by apply Permutation_sym, Permutation_nil in Hp|].
  cbn [map] in *. inversion Hs' as [|? ? Hs1 Hx]; subst. inversion Hs as [|? ? Hs2 Hy]; subst. rewrite Forall_forall in Hx, Hy.
  assert (x = y) as ->; [|f_equal; apply IH; [done|by apply Permutation_cons_inv in Hp|done]].
  assert (x ∈ y :: m) as Hin by (rewrite <- Hp; left). apply elem_of_cons in Hin as [|Hin]; [done|].
  assert (y ∈ x :: l') as Hin' by (rewrite Hp; left). apply elem_of_cons in Hin' as [|Hin']; [done|].
  exfalso. apply (bytes_lt_irrefl (key x)). transitivity (key y : bytes); [apply Hx|apply Hy]; by apply list_elem_of_fmap_2.
Qed.

(** *** What evaluation leaves *)

(** The records that enter the view: eligible, and alone with their identity, key
    and endpoint among all eligible inputs. *)
Definition Candidate (c : epochPolicy) (e : epochEnvelope) (inputs : list bytes) (r : nodeRecord) : Prop :=
  exists i input, inputs !! i = Some input /\ parseRecord input = Ok r /\ Eligible c e r /\
    forall j input' r', inputs !! j = Some input' -> j <> i -> parseRecord input' = Ok r' -> Eligible c e r' ->
      r'.(nodeID) <> r.(nodeID) /\ r'.(keyID) <> r.(keyID) /\ r'.(endpoint) <> r.(endpoint).

Lemma alone_candidate c e inputs r :
  r ∈ filter (Alone (omap (contributed c e) inputs)) (omap (contributed c e) inputs) <-> Candidate c e inputs r.
Proof.
  rewrite list_elem_of_filter. split.
  - intros [(H1 & H2 & H3) Hr]. apply list_elem_of_omap in Hr as (input & Hin & Hc). apply list_elem_of_lookup in Hin as [i Hi].
    exists i, input. apply contributed_eligible in Hc as Hp. destruct Hp as [Hp He]. split_and!; try done.
    intros j input' r' Hj Hne Hp' He'. assert (contributed c e input' = Some r') as Hc' by (by apply contributed_eligible).
    pose proof (unique_count (contributed c e) nodeID inputs i input r Hi Hc) as [U1 _].
    pose proof (unique_count (contributed c e) keyID inputs i input r Hi Hc) as [U2 _].
    pose proof (unique_count (contributed c e) endpoint inputs i input r Hi Hc) as [U3 _].
    split_and!; [by eapply U1|by eapply U2|by eapply U3].
  - intros (i & input & Hi & Hp & He & Hu). assert (contributed c e input = Some r) as Hc by (by apply contributed_eligible).
    split; [|apply list_elem_of_omap; exists input; split; [by eapply list_elem_of_lookup_2|done]].
    split_and!; (eapply unique_count; [exact Hi|exact Hc|]); intros j y b' Hj Hne Hb'; apply contributed_eligible in Hb' as [Hp' He'];
      by destruct (Hu j y b' Hj Hne Hp' He') as (? & ? & ?).
Qed.

Record ViewOf (c : epochPolicy) (e : epochEnvelope) (inputs : list bytes) (view : list nodeRecord) : Prop := {
  vo_exact : forall r, r ∈ view <-> Candidate c e inputs r;
  vo_nodes : StronglySorted idLess (map nodeID view);
  vo_keys : NoDup (map keyID view);
  vo_endpoints : NoDup (map endpoint view)
}.

Lemma evaluateInputs_view c e inputs : ViewOf c e inputs (evaluateInputs c e inputs).1.
Proof.
  unfold evaluateInputs. cbv zeta. cbn [fst]. rewrite acceptedOf_mark, acceptedOf_evaluate. set (base := omap (contributed c e) inputs).
  constructor.
  - intros r. rewrite (sortBy_perm nodeID (filter (Alone base) base)). apply alone_candidate.
  - apply sortBy_sorted. apply (NoDup_unique nodeID (Alone base)). by intros x _ (? & _).
  - rewrite (Permutation_map keyID (sortBy_perm nodeID (filter (Alone base) base))).
    apply (NoDup_unique keyID (Alone base)). by intros x _ (_ & ? & _).
  - rewrite (Permutation_map endpoint (sortBy_perm nodeID (filter (Alone base) base))).
    apply (NoDup_unique endpoint (Alone base)). by intros x _ (_ & _ & ?).
Qed.

Lemma evaluateInputs_length c e inputs : len (evaluateInputs c e inputs).1 <= len inputs.
Proof.
  unfold evaluateInputs. cbv zeta. cbn [fst]. unfold len. rewrite sortBy_perm, acceptedOf_mark, acceptedOf_evaluate.
  set (base := omap (contributed c e) inputs).
  pose proof (omap_shorter (contributed c e) inputs) as Ho. fold base in Ho. pose proof (length_filter (Alone base) base). lia.
Qed.

Lemma evaluateFrom_lookup c e k inputs i input :
  inputs !! i = Some input ->
  evaluateFrom c e k inputs !! i = Some (MkEvaluated (k + Z.of_nat i) input (evaluate c e input).1 (evaluate c e input).2).
Proof.
  revert k i. induction inputs as [|x inputs IH]; intros k i Hi; [done|]. cbn [evaluateFrom].
  rewrite (surjective_pairing (evaluate c e x)). destruct i as [|i].
  - injection Hi as ->. cbn. do 2 f_equal. lia.
  - transitivity (evaluateFrom c e (k + 1) inputs !! i); [done|]. rewrite (IH (k + 1) i Hi). do 2 f_equal. lia.
Qed.

Lemma mark_lookup items i item :
  items !! i = Some item ->
  exists code, markCollisions items !! i = Some (MkEvaluated item.(ev_index) item.(ev_input) item.(ev_record) code) /\
    (code = None -> item.(ev_code) = None).
Proof.
  intros Hi. unfold markCollisions. cbv zeta.
  match goal with |- context [map ?f items] => pose proof (list_lookup_fmap f items i : map f items !! i = _) as Hm end.
  rewrite Hm, Hi. cbn [fmap option_fmap option_map]. destruct item as [k x r [code|]]; cbn [ev_code ev_record]; [by exists (Some code)|].
  repeat (match goal with |- context [if ?b then _ else _] => destruct b end; [by eexists|]). by eexists.
Qed.

(** The code for a repeated generation is never given: two records with one
    generation of one node already share the identity. *)
Lemma generation_never_rejected c e inputs r : r ∈ (evaluateInputs c e inputs).2 -> r.(rej_code) <> rejectGeneration.
Proof.
  unfold evaluateInputs. cbv zeta. cbn [snd]. intros Hr. apply list_elem_of_omap in Hr as (item & Hi & Hc).
  destruct (ev_code item) as [code|] eqn:E; [|done]. injection Hc as <-. cbn [rej_code]. intros ->.
  unfold markCollisions in Hi. cbv zeta in Hi. apply list_elem_of_fmap in Hi as (x & -> & Hx).
  destruct (ev_code x) as [code|] eqn:Ex.
  - rewrite Ex in E. injection E as ->. clear -Hx Ex. revert Hx. generalize 0. induction inputs as [|input inputs IH]; intros k Hx;
      cbn [evaluateFrom] in Hx; [by apply elem_of_nil in Hx|]. rewrite (surjective_pairing (evaluate c e input)) in Hx.
    apply elem_of_cons in Hx as [->|Hx]; [|by eapply IH]. cbn [ev_code] in Ex. unfold evaluate in Ex.
    destruct (parseRecord input); cbn [snd] in Ex; [|done]. by repeat (destruct (_ : bool) in Ex; [done|]).
  - rewrite !tally_count in E. pose proof (generation_count (acceptedOf (evaluateFrom c e 0 inputs)) (ev_record x)) as Hg.
    destruct (Z.ltb_spec 1 (Z.of_nat (length (filter (fun r => nodeID r = nodeID (ev_record x)) (acceptedOf (evaluateFrom c e 0 inputs)))))); [done|].
    rewrite (proj2 (Z.ltb_ge 1 _)) in E by lia. repeat (destruct (_ : bool) in E; [done|]). by rewrite Ex in E.
Qed.

(** Every input is accepted or has its rejection in the log. *)
Lemma evaluateInputs_complete c e inputs i input :
  inputs !! i = Some input ->
  (exists r, r ∈ (evaluateInputs c e inputs).1 /\ parseRecord input = Ok r) \/
  (exists code, MkRejection (u32 (Z.of_nat i)) code input ∈ (evaluateInputs c e inputs).2).
Proof.
  intros Hi. apply (evaluateFrom_lookup c e 0) in Hi. apply mark_lookup in Hi as (code & Hi & Hc).
  cbn [ev_index ev_input ev_record ev_code] in *. apply list_elem_of_lookup_2 in Hi. unfold evaluateInputs. cbv zeta. cbn [fst snd].
  destruct code as [code|]; [right; exists code|left; exists (evaluate c e input).1].
  - apply list_elem_of_omap. eexists. by split; [exact Hi|].
  - specialize (Hc eq_refl). split; [|by apply (evaluate_eligible c e input); rewrite <- Hc, <- surjective_pairing].
    rewrite sortBy_perm. apply list_elem_of_omap. eexists. by split; [exact Hi|].
Qed.

End View.

(** ** Role domains *)

Section Domains.
Context `{GoLib}.

Lemma lowestDomain_spec (f : gostring -> array 32) first selected (rest : list gostring) (s : gostring) (before : list gostring) :
  (first = true -> selected = [] /\ before = []) -> (first = false -> selected <> [] /\ selected ∈ before) ->
  Forall (fun d => d <> []) (before ++ rest) ->
  (forall d, d ∈ before -> d = selected \/ bytes_lt (f selected) (f d)) ->
  lowestDomain f first selected (if first then zero32 else f selected) rest = Ok s -> s <> [] ->
  s ∈ before ++ rest /\ forall d, d ∈ before ++ rest -> d = s \/ bytes_lt (f s) (f d).
Proof.
  revert first selected before. induction rest as [|d rest IH]; intros first selected before Hf Hnf Hall Hmin Hl Hs;
    cbn [lowestDomain] in Hl.
  { injection Hl as <-. rewrite app_nil_r. destruct first; [by destruct (Hf eq_refl)|]. by destruct (Hnf eq_refl). }
  replace (before ++ d :: rest) with ((before ++ [d]) ++ rest) in * by (by rewrite <- app_assoc).
  assert (d <> []) as Hd by (rewrite !Forall_app in Hall; by destruct Hall as [[_ Hd] _]; inversion Hd).
  destruct first.
  - destruct (Hf eq_refl) as [-> ->]. cbn [negb andb] in Hl. rewrite bool_decide_eq_true_2 in Hl by done. cbn [orb] in Hl.
    apply (IH false d ([] ++ [d])) in Hl; try done; [by intros _; split; [done|left]|]. intros x Hx. left. set_solver.
  - destruct (Hnf eq_refl) as [Hne Hin]. cbn [negb andb] in Hl. destruct (bool_decide (f d = f selected)) eqn:Etie; [done|].
    apply bool_decide_eq_false in Etie. rewrite bool_decide_eq_false_2 in Hl by done. cbn [orb] in Hl.
    destruct (bytes_ltb (f d) (f selected)) eqn:Elt.
    + apply (IH false d (before ++ [d])) in Hl; try done; [intros _; split; [done|set_solver]|].
      intros x Hx. apply elem_of_app in Hx as [Hx|Hx]; [right|left; set_solver].
      destruct (Hmin x Hx) as [->|Hlt]; [done|]. by transitivity (f selected : bytes).
    + apply (IH false selected (before ++ [d])) in Hl; try done; [intros _; split; [done|set_solver]|].
      intros x Hx. apply elem_of_app in Hx as [Hx|Hx]; [by apply Hmin|]. right. apply list_elem_of_singleton in Hx as ->.
      destruct (proj1 (bytes_geb_true (f d) (f selected))) as [Heq|Hlt]; [by unfold bytes_geb; rewrite Elt| |done].
      by apply array_eq in Heq.
Qed.

Lemma text_nonempty m input v rest : text m input = Ok (v, rest) -> v <> [].
Proof.
  unfold text. intros Ht. apply bind_ok in Ht as (n & r1 & Hn & Ht). cbv beta in Ht. destruct (_ || _) eqn:Hb in Ht; [done|].
  apply bind_ok in Ht as (value & r2 & Hv & Ht). cbv beta in Ht. apply take_uint_ok in Hn as [_ Hr]; [|lia].
  repeat (destruct (negb _) in Ht; [done|]). injection Ht as <- <-. apply take_bytes_ok in Hv as [_ Hl]; [|lia].
  intros ->. unfold len in Hl. cbn in Hl. lia.
Qed.

Lemma decodeDomains_nonempty count known input l rest :
  Forall (fun d => d.(dom_id) <> []) known -> decodeDomains count known input = Ok (l, rest) ->
  Forall (fun d => d.(dom_id) <> []) l.
Proof.
  revert known input. induction count as [|count IH]; intros known input Hk Hd; cbn [decodeDomains] in Hd; [by injection Hd as <- <-|].
  inv_decode. eapply IH, Hd. apply Forall_app. split; [done|]. repeat constructor. by eapply text_nonempty.
Qed.

Lemma unsigned_domains input e rest :
  unsignedFields input = Ok (e, rest) -> Forall (fun d => d.(dom_id) <> []) e.(domains).
Proof.
  intros Hu. unfold unsignedFields in Hu. inv_decode.
  match goal with X : decodeEpochCommitment _ _ = Ok (?b, _) |- _ =>
    assert (Forall (fun d => d.(dom_id) <> []) b.(domains)) as Hb end.
  { unfold decodeEpochCommitment, decodeViewCommitment, decodeSummaries in *. inv_decode.
    match goal with X : mret _ _ = Ok _ |- _ => injection X as <- <- end. cbn [domains].
    by eapply decodeDomains_nonempty; [|eassumption]. }
  unfold decodeDestinationResolutionGateway, decodeTransitIssuanceDuty in *.
  repeat (match goal with X : (if ?b then _ else _) _ = Ok _ |- _ => destruct b end; inv_decode;
    repeat match goal with X : mret _ _ = Ok _ |- _ => injection X as <- <- end); by cbn [domains].
Qed.

Lemma parseEpoch_domains input e : parseEpoch input = Ok e -> Forall (fun d => d <> []) (map dom_id e.(domains)).
Proof.
  intros (b & s & Hr & -> & _)%parseEpoch_ok. cbn [domains]. specialize (Hr []). apply unsigned_domains in Hr.
  by apply Forall_fmap.
Qed.

(** The role domain of a family: the one with the least digest. *)
Definition Assigned (e : epochEnvelope) (family domain : gostring) : Prop :=
  let digestOf := epochAssignmentDigest e.(networkID) e.(number) e.(assignmentSeed) family in
  domain ∈ map dom_id e.(domains) /\
  forall other, other ∈ map dom_id e.(domains) -> other = domain \/ bytes_lt (digestOf domain) (digestOf other).

Lemma assignedDomain_lowest e family domain :
  Forall (fun d => d <> []) (map dom_id e.(domains)) -> assignedDomain e family = Ok domain -> Assigned e family domain.
Proof.
  unfold assignedDomain, selectEpochDomain. intros Hd Ha. inv_ok. subst a.
  match goal with X : lowestDomain ?f _ _ _ ?l = Ok _ |- _ => eapply (lowestDomain_spec f true [] l domain []) in X end; try done.
  - intros x Hx. by apply elem_of_nil in Hx.
  - by goprop.
Qed.

End Domains.
