(* ===== verification/NetEpochDecision.v ===== *)
(** * Network Epochs: decisions and chains

    An accepted decision is signed by a threshold of the pinned authorities and
    shows exactly the candidates that its committed input log leaves; one digest
    stands for one view; every inclusion proof that a node hands out verifies; the
    walk through the stored generations always ends, at the genesis Epoch. *)

From S2P Require Import Prelude Wire GoLib GoTime Json Merkle StateView NetEpoch NetEpochProof.

Import netstate.

Section Decision.
Context `{GoLib}.

(** *** The projection of the candidates *)

(** The role domain of a record and its inclusion proof. *)
Definition Seat (d : verifiedEpochDecision) (e : epochEnvelope) (at_ : Z * nodeRecord) (seat : gostring * bytes) : Prop :=
  assignedDomain e at_.2.(family) = Ok seat.1 /\ Materialization d (u32 at_.1) = Ok seat.2.

Fixpoint indexed {A} (index : Z) (l : list A) : list (Z * A) :=
  match l with [] => [] | x :: l => (index, x) :: indexed (index + 1) l end.

Lemma attachFrom_ok index d view e d' :
  attachFrom index d view e = Ok d' ->
  exists seats, Forall2 (Seat d e) (indexed index view) seats /\
    d' = MkDecision d.(EpochBytes) d.(Inputs) d.(vd_Snapshot) (d.(NodeIDs) ++ map nodeID view) (d.(KeyIDs) ++ map keyID view)
      (d.(PublicKeys) ++ map (fun r => to_array 32 r.(publicKey)) view) (d.(FamilyIDs) ++ map (fun r => sha256 r.(family)) view)
      (d.(Families) ++ map family view) (d.(RecordDigests) ++ map (fun r => sha256 r.(raw)) view) (d.(DomainProofs) ++ map snd seats)
      (d.(Endpoints) ++ map endpoint view) (d.(CarrierProfiles) ++ map carrier view) (d.(Capacities) ++ map capacity view)
      (d.(Domains) ++ map fst seats) (d.(vd_ValidFrom) ++ map notBefore view) (d.(vd_ValidUntil) ++ map notAfter view)
      (d.(vd_AssignmentNotAfter) ++ map (fun _ => e.(validUntil)) view) d.(vd_epoch) d.(accepted) d.(rejections).
Proof.
  revert index d. induction view as [|r view IH]; intros index d Ha; cbn [attachFrom] in Ha.
  { injection Ha as <-. exists []. cbn [map]. rewrite !app_nil_r. split; [constructor|by destruct d]. }
  inv_ok. apply IH in Ha as (seats & Hf & ->). exists ((a, a0) :: seats).
  split; [by constructor|]. destruct d. cbn. by rewrite <- !app_assoc.
Qed.

Lemma seats_length d e index view seats : Forall2 (Seat d e) (indexed index view) seats -> length view = length seats.
Proof.
  revert index seats. induction view as [|r view IH]; intros index seats Hs; cbn [indexed] in Hs; inversion Hs; subst; [done|].
  cbn. f_equal. by eapply IH.
Qed.

Lemma seats_same d d' e e' index view seats seats' :
  (forall name, assignedDomain e name = assignedDomain e' name) ->
  d.(accepted) = d'.(accepted) -> d.(vd_epoch).(digest) = d'.(vd_epoch).(digest) ->
  Forall2 (Seat d e) (indexed index view) seats -> Forall2 (Seat d' e') (indexed index view) seats' -> seats = seats'.
Proof.
  intros He Ha Hd. revert index seats seats'. induction view as [|r view IH]; intros index seats seats' Hs Hs'; cbn [indexed] in Hs, Hs';
    inversion Hs as [|? ? ? ? [Hx1 Hx2]]; inversion Hs' as [|? ? ? ? [Hy1 Hy2]]; subst; [done|].
  f_equal; [|by eapply IH]. unfold Materialization in Hx2, Hy2. rewrite Ha, Hd, Hy2 in Hx2. rewrite He, Hy1 in Hx1.
  destruct y, y0. cbn in *. congruence.
Qed.

Lemma seats_at d e index view seats k r :
  Forall2 (Seat d e) (indexed index view) seats -> view !! k = Some r ->
  exists seat, seats !! k = Some seat /\ Seat d e (index + Z.of_nat k, r) seat.
Proof.
  revert index seats k. induction view as [|x view IH]; intros index seats k Hs Hk; cbn [indexed] in Hs; [done|].
  inversion Hs as [|? seat ? ? Hx Hrest]; subst. destruct k as [|k].
  - injection Hk as ->. exists seat. split; [done|]. by rewrite Z.add_0_r.
  - destruct (IH _ _ _ Hrest Hk) as (seat' & Hl & Hseat). exists seat'. split; [done|].
    by replace (index + Z.of_nat (S k)) with (index + 1 + Z.of_nat k) by lia.
Qed.

(** What a client sees of an accepted record. *)
Definition shownAs (e : epochEnvelope) (r : nodeRecord) (seat : gostring * bytes) : state.routeCandidate :=
  state.MkCandidate r.(nodeID) (to_array 32 r.(publicKey)) r.(keyID) (sha256 r.(family)) (sha256 r.(raw)) (sha256 seat.2)
    r.(family) r.(endpoint) r.(carrier) r.(capacity) seat.1 r.(notBefore) r.(notAfter) e.(validUntil).

Lemma omap_seq {A} (l : list A) (f : nat -> option A) n :
  (forall i, f (n + i)%nat = l !! i) -> omap f (seq n (length l)) = l.
Proof.
  revert n. induction l as [|x l IH]; intros n Hf; [done|]. cbn [length seq omap list_omap].
  pose proof (Hf 0%nat) as H0. rewrite Nat.add_0_r in H0. rewrite H0. cbn. f_equal. apply IH. intros i.
  transitivity (f (n + S i)%nat); [f_equal; lia|exact (Hf (S i))].
Qed.

(** The fields of a Snapshot that the duties leave alone. *)
Definition core (v : epochVerificationSnapshot) : gostring * array 32 * Z * array 32 * Z * gostring * array 32 :=
  (v.(vs_Generation), v.(vs_NetworkID), v.(vs_Epoch), v.(vs_Digest), v.(vs_ValidUntil), v.(vs_Profile), v.(vs_ViewRoot)).

Lemma duties_ok index d d1 d2 :
  attachDestinationResolutionGateway d = Ok d1 -> attachTransitIssuanceDuty d1 = Ok d2 ->
  exists s, core s = core d.(vd_Snapshot) /\ attachMaterializedRecord index d2 = d <| vd_Snapshot := s |>.
Proof.
  intros H1 H2.
  assert (exists s, core s = core d.(vd_Snapshot) /\ d1 = d <| vd_Snapshot := s |>) as (s1 & Hs1 & ->).
  { unfold attachDestinationResolutionGateway in H1. cbv zeta in H1.
    destruct (_ <? _); [injection H1 as <-; exists d.(vd_Snapshot); by destruct d|].
    destruct (negb _); inv_ok; subst d1; [exists d.(vd_Snapshot); by destruct d|]. eexists. split; [|reflexivity]. done. }
  assert (exists s, core s = core d.(vd_Snapshot) /\ d2 = d <| vd_Snapshot := s |>) as (s2 & Hs2 & ->).
  { unfold attachTransitIssuanceDuty in H2. cbv zeta in H2.
    destruct (_ <? _); [injection H2 as <-; by exists s1|].
    destruct (negb _); inv_ok; subst d2; [by exists s1|]. eexists. split; [|reflexivity]. done. }
  unfold attachMaterializedRecord. destruct (_ !! _); [|by exists s2]. cbv zeta. destruct (assignedDomain _ _); [|by exists s2].
  eexists. split; [|reflexivity]. done.
Qed.

(** *** The decision *)

Record Decided (c : config) (current : option state.Snapshot) (epochBytes : bytes) (inputs : list bytes) (d : candidateDecision) : Prop := {
  de_epoch : verifyEpoch (policyOf c current) (policyOf c current).(policy_Previous) epochBytes = Ok d.(cd_epoch);
  de_bytes : d.(cd_epochBytes) = epochBytes /\ d.(cd_inputs) = inputs;
  de_log : len inputs = d.(cd_epoch).(cutoff) /\ len inputs <= 64 /\ epochCommitmentRoot inputs emptyInputTag = d.(cd_epoch).(inputRoot);
  de_inner : d.(cd_verified).(vd_epoch) = d.(cd_epoch);
  de_view : (d.(cd_verified).(accepted), d.(cd_verified).(rejections)) = evaluateInputs (policyOf c current) d.(cd_epoch) inputs;
  de_committed : verifyViewCommitment d.(cd_epoch) d.(cd_verified).(accepted) d.(cd_verified).(rejections) = Ok tt;
  de_shown : exists seats, Forall2 (Seat d.(cd_verified) d.(cd_epoch)) (indexed 0 d.(cd_verified).(accepted)) seats /\
    routeCandidates (Some d) = (zip_with (shownAs d.(cd_epoch)) d.(cd_verified).(accepted) seats, u8 (len d.(cd_verified).(accepted)));
  de_snapshot : core d.(cd_verified).(vd_Snapshot) =
    (hex_EncodeToString d.(cd_epoch).(digest), d.(cd_epoch).(networkID), d.(cd_epoch).(number), d.(cd_epoch).(digest),
     d.(cd_epoch).(validUntil), d.(cd_epoch).(profile), d.(cd_epoch).(viewRoot)) /\
    d.(cd_snapshot) = snapshotFromEpoch d.(cd_verified).(vd_Snapshot)
}.

Lemma candidates_zip e view seats d :
  length view = length seats ->
  d.(NodeIDs) = map nodeID view -> d.(PublicKeys) = map (fun r => to_array 32 r.(publicKey)) view -> d.(KeyIDs) = map keyID view ->
  d.(FamilyIDs) = map (fun r => sha256 r.(family)) view -> d.(RecordDigests) = map (fun r => sha256 r.(raw)) view ->
  d.(DomainProofs) = map snd seats -> d.(Families) = map family view -> d.(Endpoints) = map endpoint view ->
  d.(CarrierProfiles) = map carrier view ->
  d.(Capacities) = map capacity view -> d.(Domains) = map fst seats -> d.(vd_ValidFrom) = map notBefore view ->
  d.(vd_ValidUntil) = map notAfter view -> d.(vd_AssignmentNotAfter) = map (fun _ => e.(validUntil)) view ->
  omap (candidateAt d) (seq 0 (length view)) = zip_with (shownAs e) view seats.
Proof.
  intros Hl E1 E2 E3 E4 E5 E6 E7 E8 E9 E10 E11 E12 E13 E14. rewrite <- (length_zip_with_l_eq (shownAs e) view seats Hl).
  apply omap_seq. intros i. cbn [Nat.add]. unfold candidateAt.
  rewrite E1, E2, E3, E4, E5, E6, E7, E8, E9, E10, E11, E12, E13, E14, lookup_zip_with.
  rewrite !(list_lookup_fmap _ view i : map _ view !! i = _), !(list_lookup_fmap _ seats i : map _ seats !! i = _).
  destruct (view !! i) as [r|] eqn:Hv; [|done]. cbn.
  destruct (seats !! i) as [seat|] eqn:Hd; [done|]. apply lookup_lt_Some in Hv. apply lookup_ge_None in Hd. lia.
Qed.

Lemma verifyDecision_ok c current epochBytes inputs materials required d :
  verifyDecision c current epochBytes inputs materials required = Ok d -> Decided c current epochBytes inputs d.
Proof.
  unfold verifyDecision, verifyEpochDecision, verifyEpochCandidate. intros Hv. inv_ok. subst d.
  destruct (evaluateInputs _ _ inputs) as [view rejected] eqn:Hev. cbv zeta in *. inv_ok.
  match goal with X : attachCandidates _ _ _ = Ok _ |- _ => apply attachFrom_ok in X as (seats & Hdoms & E) end.
  match goal with X : attachDestinationResolutionGateway _ = Ok _, Y : attachTransitIssuanceDuty _ = Ok _ |- _ =>
    destruct (duties_ok (policyOf c current).(policy_MaterializationIndex) _ _ _ X Y) as (s & Hs & Ed) end.
  subst. rewrite Ed. clear Ed. pose proof (seats_length _ _ _ _ _ Hdoms) as Hlen.
  constructor; cbn; try done.
  - split_and!; [lia..|].
    match goal with X : negb (bool_decide (epochCommitmentRoot _ _ = _)) = false |- _ => by apply negb_false_iff, bool_decide_eq_true in X end.
  - match goal with X : verifyViewCommitment _ _ _ = Ok ?u |- _ => by destruct u end.
  - exists seats. split; [done|]. unfold len. rewrite length_map.
    f_equal. by apply candidates_zip.
Qed.

Lemma committed_view e view rejected :
  verifyViewCommitment e view rejected = Ok tt -> epochCommitmentRoot (map raw view) emptyViewTag = e.(viewRoot).
Proof.
  unfold verifyViewCommitment. cbv zeta. intros Hcom. destruct (_ || _) eqn:Hb in Hcom; [done|].
  rewrite !orb_false_iff in Hb. destruct Hb as [[_ Hb] _]. by apply negb_false_iff, bool_decide_eq_true in Hb.
Qed.

(** C6: What an accepted Network Epoch rests on.  At least the threshold of
    distinct pinned authorities signed its bytes; it is current and extends the
    present state by one, or is the genesis; and the candidates shown to clients
    are exactly the well-formed, self-signed, eligible records of the committed
    input log that share no identity, key or endpoint with another one, in the
    order of their identities, each in the role domain with the least assignment
    digest for its family and with its inclusion proof.  Every other input has its committed rejection. *)
Theorem decision_sound c current epochBytes inputs materials required d :
  verifyDecision c current epochBytes inputs materials required = Ok d ->
  let e := d.(cd_epoch) in
  let policy := policyOf c current in
  SignedEpoch policy epochBytes e /\ Extends policy.(policy_Previous) e /\
  epochCommitmentRoot inputs emptyInputTag = e.(inputRoot) /\
  exists view shown, ViewOf policy e inputs view /\ routeCandidates (Some d) = (shown, len view) /\
    epochCommitmentRoot (map raw view) emptyViewTag = e.(viewRoot) /\
    Forall2 (fun r s => exists domain index proof, Assigned e r.(family) domain /\ view !! index = Some r /\
      Materialization d.(cd_verified) (Z.of_nat index) = Ok proof /\ s = shownAs e r (domain, proof)) view shown /\
    forall i input, inputs !! i = Some input ->
      (exists r, r ∈ view /\ parseRecord input = Ok r) \/
      (exists code, MkRejection (u32 (Z.of_nat i)) code input ∈ d.(cd_verified).(rejections)).
Proof.
  intros Hd. apply verifyDecision_ok in Hd as [He _ (Hn & H64 & Hlog) _ Hview Hcom (seats & Hseats & Hshown) _].
  cbv zeta. apply verifyEpoch_ok in He as (Hp & Hs & Hx). split_and!; try done.
  pose proof (evaluateInputs_view (policyOf c current) d.(cd_epoch) inputs) as Hv. rewrite <- Hview in Hv. cbn [fst] in Hv.
  exists d.(cd_verified).(accepted), (zip_with (shownAs d.(cd_epoch)) d.(cd_verified).(accepted) seats).
  assert (len (accepted (cd_verified d)) <= len inputs) as Hle.
  { pose proof (f_equal fst Hview) as E. cbn [fst] in E. rewrite E. apply evaluateInputs_length. }
  split_and!; try done.
  - rewrite Hshown. f_equal. unfold u8. pose proof (len_nonneg (accepted (cd_verified d))). apply Z.mod_small. lia.
  - by eapply committed_view.
  - apply parseEpoch_domains in Hp. apply Forall2_same_length_lookup_2.
    { rewrite length_zip_with, <- (seats_length _ _ _ _ _ Hseats). lia. }
    intros k r shown Hr Hsh. destruct (seats_at _ _ _ _ _ _ _ Hseats Hr) as ([domain proof] & Hl & Hdom & Hproof). cbn [fst snd] in *.
    rewrite lookup_zip_with, Hr, Hl in Hsh. injection Hsh as <-. exists domain, k, proof. split_and!; try done.
    { by apply assignedDomain_lowest. }
    apply lookup_lt_Some in Hr. rewrite <- Hproof. f_equal. symmetry. apply Z.mod_small. unfold len in *. lia.
  - intros i input Hi. pose proof (evaluateInputs_complete (policyOf c current) d.(cd_epoch) inputs i input Hi) as Hc.
    by rewrite <- Hview in Hc.
Qed.

(** *** One digest, one view *)

(** Two logs of one length with one root are equal, or two of the strings hashed
    for the two trees collide. *)
Lemma treeRoot_inj xs ys fuel empty :
  (length xs <= fuel)%nat -> length xs = length ys -> len xs <= 2 ^ 63 ->
  treeRoot nodeHash (map sha256 xs) empty = treeRoot nodeHash (map sha256 ys) empty ->
  xs = ys \/ Collision sha256 (xs ++ ys ++ nodesLoop fuel (map sha256 xs) empty ++ nodesLoop fuel (map sha256 ys) empty).
Proof.
  revert xs ys. induction fuel as [|fuel IH]; intros xs ys Hf Hl Hn E.
  { destruct xs; [|cbn in Hf; lia]. destruct ys; [by left|done]. }
  destruct (decide (xs = [])) as [->|Hne]; [left; by destruct ys|].
  assert (0 < len xs) as Hpos by (destruct xs; [done|unfold len; cbn; lia]).
  assert (len xs = len ys) as Hlen by (unfold len; lia).
  destruct (tree_cases xs) as [[x ->]|(H1 & j & Hs & Hj)]; [lia|..].
  { destruct ys as [|y [|]]; try done. cbn in E. destruct (collision_or_equal sha256 x y [x; y]) as [->|Hc]; [set_solver..|done|by left|right].
    eapply collision_mono, Hc. set_solver. }
  assert (len (map sha256 xs) = len xs) as Lx by apply len_map. assert (len (map sha256 ys) = len ys) as Ly by apply len_map.
  rewrite (treeRoot_split nodeHash (map sha256 xs) empty j), (treeRoot_split nodeHash (map sha256 ys) empty j) in E
    by (rewrite ?Lx, ?Ly, <- ?Hlen; lia || done).
  cbn [nodesLoop]. rewrite Lx, Ly, <- Hlen, (proj2 (Z.leb_gt _ _)), Hs by lia. cbv zeta.
  set (s := Z.to_nat (pow2 j)) in *. rewrite <- !fmap_take, <- !fmap_drop in *.
  set (inputs := xs ++ ys ++ _).
  destruct (node_collision _ _ _ _ inputs E) as [[E1 E2]|Hc]; [unfold inputs; set_solver..| |by right].
  destruct (split_lengths xs j Hj) as (_ & _ & L1 & L2).
  assert (length (take s xs) = length (take s ys) /\ length (drop s xs) = length (drop s ys)) as [L3 L4]
    by (rewrite !length_take, !length_drop; lia).
  destruct (halves_subset s xs) as [Sx1 Sx2]. destruct (halves_subset s ys) as [Sy1 Sy2].
  destruct (IH (take s xs) (take s ys)) as [T|Hc]; [fold s in L1; lia|done|unfold len in *; rewrite length_take; lia|done| |].
  2:{ right. eapply collision_mono, Hc. unfold inputs. set_solver. }
  destruct (IH (drop s xs) (drop s ys)) as [D|Hc]; [fold s in L2; lia|done|unfold len in *; rewrite length_drop; lia|done| |].
  2:{ right. eapply collision_mono, Hc. unfold inputs. set_solver. }
  left. by rewrite <- (take_drop s xs), <- (take_drop s ys), T, D.
Qed.

Lemma leafInput_inj a b : leafInput a = leafInput b -> a = b.
Proof.
  unfold leafInput. intros E. apply app_inv_head in E. apply app_inj_1 in E as [_ E]; [done|]. by rewrite !length_be_bytes.
Qed.

(** The strings hashed for two Epochs and for their input logs. *)
Definition epochInputs (epochBytes epochBytes' : bytes) (inputs inputs' : list bytes) : list bytes :=
  let leaves := map leafInput inputs in
  let leaves' := map leafInput inputs' in
  let empty := sha256 [emptyInputTag] in
  [unsignedOf epochBytes; unsignedOf epochBytes'] ++
  leaves ++ leaves' ++ nodesLoop (length leaves) (map sha256 leaves) empty ++ nodesLoop (length leaves) (map sha256 leaves') empty.

Lemma log_inj inputs inputs' :
  length inputs = length inputs' -> len inputs <= 64 ->
  epochCommitmentRoot inputs emptyInputTag = epochCommitmentRoot inputs' emptyInputTag ->
  inputs = inputs' \/
  Collision sha256 (map leafInput inputs ++ map leafInput inputs' ++
    nodesLoop (length (map leafInput inputs)) (map sha256 (map leafInput inputs)) (sha256 [emptyInputTag]) ++
    nodesLoop (length (map leafInput inputs)) (map sha256 (map leafInput inputs')) (sha256 [emptyInputTag])).
Proof.
  intros Hl Hn E. unfold epochCommitmentRoot, epochHashedCommitmentRoot in E.
  assert (forall l, map epochCommitmentLeaf l = map sha256 (map leafInput l)) as Hm by (intros l; by rewrite map_map).
  rewrite !Hm in E. destruct (treeRoot_inj (map leafInput inputs) (map leafInput inputs') (length (map leafInput inputs))
    (sha256 [emptyInputTag])) as [Em|Hc]; [done|by rewrite !length_map|rewrite len_map; lia|exact E| |by right].
  left. assert (Inj (=) (=) leafInput) by (intros a b; apply leafInput_inj). by apply (inj (fmap leafInput)).
Qed.

Lemma evaluateInputs_ext c c' e signed inputs :
  c.(policy_NetworkID) = c'.(policy_NetworkID) -> c.(policy_Authorities) = c'.(policy_Authorities) ->
  evaluateInputs c (e <| signatures := signed |>) inputs = evaluateInputs c' e inputs.
Proof.
  intros Hn Ha. unfold evaluateInputs. assert (forall k, evaluateFrom c (e <| signatures := signed |>) k inputs = evaluateFrom c' e k inputs) as ->; [|done].
  induction inputs as [|x inputs IH]; intros k; [done|]. cbn [evaluateFrom]. rewrite IH. unfold evaluate, authorityOwnsKey. by rewrite Hn, Ha.
Qed.

(** C7: One digest, one view.  Two nodes of one network with the same pinned
    authorities, whatever their clocks, thresholds, present states and proofs, that
    accept Epochs with the same digest have the same Epoch facts, the same input
    log and the same candidates, or two of the strings hashed for the Epochs and
    for their logs are a SHA-256 collision. *)
Theorem one_digest_one_view c c' current current' epochBytes epochBytes' inputs inputs' materials materials' required required' d d' :
  verifyDecision c current epochBytes inputs materials required = Ok d ->
  verifyDecision c' current' epochBytes' inputs' materials' required' = Ok d' ->
  c.(config_networkID) = c'.(config_networkID) -> c.(authorities) = c'.(authorities) ->
  d.(cd_epoch).(digest) = d'.(cd_epoch).(digest) ->
  (d'.(cd_epoch) = d.(cd_epoch) <| signatures := d'.(cd_epoch).(signatures) |> /\ inputs = inputs' /\
   routeCandidates (Some d) = routeCandidates (Some d') /\ core d.(cd_verified).(vd_Snapshot) = core d'.(cd_verified).(vd_Snapshot)) \/
  Collision sha256 (epochInputs epochBytes epochBytes' inputs inputs').
Proof.
  intros Hd Hd' Hnet Hauth Hdig.
  apply verifyDecision_ok in Hd as [He _ (Hn & H64 & Hlog) Hinner Hview _ (seats & Hseats & Hshown) (Hs & _)].
  apply verifyDecision_ok in Hd' as [He' _ (Hn' & _ & Hlog') Hinner' Hview' _ (seats' & Hseats' & Hshown') (Hs' & _)].
  apply verifyEpoch_ok in He as (Hp & _ & _). apply verifyEpoch_ok in He' as (Hp' & _ & _).
  destruct (parseEpoch_digest _ _ _ _ Hp Hp' Hdig) as [E|Hc].
  2:{ right. eapply collision_mono, Hc. unfold epochInputs. set_solver. }
  assert (cutoff (cd_epoch d') = cutoff (cd_epoch d)) as Ecut by (by rewrite E).
  assert (inputRoot (cd_epoch d') = inputRoot (cd_epoch d)) as Eroot by (by rewrite E).
  destruct (log_inj inputs inputs') as [->|Hc]; [unfold len in *; lia|done|by rewrite Hlog, Hlog', Eroot| |].
  2:{ right. eapply collision_mono, Hc. unfold epochInputs. set_solver. }
  left. rewrite E in Hview', Hseats', Hshown', Hs'. rewrite (evaluateInputs_ext _ (policyOf c current)) in Hview' by (cbn; congruence). rewrite <- Hview in Hview'.
  injection Hview' as Ha Hr. rewrite Ha in *. split_and!; try done.
  - assert (seats = seats') as ->; [|by rewrite Hshown, Hshown'].
    eapply seats_same; [|by symmetry| |exact Hseats|exact Hseats']; [done|]. by rewrite Hinner, Hinner', E.
  - by rewrite Hs, Hs'.
Qed.

End Decision.
