(* ===== verification/NetEpochChain.v ===== *)
(** * Network Epochs: inclusion proofs and the stored chain *)

From S2P Require Import Prelude Wire GoLib GoTime Json Merkle StateView NetEpoch NetEpochProof NetEpochDecision.

Import netstate.

Section Materials.
Context `{GoLib}.

Lemma parseRecord_raw input r : parseRecord input = Ok r -> r.(raw) = input /\ 0 < len input <= maximumRecordBytes.
Proof.
  unfold parseRecord. intros Hp. destruct (_ || _) eqn:Hb in Hp; [done|]. pose proof (len_nonneg input).
  destruct (recordFields input input) as [[r' rest]|] eqn:Hr; [|done]. inv_ok. subst r'. split; [|lia].
  unfold recordFields in Hr. inv_decode. by injection Hr as <- <-.
Qed.

(** A proof that can be encoded. *)
Record Encodable (m : materialization) : Prop := {
  en_index : in_u32 m.(mat_index);
  en_record : 0 < len m.(mat_record) <= maximumRecordBytes;
  en_siblings : len m.(mat_siblings) <= 64
}.

Lemma decodeMaterialization_encode m : Encodable m -> decodeMaterialization (encodeMaterialization m) = Ok m.
Proof.
  intros [Hi Hr Hs]. unfold decodeMaterialization.
  assert (Reads materialFields (encodeMaterialization m) m) as Hm; [|by rewrite (reads_all _ _ _ Hm)].
  pose proof (len_nonneg m.(mat_siblings)). unfold maximumRecordBytes in Hr.
  unfold encodeMaterialization, materialFields. apply reads_bind with (v := mat_epochDigest m); [apply reads_array|].
  apply reads_bind with (v := mat_index m); [by apply reads_uint32|].
  rewrite app_assoc. apply reads_bind with (v := mat_record m).
  { unfold lengthBytes. apply reads_bind with (v := u32 (len (mat_record m))); [apply reads_uint32, Z.mod_pos_bound; lia|].
    assert (u32 (len (mat_record m)) = len (mat_record m)) as -> by (apply Z.mod_small; lia).
    unfold maximumRecordBytes. rewrite (proj2 (Z.eqb_neq _ _)), (proj2 (Z.ltb_ge _ _)) by lia. by apply reads_take_bytes. }
  apply reads_bind with (v := u16 (len (mat_siblings m))); [apply reads_uint16, Z.mod_pos_bound; lia|].
  assert (u16 (len (mat_siblings m)) = len (mat_siblings m)) as -> by (apply Z.mod_small; lia).
  rewrite (proj2 (Z.ltb_ge _ _)) by lia. rewrite <- (app_nil_r (concat _)).
  apply reads_bind with (v := mat_siblings m); [|by destruct m].
  unfold len. rewrite Nat2Z.id. rewrite <- (map_id (mat_siblings m)) at 3. apply reads_many. intros b _. apply reads_array.
Qed.

Lemma encodeMaterialization_length m :
  len (encodeMaterialization m) = 42 + len m.(mat_record) + 32 * len m.(mat_siblings).
Proof.
  unfold encodeMaterialization. autorewrite with len.
  assert (len (concat (map array_bytes m.(mat_siblings))) = 32 * len m.(mat_siblings)) as ->; [|lia].
  induction (mat_siblings m) as [|s l IH]; [done|]. cbn [map concat]. rewrite len_app, IH, len_array, len_cons. lia.
Qed.

(** The proof that a node makes for a candidate of its accepted Epoch. *)
Lemma materialization_made c current epochBytes inputs d index :
  Decided c current epochBytes inputs d -> 0 <= index < len d.(cd_verified).(accepted) ->
  exists m, Materialization d.(cd_verified) index = Ok (encodeMaterialization m) /\ Encodable m /\ m.(mat_index) = index /\
    len m.(mat_siblings) <= 6 /\ verifyMaterializations d.(cd_epoch) d.(cd_verified).(accepted) [m] true = Ok tt.
Proof.
  intros [_ _ (_ & H64 & _) Hinner Hview Hcom _ _] Hi.
  pose proof (evaluateInputs_length (policyOf c current) d.(cd_epoch) inputs) as Hlen. rewrite <- Hview in Hlen. cbn [fst] in Hlen.
  pose proof (evaluateInputs_view (policyOf c current) d.(cd_epoch) inputs) as Hv. rewrite <- Hview in Hv. cbn [fst] in Hv.
  set (view := accepted (cd_verified d)) in *.
  destruct (lookup_lt_is_Some_2 view (Z.to_nat index)) as [r Hr]; [unfold len in Hi; lia|].
  unfold Materialization. fold view. rewrite Hr, Hinner. eexists. split; [reflexivity|].
  set (m := MkMaterial _ _ _ _).
  assert (0 < len (raw r) <= maximumRecordBytes) as Hraw.
  { apply list_elem_of_lookup_2, (vo_exact _ _ _ _ Hv) in Hr as (j & input & _ & Hp & _).
    by apply parseRecord_raw in Hp as [-> ?]. }
  assert (map epochCommitmentLeaf (map raw view) !! Z.to_nat index = Some (epochCommitmentLeaf (raw r))) as Hleaf.
  { change (map epochCommitmentLeaf (map raw view)) with (epochCommitmentLeaf <$> (raw <$> view)).
    by rewrite !list_lookup_fmap, Hr. }
  assert (len (map epochCommitmentLeaf (map raw view)) = len view) as Hll by (by rewrite !len_map).
  assert (len (mat_siblings m) <= 6) as Hsib.
  { pose proof (treePath_length epochCommitmentBranch _ index _ (sha256 [emptyViewTag]) 6 ltac:(rewrite Hll; lia) (proj1 Hi) Hleaf
      ltac:(rewrite Hll; change (pow2 6) with 64; lia)) as Hp. cbn [m mat_siblings]. unfold epochCommitmentProof, len. lia. }
  assert (Encodable m) as Hm by (constructor; cbn [m mat_index mat_record]; [unfold in_u32; lia|done|lia]).
  split_and!; [done|done|done|]. unfold verifyMaterializations. cbn [checkMaterials].
  rewrite andb_false_r. cbn [mat_epochDigest m mat_index mat_record mat_siblings].
  assert (u32 (len view) = len view) as Hu by (apply Z.mod_small; lia). rewrite Hu, Hr.
  rewrite (bool_decide_eq_true_2 (digest _ = _)), (proj2 (Z.leb_gt _ _)), (bool_decide_eq_false_2 (index ∈ _)) by (done || lia || set_solver).
  cbn [negb orb]. rewrite bool_decide_eq_true_2 by done. cbn [negb orb].
  assert (verifyEpochCommitment (raw r) index (len view) (epochCommitmentProof (map raw view) index emptyViewTag) (viewRoot (cd_epoch d)) = true) as ->; [|done].
  rewrite <- (committed_view _ _ _ Hcom), <- Hll.
  apply treePath_verifies; [rewrite Hll; lia|lia|done].
Qed.

Lemma decodeMaterializations_made m :
  Encodable m -> len m.(mat_siblings) <= 6 -> decodeMaterializations [encodeMaterialization m] = Ok [m].
Proof.
  intros Hm Hs. pose proof (en_record _ Hm) as Hr. unfold maximumRecordBytes in Hr. pose proof (len_nonneg (mat_siblings m)).
  unfold decodeMaterializations. cbn [decodeEach]. rewrite encodeMaterialization_length, decodeMaterialization_encode by done.
  rewrite (proj2 (Z.ltb_ge 64 _)) by (unfold len; cbn; lia). by rewrite (proj2 (Z.eqb_neq _ 0)), (proj2 (Z.ltb_ge _ _)) by lia.
Qed.

(** C10: Every inclusion proof that a node makes for a candidate of its accepted
    Epoch, and hands to others, is accepted again against that Epoch. *)
Theorem materialization_verifies c current epochBytes inputs materials required d index :
  verifyDecision c current epochBytes inputs materials required = Ok d ->
  0 <= index < len d.(cd_verified).(accepted) ->
  exists proof, Materialization d.(cd_verified) index = Ok proof /\ verifyDecisionMaterials d [proof] = Ok tt.
Proof.
  intros Hd%verifyDecision_ok Hi. destruct (materialization_made _ _ _ _ _ _ Hd Hi) as (m & Hm & He & _ & Hs & Hv).
  exists (encodeMaterialization m). split; [done|]. unfold verifyDecisionMaterials, VerifyMaterials.
  rewrite decodeMaterializations_made by done. cbn [mbind result_bind]. by rewrite (de_inner _ _ _ _ _ Hd), Hv.
Qed.

End Materials.

(** ** The stored chain *)

Section Chain.
Context `{GoLib}.

(** The decision of a stored generation, its predecessors back to the genesis
    Epoch, and how many they are.  Each was verified as of its own start. *)
Inductive History (c : config) (generations : gmap gostring durableGeneration) : gostring -> candidateDecision -> Z -> Prop :=
| history_genesis name value d :
    generations !! name = Some value -> name = hex_EncodeToString d.(cd_epoch).(digest) ->
    Decided (c <| config_now := d.(cd_epoch).(validFrom) |>) None value.(stored_Epoch) value.(stored_Inputs) d ->
    d.(cd_epoch).(number) = 1 -> History c generations name d 1
| history_next name value prior d n :
    generations !! name = Some value -> name = hex_EncodeToString d.(cd_epoch).(digest) ->
    Decided (c <| config_now := d.(cd_epoch).(validFrom) |>) (Some prior.(cd_snapshot)) value.(stored_Epoch) value.(stored_Inputs) d ->
    d.(cd_epoch).(previous) = prior.(cd_epoch).(digest) -> d.(cd_epoch).(number) = n + 1 ->
    History c generations (hex_EncodeToString prior.(cd_epoch).(digest)) prior n ->
    History c generations name d (n + 1).

Lemma loadGeneration_ok c value prior d :
  loadGeneration c value prior = Ok d ->
  Decided (c <| config_now := d.(cd_epoch).(validFrom) |>) prior value.(stored_Epoch) value.(stored_Inputs) d /\
  parseEpoch value.(stored_Epoch) = Ok d.(cd_epoch).
Proof.
  unfold loadGeneration. destruct (parseEpoch (stored_Epoch value)) as [parsed|] eqn:Hp; [|done]. intros Hl. inv_ok.
  apply verifyDecision_ok in Hl. pose proof (de_epoch _ _ _ _ _ Hl) as He. apply verifyEpoch_ok in He as (Hp' & _ & _).
  rewrite Hp in Hp'. injection Hp' as ->. done.
Qed.

Lemma decided_snapshot c current epochBytes inputs d :
  Decided c current epochBytes inputs d ->
  d.(cd_snapshot).(state.Generation) = hex_EncodeToString d.(cd_epoch).(digest) /\
  d.(cd_snapshot).(state.Epoch) = d.(cd_epoch).(number) /\ d.(cd_snapshot).(state.Digest) = d.(cd_epoch).(digest).
Proof.
  intros [_ _ _ _ _ _ _ [Hc ->]]. unfold core in Hc. unfold snapshotFromEpoch. cbn [state.Generation state.Epoch state.Digest].
  by injection Hc as -> ? -> -> ? ? ?.
Qed.

Lemma history_number c generations name d n :
  History c generations name d n ->
  d.(cd_epoch).(number) = n /\ 1 <= n <= maximumEpochChain /\ name = hex_EncodeToString d.(cd_epoch).(digest) /\
  d.(cd_snapshot).(state.Epoch) = n /\ d.(cd_snapshot).(state.Digest) = d.(cd_epoch).(digest).
Proof.
  intros Hh. assert (exists current epochBytes inputs c', Decided c' current epochBytes inputs d) as (cur & eb & ins & c' & Hd)
    by (destruct Hh; eauto).
  destruct (decided_snapshot _ _ _ _ _ Hd) as (_ & He & Hg). pose proof (de_epoch _ _ _ _ _ Hd) as Hv.
  apply verifyEpoch_ok in Hv as (_ & _ & Hx & _). rewrite He, Hg.
  assert (d.(cd_epoch).(number) = n /\ 1 <= n /\ name = hex_EncodeToString d.(cd_epoch).(digest)) as (<- & ? & ->); [|by split_and!].
  clear -Hh. induction Hh as [|? ? ? ? ? ? ? ? ? ? ? IH]; split_and!; try done; lia.
Qed.

(** With a name left to see, or the bound reached, there is an answer. *)
Lemma loadGenerationChain_ends fuel c generations name seen :
  maximumEpochChain - Z.of_nat (size seen) < Z.of_nat fuel -> 0 < Z.of_nat fuel ->
  exists r seen', loadGenerationChain fuel c generations name seen = Some (r, seen').
Proof.
  revert name seen. induction fuel as [|fuel IH]; intros name seen Hf H0; [lia|]. cbn [loadGenerationChain].
  destruct (generations !! name) as [value|]; [|by eexists _, _]. destruct (bool_decide (name ∈ seen)) eqn:Hin; [by eexists _, _|].
  cbn [orb]. destruct (maximumEpochChain <=? Z.of_nat (size seen)) eqn:Hsz; [by eexists _, _|]. cbv zeta.
  destruct (parseEpoch _) as [parsed|]; [|by eexists _, _]. destruct (1 <? number parsed); [|by eexists _, _].
  apply bool_decide_eq_false in Hin. apply Z.leb_gt in Hsz.
  assert (size ({[name]} ∪ seen) = S (size seen)) as Hs by (rewrite size_union, size_singleton by set_solver; lia).
  destruct (IH (hex_EncodeToString (previous parsed)) ({[name]} ∪ seen)) as (r & seen' & ->); [lia..|].
  destruct r; by eexists _, _.
Qed.

Lemma finish_ok (c : config) (value : durableGeneration) (prior : option state.Snapshot) (name : gostring) (d : candidateDecision) (r : result candidateDecision) (seen seen' : gset gostring) :
  Some (match loadGeneration c value prior with
        | Err e => Err e
        | Ok decision =>
            reject (New "generation identity does not match its verified digest")
              when (decision.(cd_snapshot).(state.Generation) !=? name);
            Ok decision
        end, seen) = Some (r, seen') ->
  r = Ok d ->
  Decided (c <| config_now := d.(cd_epoch).(validFrom) |>) prior value.(stored_Epoch) value.(stored_Inputs) d /\
  parseEpoch value.(stored_Epoch) = Ok d.(cd_epoch) /\ name = hex_EncodeToString d.(cd_epoch).(digest).
Proof.
  intros E ->. injection E as E _. destruct (loadGeneration c value prior) as [d'|] eqn:Hl; [|done]. inv_ok. subst d'.
  apply loadGeneration_ok in Hl as [Hd Hp]. split_and!; try done. destruct (decided_snapshot _ _ _ _ _ Hd) as (Hg & _).
  goprop. congruence.
Qed.

Lemma loadGenerationChain_history fuel c generations name seen d seen' :
  loadGenerationChain fuel c generations name seen = Some (Ok d, seen') -> exists n, History c generations name d n.
Proof.
  revert name seen d seen'. induction fuel as [|fuel IH]; intros name seen d seen' Hl; [done|]. cbn [loadGenerationChain] in Hl.
  destruct (generations !! name) as [value|] eqn:Hv; [|done]. destruct (bool_decide _ || _) in Hl; [done|]. cbv zeta in Hl.
  destruct (parseEpoch _) as [parsed|] eqn:Hp; [|done]. destruct (Z.ltb_spec 1 (number parsed)) as [H1|H1].
  - destruct (loadGenerationChain fuel _ _ _ _) as [[[prior|] seen2]|] eqn:Hr; [|done..].
    apply IH in Hr as [n Hn]. apply (finish_ok _ _ _ _ d) in Hl as (Hd & Hp' & Hname); [|done].
    rewrite Hp in Hp'. injection Hp' as ->. destruct (history_number _ _ _ _ _ Hn) as (E1 & Hb & E2 & E3 & E4).
    exists (n + 1). pose proof (de_epoch _ _ _ _ _ Hd) as He. apply verifyEpoch_ok in He as (_ & _ & _ & Hx1 & Hx2).
    rewrite E2 in Hn. eapply history_next; try done; [by rewrite Hx2, E4|].
    rewrite Hx1, E3. unfold maximumEpochChain in Hb. apply Z.mod_small. lia.
  - apply (finish_ok _ _ _ _ d) in Hl as (Hd & Hp' & Hname); [|done]. rewrite Hp in Hp'. injection Hp' as ->. exists 1.
    pose proof (de_epoch _ _ _ _ _ Hd) as He. apply verifyEpoch_ok in He as (_ & _ & _ & Hx1 & Hx2). by eapply history_genesis.
Qed.

(** C12: Reading the stored generations back always comes to an end, whatever the
    root holds, also when the predecessors form a cycle.  When it succeeds, the
    generation named is the last of an unbroken chain from the genesis Epoch, at
    most 64 long and as long as its number says, in which every Epoch was decided
    on top of its predecessor as of its own start. *)
Theorem stored_chain_ends c generations name :
  exists r seen, loadChain c generations name = Some (r, seen) /\
    forall d, r = Ok d -> History c generations name d d.(cd_epoch).(number) /\ 1 <= d.(cd_epoch).(number) <= maximumEpochChain.
Proof.
  unfold loadChain. destruct (loadGenerationChain_ends (S (Z.to_nat maximumEpochChain)) c generations name ∅) as (r & seen & Hr);
    [unfold maximumEpochChain; lia..|].
  exists r, seen. split; [done|]. intros d ->. apply loadGenerationChain_history in Hr as [n Hn].
  destruct (history_number _ _ _ _ _ Hn) as (<- & ? & _). done.
Qed.

End Chain.
