(* ===== verification/NetSource.v ===== *)
(** * Network State distribution: the exchange with a source

    internal/network/source: the messages between a node and a source of Network
    State (protocol.go) and the exchange over an established connection
    (transport.go).  TLS and its certificates are not modelled: a connection either
    fails to be established, or carries bytes in both directions. *)

From S2P Require Import Prelude Wire.

Module source.

Definition maximumPayloadBytes : Z := 2 ^ 20.

(** protocol.go *)
Record Message := MkMessage {
  Operation : gostring;
  NetworkDigest : array 32;
  ObjectDigest : array 32;
  MaterialIndex : Z;
  Status : gostring;
  Payload : bytes
}.

Definition zeroMessage : Message := MkMessage [] zero32 zero32 0 [] [].

Definition requested (operation : gostring) (network object : array 32) (index : Z) : Message :=
  MkMessage operation network object index [] [].
Definition responded (status : gostring) (object : array 32) (payload : bytes) : Message :=
  MkMessage [] zero32 object 0 status payload.

Definition operationCode (value : gostring) : Z :=
  if value ==? str "latest" then 1 else if value ==? str "by-digest" then 2 else 0.

Definition operationName (value : Z) : gostring :=
  if value =? 1 then str "latest" else if value =? 2 then str "by-digest" else [].

Definition statusCode (value : gostring) : Z :=
  if value ==? str "ok" then 0
  else if value ==? str "not-found" then 1
  else if value ==? str "busy" then 2
  else if value ==? str "bad-request" then 3
  else if value ==? str "internal" then 4
  else 255.

Definition statusName (value : Z) : gostring :=
  if value =? 0 then str "ok"
  else if value =? 1 then str "not-found"
  else if value =? 2 then str "busy"
  else if value =? 3 then str "bad-request"
  else if value =? 4 then str "internal"
  else [].

Definition requestMagic : bytes := str "ARDH3Q1" ++ [x00].
Definition responseMagic : bytes := str "ARDH3S1" ++ [x00].

(** The digest that an operation carries: none for the latest state. *)
Definition misplaced (operation : gostring) (object : array 32) : bool :=
  (operation ==? str "latest") && (object !=? zero32) || (operation ==? str "by-digest") && (object ==? zero32).

Definition requestFields : decoder Message :=
  magic ← take_bytes 8 (Fmt "short");
  if magic !=? requestMagic then decode_fail (New "distribution request framing is invalid")
  else
    opcode ← take_uint 1 (Fmt "short");
    network ← take_array 32 (Fmt "short");
    object ← take_array 32 (Fmt "short");
    index ← take_uint 4 (Fmt "short");
    let operation := operationName opcode in
    if (operation ==? []) || (64 <=? index) then decode_fail (New "distribution request selector is invalid")
    else if (operation ==? str "latest") && (object !=? zero32) then decode_fail (New "latest request digest is not zero")
    else if (operation ==? str "by-digest") && (object ==? zero32) then decode_fail (New "by-digest request digest is zero")
    else mret (requested operation network object index).

(** The readers take what they need from the bytes of the connection, with
    [io.ReadFull]; when these run out, the read fails with the error with which the
    peer ended, if it did not just close. *)
Definition readFull (n : Z) (failure : option error) (stream : bytes) : result (bytes * bytes) :=
  take_bytes n (default (if stream ==? [] then Fmt "EOF" else Fmt "unexpected EOF") failure) stream.

Definition readRequest (failure : option error) (stream : bytes) : result (Message * bytes) :=
  match readFull 77 failure stream with
  | Err e => Err e
  | Ok (raw, rest) =>
      match requestFields raw with
      | Err e => Err e
      | Ok (request, _) => Ok (request, rest)
      end
  end.

Definition writeRequest (request : Message) : result bytes :=
  let opcode := operationCode request.(Operation) in
  reject (New "distribution request is invalid")
    when ((opcode =? 0) || (64 <=? request.(MaterialIndex)) || misplaced request.(Operation) request.(ObjectDigest));
  Ok (requestMagic ++ be_bytes 1 opcode ++ request.(NetworkDigest) ++ request.(ObjectDigest) ++ be_bytes 4 request.(MaterialIndex)).

Record responseHeader := MkHeader { header_magic : bytes; header_status : Z; header_object : array 32; header_length : Z }.

Definition headerFields : decoder responseHeader :=
  magic ← take_bytes 8 (Fmt "short");
  status ← take_uint 1 (Fmt "short");
  object ← take_array 32 (Fmt "short");
  length ← take_uint 4 (Fmt "short");
  mret (MkHeader magic status object length).

(** A response whose payload is cut off still names its object. *)
Definition readResponse (failure : option error) (stream : bytes) : Message * option error * bytes :=
  match readFull 45 failure stream with
  | Err e => (zeroMessage, Some e, [])
  | Ok (raw, rest) =>
      match headerFields raw with
      | Err e => (zeroMessage, Some e, rest)
      | Ok (header, _) =>
          let status := statusName header.(header_status) in
          let object := header.(header_object) in
          let length := header.(header_length) in
          if (header.(header_magic) !=? responseMagic) || (status ==? []) then
            (zeroMessage, Some (New "distribution response framing is invalid"), rest)
          else if status !=? str "ok" then
            if (object !=? zero32) || negb (length =? 0) then
              (zeroMessage, Some (New "non-OK distribution response carries an object"), rest)
            else (responded status object [], None, rest)
          else if (object ==? zero32) || (length =? 0) || (maximumPayloadBytes <? length) then
            (zeroMessage, Some (New "OK distribution response object is invalid"), rest)
          else
            match readFull length failure rest with
            | Err e => (responded status object [], Some e, [])
            | Ok (payload, rest) => (responded status object payload, None, rest)
            end
      end
  end.

Definition writeResponse (response : Message) : result bytes :=
  let status := statusCode response.(Status) in
  let ok := response.(Status) ==? str "ok" in
  reject (New "distribution response status is invalid") when ((4 <? status) || (statusName status ==? []));
  reject (New "non-OK distribution response carries an object")
    when (negb ok && ((response.(ObjectDigest) !=? zero32) || negb (len response.(Payload) =? 0)));
  if ok then
    reject (New "OK distribution response object is invalid")
      when ((response.(ObjectDigest) ==? zero32) || (len response.(Payload) =? 0) || (maximumPayloadBytes <? len response.(Payload)));
    Ok (responseMagic ++ be_bytes 1 status ++ response.(ObjectDigest) ++ be_bytes 4 (u32 (len response.(Payload))) ++ response.(Payload))
  else Ok (responseMagic ++ be_bytes 1 status ++ zero32 ++ be_bytes 4 0).

(** transport.go: [handleConnection] once the connection stands and while no
    deadline passes: the bytes it sends. *)
Definition handleConnection (resolve : Message -> Message) (received : bytes) : bytes * result unit :=
  let send format response :=
    match writeResponse response with
    | Err e => ([], Err (Wrap format e))
    | Ok raw => (raw, Ok tt)
    end in
  match readRequest None received with
  | Err _ => send "write distribution rejection: %w" (responded (str "bad-request") zero32 [])
  | Ok (request, _) => send "write distribution response: %w" (resolve request)
  end.

(** What dialling and the handshake gave, and the peer: the bytes that it sends in
    answer to those it is sent, and the error, if any, with which it ends. *)
Record connection := MkConnection { connected : result unit; peer : bytes -> bytes * option error }.

Definition fetch (c : connection) (request : Message) : Message * option error :=
  match c.(connected) with
  | Err e => (zeroMessage, Some e)
  | Ok _ =>
      match writeRequest request with
      | Err e => (zeroMessage, Some (Wrap "write distribution request: %w" e))
      | Ok raw =>
          let '(stream, failure) := c.(peer) raw in
          match readResponse failure stream with
          | (response, Some e, _) => (response, Some (Wrap "read distribution response: %w" e))
          | (response, None, rest) =>
              match rest, failure with
              | [], None => (response, None)
              | _, _ => (zeroMessage, Some (New "distribution response has trailing bytes or an unclean close"))
              end
          end
      end
  end.

(** ** Requests and responses come back as they were sent *)

Lemma readFull_exact n failure raw rest : len raw = n -> readFull n failure (raw ++ rest) = Ok (raw, rest).
Proof. intros Hl. unfold readFull. apply (reads_take_bytes n _ raw Hl rest). Qed.

(** A request as the protocol allows it. *)
Record Requestable (m : Message) : Prop := {
  rq_shape : m = requested m.(Operation) m.(NetworkDigest) m.(ObjectDigest) m.(MaterialIndex);
  rq_operation : operationCode m.(Operation) <> 0;
  rq_index : 0 <= m.(MaterialIndex) < 64;
  rq_digest : misplaced m.(Operation) m.(ObjectDigest) = false
}.

Lemma operation_back o : operationCode o <> 0 -> operationName (operationCode o) = o /\ o <> [] /\ 0 <= operationCode o < 256.
Proof.
  unfold operationCode. intros Ho. repeat case_bool_decide; [| |done]; subst; (split; [vm_compute; reflexivity|split; [done|lia]]).
Qed.

Lemma operation_forth v : operationName v <> [] -> operationCode (operationName v) = v.
Proof.
  unfold operationName. destruct (v =? 1) eqn:E1; [intros _; apply Z.eqb_eq in E1 as ->; vm_compute; reflexivity|].
  destruct (v =? 2) eqn:E2; [intros _; apply Z.eqb_eq in E2 as ->; vm_compute; reflexivity|done].
Qed.

Lemma requestFields_reads m raw : Requestable m -> writeRequest m = Ok raw -> Reads requestFields raw m /\ len raw = 77.
Proof.
  intros [Hs Ho Hi Hm] Hw. destruct (operation_back _ Ho) as (E1 & E2 & E3). unfold writeRequest in Hw. inv_ok. subst raw. split.
  - unfold requestFields. eapply reads_bind; [by apply reads_take_bytes|]. cbv beta. rewrite bool_decide_eq_true_2 by done. cbn [negb].
    eapply reads_bind; [by apply (reads_take_uint 1)|]. eapply reads_bind; [apply reads_array|]. eapply reads_bind; [apply reads_array|].
    rewrite <- (app_nil_r (be_bytes 4 _)). eapply reads_bind; [apply reads_uint32; unfold in_u32; lia|]. cbv zeta. rewrite E1.
    rewrite (bool_decide_eq_false_2 (Operation m = [])), (proj2 (Z.leb_gt _ _)) by (done || lia). cbn [orb].
    unfold misplaced in Hm. rewrite orb_false_iff in Hm. destruct Hm as [-> ->]. rewrite Hs at 5. apply reads_ret.
  - autorewrite with len. done.
Qed.

Lemma requestable_writes m : Requestable m -> exists raw, writeRequest m = Ok raw.
Proof.
  intros [_ Ho Hi Hm]. unfold writeRequest. cbv zeta. rewrite Hm, (proj2 (Z.eqb_neq _ _)), (proj2 (Z.leb_gt _ _)) by (done || lia). by eexists.
Qed.

Lemma readRequest_written failure m raw rest :
  Requestable m -> writeRequest m = Ok raw -> readRequest failure (raw ++ rest) = Ok (m, rest).
Proof.
  intros Hm Hw. destruct (requestFields_reads _ _ Hm Hw) as [Hr Hl]. unfold readRequest.
  by rewrite (readFull_exact 77 failure raw rest Hl), (reads_all _ _ _ Hr).
Qed.

(** A source reads exactly the requests that the protocol allows: from what a
    connection carries it takes a request and leaves the rest just when the bytes
    begin with the encoding of that request. *)
Theorem readRequest_exact failure stream m rest :
  readRequest failure stream = Ok (m, rest) <-> Requestable m /\ exists raw, writeRequest m = Ok raw /\ stream = raw ++ rest.
Proof.
  split; [|intros (Hm & raw & Hw & ->); by apply readRequest_written].
  unfold readRequest. intros Hr. destruct (readFull 77 failure stream) as [[raw rest']|] eqn:Ht; [|done].
  destruct (requestFields raw) as [[m' tail]|] eqn:Hf; [|done]. injection Hr as -> ->. unfold readFull in Ht.
  apply take_bytes_ok in Ht as [-> Hl]; [|done]. unfold requestFields in Hf. inv_decode. cbv zeta in Hf. inv_decode.
  repeat match goal with
  | X : take_bytes _ _ _ = Ok _ |- _ => apply take_bytes_ok in X as [-> ?]; [|done]
  | X : take_uint _ _ _ = Ok _ |- _ => apply take_uint_ok in X as [-> ?]; [|done]
  | X : take_array _ _ _ = Ok _ |- _ => apply take_array_ok in X as ->
  end.
  injection Hf as <- <-. goprop. subst.
  match goal with X : operationName ?v <> [] |- _ => pose proof (operation_forth v X) as Eop end.
  assert (Requestable (requested (operationName v0) v1 v2 v3)) as Hm.
  { constructor; cbn; [done| |lia|]. { rewrite Eop. intros ->. done. }
    unfold misplaced. by apply orb_false_iff. }
  split; [done|]. destruct (requestable_writes _ Hm) as [w Hw]. exists w. split; [done|]. f_equal. unfold writeRequest in Hw. inv_ok. subst w. cbn.
  rewrite Eop. assert (rest4 = []) as ->; [|by rewrite app_nil_r]. autorewrite with len in Hl. change (len requestMagic) with 8 in Hl.
  apply length_zero_iff_nil. unfold len in Hl. lia.
Qed.

(** A response as the protocol allows it. *)
Definition Respondable (m : Message) : Prop :=
  m = responded m.(Status) m.(ObjectDigest) m.(Payload) /\ is_ok (writeResponse m).

Lemma status_back v : statusCode v <= 4 -> statusName (statusCode v) = v /\ v <> [] /\ 0 <= statusCode v < 256.
Proof.
  unfold statusCode. intros Hv. repeat case_bool_decide; subst; try lia; (split; [vm_compute; reflexivity|split; [done|lia]]).
Qed.

Lemma header_reads status object length :
  0 <= status < 256 -> in_u32 length ->
  Reads headerFields (responseMagic ++ be_bytes 1 status ++ array_bytes object ++ be_bytes 4 length) (MkHeader responseMagic status object length).
Proof.
  intros Hs Hl. unfold headerFields. eapply reads_bind; [by apply reads_take_bytes|]. eapply reads_bind; [by apply (reads_take_uint 1)|].
  eapply reads_bind; [apply reads_array|]. rewrite <- (app_nil_r (be_bytes 4 _)). eapply reads_bind; [by apply reads_uint32|]. apply reads_ret.
Qed.

Lemma header_length_ status (object : array 32) length :
  len (responseMagic ++ be_bytes 1 status ++ array_bytes object ++ be_bytes 4 length) = 45.
Proof. autorewrite with len. done. Qed.

(** The header of a written response, and what follows it. *)
Lemma writeResponse_shape m raw :
  Respondable m -> writeResponse m = Ok raw ->
  statusName (statusCode m.(Status)) = m.(Status) /\ m.(Status) <> [] /\ 0 <= statusCode m.(Status) < 256 /\
  raw = (responseMagic ++ be_bytes 1 (statusCode m.(Status)) ++ array_bytes m.(ObjectDigest) ++ be_bytes 4 (len m.(Payload))) ++ m.(Payload) /\
  (m.(Status) = str "ok" /\ m.(ObjectDigest) <> zero32 /\ 0 < len m.(Payload) <= maximumPayloadBytes \/
   m.(Status) <> str "ok" /\ m.(ObjectDigest) = zero32 /\ m.(Payload) = []).
Proof.
  intros [Hs _] Hw. unfold writeResponse in Hw. cbv zeta in Hw. inv_ok. pose proof (len_nonneg m.(Payload)). goprop.
  destruct (status_back m.(Status)) as (E1 & E2 & E3); [lia|].
  destruct (bool_decide_reflect (Status m = str "ok")) as [Eok|Eok]; cbn [negb andb] in *; inv_ok; goprop; subst raw.
  - split_and!; try done; try lia; [|left; split_and!; try done; lia].
    rewrite <- !app_assoc. assert (u32 (len (Payload m)) = len (Payload m)) as ->; [|done]. apply Z.mod_small. unfold maximumPayloadBytes in *. lia.
  - assert (Payload m = []) as -> by (apply length_zero_iff_nil; unfold len in *; lia). assert (ObjectDigest m = zero32) as -> by done.
    split_and!; first [done|lia|by right].
Qed.

Lemma readResponse_written failure m raw rest :
  Respondable m -> writeResponse m = Ok raw -> readResponse failure (raw ++ rest) = (m, None, rest).
Proof.
  intros Hm Hw. destruct (writeResponse_shape _ _ Hm Hw) as (E1 & E2 & E3 & -> & Hcase). destruct Hm as [Hs _]. pose proof (len_nonneg m.(Payload)).
  assert (in_u32 (len m.(Payload))) as Hl.
  { unfold in_u32, maximumPayloadBytes in *. destruct Hcase as [(_ & _ & ?)|(_ & _ & E)]; [lia|]. by rewrite E. }
  unfold readResponse. rewrite <- app_assoc, (readFull_exact 45 failure _ _ (header_length_ _ _ _)), (reads_all _ _ _ (header_reads _ _ _ E3 Hl)).
  cbv zeta. cbn [header_magic header_status header_object header_length]. rewrite E1, bool_decide_eq_true_2 by done. cbn [negb orb].
  rewrite (bool_decide_eq_false_2 (Status m = [])) by done. destruct Hcase as [(Eok & Hd & Hp)|(Eok & Hd & Hp)].
  - rewrite (bool_decide_eq_true_2 (Status m = _)), (bool_decide_eq_false_2 (ObjectDigest m = _)), (proj2 (Z.eqb_neq _ _)), (proj2 (Z.ltb_ge _ _)) by (done || lia).
    cbn [negb orb]. rewrite (readFull_exact (len (Payload m)) failure (Payload m) _ eq_refl). by rewrite <- Hs.
  - rewrite (bool_decide_eq_false_2 (Status m = _)), (bool_decide_eq_true_2 (ObjectDigest m = _)), Hp by done. cbn [negb orb len length Z.of_nat Z.eqb app].
    rewrite Hd. rewrite Hs at 2. by rewrite Hd, Hp.
Qed.

(** The connection to a source that serves with [resolve]. *)
Definition servedBy (resolve : Message -> Message) : connection :=
  MkConnection (Ok tt) (fun sent => ((handleConnection resolve sent).1, None)).

Lemma exchange_once resolve request :
  Requestable request -> Respondable (resolve request) -> fetch (servedBy resolve) request = (resolve request, None).
Proof.
  intros Hq Hr. unfold fetch, servedBy. cbn [connected peer]. destruct (requestable_writes _ Hq) as [raw Hw]. rewrite Hw.
  unfold handleConnection. cbv zeta. rewrite <- (app_nil_r raw) at 1. rewrite (readRequest_written _ _ _ _ Hq Hw).
  destruct (writeResponse (resolve request)) as [answer|] eqn:Ha; [|by destruct Hr as [_ Hr]; rewrite Ha in Hr]. cbn [fst].
  rewrite <- (app_nil_r answer). by rewrite (readResponse_written _ _ _ _ Hr Ha).
Qed.

(** A response that breaks off inside its payload fails and names its object, which
    is what a node then asks the other source for. *)
Lemma readResponse_cut failure m raw k :
  Respondable m -> writeResponse m = Ok raw -> m.(Status) = str "ok" -> 45 <= k < len raw ->
  exists e, readResponse failure (take (Z.to_nat k) raw) = (responded m.(Status) m.(ObjectDigest) [], Some e, []).
Proof.
  intros Hm Hw Hok Hk. destruct (writeResponse_shape _ _ Hm Hw) as (E1 & E2 & E3 & -> & Hcase). destruct Hm as [Hs _].
  destruct Hcase as [(_ & Hd & Hp)|(? & _)]; [|done]. set (head := responseMagic ++ _) in *.
  assert (len head = 45) as Hl by apply header_length_. rewrite len_app, Hl in Hk.
  assert (take (Z.to_nat k) (head ++ Payload m) = head ++ take (Z.to_nat (k - 45)) (Payload m)) as ->.
  { rewrite take_app. f_equal; [apply take_ge|f_equal]; unfold len in *; lia. }
  unfold readResponse. rewrite (readFull_exact 45 failure head _ Hl).
  assert (in_u32 (len m.(Payload))) as Hu by (unfold in_u32, maximumPayloadBytes in *; lia).
  unfold head. rewrite (reads_all _ _ _ (header_reads _ _ _ E3 Hu)).
  cbv zeta. cbn [header_magic header_status header_object header_length]. rewrite E1, bool_decide_eq_true_2 by done. cbn [negb orb].
  rewrite (bool_decide_eq_false_2 (Status m = [])) by done.
  rewrite (bool_decide_eq_true_2 (Status m = _)), (bool_decide_eq_false_2 (ObjectDigest m = _)), (proj2 (Z.eqb_neq _ _)), (proj2 (Z.ltb_ge _ _)) by (done || lia).
  cbn [negb orb]. unfold readFull, take_bytes. rewrite (proj2 (Z.ltb_lt _ _)); [by eexists|]. unfold len in *. rewrite length_take. lia.
Qed.

End source.
