(* ===== verification/NetState.v ===== *)
(** * The running Network State (internal/network/state)

    The state machine around the verified Epochs: the distribution state and its
    canonical encoding (control_state.go, control_encoding.go,
    control_decoding.go), the durable root (durable_store.go,
    distribution_journal.go, storage.go), recovery (recovery.go, pending.go,
    open.go), offline acceptance (offline_accept.go), and the finite source wave
    (refresh.go, attempts.go, outcomes.go, candidate.go, bundle.go, selection.go,
    selection_commit.go), with the Snapshot shown to callers (exposure.go,
    snapshot_access.go).

    A call runs in [stateM]: it threads the state of the node and the behaviour of
    the disk during the call.  Readings of the clock, random bytes, the answers of
    the sources and the outcome of the local role store are arguments. *)

From S2P Require Import Prelude Wire GoLib GoTime Merkle EpochDisk StateView NetSource NetEpoch.

Import netstate.

Module running.

(** ** control_state.go *)

Record distributionState := MkDistribution {
  sequence : Z;
  epochFloor : Z;
  epochDigest : array 32;
  trustedTimeFloor : Z;
  conflicting : bool;
  consecutiveFailures : Z;
  backoffLevel : Z;
  nextAutomatic : Z;
  history : list (array 32);
  cycleID : Z;
  cycleActive : bool;
  cyclePurpose : Z;
  cycleStarted : Z;
  cycleDeadline : Z;
  attempts : list Z;
  outcomes : list Z;
  requestedDigests : list (array 32);
  observedEpochs : list Z;
  observedDigests : list (array 32);
  pendingDigest : array 32;
  pendingValidFrom : Z;
  cycleSeed : array 32;
  sourceOrder : list Z
}.
#[global] Instance eta_distribution : Eta distributionState := fun s =>
  MkDistribution s.(sequence) s.(epochFloor) s.(epochDigest) s.(trustedTimeFloor) s.(conflicting) s.(consecutiveFailures)
    s.(backoffLevel) s.(nextAutomatic) s.(history) s.(cycleID) s.(cycleActive) s.(cyclePurpose) s.(cycleStarted)
    s.(cycleDeadline) s.(attempts) s.(outcomes) s.(requestedDigests) s.(observedEpochs) s.(observedDigests)
    s.(pendingDigest) s.(pendingValidFrom) s.(cycleSeed) s.(sourceOrder).

Definition none4 : list Z := [0; 0; 0; 0].
Definition noDigests2 : list (array 32) := [zero32; zero32].
Definition noDigests4 : list (array 32) := [zero32; zero32; zero32; zero32].

Definition zeroDistribution : distributionState :=
  MkDistribution 0 0 zero32 0 false 0 0 0 [] 0 false 0 0 0 none4 none4 noDigests2 none4 noDigests4 zero32 0 zero32 [0; 0].

(** ** control_encoding.go *)

Definition distributionMagic : bytes := str "ARDS1D4" ++ [x00].

Definition flag (b : bool) : byte := if b then x01 else x00.

Definition encodeObserved (observed : Z * array 32) : bytes := be_bytes 8 observed.1 ++ observed.2.

Definition encodeDistributionState (s : distributionState) : bytes :=
  distributionMagic ++ be_bytes 8 s.(sequence) ++ be_bytes 8 s.(epochFloor) ++ s.(epochDigest) ++
  be_bytes 8 s.(trustedTimeFloor) ++ [flag s.(conflicting)] ++ be_bytes 8 s.(consecutiveFailures) ++
  [byte_of s.(backoffLevel)] ++ be_bytes 8 s.(nextAutomatic) ++
  [byte_of (len s.(history))] ++ concat (map array_bytes s.(history)) ++
  be_bytes 8 s.(cycleID) ++ [flag s.(cycleActive)] ++ [byte_of s.(cyclePurpose)] ++ be_bytes 8 s.(cycleStarted) ++
  be_bytes 8 s.(cycleDeadline) ++ map byte_of s.(attempts) ++ map byte_of s.(outcomes) ++
  concat (map array_bytes s.(requestedDigests)) ++
  concat (map encodeObserved (zip s.(observedEpochs) s.(observedDigests))) ++
  s.(pendingDigest) ++ be_bytes 8 s.(pendingValidFrom) ++ s.(cycleSeed) ++ map byte_of s.(sourceOrder).

(** [t.Unix()], the [int64] that it returns. *)
Definition unix (t : Z) : Z := i64 (Unix t).

(** What one call sees of the clock: the wall clock, the monotonic continuation
    of the opening time, and the independent observation. *)
Record clockReading := MkClock { wall : Z; monotonic : Z; observation : Z }.

Definition errClockUncertain : string := "clock confidence is outside the two-second bound".

Definition trustedNow (clock : clockReading) (s : distributionState) : result Z :=
  let now := if clock.(wall) <? clock.(monotonic) then clock.(monotonic) else clock.(wall) in
  reject (New errClockUncertain)
    when (IsZero clock.(observation) || (2 * Second <? Z.abs (now - clock.(observation))));
  reject (New errClockUncertain) when (i64 (unix now + 2) <? s.(trustedTimeFloor));
  if unix now <? s.(trustedTimeFloor) then Ok (OfUnix s.(trustedTimeFloor)) else Ok now.

(** ** control_decoding.go *)

(** [d.byte()] *)
Definition take_byte : decoder Z := take_uint 1 truncated.

(** A byte above a bound, or missing, is one and the same error. *)
Definition boundedByte (maximum : Z) (e : error) : decoder Z :=
  v ← or_error e take_byte;
  if maximum <? v then decode_fail e else mret v.

Record header := MkHeader {
  h_sequence : Z; h_epochFloor : Z; h_epochDigest : array 32; h_trustedTimeFloor : Z; h_conflicting : bool;
  h_consecutiveFailures : Z; h_backoffLevel : Z; h_nextAutomatic : Z; h_history : list (array 32)
}.

Definition decodeDistributionHeader : decoder header :=
  number ← take_uint 8 truncated;
  floor ← take_uint 8 truncated;
  digest ← take_array 32 truncated;
  time ← take_uint 8 truncated;
  conflict ← boundedByte 1 (New "distribution conflict flag is invalid");
  failures ← take_uint 8 truncated;
  level ← boundedByte 5 (New "distribution backoff level is invalid");
  next ← take_uint 8 truncated;
  count ← boundedByte 2 (New "distribution history count is invalid");
  identities ← take_many (Z.to_nat count) (take_array 32 truncated);
  mret (MkHeader number floor digest (i64 time) (conflict =? 1) failures level (i64 next) identities).

Record cycle := MkCycle {
  c_ID : Z; c_Active : bool; c_Purpose : Z; c_Started : Z; c_Deadline : Z;
  c_attempts : list Z; c_outcomes : list Z; c_requested : list (array 32)
}.

(** The two by-digest attempts, each with its selector exactly when it started. *)
Fixpoint decodeRequested (status : list Z) : decoder (list (array 32)) :=
  match status with
  | [] => mret []
  | attempt :: rest =>
      digest ← take_array 32 truncated;
      if bool_decide (digest = zero32) !=? (attempt =? 0)
      then decode_fail (New "BY_DIGEST attempt lacks its exact selector")
      else others ← decodeRequested rest; mret (digest :: others)
  end.

Definition decodeDistributionCycle : decoder cycle :=
  id ← take_uint 8 truncated;
  active ← boundedByte 1 (New "distribution cycle flag is invalid");
  purpose ← boundedByte 1 (New "distribution cycle purpose is invalid");
  started ← take_uint 8 truncated;
  deadline ← take_uint 8 truncated;
  if (active =? 1) && (negb (purpose =? 1) || (i64 started <=? 0) || (i64 deadline <=? i64 started))
  then decode_fail (New "active distribution cycle metadata is incomplete")
  else
    statuses ← take_bytes 4 truncated;
    if negb (forallb (fun s => byte_val s <=? 3) statuses) then decode_fail (New "distribution attempt status is invalid")
    else
      results ← take_bytes 4 truncated;
      if negb (forallb (fun o => byte_val o <=? 13) results) then decode_fail (New "distribution source outcome is invalid")
      else
        requested ← decodeRequested (drop 2 (map byte_val statuses));
        mret (MkCycle id (active =? 1) purpose (i64 started) (i64 deadline) (map byte_val statuses) (map byte_val results) requested).

Record evidence := MkEvidence {
  e_observed : list (Z * array 32); e_pendingDigest : array 32; e_pendingValidFrom : Z; e_seed : array 32; e_order : list Z
}.

Definition decodeObserved : decoder (Z * array 32) :=
  number ← take_uint 8 truncated;
  digest ← take_array 32 truncated;
  if (number =? 0) !=? bool_decide (digest = zero32)
  then decode_fail (New "observed source candidate identity is incomplete")
  else mret (number, digest).

(** Of the cycle it reads only the identifier. *)
Definition decodeDistributionEvidence (cycle : Z) : decoder evidence :=
  observed ← take_many 4 decodeObserved;
  pending ← take_array 32 truncated;
  pendingAt ← take_uint 8 truncated;
  if bool_decide (pending = zero32) !=? (i64 pendingAt =? 0) then decode_fail (New "distribution pending identity is incomplete")
  else
    seed ← take_array 32 truncated;
    order ← take_bytes 2 truncated;
    let order := map byte_val order in
    if (0 <? cycle) && (negb (forallb (fun o => o <=? 1) order) || (default 0 (order !! 0%nat) =? default 0 (order !! 1%nat)))
    then decode_fail (New "distribution source order is invalid")
    else mret (MkEvidence observed pending (i64 pendingAt) seed order).

Definition distributionFields : decoder distributionState :=
  magic ← or_error (New "distribution state magic is invalid") (take_bytes 8 truncated);
  if magic !=? distributionMagic then decode_fail (New "distribution state magic is invalid")
  else
    h ← decodeDistributionHeader;
    c ← decodeDistributionCycle;
    e ← decodeDistributionEvidence c.(c_ID);
    mret (MkDistribution h.(h_sequence) h.(h_epochFloor) h.(h_epochDigest) h.(h_trustedTimeFloor) h.(h_conflicting)
            h.(h_consecutiveFailures) h.(h_backoffLevel) h.(h_nextAutomatic) h.(h_history) c.(c_ID) c.(c_Active) c.(c_Purpose)
            c.(c_Started) c.(c_Deadline) c.(c_attempts) c.(c_outcomes) c.(c_requested) (map fst e.(e_observed))
            (map snd e.(e_observed)) e.(e_pendingDigest) e.(e_pendingValidFrom) e.(e_seed) e.(e_order)).

Definition decodeDistributionState (raw : bytes) : result distributionState :=
  match distributionFields raw with
  | Err e => Err e
  | Ok (s, rest) =>
      reject (New "distribution state has trailing bytes") when (rest !=? []);
      Ok s
  end.

Section Digest.
Context `{GoLib}.

Definition distributionDigest (raw : bytes) : gostring :=
  hex_EncodeToString (sha256 (str "ardents-h3-distribution-state-v1" ++ [x00] ++ raw)).

End Digest.

(** ** The durable root: durable_store.go, distribution_journal.go

    What other processes and a restart can see of a root: the published
    generations, the pointer to the current one, and the same for the control
    journal.  A commit stages its files under a name that opening removes, syncs
    them, and publishes them by a rename; it is the sequence of these renames and
    removals.  [StageFiles] is the writing of the files that [commitState] stages
    before it knows whether it has the generation already: it can fail, and changes
    nothing that a restart sees. *)

Record durableRoot := MkRoot {
  generations : gmap gostring durableGeneration;
  currentPointer : option gostring;
  controls : gmap gostring bytes;
  controlPointer : option gostring;
  root_closed : bool
}.
#[global] Instance eta_root : Eta durableRoot := fun r =>
  MkRoot r.(generations) r.(currentPointer) r.(controls) r.(controlPointer) r.(root_closed).

Definition emptyRoot : durableRoot := MkRoot ∅ None ∅ None false.

Inductive durableStep :=
| StageFiles
| PublishGeneration (name : gostring) (value : durableGeneration)
| PointCurrent (name : gostring)
| RemoveControl (name : gostring)
| PublishControl (name : gostring) (raw : bytes)
| PointControl (name : gostring).

Definition exec (step : durableStep) (root : durableRoot) : durableRoot :=
  match step with
  | StageFiles => root
  | PublishGeneration name value => root <| generations := <[name := value]> root.(generations) |>
  | PointCurrent name => root <| currentPointer := Some name |>
  | RemoveControl name => root <| controls := delete name root.(controls) |>
  | PublishControl name raw => root <| controls := <[name := raw]> root.(controls) |>
  | PointControl name => root <| controlPointer := Some name |>
  end.

(** The disk during one call: it takes every step, or it fails the step after so
    many, which may have taken effect all the same. *)
Definition faults : Type := option (nat * bool).

Definition ioError : error := Fmt "i/o error".

Fixpoint runSteps (steps : list durableStep) (root : durableRoot) (disk : faults) : durableRoot * faults * result unit :=
  match steps with
  | [] => (root, disk, Ok tt)
  | step :: rest =>
      match disk with
      | Some (O, effect) => (if effect : bool then exec step root else root, None, Err ioError)
      | Some (S k, effect) => runSteps rest (exec step root) (Some (k, effect))
      | None => runSteps rest (exec step root) None
      end
  end.

Definition maximumStateGenerations : Z := 64.
Definition maximumControlGenerations : Z := 4096.

(** The regular expression [^[0-9a-f]{64}$], and the entries of a directory in
    the order of their names, as in the root of the namespace. *)
Definition generationName (name : gostring) : bool := disk.namespaceGenerationName name.
Definition readDirectory {A} (entries : gmap gostring A) : list (gostring * A) := disk.sortNamed (map_to_list entries).

Definition available (root : durableRoot) : result unit :=
  reject (New "network state store is closed") when (root.(root_closed));
  Ok tt.

(** [loadStateGeneration] of every directory. *)
Definition loadable (g : gostring * durableGeneration) : result unit :=
  let '(name, value) := g in
  reject (New "state generation directory is invalid") when (negb (generationName name));
  reject (Wrap "read state generation Epoch: %w" (New "file exceeds its framing bound"))
    when (maximumEpochBytes <? len value.(stored_Epoch));
  reject (Wrap "scan state generation inputs: %w" (New "directory exceeds its entry bound"))
    when (64 <? len value.(stored_Inputs));
  reject (Wrap "read state generation input: %w" (New "file exceeds its framing bound"))
    when (negb (forallb (fun input => len input <=? maximumRecordBytes) value.(stored_Inputs)));
  Ok tt.

Fixpoint loadEach (entries : list (gostring * durableGeneration)) : result unit :=
  match entries with
  | [] => Ok tt
  | g :: rest => _ ← loadable g; loadEach rest
  end.

(** The current name, or none, and the generations by name. *)
Definition loadState (root : durableRoot) : result (gostring * gmap gostring durableGeneration) :=
  _ ← available root;
  reject (Wrap "scan state generations: %w" (New "directory exceeds its entry bound"))
    when (maximumStateGenerations <? Z.of_nat (size root.(generations)));
  _ ← loadEach (readDirectory root.(generations));
  match root.(currentPointer) with
  | None => Ok ([], root.(generations))
  | Some current =>
      reject (New "current state pointer is invalid")
        when (negb (generationName current) || negb (bool_decide (is_Some (root.(generations) !! current))));
      Ok (current, root.(generations))
  end.

Definition stateGenerationMatches (actual value : durableGeneration) : bool :=
  (actual.(stored_Epoch) ==? value.(stored_Epoch)) && (actual.(stored_Inputs) ==? value.(stored_Inputs)).

Definition commitState (root : durableRoot) (name : gostring) (value : durableGeneration) (activate : bool)
  : list durableStep * result unit :=
  match available root with
  | Err e => ([], Err e)
  | Ok _ =>
      if negb (generationName name) || (len value.(stored_Epoch) =? 0) || (maximumEpochBytes <? len value.(stored_Epoch)) ||
         (64 <? len value.(stored_Inputs))
      then ([], Err (New "state generation exceeds its bounds"))
      else if negb (forallb (fun input => negb (len input =? 0) && (len input <=? maximumRecordBytes)) value.(stored_Inputs))
      then ([], Err (New "state generation input exceeds its bound"))
      else
        let point := if activate then [PointCurrent name] else [] in
        match root.(generations) !! name with
        | Some actual =>
            if stateGenerationMatches actual value then (StageFiles :: point, Ok tt)
            else ([StageFiles], Err (New "existing immutable state generation disagrees with supplied bytes"))
        | None => (StageFiles :: PublishGeneration name value :: point, Ok tt)
        end
  end.

Definition loadControl (root : durableRoot) : result (gostring * bytes) :=
  _ ← available root;
  match root.(controlPointer) with
  | None =>
      reject (New "control journal lacks its current pointer") when (negb (Z.of_nat (size root.(controls)) =? 0));
      Ok ([], [])
  | Some name =>
      reject (New "control journal pointer is invalid") when (negb (generationName name));
      match root.(controls) !! name with
      | None => Err (New "file does not exist")
      | Some raw =>
          reject (New "file exceeds its framing bound") when (4096 <? len raw);
          Ok (name, raw)
      end
  end.

(** The removals of [pruneSupersededControl] until the first bad entry. *)
Fixpoint prune (current : gostring) (names : list gostring) : list durableStep * result unit :=
  match names with
  | [] => ([], Ok tt)
  | name :: rest =>
      if negb (generationName name) then ([], Err (New "control journal contains an invalid generation"))
      else
        let '(steps, r) := prune current rest in
        (if name ==? current then steps else RemoveControl name :: steps, r)
  end.

Definition pruneSupersededControl (root : durableRoot) : list durableStep * result unit :=
  match root.(controlPointer) with
  | None =>
      ([], reject (New "control journal without a pointer contains generations") when (negb (Z.of_nat (size root.(controls)) =? 0));
           Ok tt)
  | Some current =>
      if negb (generationName current) then ([], Err (New "control journal pointer is invalid"))
      else if maximumControlGenerations + 1 <? Z.of_nat (size root.(controls)) then ([], Err (New "directory exceeds its entry bound"))
      else
        let '(steps, r) := prune current (map fst (readDirectory root.(controls))) in
        (steps, _ ← r;
                reject (New "control journal current generation is missing")
                  when (negb (bool_decide (is_Some (root.(controls) !! current))));
                Ok tt)
  end.

(** Pruning leaves at most the current control generation: how many entries there
    are then, and the one of that name. *)
Definition remaining (root : durableRoot) : Z := if bool_decide (is_Some root.(controlPointer)) then 1 else 0.

Definition kept (root : durableRoot) (name : gostring) : option bytes :=
  if bool_decide (root.(controlPointer) = Some name) then root.(controls) !! name else None.

Definition commitControl (root : durableRoot) (name : gostring) (raw : bytes) : list durableStep * result unit :=
  match available root with
  | Err e => ([], Err e)
  | Ok _ =>
      if negb (generationName name) || (len raw =? 0) || (4096 <? len raw) then ([], Err (New "control generation is invalid"))
      else
        match pruneSupersededControl root with
        | (removals, Err e) => (removals, Err e)
        | (removals, Ok _) =>
            if maximumControlGenerations <=? remaining root then (removals, Err (New "control generation bound is exhausted"))
            else
              match kept root name with
              | Some existing =>
                  if existing ==? raw then (removals ++ [PointControl name], Ok tt)
                  else (removals, Err (New "existing immutable control generation disagrees with supplied bytes"))
              | None => (removals ++ [PublishControl name raw; PointControl name], Ok tt)
              end
        end
  end.

(** ** runtime_state.go *)

(** What the state reads of its source plan ([source.Details]). *)
Record sourceDetails := MkDetails {
  Configured : bool;
  OrderSeed : array 32;
  Identities : list (array 32);
  SourceFamilies : list gostring;
  EndpointHandles : list gostring;
  Exposures : list (array 32)
}.

Record networkState := MkNetworkState {
  ns_config : config;
  ns_source : sourceDetails;
  ns_current : option state.Snapshot;
  ns_currentDecision : option candidateDecision;
  ns_pendingDecision : option candidateDecision;
  ns_distribution : distributionState;
  ns_storage : durableRoot;
  ns_refreshing : bool;
  ns_closed : bool
}.
#[global] Instance eta_networkState : Eta networkState := fun s =>
  MkNetworkState s.(ns_config) s.(ns_source) s.(ns_current) s.(ns_currentDecision) s.(ns_pendingDecision) s.(ns_distribution)
    s.(ns_storage) s.(ns_refreshing) s.(ns_closed).

(** A call: the node and the disk before and after it, and its outcome. *)
Definition stateM (A : Type) : Type := networkState -> faults -> networkState * faults * result A.

#[global] Instance stateM_ret : MRet stateM := fun A a s disk => (s, disk, Ok a).
#[global] Instance stateM_bind : MBind stateM := fun A B f m s disk =>
  match m s disk with
  | (s, disk, Ok a) => f a s disk
  | (s, disk, Err e) => (s, disk, Err e)
  end.

Definition get : stateM networkState := fun s disk => (s, disk, Ok s).
Definition modify (f : networkState -> networkState) : stateM unit := fun s disk => (f s, disk, Ok tt).
Definition lift {A} (r : result A) : stateM A := fun s disk => (s, disk, r).
Definition guard (e : error) (c : bool) : stateM unit := lift (if c then Err e else Ok tt).
Definition wrapped {A} (format : string) (m : stateM A) : stateM A := fun s disk =>
  match m s disk with
  | (s, disk, Err e) => (s, disk, Err (Wrap format e))
  | r => r
  end.

(** A commit on the storage of the node. *)
Definition store (commit : durableRoot -> list durableStep * result unit) : stateM unit := fun s disk =>
  let '(steps, r) := commit s.(ns_storage) in
  let '(root, disk, io) := runSteps steps s.(ns_storage) disk in
  (s <| ns_storage := root |>, disk, match io with Err e => Err e | Ok _ => r end).

Definition wrap {A} (format : string) (r : result A) : result A :=
  match r with Err e => Err (Wrap format e) | Ok a => Ok a end.

(** ** exposure.go *)

Definition errSourceRoleCollision : string := "source role collides with a Candidate View member".

Definition epochDecisionCollides (decision : verifiedEpochDecision) (identity : array 32) (family endpoint : gostring) : bool :=
  bool_decide (identity ∈ decision.(NodeIDs)) || bool_decide (identity ∈ decision.(KeyIDs)) ||
  bool_decide (family ∈ decision.(Families)) || bool_decide (endpoint ∈ decision.(Endpoints)).

(** The three arrays have the same two indices. *)
Fixpoint anyCollides (decision : verifiedEpochDecision) (identities : list (array 32)) (families endpoints : list gostring) : bool :=
  match identities, families, endpoints with
  | identity :: identities, family :: families, endpoint :: endpoints =>
      epochDecisionCollides decision identity family endpoint || anyCollides decision identities families endpoints
  | _, _, _ => false
  end.

Definition sourceCollides (info : sourceDetails) (decision : candidateDecision) : bool :=
  info.(Configured) && anyCollides decision.(cd_verified) info.(Identities) info.(SourceFamilies) info.(EndpointHandles).

Definition collisionError : error := Wrap "%w: identity, family, or endpoint" (New errSourceRoleCollision).

Definition rejectDecisionSourceCollisions (s : networkState) (decision : candidateDecision) : result unit :=
  reject collisionError when (sourceCollides s.(ns_source) decision);
  Ok tt.

Definition rejectSourceCollisions (s : networkState) : result unit :=
  reject collisionError
    when (existsb (sourceCollides s.(ns_source))
            (option_list s.(ns_currentDecision) ++ option_list s.(ns_pendingDecision)));
  Ok tt.

(** outcomes.go *)
Definition sourceOutcomeValid : Z := 1.
Definition sourceOutcomeInterrupted : Z := 9.

Definition sourceOutcomeName (outcome : Z) : gostring :=
  default [] (map str ["not-attempted"; "valid"; "unavailable"; "authentication-failed"; "timeout"; "framing-failed";
    "resource-failed"; "canceled"; "invalid-state"; "interrupted"; "not-found"; "busy"; "bad-request";
    "source-internal"]%string !! Z.to_nat outcome).

(** The steps of [snapshotWithDistribution]. *)
Definition authoritiesShown (c : config) (s : state.Snapshot) : state.Snapshot :=
  let ids := sortBy id (map fst (map_to_list c.(authorities))) in
  s <| state.EpochAuthorityCount := u8 (len ids) |> <| state.EpochThreshold := u8 c.(threshold) |>
    <| state.EpochAuthorityIDs := ids |>
    <| state.EpochAuthorityKeys := map (fun id => to_array 32 (default [] (c.(authorities) !! id))) ids |>.

Definition distributionShown (d : distributionState) (s : state.Snapshot) : state.Snapshot :=
  let s :=
    s <| state.Conflicting := d.(conflicting) |> <| state.SourceAttempts := u16 (len d.(history)) |>
      <| state.LatestCompleteness := str "latest completeness unproven" |>
      <| state.ObservedEpochs := d.(observedEpochs) |> <| state.ObservedDigests := d.(observedDigests) |>
      <| state.SourceOutcomes := map sourceOutcomeName d.(outcomes) |> in
  let s := if d.(trustedTimeFloor) =? 0 then s else s <| state.TrustedTime := OfUnix d.(trustedTimeFloor) |> in
  if d.(nextAutomatic) =? 0 then s else s <| state.NextAutomatic := OfUnix d.(nextAutomatic) |>.

Definition pendingShown (pending : option candidateDecision) (s : state.Snapshot) : state.Snapshot :=
  match pending with
  | None => s
  | Some d =>
      s <| state.PendingEpoch := d.(cd_epoch).(number) |> <| state.PendingDigest := d.(cd_epoch).(digest) |>
        <| state.PendingAt := d.(cd_epoch).(validFrom) |>
  end.

Definition freshness (decision : option candidateDecision) (now : Z) (s : state.Snapshot) : gostring :=
  if s.(state.Conflicting) then str "conflicting"
  else if match decision with Some d => now <? d.(cd_epoch).(validFrom) | None => false end then str "staged"
  else if negb (now <? s.(state.SnapshotValidUntil)) then str "expired"
  else str "fresh".

Section State.
Context `{GoLib}.

Definition candidatesShown (decision : option candidateDecision) (s : state.Snapshot) : state.Snapshot :=
  s <| state.Candidates := (routeCandidates decision).1 |> <| state.CandidateCount := (routeCandidates decision).2 |>.

Definition snapshotWithDistribution (s : networkState) (now : Z) : state.Snapshot :=
  match s.(ns_current) with
  | None => zeroSnapshot
  | Some current =>
      let snapshot :=
        pendingShown s.(ns_pendingDecision)
          (distributionShown s.(ns_distribution)
             (candidatesShown s.(ns_currentDecision) (authoritiesShown s.(ns_config) current))) in
      snapshot <| state.Freshness := freshness s.(ns_currentDecision) now snapshot |>
  end.

(** snapshot_access.go.  [health] is the first of the errors of the resource
    guard, the automatic refresh and the resource governor. *)
Definition Current (s : networkState) (health : result unit) (clock : clockReading) : result state.Snapshot :=
  reject (New "network state is closed") when (s.(ns_closed));
  _ ← health;
  reject (New "network state has no current generation") when (match s.(ns_current) with None => true | Some _ => false end);
  match trustedNow clock s.(ns_distribution) with
  | Err _ =>
      let snapshot := snapshotWithDistribution s clock.(wall) in
      if s.(ns_source).(Configured) then Ok (snapshot <| state.Freshness := str "clock-uncertain" |>) else Ok snapshot
  | Ok now => Ok (snapshotWithDistribution s now)
  end.

(** ** storage.go, control_state.go *)

Definition persistDecision (decision : candidateDecision) (activate : bool) : stateM unit :=
  store (fun root => commitState root decision.(cd_snapshot).(state.Generation)
                       (MkStored decision.(cd_epochBytes) decision.(cd_inputs)) activate).

Definition stageGeneration (decision : candidateDecision) : stateM unit := persistDecision decision false.

(** The bounded walk through the chain always answers. *)
Definition answered {A} (r : option (result A)) : result A := default (Err (Fmt "unreachable")) r.

Definition loadCurrent (c : config) (root : durableRoot) : result (option (state.Snapshot * candidateDecision)) :=
  stored ← loadState root;
  answered (netstate.loadCurrent c stored.1 stored.2).

Definition loadNamedGeneration (c : config) (root : durableRoot) (name : gostring) (previous : option state.Snapshot)
  : result candidateDecision :=
  stored ← loadState root;
  match stored.2 !! name with
  | Some value => loadGeneration c value previous
  | None => Err (New "persisted generation is missing")
  end.

Definition loadStoredChain (c : config) (root : durableRoot) (name : gostring) : result candidateDecision :=
  stored ← loadState root;
  answered (fst <$> loadChain c stored.2 name).

Definition commitDistribution (d : distributionState) : stateM unit :=
  let raw := encodeDistributionState d in
  _ ← store (fun root => commitControl root (distributionDigest raw) raw);
  modify (fun s => s <| ns_distribution := d |>).

Definition activate (decision : candidateDecision) (s : networkState) : networkState :=
  s <| ns_current := Some decision.(cd_snapshot) |> <| ns_currentDecision := Some decision |>.

(** [if s.pendingDecision != nil && its digest == decision's { s.pendingDecision = nil }] *)
Definition settle (decision : candidateDecision) (s : networkState) : networkState :=
  match s.(ns_pendingDecision) with
  | Some pending =>
      if pending.(cd_epoch).(digest) ==? decision.(cd_epoch).(digest) then s <| ns_pendingDecision := None |> else s
  | None => s
  end.

Definition clearPending (decision : candidateDecision) (d : distributionState) : distributionState :=
  if d.(pendingDigest) ==? decision.(cd_epoch).(digest) then d <| pendingDigest := zero32 |> <| pendingValidFrom := 0 |> else d.

Definition raiseFloor (decision : candidateDecision) (d : distributionState) : distributionState :=
  d <| epochFloor := decision.(cd_epoch).(number) |> <| epochDigest := decision.(cd_epoch).(digest) |>.

Definition commitActiveDecision (decision : candidateDecision) (d : distributionState) : stateM unit :=
  _ ← persistDecision decision false;
  _ ← commitDistribution (clearPending decision (raiseFloor decision d));
  _ ← modify (fun s => settle decision (activate decision s));
  persistDecision decision true.

Definition recoverDistributionActive (d : distributionState) : stateM unit :=
  s ← get;
  decision ← lift (wrap "recover distribution active generation: %w"
                     (loadStoredChain s.(ns_config) s.(ns_storage) (hex_EncodeToString d.(epochDigest))));
  _ ← guard (New "distribution active identity disagrees with its generation")
        (negb (decision.(cd_epoch).(number) =? d.(epochFloor)) || (decision.(cd_epoch).(digest) !=? d.(epochDigest)));
  _ ← wrapped "repair active generation pointer: %w" (persistDecision decision true);
  modify (activate decision).

(** pending.go *)
Definition recoverPendingState : stateM unit :=
  s ← get;
  let d := s.(ns_distribution) in
  if d.(pendingDigest) ==? zero32 then mret tt
  else
    match s.(ns_current) with
    | None => lift (Err (New "pending Epoch exists without an active predecessor"))
    | Some current =>
        if d.(pendingDigest) ==? current.(state.Digest) then
          commitDistribution (d <| pendingDigest := zero32 |> <| pendingValidFrom := 0 |> <| sequence := u64 (d.(sequence) + 1) |>)
        else
          decision ← lift (wrap "load pending Epoch: %w"
                             (loadNamedGeneration s.(ns_config) s.(ns_storage) (hex_EncodeToString d.(pendingDigest)) (Some current)));
          _ ← guard (New "pending Epoch activation time disagrees with durable state")
                (negb (unix decision.(cd_epoch).(validFrom) =? d.(pendingValidFrom)));
          modify (fun s => s <| ns_pendingDecision := Some decision |>)
    end.

(** The current generation lags behind the floor that was committed before it. *)
Definition behind (d : distributionState) (current : option state.Snapshot) : bool :=
  negb (d.(epochFloor) =? 0) &&
  match current with
  | None => true
  | Some c =>
      (c.(state.Epoch) <? d.(epochFloor)) || (d.(epochFloor) =? c.(state.Epoch)) && (d.(epochDigest) !=? c.(state.Digest))
  end.

Definition loadDistributionState : stateM unit :=
  s ← get;
  control ← lift (wrap "load distribution security state: %w" (loadControl s.(ns_storage)));
  if control.1 ==? [] then
    modify (fun s =>
      match s.(ns_current) with
      | Some current =>
          s <| ns_distribution :=
            s.(ns_distribution) <| epochFloor := current.(state.Epoch) |> <| epochDigest := current.(state.Digest) |> |>
      | None => s
      end)
  else
    match decodeDistributionState control.2 with
    | Err _ => lift (Err (New "distribution generation is invalid"))
    | Ok d =>
        _ ← guard (New "distribution generation is invalid") (distributionDigest control.2 !=? control.1);
        _ ← (if behind d s.(ns_current) then recoverDistributionActive d else mret tt);
        s ← get;
        _ ← guard (New "distribution security state is older than the active generation")
              (match s.(ns_current) with Some c => d.(epochFloor) <? c.(state.Epoch) | None => false end);
        _ ← modify (fun s => s <| ns_distribution := d |>);
        recoverPendingState
    end.

(** open.go: [recover] up to the background work, on a root just opened. *)
Definition open (c : config) (info : sourceDetails) (root : durableRoot) (disk : faults) : networkState * faults * result unit :=
  let opened := MkNetworkState c info None None None zeroDistribution (root <| root_closed := false |>) false false in
  match loadCurrent c opened.(ns_storage) with
  | Err e => (opened, disk, Err e)
  | Ok None => loadDistributionState opened disk
  | Ok (Some (current, decision)) =>
      loadDistributionState (opened <| ns_current := Some current |> <| ns_currentDecision := Some decision |>) disk
  end.

(** ** selection.go: the guard on every new decision *)

Definition errPersistentStateConflict : string := "network state has a persistent conflict".
Definition errPendingEpochConflict : string := "candidate Epoch conflicts with the durable pending Epoch".

Definition allowCandidateTransition (s : networkState) (candidate : candidateDecision) : result unit :=
  reject (New errPersistentStateConflict) when (s.(ns_distribution).(conflicting));
  match s.(ns_pendingDecision) with
  | None => Ok tt
  | Some pending =>
      reject (New errPendingEpochConflict)
        when ((candidate.(cd_epoch).(number) =? pending.(cd_epoch).(number)) &&
              (candidate.(cd_epoch).(digest) !=? pending.(cd_epoch).(digest)));
      Ok tt
  end.

(** ** offline_accept.go

    [before] and [after] are the errors of the context at its two checks;
    [clock] and [shown] the two readings of the clock. *)
Definition advanced (clock : Z) (d : distributionState) : distributionState :=
  d <| sequence := u64 (d.(sequence) + 1) |> <| trustedTimeFloor := Z.max d.(trustedTimeFloor) (unix clock) |>.

Definition Accept (epoch : bytes) (inputs materials : list bytes) (before after : result unit) (clock shown : Z)
  : stateM state.Snapshot :=
  _ ← lift before;
  s ← get;
  _ ← guard (New "network state is closed") s.(ns_closed);
  _ ← guard (New "network state refresh owns the active transition") s.(ns_refreshing);
  _ ← guard (New errPersistentStateConflict) s.(ns_distribution).(conflicting);
  decision ← lift (verifyDecision s.(ns_config) s.(ns_current) epoch inputs materials true);
  _ ← lift after;
  match allowCandidateTransition s decision with
  | Err e =>
      _ ← (if errors_Is e errPendingEpochConflict
           then commitDistribution ((advanced clock s.(ns_distribution)) <| conflicting := true |>)
           else mret tt);
      lift (Err e)
  | Ok _ =>
      _ ← commitActiveDecision decision (advanced clock s.(ns_distribution));
      s ← get;
      mret (snapshotWithDistribution s shown)
  end.

(** ** attempts.go *)

Definition status (d : distributionState) (index : Z) : Z := default 0 (d.(attempts) !! Z.to_nat index).
Definition outcomeAt (d : distributionState) (index : Z) : Z := default 0 (d.(outcomes) !! Z.to_nat index).

Definition setStatus (index value : Z) (d : distributionState) : distributionState :=
  d <| attempts := <[Z.to_nat index := value]> d.(attempts) |>.
Definition setOutcome (index value : Z) (d : distributionState) : distributionState :=
  d <| outcomes := <[Z.to_nat index := value]> d.(outcomes) |>.
Definition next (d : distributionState) : distributionState := d <| sequence := u64 (d.(sequence) + 1) |>.

(** [if !containsIdentity(history, exposure) { history = append(history, exposure) }] *)
Definition expose (info : sourceDetails) (source : Z) (d : distributionState) : distributionState :=
  let exposure := default zero32 (info.(Exposures) !! Z.to_nat source) in
  if bool_decide (exposure ∈ d.(history)) then d else d <| history := d.(history) ++ [exposure] |>.

(** Whether the attempt starts, and otherwise the outcome it already has. *)
Definition beginLatestAttempt (index : Z) : stateM (bool * Z) :=
  s ← get;
  let d := s.(ns_distribution) in
  _ ← guard (New "LATEST source attempt is outside the active cycle") (negb d.(cycleActive) || (index <? 0) || (1 <? index));
  if status d index =? 1 then
    _ ← commitDistribution (setOutcome index sourceOutcomeInterrupted (setStatus index 3 (next d)));
    mret (false, sourceOutcomeInterrupted)
  else if negb (status d index =? 0) then mret (false, outcomeAt d index)
  else
    _ ← commitDistribution (expose s.(ns_source) index (setStatus index 1 (next d)));
    mret (true, 0).

Definition beginDigestAttempt (source : Z) (digest : array 32) : stateM unit :=
  s ← get;
  let d := s.(ns_distribution) in
  let index := 2 + source in
  _ ← guard (New "by-digest source attempt is not available")
        (negb d.(cycleActive) || negb (status d index =? 0) || (digest ==? zero32));
  commitDistribution
    (expose s.(ns_source) source
       ((setStatus index 1 (next d)) <| requestedDigests := <[Z.to_nat source := digest]> d.(requestedDigests) |>)).

Definition finishDigestAttempt (source : Z) (succeeded : bool) : stateM unit :=
  s ← get;
  let d := s.(ns_distribution) in
  let index := 2 + source in
  _ ← guard (New "by-digest source attempt is not started") (negb d.(cycleActive) || negb (status d index =? 1));
  commitDistribution (setStatus index (if succeeded then 2 else 3) (next d)).

(** ** outcomes.go *)

Definition backoffBases : list Z := [60; 120; 240; 480; 960; 1800].

Definition applyFailureBackoff (d : distributionState) (now : Z) (seed : array 32) : distributionState :=
  let d := if d.(consecutiveFailures) <? 2 ^ 63 - 1 then d <| consecutiveFailures := d.(consecutiveFailures) + 1 |> else d in
  let level := u64 (d.(consecutiveFailures) - 1) in
  let level := if 5 <? level then 5 else level in
  let base := default 0 (backoffBases !! Z.to_nat level) in
  d <| backoffLevel := level |>
    <| nextAutomatic := i64 (unix now + Z.quot base 2 +
                             Z.quot (byte_val (default x00 (array_bytes seed !! 1%nat)) * (Z.quot base 2 + 1)) 256) |>.

Definition finishedStatus (status outcome : Z) : Z :=
  if outcome =? sourceOutcomeValid then 2
  else if negb (outcome =? 0) then 3
  else if status =? 1 then 3 else status.

Definition finishWaveState (d : distributionState) (now : Z) (observed : list Z) : distributionState :=
  let d := (next d) <| cycleActive := false |> <| outcomes := observed |>
             <| attempts := zip_with finishedStatus d.(attempts) observed |> in
  if existsb (fun o => negb (o =? 0) && negb (o =? sourceOutcomeValid)) observed
  then applyFailureBackoff d now d.(cycleSeed)
  else d <| consecutiveFailures := 0 |> <| backoffLevel := 0 |> <| nextAutomatic := 0 |>.

(** ** selection.go, selection_commit.go *)

(** The attempts a crash left open: their sources are not asked again. *)
Definition interrupt (from : nat) (d : distributionState) : distributionState :=
  let open index s := bool_decide (from <= index)%nat && (s =? 1) in
  d <| outcomes := imap (fun index o => if open index (status d (Z.of_nat index)) then sourceOutcomeInterrupted else o) d.(outcomes) |>
    <| attempts := imap (fun index s => if open index s then 3 else s) d.(attempts) |>.

Definition newCycle (now : Z) (seed : array 32) (d : distributionState) : distributionState :=
  let order := if Z.land (byte_val (default x00 (array_bytes seed !! 0%nat))) 1 =? 1 then [1; 0] else [0; 1] in
  (next d) <| trustedTimeFloor := Z.max d.(trustedTimeFloor) (unix now) |> <| cycleID := u64 (d.(cycleID) + 1) |>
    <| cycleActive := true |> <| cyclePurpose := 1 |> <| cycleStarted := unix now |>
    <| cycleDeadline := unix (Add now (15 * Second)) |> <| attempts := none4 |> <| outcomes := none4 |>
    <| requestedDigests := noDigests2 |> <| observedEpochs := none4 |> <| observedDigests := noDigests4 |>
    <| cycleSeed := seed |> <| sourceOrder := order |>.

(** The order of the sources and the deadline of the wave.  [drawn] is the random
    seed, [roles] the outcome of [retainSourceExposures]. *)
Definition startSourceWave (now : Z) (drawn : option (array 32)) (roles : result unit) : stateM (list Z * Z) :=
  s ← get;
  let d := s.(ns_distribution) in
  if d.(cycleActive) then
    if negb (unix now <? d.(cycleDeadline)) then
      _ ← commitDistribution (applyFailureBackoff ((next (interrupt 0 d)) <| cycleActive := false |>) now d.(cycleSeed));
      lift (Err (Wrap "%w: durable source cycle reached its recorded deadline" (New "finite sources are temporarily unavailable")))
    else
      _ ← (if existsb (fun s => s =? 1) (drop 2 d.(attempts)) then commitDistribution (next (interrupt 2 d)) else mret tt);
      _ ← lift roles;
      mret (d.(sourceOrder), OfUnix d.(cycleDeadline))
  else
    seed ← (if s.(ns_source).(OrderSeed) ==? zero32
            then lift (match drawn with Some seed => Ok seed | None => Err (Wrap "draw source order: %w" ioError) end)
            else mret s.(ns_source).(OrderSeed));
    let d := newCycle now seed d in
    _ ← commitDistribution d;
    _ ← lift roles;
    mret (d.(sourceOrder), OfUnix d.(cycleDeadline)).

(** What one source of a wave produced. *)
Record sourceResult := MkSourceResult {
  sr_index : Z;
  sr_slot : Z;
  sr_decision : result candidateDecision;
  sr_observations : list Z
}.

Record sourceWaveSummary := MkSummary {
  valid : list candidateDecision;
  summary_outcomes : list Z;
  summary_epochs : list Z;
  summary_digests : list (array 32);
  collisionErr : option error
}.
#[local] Instance eta_summary : Eta sourceWaveSummary := fun s =>
  MkSummary s.(valid) s.(summary_outcomes) s.(summary_epochs) s.(summary_digests) s.(collisionErr).

Definition summarizeResult (summary : sourceWaveSummary) (r : sourceResult) : sourceWaveSummary :=
  let summary := summary <| summary_outcomes :=
    zip_with (fun seen o => if o =? 0 then seen else o) summary.(summary_outcomes) r.(sr_observations) |> in
  match r.(sr_decision) with
  | Err e =>
      match summary.(collisionErr) with
      | None => if errors_Is e errSourceRoleCollision then summary <| collisionErr := Some e |> else summary
      | Some _ => summary
      end
  | Ok decision =>
      summary <| valid := summary.(valid) ++ [decision] |>
        <| summary_epochs := <[Z.to_nat r.(sr_slot) := decision.(cd_epoch).(number)]> summary.(summary_epochs) |>
        <| summary_digests := <[Z.to_nat r.(sr_slot) := decision.(cd_epoch).(digest)]> summary.(summary_digests) |>
  end.

Definition summarizeSourceWave (results : list sourceResult) : sourceWaveSummary :=
  foldl summarizeResult (MkSummary [] none4 none4 noDigests4 None) results.

Definition sourceConflict (decisions : list candidateDecision) : bool :=
  existsb (fun a => existsb (fun b => (a.(cd_epoch).(number) =? b.(cd_epoch).(number)) &&
                                      (a.(cd_epoch).(digest) !=? b.(cd_epoch).(digest))) decisions) decisions.

(** The first of the highest Epochs among the [selected] one and the others. *)
Definition newestSourceDecision (selected : candidateDecision) (others : list candidateDecision) : candidateDecision :=
  foldl (fun selected candidate =>
           if selected.(cd_epoch).(number) <? candidate.(cd_epoch).(number) then candidate else selected) selected others.

Definition sameGeneration (current base : option state.Snapshot) : bool :=
  match current, base with
  | None, None => true
  | Some c, Some b => (c.(state.Generation) ==? b.(state.Generation)) && (c.(state.Digest) ==? b.(state.Digest))
  | _, _ => false
  end.

Definition finished (now : Z) (summary : sourceWaveSummary) (d : distributionState) : distributionState :=
  finishWaveState (d <| observedEpochs := summary.(summary_epochs) |> <| observedDigests := summary.(summary_digests) |>)
    now summary.(summary_outcomes).

Definition recordSourceConflict (now : Z) (summary : sourceWaveSummary) : stateM unit :=
  s ← get;
  commitDistribution ((finished now summary s.(ns_distribution)) <| conflicting := true |>).

Definition commitSourceFailure (now : Z) (summary : sourceWaveSummary) : stateM unit :=
  s ← get;
  commitDistribution (finished now summary s.(ns_distribution)).

Definition commitPendingSourceWave (now : Z) (selected : candidateDecision) (summary : sourceWaveSummary) (roles : result unit)
  : stateM state.Snapshot :=
  _ ← lift roles;
  s ← get;
  let newPending := match s.(ns_pendingDecision) with None => true | Some _ => false end in
  _ ← (if newPending then stageGeneration selected else mret tt);
  _ ← commitDistribution ((finished now summary s.(ns_distribution)) <| pendingDigest := selected.(cd_epoch).(digest) |>
                            <| pendingValidFrom := unix selected.(cd_epoch).(validFrom) |>);
  _ ← (if newPending then modify (fun s => s <| ns_pendingDecision := Some selected |>) else mret tt);
  s ← get;
  mret (snapshotWithDistribution s now).

Definition commitActiveSourceWave (now : Z) (selected : candidateDecision) (summary : sourceWaveSummary) (roles : result unit)
  : stateM state.Snapshot :=
  _ ← lift roles;
  s ← get;
  let d := raiseFloor selected (finished now summary s.(ns_distribution)) in
  let d := clearPending selected (d <| trustedTimeFloor := Z.max d.(trustedTimeFloor) (unix now) |>) in
  _ ← (if match s.(ns_current) with None => true | Some c => selected.(cd_epoch).(digest) !=? c.(state.Digest) end
       then commitActiveDecision selected d
       else commitDistribution d);
  _ ← modify (settle selected);
  s ← get;
  mret (snapshotWithDistribution s now).

Definition errRefreshUnavailable : string := "finite sources are temporarily unavailable".

(** [completeSourceWave] after its checks, the lock held. *)
Definition selectSourceWave (started : Z) (results : list sourceResult) (clock : clockReading) (roles : result unit)
  : stateM state.Snapshot :=
  let summary := summarizeSourceWave results in
  match summary.(collisionErr) with
  | Some e => _ ← recordSourceConflict started summary; lift (Err e)
  | None =>
      if sourceConflict summary.(valid) then
        _ ← recordSourceConflict started summary;
        lift (Err (New "sources exposed threshold-valid conflicting Epochs"))
      else
        s ← get;
        match summary.(valid) with
        | [] =>
            now ← lift (trustedNow clock s.(ns_distribution));
            _ ← commitSourceFailure now summary;
            lift (Err (Wrap "finite source wave produced no valid state" (New errRefreshUnavailable)))
        | first :: others =>
            let selected := newestSourceDecision first others in
            match allowCandidateTransition s selected with
            | Err e => _ ← recordSourceConflict started summary; lift (Err e)
            | Ok _ =>
                now ← lift (trustedNow clock s.(ns_distribution));
                if now <? selected.(cd_epoch).(validFrom) then commitPendingSourceWave now selected summary roles
                else if negb (now <? selected.(cd_epoch).(validUntil)) then
                  _ ← commitSourceFailure now summary;
                  lift (Err (Wrap "selected Epoch expired before source wave completed" (New errRefreshUnavailable)))
                else commitActiveSourceWave now selected summary roles
            end
        end
  end.

(** [defer func() { s.refreshing = false }()] *)
Definition finally {A} (m : stateM A) : stateM A := fun s disk =>
  let '(s, disk, r) := m s disk in (s <| ns_refreshing := false |>, disk, r).

Definition completeSourceWave (started : Z) (base : option state.Snapshot) (results : list sourceResult) (clock : clockReading)
  (roles : result unit) : stateM state.Snapshot :=
  finally (
    s ← get;
    _ ← guard (New "network state is closed") s.(ns_closed);
    _ ← guard (New "network state changed during the finite source wave") (negb (sameGeneration s.(ns_current) base));
    selectSourceWave started results clock roles).

(** ** bundle.go *)

Definition maximumSourceBundleBytes : Z := 2 ^ 20.
Definition bundleMagic : bytes := str "ARDH3B1" ++ [x00].

Record sourceBundle := MkBundle { bundle_epoch : bytes; bundle_inputs : list bytes; bundle_materials : list bytes }.

Definition writeLengthBytes (value : bytes) : bytes := be_bytes 4 (u32 (len value)) ++ value.

Definition encodeSourceBundle (decision : candidateDecision) (materialIndex : Z) : result bytes :=
  material ← Materialization decision.(cd_verified) materialIndex;
  let encoded := bundleMagic ++ writeLengthBytes decision.(cd_epochBytes) ++ be_bytes 2 (u16 (len decision.(cd_inputs))) ++
    concat (map writeLengthBytes decision.(cd_inputs)) ++ be_bytes 2 1 ++ writeLengthBytes material in
  reject (New "source bundle exceeds its state bound") when (maximumSourceBundleBytes <? len encoded);
  Ok encoded.

Definition decodeLengthBytes (maximum : Z) : decoder bytes :=
  length ← or_error (New "source bundle member length is invalid") (take_uint 4 truncated);
  if (length =? 0) || (maximum <? length) then decode_fail (New "source bundle member length is invalid")
  else take_bytes length truncated.

Definition boundedCount (e : error) : decoder Z :=
  count ← or_error e (take_uint 2 truncated);
  if 64 <? count then decode_fail e else mret count.

Definition bundleFields : decoder sourceBundle :=
  magic ← or_error (New "source bundle magic is invalid") (take_bytes 8 truncated);
  if magic !=? bundleMagic then decode_fail (New "source bundle magic is invalid")
  else
    epoch ← decodeLengthBytes maximumEpochBytes;
    count ← boundedCount (New "source bundle input count is invalid");
    inputs ← take_many (Z.to_nat count) (decodeLengthBytes maximumRecordBytes);
    materialCount ← boundedCount (New "source bundle materialization count is invalid");
    materials ← take_many (Z.to_nat materialCount) (decodeLengthBytes (35 * 2 ^ 10));
    mret (MkBundle epoch inputs materials).

Definition decodeSourceBundle (raw : bytes) : result sourceBundle :=
  reject (New "source bundle length is invalid") when ((len raw =? 0) || (maximumSourceBundleBytes <? len raw));
  match bundleFields raw with
  | Err e => Err e
  | Ok (bundle, rest) =>
      reject (New "source bundle has trailing bytes") when (rest !=? []);
      Ok bundle
  end.

Definition materializationIndex (raw : bytes) : result Z :=
  reject (New "materialization framing length is invalid") when ((len raw <? 36) || (35 * 2 ^ 10 <? len raw));
  Ok (be_val (take 4 (drop 32 raw))).

(** ** candidate.go *)

Definition withheld : error := New "source withheld the requested materialization index".

(** A bundle for an Epoch already known must carry the same bytes. *)
Definition reverify (known : candidateDecision) (bundle : sourceBundle) (changed : string) : result candidateDecision :=
  reject (New changed)
    when ((bundle.(bundle_epoch) !=? known.(cd_epochBytes)) || (bundle.(bundle_inputs) !=? known.(cd_inputs)));
  _ ← verifyDecisionMaterials known bundle.(bundle_materials);
  Ok known.

Definition verifySourceBundle (s : networkState) (clock : Z) (bundle : sourceBundle) (current : option state.Snapshot)
  (currentDecision : option candidateDecision) : result candidateDecision :=
  match bundle.(bundle_materials) with
  | [material] =>
      match materializationIndex material with
      | Err _ => Err withheld
      | Ok index =>
          reject withheld when (negb (index =? s.(ns_config).(MaterialIndex)));
          parsed ← parseEpoch bundle.(bundle_epoch);
          let now := if clock <? parsed.(validFrom) then parsed.(validFrom) else clock in
          let same (number' : Z) (digest' : array 32) := (parsed.(number) =? number') && (parsed.(digest) ==? digest') in
          if match current with Some c => same c.(state.Epoch) c.(state.Digest) | None => false end then
            match currentDecision with
            | None => Err (New "source changed bytes for the current Epoch")
            | Some known => reverify known bundle "source changed bytes for the current Epoch"
            end
          else
            match s.(ns_pendingDecision) with
            | Some known =>
                if same known.(cd_epoch).(number) known.(cd_epoch).(digest) then
                  reject (New "pending Epoch is not strictly current") when (negb (now <? known.(cd_epoch).(validUntil)));
                  reverify known bundle "source changed bytes for the pending Epoch"
                else verifyDecision (s.(ns_config) <| config_now := now |>) current bundle.(bundle_epoch) bundle.(bundle_inputs)
                       bundle.(bundle_materials) true
            | None => verifyDecision (s.(ns_config) <| config_now := now |>) current bundle.(bundle_epoch) bundle.(bundle_inputs)
                        bundle.(bundle_materials) true
            end
      end
  | _ => Err withheld
  end.

(** ** server.go, digest.go *)

Definition networkIdentityDigest (network : array 32) : array 32 := sha256 (str "ardents-h3-network-id-v1" ++ [x00] ++ network).

(** The answer of a node that serves its state. *)
Definition resolveDistributionRequest (s : networkState) (request : source.Message) : source.Message :=
  if request.(source.NetworkDigest) !=? networkIdentityDigest s.(ns_config).(config_networkID) then
    source.responded (str "bad-request") zero32 []
  else
    match s.(ns_closed), s.(ns_currentDecision) with
    | false, Some decision =>
        if (request.(source.Operation) ==? str "by-digest") && (request.(source.ObjectDigest) !=? decision.(cd_epoch).(digest)) then
          source.responded (str "not-found") zero32 []
        else
          match encodeSourceBundle decision request.(source.MaterialIndex) with
          | Err _ => source.responded (str "internal") zero32 []
          | Ok payload => source.responded (str "ok") decision.(cd_epoch).(digest) payload
          end
    | _, _ => source.responded (str "busy") zero32 []
    end.

(** ** refresh.go *)

(** [Plan.Fetch]: one exchange with the source of an index. *)
Definition fetcher : Type := Z -> source.Message -> source.Message * option error.

Definition sourceStatusError (code : gostring) : option error :=
  if code ==? str "not-found" then Some (New "source returned NOT_FOUND")
  else if code ==? str "busy" then Some (New "source returned BUSY")
  else if code ==? str "bad-request" then Some (New "source returned BAD_REQUEST")
  else if code ==? str "internal" then Some (New "source returned INTERNAL")
  else None.

Definition fetchSource (fetch : fetcher) (index : Z) (request : source.Message) : source.Message * option error :=
  match fetch index request with
  | (response, Some e) => (response, Some e)
  | (response, None) =>
      if response.(source.Status) !=? str "ok" then (response, sourceStatusError response.(source.Status)) else (response, None)
  end.

Definition validateByDigestResponse (requested returned : array 32) : option error :=
  if requested !=? returned then Some (New "BY_DIGEST source returned a different object") else None.

(** [classify] is the class that outcomes.go reads off an error's kind and text. *)
Section Fetch.
Context (classify : error -> Z).

Definition failedSourceResult (index outcomeIndex : Z) (observations : list Z) (e : error) : sourceResult :=
  MkSourceResult index outcomeIndex (Err e) (<[Z.to_nat outcomeIndex := classify e]> observations).

(** The checks on one response, whichever source it came from. *)
Definition verifyResponse (s : networkState) (clock : Z) (response : source.Message) (current : option state.Snapshot)
  (currentDecision : option candidateDecision) : result candidateDecision :=
  bundle ← decodeSourceBundle response.(source.Payload);
  decision ← verifySourceBundle s clock bundle current currentDecision;
  _ ← rejectDecisionSourceCollisions s decision;
  reject (New "source header digest disagrees with its authenticated Epoch")
    when (response.(source.ObjectDigest) !=? decision.(cd_epoch).(digest));
  Ok decision.

Definition verifiedResult (index outcomeIndex : Z) (observations : list Z) (r : result candidateDecision) : sourceResult :=
  match r with
  | Err e => failedSourceResult index outcomeIndex observations e
  | Ok decision => MkSourceResult index outcomeIndex (Ok decision) (<[Z.to_nat outcomeIndex := sourceOutcomeValid]> observations)
  end.

(** The errors of the two attempt calls become the result of the source. *)
Definition caught {A} (m : stateM A) : stateM (result A) := fun s disk =>
  let '(s, disk, r) := m s disk in (s, disk, Ok r).

Definition latestRequest (s : networkState) : source.Message :=
  source.requested (str "latest") (networkIdentityDigest s.(ns_config).(config_networkID)) zero32 s.(ns_config).(MaterialIndex).
Definition digestRequest (s : networkState) (object : array 32) : source.Message :=
  source.requested (str "by-digest") (networkIdentityDigest s.(ns_config).(config_networkID)) object s.(ns_config).(MaterialIndex).

Definition fetchAndVerify (fetch : fetcher) (clock : Z) (index : Z) (current : option state.Snapshot)
  (currentDecision : option candidateDecision) : stateM sourceResult :=
  s ← get;
  let verify response := verifyResponse s clock response current currentDecision in
  match fetchSource fetch index (latestRequest s) with
  | (response, None) => mret (verifiedResult index index none4 (verify response))
  | (response, Some e) =>
      if response.(source.ObjectDigest) ==? zero32 then mret (failedSourceResult index index none4 e)
      else
        let observations := <[Z.to_nat index := classify e]> none4 in
        let fallback := 1 - index in
        begun ← caught (beginDigestAttempt fallback response.(source.ObjectDigest));
        match begun with
        | Err e => mret (failedSourceResult index index observations e)
        | Ok _ =>
            let '(second, failure) := fetchSource fetch fallback (digestRequest s response.(source.ObjectDigest)) in
            ended ← caught (finishDigestAttempt fallback (match failure with None => true | Some _ => false end));
            match ended with
            | Err e => mret (failedSourceResult fallback (2 + fallback) observations e)
            | Ok _ =>
                match failure, validateByDigestResponse response.(source.ObjectDigest) second.(source.ObjectDigest) with
                | Some e, _ | None, Some e => mret (failedSourceResult fallback (2 + fallback) observations e)
                | None, None => mret (verifiedResult fallback (2 + fallback) observations (verify second))
                end
            end
        end
  end.

(** [Refresh] up to the release of the lock: the time of the wave, its order and
    its deadline. *)
Definition beginRefresh (clock : clockReading) (drawn : option (array 32)) (roles : result unit) : stateM (Z * (list Z * Z)) :=
  s ← get;
  _ ← guard (New "network state is closed") s.(ns_closed);
  _ ← guard (New "network state refresh is already active") s.(ns_refreshing);
  _ ← guard (New "finite source plan is not configured") (negb s.(ns_source).(Configured));
  _ ← guard (New "network state has a persistent source conflict") s.(ns_distribution).(conflicting);
  now ← lift (trustedNow clock s.(ns_distribution));
  _ ← guard (Wrap "%w: retry is in durable backoff" (New errRefreshUnavailable)) (unix now <? s.(ns_distribution).(nextAutomatic));
  _ ← lift (rejectSourceCollisions s);
  _ ← modify (fun s => s <| ns_refreshing := true |>);
  started ← caught (startSourceWave now drawn roles);
  match started with
  | Err e => _ ← modify (fun s => s <| ns_refreshing := false |>); lift (Err e)
  | Ok order => mret (now, order)
  end.

(** The attempts of a wave in their order: the results known at once, and the
    sources to ask. *)
Fixpoint launch (order : list Z) : stateM (list sourceResult * list Z) :=
  match order with
  | [] => mret ([], [])
  | index :: rest =>
      begun ← caught (beginLatestAttempt index);
      others ← launch rest;
      match begun with
      | Err e => mret (failedSourceResult index index none4 e :: others.1, others.2)
      | Ok (false, outcome) =>
          mret (MkSourceResult index 0 (Err (New "durable LATEST attempt was not repeated")) (<[Z.to_nat index := outcome]> none4)
                  :: others.1, others.2)
      | Ok (true, _) => mret (others.1, index :: others.2)
      end
  end.

Fixpoint fetchAll (fetch : fetcher) (clock : Z) (indices : list Z) (current : option state.Snapshot)
  (currentDecision : option candidateDecision) : stateM (list sourceResult) :=
  match indices with
  | [] => mret []
  | index :: rest =>
      r ← fetchAndVerify fetch clock index current currentDecision;
      others ← fetchAll fetch clock rest current currentDecision;
      mret (r :: others)
  end.

(** [Refresh] with its sources asked one after the other; [completed] is the
    reading of the clock at the end of the wave. *)
Definition Refresh (fetch : fetcher) (clock completed : clockReading) (fetched : Z) (drawn : option (array 32)) (roles rolesAfter : result unit)
  : stateM state.Snapshot :=
  s ← get;
  wave ← beginRefresh clock drawn roles;
  launched ← launch wave.2.1;
  results ← fetchAll fetch fetched launched.2 s.(ns_current) s.(ns_currentDecision);
  completeSourceWave wave.1 s.(ns_current) (launched.1 ++ results) completed rolesAfter.

End Fetch.

(** lifecycle.go: [Close] ends the calls and the store; the lease of the root is
    released. *)
Definition Close (s : networkState) : networkState :=
  s <| ns_closed := true |> <| ns_storage := s.(ns_storage) <| root_closed := true |> |>.

End State.

End running.
