(* ===== verification/NetStateCodec.v ===== *)
(** * The running Network State: its canonical encodings

    The durable distribution state is read back exactly as it was written, and
    nothing but the encoding of a well-formed state is accepted; a bundle that a
    source serves is read back as the Epoch, the inputs and the proof that the
    source holds. *)

From S2P Require Import Prelude Wire GoLib GoTime Merkle StateView NetEpoch NetState.

Import netstate running.

(** ** The distribution state *)

(** The fields at their width. *)
Record Ranged (d : distributionState) : Prop := {
  ra_sequence : in_u64 d.(sequence);
  ra_floor : in_u64 d.(epochFloor);
  ra_trusted : in_i64 d.(trustedTimeFloor);
  ra_failures : in_u64 d.(consecutiveFailures);
  ra_level : in_u8 d.(backoffLevel);
  ra_next : in_i64 d.(nextAutomatic);
  ra_history : len d.(history) < 256;
  ra_id : in_u64 d.(cycleID);
  ra_purpose : in_u8 d.(cyclePurpose);
  ra_started : in_i64 d.(cycleStarted);
  ra_deadline : in_i64 d.(cycleDeadline);
  ra_attempts : length d.(attempts) = 4%nat /\ Forall in_u8 d.(attempts);
  ra_outcomes : length d.(outcomes) = 4%nat /\ Forall in_u8 d.(outcomes);
  ra_requested : length d.(requestedDigests) = 2%nat;
  ra_epochs : length d.(observedEpochs) = 4%nat /\ Forall in_u64 d.(observedEpochs);
  ra_digests : length d.(observedDigests) = 4%nat;
  ra_pending : in_i64 d.(pendingValidFrom);
  ra_order : length d.(sourceOrder) = 2%nat /\ Forall in_u8 d.(sourceOrder)
}.

(** What the decoder demands beyond the widths. *)
Record Consistent (d : distributionState) : Prop := {
  co_level : d.(backoffLevel) <= 5;
  co_history : len d.(history) <= 2;
  co_purpose : d.(cyclePurpose) <= 1;
  co_active : d.(cycleActive) = true -> d.(cyclePurpose) = 1 /\ 0 < d.(cycleStarted) < d.(cycleDeadline);
  co_attempts : Forall (fun s => s <= 3) d.(attempts);
  co_outcomes : Forall (fun o => o <= 13) d.(outcomes);
  co_requested : Forall2 (fun s digest => digest = zero32 <-> s = 0) (drop 2 d.(attempts)) d.(requestedDigests);
  co_observed : Forall2 (fun n digest => n = 0 <-> digest = zero32) d.(observedEpochs) d.(observedDigests);
  co_pending : d.(pendingDigest) = zero32 <-> d.(pendingValidFrom) = 0;
  co_order : 0 < d.(cycleID) -> d.(sourceOrder) = [0; 1] \/ d.(sourceOrder) = [1; 0]
}.

Section Codec.

Lemma byte_be v : in_u8 v -> [byte_of v] = be_bytes 1 v.
Proof. done. Qed.

Lemma reads_take_byte v : in_u8 v -> Reads take_byte [byte_of v] v.
Proof. intros Hv. exact (reads_take_uint 1 truncated v Hv). Qed.

Lemma take_byte_ok raw v rest : take_byte raw = Ok (v, rest) -> raw = [byte_of v] ++ rest /\ in_u8 v.
Proof. intros Ht. by apply (take_uint_ok 1) in Ht. Qed.

Lemma reads_boundedByte maximum e v : in_u8 v -> v <= maximum -> Reads (boundedByte maximum e) [byte_of v] v.
Proof.
  intros Hv Hm. unfold boundedByte. rewrite <- (app_nil_r [byte_of v]).
  apply reads_bind with (v := v); [by apply reads_or_error, reads_take_byte|].
  rewrite (proj2 (Z.ltb_ge _ _)) by lia. apply reads_ret.
Qed.

Lemma boundedByte_ok maximum e raw v rest :
  boundedByte maximum e raw = Ok (v, rest) -> raw = [byte_of v] ++ rest /\ in_u8 v /\ v <= maximum.
Proof.
  unfold boundedByte. intros Hb. inv_decode. injection Hb as <- <-. apply take_byte_ok in Hd as [-> Hv]. split_and!; [done..|lia].
Qed.

Lemma reads_i64 e z : in_i64 z -> Reads (take_uint 8 e) (be_bytes 8 z) (u64 z) /\ i64 (u64 z) = z.
Proof. intros Hz. split; [apply reads_uint64_wrap|by apply i64_u64]. Qed.

Lemma take_u64_ok e raw v rest : take_uint 8 e raw = Ok (v, rest) -> raw = be_bytes 8 v ++ rest /\ in_u64 v.
Proof. intros Ht. by apply (take_uint_ok 8) in Ht. Qed.

(** A read [uint64] as the encoding of the [int64] with its bits. *)
Lemma be_bytes_i64 v : be_bytes 8 (i64 v) = be_bytes 8 v.
Proof.
  rewrite <- (be_bytes_mod 8 v), <- (be_bytes_mod 8 (i64 v)). f_equal. change (256 ^ Z.of_nat 8) with (2 ^ 64).
  unfold i64. rewrite Zminus_mod_idemp_l. by replace (v + 2 ^ 63 - 2 ^ 63) with v by lia.
Qed.

(** *** The header *)

Definition headerOf (d : distributionState) : header :=
  MkHeader d.(sequence) d.(epochFloor) d.(epochDigest) d.(trustedTimeFloor) d.(conflicting) d.(consecutiveFailures)
    d.(backoffLevel) d.(nextAutomatic) d.(history).

Definition encodeHeader (h : header) : bytes :=
  be_bytes 8 h.(h_sequence) ++ be_bytes 8 h.(h_epochFloor) ++ h.(h_epochDigest) ++ be_bytes 8 h.(h_trustedTimeFloor) ++
  [flag h.(h_conflicting)] ++ be_bytes 8 h.(h_consecutiveFailures) ++ [byte_of h.(h_backoffLevel)] ++
  be_bytes 8 h.(h_nextAutomatic) ++ [byte_of (len h.(h_history))] ++ concat (map array_bytes h.(h_history)).

Lemma flag_byte b : flag b = byte_of (if b then 1 else 0).
Proof. by destruct b. Qed.

Lemma reads_flag (e : error) b : Reads (boundedByte 1 e) [flag b] (if b then 1 else 0).
Proof. rewrite flag_byte. apply reads_boundedByte; destruct b; unfold in_u8; lia. Qed.

Lemma reads_identities (l : list (array 32)) :
  Reads (take_many (length l) (take_array 32 truncated)) (concat (map array_bytes l)) l.
Proof. rewrite <- (map_id l) at 3. apply reads_many. intros a _. apply reads_array. Qed.

Lemma reads_controlHeader d : Ranged d -> Consistent d -> Reads decodeDistributionHeader (encodeHeader (headerOf d)) (headerOf d).
Proof.
  intros [] []. unfold encodeHeader, headerOf, decodeDistributionHeader. cbn [h_sequence h_epochFloor h_epochDigest h_trustedTimeFloor h_conflicting h_consecutiveFailures h_backoffLevel h_nextAutomatic h_history].
  destruct (reads_i64 truncated _ ra_trusted0) as [R1 E1], (reads_i64 truncated _ ra_next0) as [R2 E2]. pose proof (len_nonneg (history d)).
  eapply reads_bind; [by apply reads_uint64|]. eapply reads_bind; [by apply reads_uint64|]. eapply reads_bind; [apply reads_array|].
  eapply reads_bind; [exact R1|]. eapply reads_bind; [apply reads_flag|]. eapply reads_bind; [by apply reads_uint64|].
  eapply reads_bind; [by apply reads_boundedByte|]. eapply reads_bind; [exact R2|].
  eapply reads_bind; [apply reads_boundedByte; [unfold in_u8; lia|done]|].
  rewrite <- (app_nil_r (concat _)). eapply reads_bind; [unfold len; rewrite Nat2Z.id; apply reads_identities|].
  rewrite E1, E2. destruct (conflicting d); apply reads_ret.
Qed.

Lemma take_identities n raw (l : list (array 32)) rest :
  take_many n (take_array 32 truncated) raw = Ok (l, rest) -> raw = concat (map array_bytes l) ++ rest /\ length l = n.
Proof.
  revert raw l rest. induction n as [|n IH]; intros raw l rest Ht; cbn [take_many] in Ht; [by injection Ht as <- <-|].
  destruct (take_array 32 truncated raw) as [[a raw']|] eqn:Ha; [|done]. apply take_array_ok in Ha as ->.
  destruct (take_many n _ raw') as [[l' rest']|] eqn:Hl; [|done]. injection Ht as <- <-. apply IH in Hl as [-> <-].
  cbn. by rewrite <- app_assoc.
Qed.

Record HeaderOk (h : header) : Prop := {
  ho_sequence : in_u64 h.(h_sequence);
  ho_floor : in_u64 h.(h_epochFloor);
  ho_trusted : in_i64 h.(h_trustedTimeFloor);
  ho_failures : in_u64 h.(h_consecutiveFailures);
  ho_level : in_u8 h.(h_backoffLevel) /\ h.(h_backoffLevel) <= 5;
  ho_next : in_i64 h.(h_nextAutomatic);
  ho_history : len h.(h_history) <= 2
}.

Lemma flag_of v : in_u8 v -> v <= 1 -> byte_of v = flag (v =? 1).
Proof. unfold in_u8. intros. assert (v = 0 \/ v = 1) as [-> | ->] by lia; done. Qed.

Lemma header_ok raw h rest :
  decodeDistributionHeader raw = Ok (h, rest) -> raw = encodeHeader h ++ rest /\ HeaderOk h.
Proof.
  unfold decodeDistributionHeader. intros Hh. inv_decode. injection Hh as <- <-.
  repeat match goal with
  | X : take_uint 8 _ _ = Ok _ |- _ => apply take_u64_ok in X as [-> ?]
  | X : boundedByte _ _ _ = Ok _ |- _ => apply boundedByte_ok in X as (-> & ? & ?)
  | X : take_array 32 _ _ = Ok _ |- _ => apply take_array_ok in X as ->
  | X : take_many _ _ _ = Ok _ |- _ => apply take_identities in X as [-> ?]
  end.
  assert (len v8 = v7) as Hl by (unfold len, in_u8 in *; lia).
  split; [|constructor; cbn; auto with go; rewrite Hl; done].
  unfold encodeHeader. cbn [h_sequence h_epochFloor h_epochDigest h_trustedTimeFloor h_conflicting h_consecutiveFailures h_backoffLevel h_nextAutomatic h_history].
  rewrite Hl, !be_bytes_i64, flag_of by done. by rewrite <- !app_assoc.
Qed.

(** *** The cycle *)

Definition cycleOf (d : distributionState) : cycle :=
  MkCycle d.(cycleID) d.(cycleActive) d.(cyclePurpose) d.(cycleStarted) d.(cycleDeadline) d.(attempts) d.(outcomes) d.(requestedDigests).

Definition encodeCycle (c : cycle) : bytes :=
  be_bytes 8 c.(c_ID) ++ [flag c.(c_Active)] ++ [byte_of c.(c_Purpose)] ++ be_bytes 8 c.(c_Started) ++ be_bytes 8 c.(c_Deadline) ++
  map byte_of c.(c_attempts) ++ map byte_of c.(c_outcomes) ++ concat (map array_bytes c.(c_requested)).

Lemma byte_vals l : Forall in_u8 l -> map byte_val (map byte_of l) = l.
Proof.
  induction 1 as [|v l Hv Hl IH]; [done|]. cbn. rewrite byte_val_of, IH. f_equal. by apply Z.mod_small.
Qed.

Lemma byte_ofs l : map byte_of (map byte_val l) = l.
Proof. induction l as [|b l IH]; [done|]. cbn. by rewrite byte_of_val, IH. Qed.

Lemma vals_range l : Forall in_u8 (map byte_val l).
Proof. apply Forall_map, Forall_true. intros b. apply byte_val_range. Qed.

Lemma forallb_vals m l : forallb (fun b => byte_val b <=? m) l = true <-> Forall (fun v => v <= m) (map byte_val l).
Proof. rewrite forallb_true, Forall_map. apply Forall_proper; [|done]. intros b. cbn. by rewrite Z.leb_le. Qed.

Lemma eqb_decide {A} `{EqDecision A} (n : Z) (a b : A) : (n = 0 <-> a = b) -> (n =? 0) = bool_decide (a = b).
Proof. intros Hn. destruct (Z.eqb_spec n 0), (bool_decide_reflect (a = b)); naive_solver. Qed.

Lemma reads_requested status digests :
  Forall2 (fun s digest => digest = zero32 <-> s = 0) status digests ->
  Reads (decodeRequested status) (concat (map array_bytes digests)) digests.
Proof.
  induction 1 as [|s digest status digests Hs Hf IH]; cbn [decodeRequested map concat]; [apply reads_ret|].
  eapply reads_bind; [apply reads_array|]. cbv beta.
  assert (bool_decide (digest = zero32) = (s =? 0)) as ->.
  { symmetry. apply eqb_decide. naive_solver. }
  rewrite bool_decide_eq_true_2 by done. cbn [negb]. rewrite <- (app_nil_r (concat _)).
  eapply reads_bind; [exact IH|]. apply reads_ret.
Qed.

Lemma requested_ok status raw digests rest :
  decodeRequested status raw = Ok (digests, rest) ->
  raw = concat (map array_bytes digests) ++ rest /\ Forall2 (fun s digest => digest = zero32 <-> s = 0) status digests.
Proof.
  revert raw digests rest. induction status as [|s status IH]; intros raw digests rest Hr; cbn [decodeRequested] in Hr.
  { injection Hr as <- <-. split; [done|constructor]. }
  inv_decode. apply take_array_ok in Hd as ->. injection Hr as <- <-. apply IH in Hd0 as [-> Hf].
  split; [cbn; by rewrite <- app_assoc|]. constructor; [|done]. apply negb_false_iff, bool_decide_eq_true in Heqb.
  destruct (Z.eqb_spec s 0), (bool_decide_reflect (v = zero32)); naive_solver.
Qed.

Record CycleOk (c : cycle) : Prop := {
  cy_id : in_u64 c.(c_ID);
  cy_purpose : in_u8 c.(c_Purpose) /\ c.(c_Purpose) <= 1;
  cy_started : in_i64 c.(c_Started);
  cy_deadline : in_i64 c.(c_Deadline);
  cy_active : c.(c_Active) = true -> c.(c_Purpose) = 1 /\ 0 < c.(c_Started) < c.(c_Deadline);
  cy_attempts : length c.(c_attempts) = 4%nat /\ Forall in_u8 c.(c_attempts) /\ Forall (fun s => s <= 3) c.(c_attempts);
  cy_outcomes : length c.(c_outcomes) = 4%nat /\ Forall in_u8 c.(c_outcomes) /\ Forall (fun o => o <= 13) c.(c_outcomes);
  cy_requested : Forall2 (fun s digest => digest = zero32 <-> s = 0) (drop 2 c.(c_attempts)) c.(c_requested)
}.

Lemma reads_cycle c : CycleOk c -> Reads decodeDistributionCycle (encodeCycle c) c.
Proof.
  intros [Hid [Hp Hp1] Hs Hd Ha (La & Ra & Ba) (Lo & Ro & Bo) Hreq]. unfold encodeCycle, decodeDistributionCycle.
  destruct (reads_i64 truncated _ Hs) as [R1 E1], (reads_i64 truncated _ Hd) as [R2 E2].
  eapply reads_bind; [by apply reads_uint64|]. eapply reads_bind; [apply reads_flag|].
  eapply reads_bind; [by apply reads_boundedByte|]. eapply reads_bind; [exact R1|]. eapply reads_bind; [exact R2|]. cbv beta.
  rewrite E1, E2.
  assert (((if c_Active c then 1 else 0) =? 1) && (negb (c_Purpose c =? 1) || (c_Started c <=? 0) || (c_Deadline c <=? c_Started c)) = false) as ->.
  { destruct (c_Active c); [|done]. destruct (Ha eq_refl) as (-> & ? & ?). cbn. apply orb_false_iff. split; apply Z.leb_gt; lia. }
  eapply reads_bind; [apply reads_take_bytes; unfold len; rewrite length_map, La; done|]. cbv beta.
  rewrite (proj2 (forallb_vals 3 _)) by (by rewrite byte_vals). cbn [negb].
  eapply reads_bind; [apply reads_take_bytes; unfold len; rewrite length_map, Lo; done|]. cbv beta.
  rewrite (proj2 (forallb_vals 13 _)) by (by rewrite byte_vals). cbn [negb]. rewrite !byte_vals by done.
  rewrite <- (app_nil_r (concat _)). eapply reads_bind; [by apply reads_requested|]. destruct c as [? []]; apply reads_ret.
Qed.

Lemma cycle_ok raw c rest : decodeDistributionCycle raw = Ok (c, rest) -> raw = encodeCycle c ++ rest /\ CycleOk c.
Proof.
  unfold decodeDistributionCycle. intros Hc. inv_decode. injection Hc as <- <-.
  repeat match goal with
  | X : take_uint 8 _ _ = Ok _ |- _ => apply take_u64_ok in X as [-> ?]
  | X : boundedByte _ _ _ = Ok _ |- _ => apply boundedByte_ok in X as (-> & ? & ?)
  | X : take_bytes 4 _ _ = Ok _ |- _ => apply take_bytes_ok in X as [-> ?]; [|lia]
  | X : decodeRequested _ _ = Ok _ |- _ => apply requested_ok in X as [-> ?]
  | X : negb (forallb _ _) = false |- _ => apply negb_false_iff, forallb_vals in X
  end.
  split.
  - unfold encodeCycle. cbn [c_ID c_Active c_Purpose c_Started c_Deadline c_attempts c_outcomes c_requested].
    rewrite !be_bytes_i64, !byte_ofs, flag_of by done. by rewrite <- !app_assoc.
  - constructor; cbn; auto with go; rewrite ?length_map.
    + intros Hv. rewrite Hv in Heqb. cbn in Heqb. rewrite !orb_false_iff in Heqb. destruct Heqb as [[? ?] ?]. lia.
    + split_and!; [unfold len in *; lia|apply vals_range|done].
    + split_and!; [unfold len in *; lia|apply vals_range|done].
Qed.

(** *** The evidence *)

Definition evidenceOf (d : distributionState) : evidence :=
  MkEvidence (zip d.(observedEpochs) d.(observedDigests)) d.(pendingDigest) d.(pendingValidFrom) d.(cycleSeed) d.(sourceOrder).

Definition encodeEvidence (e : evidence) : bytes :=
  concat (map encodeObserved e.(e_observed)) ++ e.(e_pendingDigest) ++ be_bytes 8 e.(e_pendingValidFrom) ++ e.(e_seed) ++
  map byte_of e.(e_order).

Record EvidenceOk (cycle : Z) (e : evidence) : Prop := {
  eo_length : length e.(e_observed) = 4%nat;
  eo_observed : Forall (fun o => in_u64 o.1 /\ (o.1 = 0 <-> o.2 = zero32)) e.(e_observed);
  eo_pending : in_i64 e.(e_pendingValidFrom) /\ (e.(e_pendingDigest) = zero32 <-> e.(e_pendingValidFrom) = 0);
  eo_order : length e.(e_order) = 2%nat /\ Forall in_u8 e.(e_order);
  eo_cycle : 0 < cycle -> e.(e_order) = [0; 1] \/ e.(e_order) = [1; 0]
}.

Lemma reads_observed o : in_u64 o.1 -> (o.1 = 0 <-> o.2 = zero32) -> Reads decodeObserved (encodeObserved o) o.
Proof.
  intros Hu Hz. unfold decodeObserved, encodeObserved. eapply reads_bind; [by apply reads_uint64|].
  rewrite <- (app_nil_r (array_bytes o.2)). eapply reads_bind; [apply reads_array|]. cbv beta.
  rewrite (eqb_decide _ _ _ Hz), bool_decide_eq_true_2 by done. destruct o. apply reads_ret.
Qed.

Lemma reads_all_observed n l :
  length l = n -> Forall (fun o => in_u64 o.1 /\ (o.1 = 0 <-> o.2 = zero32)) l ->
  Reads (take_many n decodeObserved) (concat (map encodeObserved l)) l.
Proof.
  intros <- Hl. rewrite <- (map_id l) at 3. apply reads_many. intros o Hin. rewrite Forall_forall in Hl.
  destruct (Hl o Hin). by apply reads_observed.
Qed.

Lemma observed_ok n raw l rest :
  take_many n decodeObserved raw = Ok (l, rest) ->
  raw = concat (map encodeObserved l) ++ rest /\ Forall (fun o => in_u64 o.1 /\ (o.1 = 0 <-> o.2 = zero32)) l /\ length l = n.
Proof.
  revert raw l rest. induction n as [|n IH]; intros raw l rest Ht; cbn [take_many] in Ht; [by injection Ht as <- <-|].
  destruct (decodeObserved raw) as [[o raw']|] eqn:Ho; [|done].
  destruct (take_many n _ raw') as [[l' rest']|] eqn:Hl; [|done]. injection Ht as <- <-.
  unfold decodeObserved in Ho. inv_decode. injection Ho as <- <-. apply take_u64_ok in Hd as [-> Hu]. apply take_array_ok in Hd0 as ->.
  apply IH in Hl as (-> & Hf & <-).
  split_and!; [by cbn; unfold encodeObserved; rewrite <- !app_assoc|constructor; [|done]|done].
  split; [done|]. cbn. apply negb_false_iff, bool_decide_eq_true in Heqb.
  destruct (Z.eqb_spec v 0), (bool_decide_reflect (v0 = zero32)); naive_solver.
Qed.

Lemma order_checks order :
  length order = 2%nat -> Forall in_u8 order ->
  negb (forallb (fun o => o <=? 1) order) || (default 0 (order !! 0%nat) =? default 0 (order !! 1%nat)) = false <->
  order = [0; 1] \/ order = [1; 0].
Proof.
  intros Hl Hr. destruct order as [|a [|b []]]; try done. inversion Hr as [|? ? Ha Hr']; inversion Hr' as [|? ? Hb]; subst.
  unfold in_u8 in *. cbn. rewrite orb_false_iff, negb_false_iff, !andb_true_iff, !Z.leb_le, Z.eqb_neq. split.
  - intros. assert (a = 0 /\ b = 1 \/ a = 1 /\ b = 0) as [[-> ->]|[-> ->]] by lia; [by left|by right].
  - intros [[= -> ->]|[= -> ->]]; lia.
Qed.

Lemma reads_evidence cycle e : EvidenceOk cycle e -> Reads (decodeDistributionEvidence cycle) (encodeEvidence e) e.
Proof.
  intros [Hl Ho [Hp Hz] [Lo Ro] Hc]. unfold encodeEvidence, decodeDistributionEvidence.
  destruct (reads_i64 truncated _ Hp) as [R1 E1].
  eapply reads_bind; [by apply reads_all_observed|].
  eapply reads_bind; [apply reads_array|]. eapply reads_bind; [exact R1|]. cbv beta. rewrite E1.
  assert (bool_decide (e_pendingDigest e = zero32) = (e_pendingValidFrom e =? 0)) as -> by (symmetry; apply eqb_decide; naive_solver).
  rewrite bool_decide_eq_true_2 by done. cbn [negb]. eapply reads_bind; [apply reads_array|].
  rewrite <- (app_nil_r (map byte_of _)). eapply reads_bind; [apply reads_take_bytes; unfold len; rewrite length_map, Lo; done|].
  cbv zeta beta. rewrite byte_vals by done.
  assert ((0 <? cycle) && (negb (forallb (fun o => o <=? 1) (e_order e)) || (default 0 (e_order e !! 0%nat) =? default 0 (e_order e !! 1%nat))) = false) as ->.
  { destruct (Z.ltb_spec 0 cycle); [|done]. apply order_checks; [done..|by apply Hc]. }
  destruct e. apply reads_ret.
Qed.

Lemma evidence_ok cycle raw e rest :
  decodeDistributionEvidence cycle raw = Ok (e, rest) -> raw = encodeEvidence e ++ rest /\ EvidenceOk cycle e.
Proof.
  unfold decodeDistributionEvidence. intros He. inv_decode. cbv zeta in He. inv_decode. injection He as <- <-.
  apply observed_ok in Hd as (-> & Hf & Hl). apply take_array_ok in Hd0 as ->. apply take_u64_ok in Hd1 as [-> Hu].
  apply take_array_ok in Hd2 as ->. apply take_bytes_ok in Hd3 as [-> H2]; [|lia].
  split.
  - unfold encodeEvidence. cbn [e_observed e_pendingDigest e_pendingValidFrom e_seed e_order].
    rewrite be_bytes_i64, byte_ofs. by rewrite <- !app_assoc.
  - assert (length (map byte_val v3) = 2%nat) as L2 by (rewrite length_map; unfold len in H2; lia).
    constructor; cbn; try done.
    + split; [auto with go|]. apply negb_false_iff, bool_decide_eq_true in Heqb.
      destruct (Z.eqb_spec (i64 v1) 0), (bool_decide_reflect (v0 = zero32)); naive_solver.
    + split; [done|apply vals_range].
    + intros Hc. rewrite (proj2 (Z.ltb_lt _ _) Hc) in Heqb0. by apply order_checks in Heqb0; [|done|apply vals_range].
Qed.

(** *** The whole state *)

Lemma encode_split d :
  encodeDistributionState d = distributionMagic ++ encodeHeader (headerOf d) ++ encodeCycle (cycleOf d) ++ encodeEvidence (evidenceOf d).
Proof. unfold encodeDistributionState, encodeHeader, encodeCycle, encodeEvidence. by rewrite <- !app_assoc. Qed.

Lemma parts_ok d :
  Ranged d /\ Consistent d <->
  HeaderOk (headerOf d) /\ CycleOk (cycleOf d) /\ EvidenceOk d.(cycleID) (evidenceOf d) /\
  length d.(observedEpochs) = 4%nat /\ length d.(observedDigests) = 4%nat.
Proof.
  split.
  - intros [[] []]. destruct ra_attempts0, ra_outcomes0, ra_epochs0, ra_order0. split_and!; [constructor; cbn; auto..| |done|done].
    constructor; cbn; auto; [rewrite length_zip; lia|]. apply Forall_forall. intros [n dg] Hin.
    apply elem_of_zip_l in Hin as Hl. rewrite Forall_forall in H4. split; [by apply H4|]. apply list_elem_of_lookup in Hin as [i Hi].
    apply lookup_zip_with_Some in Hi as (? & ? & [= <- <-] & H1' & H2'). exact (Forall2_lookup_lr _ _ _ _ _ _ co_observed0 H1' H2').
  - intros ([] & [] & [] & L1 & L2). destruct ho_level0, cy_purpose0, cy_attempts0 as (? & ? & ?), cy_outcomes0 as (? & ? & ?), eo_pending0, eo_order0.
    cbn in *. split; constructor; auto; try lia.
    + by apply Forall2_length in cy_requested0 as <-; rewrite length_drop; lia.
    + split; [done|]. rewrite Forall_forall in eo_observed0. apply Forall_forall. intros n [i Hi]%list_elem_of_lookup.
      destruct (lookup_lt_is_Some_2 (observedDigests d) i) as [dg Hdg]; [apply lookup_lt_Some in Hi; lia|].
      apply (eo_observed0 (n, dg)), (list_elem_of_lookup_2 _ i), lookup_zip_with_Some. eauto.
    + apply Forall2_same_length_lookup_2; [lia|]. intros i n dg Hn Hdg. rewrite Forall_forall in eo_observed0.
      apply (eo_observed0 (n, dg)), (list_elem_of_lookup_2 _ i), lookup_zip_with_Some. eauto.
Qed.

Lemma decode_ok raw d :
  decodeDistributionState raw = Ok d -> Ranged d /\ Consistent d /\ raw = encodeDistributionState d.
Proof.
  unfold decodeDistributionState. destruct (distributionFields raw) as [[d' rest]|] eqn:Hf; [|done]. intros Hd. inv_ok. subst d'.
  apply negb_false_iff, bool_decide_eq_true in Heqb as ->. unfold distributionFields in Hf. inv_decode. injection Hf as <-.
  apply take_bytes_ok in Hd as [-> _]; [|lia]. apply negb_false_iff, bool_decide_eq_true in Heqb as ->. subst rest2.
  apply header_ok in Hd0 as [-> Hh]. apply cycle_ok in Hd1 as [-> Hc]. apply evidence_ok in Hd2 as [-> He].
  match goal with |- Ranged ?x /\ _ => set (d := x) end.
  assert (headerOf d = v0 /\ cycleOf d = v1 /\ evidenceOf d = v2) as (E1 & E2 & E3).
  { split_and!; [by destruct v0|by destruct v1|]. destruct v2 as [o ? ? ? ?]. unfold evidenceOf. cbn. f_equal.
    clear. induction o as [|[] o IH]; cbn; congruence. }
  assert (length v2.(e_observed) = 4%nat) as Hl by apply He.
  assert (Ranged d /\ Consistent d) as [Hr Hcons].
  { apply parts_ok. rewrite E1, E2, E3. split_and!; [done..|by cbn; rewrite length_map|by cbn; rewrite length_map]. }
  split_and!; [done..|]. rewrite encode_split, E1, E2, E3, app_nil_r. done.
Qed.

Lemma decode_reads d : Ranged d -> Consistent d -> decodeDistributionState (encodeDistributionState d) = Ok d.
Proof.
  intros Hr Hc. destruct (proj1 (parts_ok d) (conj Hr Hc)) as (Hh & Hcy & He & L1 & L2).
  assert (Reads distributionFields (encodeDistributionState d) d) as Hd.
  { rewrite encode_split. unfold distributionFields. eapply reads_bind; [by apply reads_or_error, reads_take_bytes|]. cbv beta.
    rewrite bool_decide_eq_true_2 by done. cbn [negb]. eapply reads_bind; [by apply reads_controlHeader|].
    eapply reads_bind; [by apply reads_cycle|]. rewrite <- (app_nil_r (encodeEvidence _)). eapply reads_bind; [by apply reads_evidence|].
    cbn. rewrite fst_zip, snd_zip by lia. destruct d. apply reads_ret. }
  unfold decodeDistributionState. by rewrite (reads_all _ _ _ Hd).
Qed.

(** C29: The durable distribution state is canonical: the decoder accepts exactly
    the encodings of the states whose fields fit their widths and agree with one
    another, and returns the state that was encoded. *)
Theorem decodeDistributionState_exact raw d :
  decodeDistributionState raw = Ok d <-> Ranged d /\ Consistent d /\ raw = encodeDistributionState d.
Proof. split; [apply decode_ok|]. intros (Hr & Hc & ->). by apply decode_reads. Qed.

Lemma map_byte_of_inj l k : Forall in_u8 l -> Forall in_u8 k -> map byte_of l = map byte_of k -> l = k.
Proof. intros Hl Hk E%(f_equal (map byte_val)). by rewrite !byte_vals in E. Qed.

Lemma identities_inj (l k : list (array 32)) rest rest' :
  length l = length k -> concat (map array_bytes l) ++ rest = concat (map array_bytes k) ++ rest' -> l = k /\ rest = rest'.
Proof.
  revert k. induction l as [|a l IH]; intros [|b k] Hlen E; try done. injection Hlen as Hlen. cbn in E. rewrite <- !app_assoc in E.
  peel E. apply array_eq in Hw as ->. by destruct (IH _ Hlen E) as [-> ->].
Qed.

Lemma flag_inj a b : flag a = flag b -> a = b.
Proof. by destruct a, b. Qed.

Lemma observed_inj l k (m n : list (array 32)) rest rest' :
  length l = length k -> length m = length n -> length l = length m -> Forall in_u64 l -> Forall in_u64 k ->
  concat (map encodeObserved (zip l m)) ++ rest = concat (map encodeObserved (zip k n)) ++ rest' -> l = k /\ m = n /\ rest = rest'.
Proof.
  revert k m n. induction l as [|a l IH]; intros [|b k] [|c m] [|e n] L1 L2 L3 Hl Hk E; try done.
  inversion Hl; inversion Hk; subst. injection L1 as L1. injection L2 as L2. injection L3 as L3. cbn in E. unfold encodeObserved in E at 1 3. cbn in E.
  rewrite <- !app_assoc in E. do 2 peel E. unwire. subst. by destruct (IH _ _ _ L1 L2 L3 ltac:(done) ltac:(done) E) as (-> & -> & ->).
Qed.

Lemma encode_inj d d' : Ranged d -> Ranged d' -> encodeDistributionState d = encodeDistributionState d' -> d = d'.
Proof.
  intros [] [] E. unfold encodeDistributionState in E.
  do 9 peel E. apply app_peel in E as [Hcount E]; [|done]. injection Hcount as Hcount.
  apply byte_of_inj in Hcount; [|pose proof (len_nonneg (history d)); pose proof (len_nonneg (history d')); unfold in_u8; lia..].
  apply identities_inj in E as [Hh E]; [|unfold len in Hcount; lia]. do 5 peel E.
  apply app_peel in E as [Ha E]; [|rewrite !length_map; lia]. apply app_peel in E as [Ho E]; [|rewrite !length_map; lia].
  apply identities_inj in E as [Hr E]; [|lia].
  apply observed_inj in E as (He & Hd & E); [|lia|lia|lia|by apply ra_epochs0|by apply ra_epochs1]. do 3 peel E.
  apply map_byte_of_inj in Ha; [|by apply ra_attempts0|by apply ra_attempts1].
  apply map_byte_of_inj in Ho; [|by apply ra_outcomes0|by apply ra_outcomes1].
  apply map_byte_of_inj in E; [|by apply ra_order0|by apply ra_order1].
  repeat match goal with X : [flag _] = [flag _] |- _ => injection X as X; apply flag_inj in X
                    | X : [byte_of _] = [byte_of _] |- _ => injection X as X end.
  unwire. destruct d, d'. cbn in *. f_equal; assumption.
Qed.

(** Whatever else it checks, the decoder never reads a different state. *)
Lemma decode_encode d d' : Ranged d -> decodeDistributionState (encodeDistributionState d) = Ok d' -> d' = d.
Proof. intros Hd (Hr & _ & E)%decode_ok. by apply encode_inj. Qed.

End Codec.
