(* ===== verification/NetStateProof.v ===== *)
(** * The running Network State: storage and recovery

    What a commit can leave on disk, wherever the disk fails; what opening a root
    accepts; and the facts about a node that every call keeps. *)

From S2P Require Import Prelude Wire GoLib GoTime Merkle StateView NetEpoch NetEpochProof NetEpochDecision NetEpochChain.
From S2P Require Import NetState NetStateCodec.

Import netstate running.

(** ** Commits on a disk that can fail *)

Section Disk.
Context `{GoLib}.

Definition execs (steps : list durableStep) (root : durableRoot) : durableRoot := foldl (fun r s => exec s r) root steps.

Lemma execs_app l k root : execs (l ++ k) root = execs k (execs l root).
Proof. apply foldl_app. Qed.

Lemma runSteps_prefix steps root disk root' disk' io :
  runSteps steps root disk = (root', disk', io) ->
  exists k, root' = execs (take k steps) root /\ (io = Ok tt -> (length steps <= k)%nat).
Proof.
  revert root disk. induction steps as [|step steps IH]; intros root disk Hr; cbn [runSteps] in Hr.
  { injection Hr as <- <- <-. exists 0%nat. split; [done|]. cbn. lia. }
  destruct disk as [[[|k] effect]|].
  - injection Hr as <- <- <-. exists (if effect then 1%nat else 0%nat). by destruct effect.
  - apply IH in Hr as (j & -> & Hj). exists (S j). split; [done|]. cbn. intros Ho. specialize (Hj Ho). lia.
  - apply IH in Hr as (j & -> & Hj). exists (S j). split; [done|]. cbn. intros Ho. specialize (Hj Ho). lia.
Qed.

(** The control state that a root points to. *)
Definition pointed (root : durableRoot) : option (gostring * bytes) :=
  name ← root.(controlPointer);
  raw ← root.(controls) !! name;
  Some (name, raw).

(** Everything but the control journal. *)
Definition outside (root : durableRoot) : gmap gostring durableGeneration * option gostring * bool :=
  (root.(generations), root.(currentPointer), root.(root_closed)).

Lemma prune_steps current names steps r :
  prune current names = (steps, r) -> Forall (fun s => exists name, s = RemoveControl name /\ name <> current) steps.
Proof.
  revert steps. induction names as [|name names IH]; intros steps Hp; cbn [prune] in Hp; [injection Hp as <- <-; constructor|].
  destruct (negb (generationName name)); [injection Hp as <- <-; constructor|]. destruct (prune current names) as [steps' r'].
  injection Hp as <- <-. specialize (IH _ eq_refl). case_bool_decide; [done|]. constructor; [by exists name|done].
Qed.

Lemma removals_keep steps root current :
  root.(controlPointer) = Some current ->
  Forall (fun s => exists name, s = RemoveControl name /\ name <> current) steps ->
  let root' := execs steps root in
  outside root' = outside root /\ root'.(controlPointer) = Some current /\ root'.(controls) !! current = root.(controls) !! current.
Proof.
  intros Hc Hs. cbv zeta. revert root Hc. induction Hs as [|s steps (name & -> & Hne) Hs IH]; intros root Hc; [done|].
  change (execs (RemoveControl name :: steps) root) with (execs steps (exec (RemoveControl name) root)).
  destruct (IH (exec (RemoveControl name) root) Hc) as (E1 & E2 & E3).
  split_and!; [rewrite E1; reflexivity|exact E2|]. etransitivity; [exact E3|]. by apply lookup_delete_ne.
Qed.

(** The steps of a control commit: removals of superseded generations, then the
    publication, then the pointer. *)
Lemma commitControl_shape root name raw steps r :
  commitControl root name raw = (steps, r) ->
  exists removals rest, steps = removals ++ rest /\
    (rest = [] /\ is_err r \/
     rest = [PointControl name] /\ r = Ok tt /\ root.(controlPointer) = Some name /\ root.(controls) !! name = Some raw \/
     rest = [PublishControl name raw; PointControl name] /\ r = Ok tt /\ root.(controlPointer) <> Some name) /\
    (root.(controlPointer) = None /\ removals = [] \/
     exists current, root.(controlPointer) = Some current /\
       Forall (fun s => exists n, s = RemoveControl n /\ n <> current) removals).
Proof.
  unfold commitControl. intros Hc. destruct (available root) as [u|e].
  2:{ injection Hc as <- <-. exists [], []. split_and!; [done|by left|]. destruct (controlPointer root); eauto. }
  destruct (_ || _) in Hc.
  { injection Hc as <- <-. exists [], []. split_and!; [done|by left|]. destruct (controlPointer root); eauto. }
  destruct (pruneSupersededControl root) as [removals r'] eqn:Hp.
  assert (root.(controlPointer) = None /\ removals = [] \/
     exists current, root.(controlPointer) = Some current /\
       Forall (fun s => exists n, s = RemoveControl n /\ n <> current) removals /\ (is_ok r' -> is_Some (root.(controls) !! current))) as Hrem.
  { unfold pruneSupersededControl in Hp. destruct (controlPointer root) as [current|]; [|by injection Hp as <- <-; left].
    right. exists current. split; [done|]. destruct (negb _); [by injection Hp as <- <-|]. destruct (_ <? _); [by injection Hp as <- <-|].
    destruct (prune _ _) as [steps' r''] eqn:Hpr. injection Hp as <- <-. split; [by eapply prune_steps|].
    destruct r''; [|done]. cbn. case_bool_decide; [done|done]. }
  assert (root.(controlPointer) = None /\ removals = [] \/
     exists current, root.(controlPointer) = Some current /\
       Forall (fun s => exists n, s = RemoveControl n /\ n <> current) removals) as Hrem' by naive_solver.
  destruct r' as [u'|e]; [|by injection Hc as <- <-; exists removals, []; rewrite app_nil_r; split_and!; [|left|]].
  destruct (_ <=? _) in Hc; [by injection Hc as <- <-; exists removals, []; rewrite app_nil_r; split_and!; [|left|]|].
  unfold kept in Hc. destruct (bool_decide_reflect (controlPointer root = Some name)) as [Hcp|Hcp].
  - destruct (controls root !! name) as [existing|] eqn:He.
    + case_bool_decide; injection Hc as <- <-; [|by exists removals, []; rewrite app_nil_r; split_and!; [|left|]].
      subst existing. exists removals, [PointControl name]. split_and!; [done| |done]. right; left. done.
    + destruct Hrem as [[E _]|(current & E & _ & Hs)]; [congruence|]. rewrite Hcp in E. injection E as <-.
      destruct (Hs I). congruence.
  - injection Hc as <- <-. exists removals, [PublishControl name raw; PointControl name]. split_and!; [done| |done]. right; right. done.
Qed.

(** Whatever happens, a control commit leaves the old control state or the new
    one, and the new one when it succeeds; it touches nothing else. *)
Lemma commitControl_effect root name raw steps r disk root' disk' io :
  commitControl root name raw = (steps, r) -> runSteps steps root disk = (root', disk', io) ->
  outside root' = outside root /\ (pointed root' = pointed root \/ pointed root' = Some (name, raw)) /\
  (io = Ok tt -> r = Ok tt -> pointed root' = Some (name, raw)).
Proof.
  intros Hc Hr. apply runSteps_prefix in Hr as (k & -> & Hk). apply commitControl_shape in Hc as (removals & rest & -> & Hrest & Hrem).
  rewrite length_app in Hk.
  assert (forall j, let root1 := execs (take j removals) root in outside root1 = outside root /\ root1.(controlPointer) = root.(controlPointer) /\
    (forall n, root.(controlPointer) = Some n -> root1.(controls) !! n = root.(controls) !! n)) as Hpre.
  { intros j. cbv zeta. destruct Hrem as [[_ ->]|(current & Hcur & Hf)]; [by rewrite take_nil|]. rewrite Hcur.
    destruct (removals_keep (take j removals) root current) as (E1 & E2 & E3); [done|by apply Forall_take|].
    split_and!; [done..|]. by intros ? [= <-]. }
  rewrite take_app, execs_app. destruct (Hpre k) as (E1 & E2 & E3).
  set (root1 := execs (take k removals) root) in *.
  assert (pointed root1 = pointed root) as Ep.
  { unfold pointed. rewrite E2. destruct (controlPointer root); [|done]. cbn. by rewrite E3. }
  assert (forall tail, tail = [] -> outside (execs tail root1) = outside root /\
    (pointed (execs tail root1) = pointed root \/ pointed (execs tail root1) = Some (name, raw))) as Hnil.
  { intros ? ->. split; [done|]. by left. }
  destruct Hrest as [[-> Herr]|[(-> & -> & Hcp & Hn)|(-> & -> & Hcp)]].
  - rewrite take_nil. destruct (Hnil []) as [A B]; [done|]. split_and!; [done..|]. by intros _ ->.
  - destruct (k - length removals)%nat as [|j] eqn:Hj.
    { destruct (Hnil (take 0 [PointControl name])) as [A B]; [done|]. split_and!; [done..|]. intros Ho. specialize (Hk Ho). cbn in Hk. lia. }
    cbn [take execs foldl exec]. rewrite take_nil. cbn [foldl].
    assert (pointed (root1 <| controlPointer := Some name |>) = Some (name, raw)) as E.
    { unfold pointed. cbn. by rewrite E3, Hn. }
    split_and!; [exact E1|by right|done].
  - destruct (k - length removals)%nat as [|[|j]] eqn:Hj.
    { destruct (Hnil (take 0 [PublishControl name raw; PointControl name])) as [A B]; [done|]. split_and!; [done..|].
      intros Ho. specialize (Hk Ho). cbn in Hk. lia. }
    { cbn [take execs foldl exec]. split_and!; [exact E1| |intros Ho; specialize (Hk Ho); cbn in Hk; lia]. left. rewrite <- Ep.
      unfold pointed. cbn. destruct (controlPointer root1) as [n|] eqn:En; [|done]. cbn. rewrite lookup_insert_ne; [done|]. congruence. }
    cbn [take execs foldl exec]. rewrite take_nil. cbn [foldl].
    match goal with |- outside ?x = _ /\ _ => assert (pointed x = Some (name, raw)) as E end.
    { unfold pointed. cbn. by rewrite lookup_insert_eq. }
    split_and!; [exact E1|by right|done].
Qed.

(** A commit of a generation: it only adds its generation, and points to it last. *)
Lemma commitState_effect root name value activate steps r disk root' disk' io :
  commitState root name value activate = (steps, r) -> runSteps steps root disk = (root', disk', io) ->
  (root'.(controls), root'.(controlPointer), root'.(root_closed)) = (root.(controls), root.(controlPointer), root.(root_closed)) /\
  root.(generations) ⊆ root'.(generations) /\
  (root'.(currentPointer) = root.(currentPointer) \/
   activate = true /\ root'.(currentPointer) = Some name /\ root'.(generations) !! name = Some value) /\
  (io = Ok tt -> r = Ok tt -> root'.(generations) !! name = Some value).
Proof.
  intros Hc Hr. apply runSteps_prefix in Hr as (k & -> & Hk). unfold commitState in Hc.
  assert (forall e, steps = [] -> r = Err e ->
    (controls (execs (take k steps) root), controlPointer (execs (take k steps) root), root_closed (execs (take k steps) root)) =
    (controls root, controlPointer root, root_closed root) /\
    generations root ⊆ generations (execs (take k steps) root) /\
    (currentPointer (execs (take k steps) root) = currentPointer root \/
     activate = true /\ currentPointer (execs (take k steps) root) = Some name /\ generations (execs (take k steps) root) !! name = Some value) /\
    (io = Ok tt -> r = Ok tt -> generations (execs (take k steps) root) !! name = Some value)) as Hnil.
  { intros e -> ->. rewrite take_nil. by split_and!; [|reflexivity|left|]. }
  destruct (available root) as [u|e]; [|injection Hc as <- <-; by eapply Hnil].
  destruct (_ || _) in Hc; [injection Hc as <- <-; by eapply Hnil|].
  destruct (negb (forallb _ _)) in Hc; [injection Hc as <- <-; by eapply Hnil|]. cbv zeta in Hc. clear Hnil.
  destruct (generations root !! name) as [actual|] eqn:Hg.
  - destruct (stateGenerationMatches actual value) eqn:Hm; injection Hc as <- <-.
    2:{ destruct k as [|k]; cbn; rewrite ?take_nil; by split_and!; [|reflexivity|left|]. }
    unfold stateGenerationMatches in Hm. rewrite andb_true_iff, !bool_decide_eq_true in Hm. destruct Hm as [M1 M2], actual, value. cbn in M1, M2. subst.
    destruct activate; destruct k as [|[|k]]; cbn; rewrite ?take_nil; by split_and!; [|reflexivity|left + right|].
  - injection Hc as <- <-.
    destruct k as [|[|k]]; [split_and!; [done|reflexivity|by left|intros Ho; specialize (Hk Ho); cbn in Hk; lia]..|].
    assert (generations root ⊆ <[name := value]> (generations root)) as Hsub by (by apply insert_subseteq).
    destruct activate; [|cbn; rewrite take_nil; cbn; split_and!; [done|done|by left|intros; apply lookup_insert_eq]].
    destruct k as [|k]; cbn; rewrite ?take_nil; cbn; split_and!; try done; try (intros; apply lookup_insert_eq); [by left|right].
    split_and!; [done..|apply lookup_insert_eq].
Qed.

End Disk.

(** ** Decisions in time *)

Section Time.
Context `{GoLib}.

(** The window of an Epoch is checked against the clock; nothing else reads it, or
    the index of the own record. *)
Lemma verifyEpoch_clock id pinned quorum profile' t t' index index' prev input e :
  verifyEpoch (MkEpochPolicy id pinned quorum profile' t index prev) prev input = Ok e -> e.(validFrom) <= t' < e.(validUntil) ->
  verifyEpoch (MkEpochPolicy id pinned quorum profile' t' index' prev) prev input = Ok e.
Proof.
  unfold verifyEpoch, authenticateEnvelope. cbn [policy_NetworkID policy_Authorities policy_Threshold policy_Profile policy_Now policy_Previous].
  intros Hv Ht. inv_ok. subst.
  assert (forall l k, countSignatures (MkEpochPolicy id pinned quorum profile' t' index' prev) (digest e) l k =
    countSignatures (MkEpochPolicy id pinned quorum profile' t index prev) (digest e) l k) as Hsame.
  { induction l as [|s l IH]; intros k; [done|]. cbn [countSignatures policy_Authorities]. destruct (pinned !! sig_id s); [|done]. by rewrite IH. }
  repeat match goal with X : parseEpoch _ = Ok _ |- _ => rewrite X end. cbn [mbind result_bind].
  repeat match goal with X : ?b = false |- context [?b] => rewrite X end. rewrite Hsame.
  repeat (match goal with X : ?f = Ok _ |- context [?f] => rewrite X end; cbn [mbind result_bind]).
  repeat match goal with X : ?b = false |- context [?b] => rewrite X end.
  by rewrite (proj2 (Z.ltb_ge _ _)), (proj2 (Z.ltb_lt _ _)) by lia.
Qed.

Lemma decided_now c t current epochBytes inputs d :
  Decided c current epochBytes inputs d -> d.(cd_epoch).(validFrom) <= t < d.(cd_epoch).(validUntil) ->
  Decided (c <| config_now := t |>) current epochBytes inputs d.
Proof.
  intros [] Ht. constructor; try done; [by eapply verifyEpoch_clock|]. rewrite de_view.
  replace (cd_epoch d) with ((cd_epoch d) <| signatures := (cd_epoch d).(signatures) |>) at 1 by (by destruct (cd_epoch d)).
  by apply evaluateInputs_ext.
Qed.

(** The start of an Epoch is a whole second. *)
Lemma unsigned_seconds input e rest : unsignedFields input = Ok (e, rest) -> exists q, e.(validFrom) = q * Second.
Proof.
  intros Hu. unfold unsignedFields in Hu. inv_decode.
  match goal with X : decodeEpochCommitment _ _ = Ok (?b, _) |- _ => assert (exists q, b.(validFrom) = q * Second) as Hb end.
  { unfold decodeEpochCommitment, decodeViewCommitment, decodeSummaries in *. inv_decode.
    match goal with X : mret _ _ = Ok _ |- _ => injection X as <- <- end. cbn [validFrom]. unfold OfUnix. by eexists. }
  unfold decodeDestinationResolutionGateway, decodeTransitIssuanceDuty in *.
  repeat (match goal with X : (if ?b then _ else _) _ = Ok _ |- _ => destruct b end; inv_decode;
    repeat match goal with X : mret _ _ = Ok _ |- _ => injection X as <- <- end); by cbn [validFrom].
Qed.

Lemma parseEpoch_seconds input e : parseEpoch input = Ok e -> exists q, e.(validFrom) = q * Second.
Proof. intros (b & s & Hr & -> & _)%parseEpoch_ok. specialize (Hr []). by apply unsigned_seconds in Hr. Qed.

(** A decision that is next in the chain, whenever it is looked at. *)
Definition Next (c : config) (current : option state.Snapshot) (d : candidateDecision) : Prop :=
  Decided (c <| config_now := d.(cd_epoch).(validFrom) |>) current d.(cd_epochBytes) d.(cd_inputs) d.

Lemma decided_next c t current epochBytes inputs d :
  Decided (c <| config_now := t |>) current epochBytes inputs d -> Next c current d /\ d.(cd_epoch).(validFrom) <= t < d.(cd_epoch).(validUntil).
Proof.
  intros Hd. pose proof (de_epoch _ _ _ _ _ Hd) as He. apply verifyEpoch_ok in He as (_ & Hs & _).
  pose proof (se_window _ _ _ Hs) as Hw. cbn in Hw. split; [|done]. unfold Next. destruct (de_bytes _ _ _ _ _ Hd) as [-> ->].
  apply (decided_now _ (validFrom (cd_epoch d))) in Hd; [exact Hd|]. lia.
Qed.

Lemma history_mono c g g' name d n : g ⊆ g' -> History c g name d n -> History c g' name d n.
Proof.
  intros Hg. induction 1 as [|? ? prior]; [eapply history_genesis|eapply (history_next c g' _ _ prior)]; try done; by eapply lookup_weaken.
Qed.

Lemma history_now c t g name d n : History (c <| config_now := t |>) g name d n <-> History c g name d n.
Proof. split; induction 1 as [|? ? prior]; [by eapply history_genesis|by eapply (history_next _ g _ _ prior)|by eapply history_genesis|by eapply (history_next _ g _ _ prior)]. Qed.

(** The stored predecessors of a decision, as their number. *)
Definition Chain (c : config) (g : gmap gostring durableGeneration) (d : candidateDecision) : Prop :=
  History c g (hex_EncodeToString d.(cd_epoch).(digest)) d d.(cd_epoch).(number).

Lemma chain_history c g name d n : History c g name d n -> Chain c g d.
Proof. intros Hh. destruct (history_number _ _ _ _ _ Hh) as (E & _ & -> & _). unfold Chain. by rewrite E. Qed.

(** What a Snapshot says of the Epoch it came from. *)
Lemma next_snapshot c current d :
  Next c current d -> d.(cd_snapshot).(state.Generation) = hex_EncodeToString d.(cd_epoch).(digest) /\
  d.(cd_snapshot).(state.Epoch) = d.(cd_epoch).(number) /\ d.(cd_snapshot).(state.Digest) = d.(cd_epoch).(digest).
Proof. apply decided_snapshot. Qed.

Lemma chain_snapshot c g d :
  Chain c g d -> d.(cd_snapshot).(state.Epoch) = d.(cd_epoch).(number) /\ d.(cd_snapshot).(state.Digest) = d.(cd_epoch).(digest) /\
  1 <= d.(cd_epoch).(number) <= maximumEpochChain.
Proof. intros Hc. by destruct (history_number _ _ _ _ _ Hc) as (_ & ? & _ & ? & ?). Qed.

(** A next decision, once stored, prolongs the stored chain. *)
Lemma next_chain c g prior d :
  Next c (cd_snapshot <$> prior) d -> (forall p, prior = Some p -> Chain c g p) ->
  g !! hex_EncodeToString d.(cd_epoch).(digest) = Some (MkStored d.(cd_epochBytes) d.(cd_inputs)) -> Chain c g d.
Proof.
  intros Hn Hp Hg. pose proof (de_epoch _ _ _ _ _ Hn) as He. apply verifyEpoch_ok in He as (_ & _ & _ & Hx).
  destruct prior as [p|]; cbn in Hx.
  - specialize (Hp p eq_refl). destruct (chain_snapshot _ _ _ Hp) as (E1 & E2 & Hb). unfold maximumEpochChain in Hb.
    rewrite E1, E2 in Hx. destruct Hx as [Hx1 Hx2]. unfold Chain. rewrite Hx1. unfold u64. rewrite Z.mod_small by lia.
    eapply (history_next c g _ _ p); try done. rewrite Hx1. apply Z.mod_small. lia.
  - destruct Hx as [Hx1 _]. unfold Chain. rewrite Hx1. by eapply history_genesis.
Qed.

End Time.

(** ** Walking through a call *)

Lemma bind_run {A B} (m : stateM A) (f : A -> stateM B) s disk s' disk' r :
  (m ≫= f) s disk = (s', disk', r) ->
  (exists a s1 disk1, m s disk = (s1, disk1, Ok a) /\ f a s1 disk1 = (s', disk', r)) \/
  (exists e, m s disk = (s', disk', Err e) /\ r = Err e).
Proof.
  unfold mbind, stateM_bind. destruct (m s disk) as [[s1 disk1] [a|e]] eqn:Hm; intros Hr; [left|right].
  - by exists a, s1, disk1.
  - injection Hr as <- <- <-. by exists e.
Qed.

Lemma run_get {A} (f : networkState -> stateM A) s disk : (get ≫= f) s disk = f s s disk.
Proof. done. Qed.

Lemma run_modify {A} g (f : unit -> stateM A) s disk : (modify g ≫= f) s disk = f tt (g s) disk.
Proof. done. Qed.

Lemma run_lift {A B} (r : result A) (f : A -> stateM B) s disk :
  (lift r ≫= f) s disk = match r with Ok a => f a s disk | Err e => (s, disk, Err e) end.
Proof. by destruct r. Qed.

Lemma run_guard {A} e (b : bool) (f : unit -> stateM A) s disk :
  (guard e b ≫= f) s disk = if b then (s, disk, Err e) else f tt s disk.
Proof. by destruct b. Qed.

(** [run1 H]: one step of a call whose next action only reads, checks or assigns;
    a failing check ends the call where it is. *)
Ltac run1 H :=
  first
  [ rewrite run_get in H | rewrite run_modify in H
  | rewrite run_lift in H;
    match type of H with match ?r with Ok _ => _ | Err _ => _ end = _ => let E := fresh "Hq" in destruct r eqn:E end
  | rewrite run_guard in H; match type of H with (if ?b then _ else _) = _ => let E := fresh "Hq" in destruct b eqn:E end ];
  cbv beta zeta in H.

(** [runs H fin]: all such steps; [fin] proves the claim where a check fails. *)
Ltac runs H fin :=
  repeat (run1 H; try (lazymatch type of H with (_, _, _) = _ => injection H as <- _ _; fin end)).

(** ** What every node keeps *)

Section Invariant.
Context `{GoLib} (c : config).

(** An instant that no conversion to seconds cuts. *)
Definition Instant (t : Z) : Prop := - 2 ^ 62 <= Unix t < 2 ^ 62.

Lemma unix_instant t : Instant t -> unix t = Unix t.
Proof. unfold Instant, unix. intros. apply i64_id. unfold in_i64. lia. Qed.

Lemma OfUnix_small x : - 2 ^ 62 <= x < 2 ^ 62 -> OfUnix x = x * Second.
Proof. intros Hx. unfold OfUnix. rewrite i64_id by (unfold in_i64; lia). lia. Qed.

(** The Epoch that a node shows, and the floor of a distribution state. *)
Definition shownEpoch (s : networkState) : Z * array 32 :=
  match s.(ns_current) with None => (0, zero32) | Some sn => (sn.(state.Epoch), sn.(state.Digest)) end.
Definition floorOf (d : distributionState) : Z * array 32 := (d.(epochFloor), d.(epochDigest)).

(** The same Epoch, or a later one. *)
Definition Later (a b : Z * array 32) : Prop := a.1 < b.1 \/ a = b.

#[global] Instance Later_preorder : PreOrder Later.
Proof.
  split; [by right|]. intros [x a] [y b] [z e] [Hx|[= -> ->]] [Hy|[= -> ->]]; unfold Later; cbn in *;
    [left; lia|by left|by left|by right].
Qed.

(** The generation of the floor is stored, and had started at the trusted time. *)
Definition Timed (g : gmap gostring durableGeneration) (d : distributionState) : Prop :=
  d.(trustedTimeFloor) < 2 ^ 62 /\
  (d.(epochFloor) <> 0 -> exists value e, g !! hex_EncodeToString d.(epochDigest) = Some value /\
    parseEpoch value.(stored_Epoch) = Ok e /\ e.(validFrom) <= OfUnix d.(trustedTimeFloor)).

(** What a node with this memory may write, or find, as its control state. *)
Record Fits (s : networkState) (d : distributionState) : Prop := {
  fi_ranged : Ranged d;
  fi_floor : Later (shownEpoch s) (floorOf d);
  fi_timed : Timed s.(ns_storage).(generations) d;
  fi_latch : s.(ns_distribution).(conflicting) = true -> d.(conflicting) = true /\ floorOf d = floorOf s.(ns_distribution)
}.

(** The exposures of at most two earlier sources and of the two present ones. *)
Definition Exposed (info : sourceDetails) (d : distributionState) : Prop :=
  exists old new, d.(history) = old ++ new /\ len old <= 2 /\ NoDup new /\ new ⊆ info.(Exposures).

Record Inv (s : networkState) : Prop := {
  iv_sources : length s.(ns_source).(Exposures) = 2%nat;
  iv_exposed : Exposed s.(ns_source) s.(ns_distribution);
  iv_trust : exists t, s.(ns_config) = c <| config_now := t |>;
  iv_current : s.(ns_current) = cd_snapshot <$> s.(ns_currentDecision);
  iv_chain : forall d, s.(ns_currentDecision) = Some d ->
    Chain c s.(ns_storage).(generations) d /\ d.(cd_epoch).(validFrom) <= OfUnix s.(ns_distribution).(trustedTimeFloor);
  iv_pending : forall p, s.(ns_pendingDecision) = Some p -> Next c s.(ns_current) p;
  iv_memory : Fits s s.(ns_distribution);
  iv_disk : forall x, pointed s.(ns_storage) = Some x ->
    exists d, x = (distributionDigest (encodeDistributionState d), encodeDistributionState d) /\ Fits s d;
  iv_recorded : s.(ns_current) <> None \/ s.(ns_distribution).(conflicting) = true \/ s.(ns_storage).(currentPointer) <> None ->
    pointed s.(ns_storage) <> None
}.

Lemma timed_mono g g' d : g ⊆ g' -> Timed g d -> Timed g' d.
Proof.
  intros Hg [Hb Ht]. split; [done|]. intros Hf. destruct (Ht Hf) as (value & e & Hv & Hr). exists value, e. split; [|done].
  by eapply lookup_weaken.
Qed.

(** *** Storing a generation *)

Lemma fits_same s s' d :
  s'.(ns_current) = s.(ns_current) -> s'.(ns_distribution) = s.(ns_distribution) ->
  s.(ns_storage).(generations) ⊆ s'.(ns_storage).(generations) -> Fits s d -> Fits s' d.
Proof.
  intros E1 E2 Hg []. constructor; try done; [unfold shownEpoch in *; by rewrite E1|by eapply timed_mono|by rewrite E2].
Qed.

(** The same node over a store that has grown and kept its control state. *)
Definition Grown (s s' : networkState) : Prop :=
  s' = s <| ns_storage := s'.(ns_storage) |> /\ pointed s'.(ns_storage) = pointed s.(ns_storage) /\
  s.(ns_storage).(generations) ⊆ s'.(ns_storage).(generations) /\
  (s'.(ns_storage).(currentPointer) <> None -> s.(ns_storage).(currentPointer) <> None \/ pointed s.(ns_storage) <> None).

Lemma inv_grown s s' : Inv s -> Grown s s' -> Inv s'.
Proof.
  intros [] (E & Ep & Hg & Hc).
  assert (s'.(ns_config) = s.(ns_config) /\ s'.(ns_current) = s.(ns_current) /\ s'.(ns_currentDecision) = s.(ns_currentDecision) /\
    s'.(ns_pendingDecision) = s.(ns_pendingDecision) /\ s'.(ns_distribution) = s.(ns_distribution) /\ s'.(ns_source) = s.(ns_source))
    as (E1 & E2 & E3 & E4 & E5 & E6) by (by rewrite E).
  constructor; rewrite ?E1, ?E2, ?E3, ?E4, ?E5, ?E6, ?Ep; try done.
  - intros d Hd. destruct (iv_chain0 d Hd). split; [by eapply history_mono|done].
  - by eapply fits_same.
  - intros x Hx. destruct (iv_disk0 x Hx) as (d & -> & Hf). exists d. split; [done|by eapply fits_same].
  - intros [Hx|[Hx|Hx]]; [apply iv_recorded0; by left|apply iv_recorded0; by right; left|]. destruct (Hc Hx); [apply iv_recorded0; by right; right|done].
Qed.

Lemma pointed_same root root' :
  (controls root', controlPointer root', root_closed root') = (controls root, controlPointer root, root_closed root) -> pointed root' = pointed root.
Proof. intros [= E1 E2 _]. unfold pointed. by rewrite E1, E2. Qed.

Lemma persistDecision_grown d active s disk s' disk' r :
  persistDecision d active s disk = (s', disk', r) -> (active = true -> pointed s.(ns_storage) <> None) ->
  Grown s s' /\ (r = Ok tt -> s'.(ns_storage).(generations) !! d.(cd_snapshot).(state.Generation) = Some (MkStored d.(cd_epochBytes) d.(cd_inputs))).
Proof.
  unfold persistDecision, store. intros Hp Ha. destruct (commitState _ _ _ _) as [steps r0] eqn:Hc.
  destruct (runSteps steps _ disk) as [[root' disk''] io] eqn:Hr. injection Hp as <- <- <-.
  destruct (commitState_effect _ _ _ _ _ _ _ _ _ _ Hc Hr) as (E1 & E2 & E3 & E4). cbn [ns_storage set update]. split.
  - split_and!; [done|by apply pointed_same|done|]. intros Hx. destruct E3 as [E3|(E3 & _ & _)]; [left; by rewrite <- E3|right; by apply Ha].
  - destruct io as [[]|]; [|done]. intros ->. by apply E4.
Qed.

(** *** Committing the distribution state *)

(** The same node with another distribution state. *)
Definition Redistributed (s s' : networkState) : Prop :=
  s' = s <| ns_distribution := s'.(ns_distribution) |> <| ns_storage := s'.(ns_storage) |> /\ outside s'.(ns_storage) = outside s.(ns_storage).

Lemma commitDistribution_inv d s disk s' disk' r :
  Inv s -> Fits s d -> Exposed s.(ns_source) d ->
  (forall current, s.(ns_currentDecision) = Some current -> current.(cd_epoch).(validFrom) <= OfUnix d.(trustedTimeFloor)) ->
  commitDistribution d s disk = (s', disk', r) ->
  Inv s' /\ Redistributed s s' /\
  (r = Ok tt /\ s'.(ns_distribution) = d /\
     pointed s'.(ns_storage) = Some (distributionDigest (encodeDistributionState d), encodeDistributionState d) \/
   is_err r /\ s'.(ns_distribution) = s.(ns_distribution)).
Proof.
  intros Hinv Hf Hex Ht Hd. unfold commitDistribution in Hd. cbv zeta in Hd. set (raw := encodeDistributionState d) in *.
  unfold mbind, stateM_bind, store in Hd. destruct (commitControl _ _ _) as [steps r0] eqn:Hc.
  destruct (runSteps steps _ disk) as [[root' disk''] io] eqn:Hr.
  destruct (commitControl_effect _ _ _ _ _ _ _ _ _ Hc Hr) as (E1 & E2 & E3). unfold outside in E1. injection E1 as G1 G2 G3.
  assert (forall d0, Fits s d0 -> Fits (s <| ns_storage := root' |>) d0) as Hst.
  { intros d0. apply fits_same; [done|done|]. cbn. by rewrite G1. }
  destruct Hinv.
  assert (Inv (s <| ns_storage := root' |>)) as Hold.
  { constructor; cbn [ns_config ns_current ns_currentDecision ns_pendingDecision ns_distribution ns_storage set update]; try done.
    - by rewrite G1.
    - by apply Hst.
    - intros x Hx. destruct E2 as [E2|E2]; rewrite E2 in Hx.
      + destruct (iv_disk0 x Hx) as (d0 & -> & Hf0). exists d0. split; [done|by apply Hst].
      + injection Hx as <-. exists d. split; [done|by apply Hst].
    - rewrite G2. intros Hx. destruct E2 as [->| ->]; [by apply iv_recorded0|done]. }
  destruct io as [[]|e]; [destruct r0 as [[]|e]|]; cbn [mbind] in Hd.
  - injection Hd as <- <- <-. specialize (E3 eq_refl eq_refl).
    assert (forall d0, Fits s d0 -> conflicting d0 = true \/ conflicting d = false -> floorOf d0 = floorOf d \/ conflicting d = false ->
      Fits (s <| ns_storage := root' |> <| ns_distribution := d |>) d0) as Hnew.
    { intros d0 Hf0 Hl Hl'. destruct (Hst d0 Hf0). constructor; try done. cbn. intros Hcf. split; [destruct Hl; congruence|destruct Hl'; congruence]. }
    split_and!; [|unfold Redistributed, outside; cbn; split; [done|congruence]|by left].
    destruct Hold. constructor; cbn [ns_config ns_current ns_currentDecision ns_pendingDecision ns_distribution ns_storage set update] in *; try done.
    + intros d0 Hd0. split; [by apply iv_chain1|by apply Ht].
    + apply Hnew; [done|by destruct (conflicting d); auto|by left].
    + intros x Hx. rewrite E3 in Hx. injection Hx as <-. exists d. split; [done|]. apply Hnew; [done|by destruct (conflicting d); auto|by left].
    + intros _. by rewrite E3.
  - injection Hd as <- <- <-. split_and!; [done|unfold Redistributed, outside; cbn; split; [done|congruence]|by right].
  - injection Hd as <- <- <-. split_and!; [done|unfold Redistributed, outside; cbn; split; [done|congruence]|by right].
Qed.

(** *** Activating a decision *)

Lemma number_later s d : Inv s -> Next c s.(ns_current) d -> (shownEpoch s).1 < d.(cd_epoch).(number) /\ 1 <= d.(cd_epoch).(number) <= maximumEpochChain.
Proof.
  intros Hinv Hn. pose proof (de_epoch _ _ _ _ _ Hn) as He. apply verifyEpoch_ok in He as (_ & _ & Hb & Hx). cbn in Hx.
  rewrite (iv_current _ Hinv) in Hx. unfold shownEpoch. rewrite (iv_current _ Hinv).
  destruct (ns_currentDecision s) as [p|] eqn:Hp; cbn in Hx |- *; [|lia].
  destruct (iv_chain _ Hinv p Hp) as [Hc _]. destruct (chain_snapshot _ _ _ Hc) as (E1 & _ & Hr). rewrite E1 in Hx |- *.
  unfold maximumEpochChain in *. assert (u64 (number (cd_epoch p) + 1) = number (cd_epoch p) + 1) by (apply Z.mod_small; lia). lia.
Qed.

Lemma OfUnix_mono x y : in_i64 x -> x <= y < 2 ^ 62 -> OfUnix x <= OfUnix y.
Proof.
  unfold in_i64. intros Hx Hy. unfold OfUnix. rewrite !i64_id by (unfold in_i64; lia). unfold Second, Millisecond. lia.
Qed.

Lemma clearPending_keeps d dist :
  let d' := clearPending d dist in
  floorOf d' = floorOf dist /\ trustedTimeFloor d' = trustedTimeFloor dist /\ conflicting d' = conflicting dist /\ history d' = history dist.
Proof. unfold clearPending. cbv zeta. by case_bool_decide. Qed.

Lemma ranged_clear d dist : Ranged dist -> Ranged (clearPending d dist).
Proof. unfold clearPending. case_bool_decide; [|done]. intros []. by constructor. Qed.

Lemma ranged_raise d dist : in_u64 d.(cd_epoch).(number) -> Ranged dist -> Ranged (raiseFloor d dist).
Proof. intros Hn []. by constructor. Qed.

(** A node steps from one state to the next. *)
Record Goes (s s' : networkState) : Prop := {
  go_inv : Inv s';
  go_later : Later (shownEpoch s) (shownEpoch s');
  go_latch : s.(ns_distribution).(conflicting) = true ->
    s'.(ns_distribution).(conflicting) = true /\ floorOf s'.(ns_distribution) = floorOf s.(ns_distribution)
}.

Lemma goes_same s s' :
  Inv s' -> s'.(ns_current) = s.(ns_current) -> s'.(ns_distribution) = s.(ns_distribution) -> Goes s s'.
Proof. intros Hi E1 E2. constructor; [done|unfold shownEpoch; by rewrite E1|by rewrite E2]. Qed.

Lemma settle_keeps d s :
  settle d s = s <| ns_pendingDecision := (settle d s).(ns_pendingDecision) |>.
Proof. unfold settle. destruct (ns_pendingDecision s) eqn:E; [|by destruct s]. case_bool_decide; by destruct s. Qed.

(** The new decision in memory, once the distribution state with it is durable. *)
Lemma activated_inv d s :
  Inv s -> Chain c s.(ns_storage).(generations) d ->
  (forall p, s.(ns_pendingDecision) = Some p -> p.(cd_epoch).(digest) = d.(cd_epoch).(digest)) ->
  pointed s.(ns_storage) = Some (distributionDigest (encodeDistributionState s.(ns_distribution)), encodeDistributionState s.(ns_distribution)) ->
  floorOf s.(ns_distribution) = (d.(cd_epoch).(number), d.(cd_epoch).(digest)) ->
  d.(cd_epoch).(validFrom) <= OfUnix s.(ns_distribution).(trustedTimeFloor) ->
  let s' := settle d (activate d s) in Inv s' /\ shownEpoch s' = floorOf s.(ns_distribution).
Proof.
  intros Hinv Hc Hp Hpt Hf Hv. cbv zeta. destruct (chain_snapshot _ _ _ Hc) as (E1 & E2 & _).
  assert (ns_pendingDecision (settle d (activate d s)) = None) as Hnone.
  { unfold settle. cbn. destruct (ns_pendingDecision s) as [p|] eqn:Hpend; [|done]. by rewrite bool_decide_eq_true_2 by (by apply Hp). }
  rewrite settle_keeps, Hnone.
  assert (shownEpoch ((activate d s) <| ns_pendingDecision := None |>) = floorOf (ns_distribution s)) as Hshown.
  { unfold shownEpoch. cbn. by rewrite E1, E2. }
  assert (Fits ((activate d s) <| ns_pendingDecision := None |>) (ns_distribution s)) as Hfit.
  { destruct (iv_memory _ Hinv). constructor; [done|by rewrite Hshown|done|done]. }
  split; [|done]. constructor; cbn; try done.
  - apply (iv_sources _ Hinv).
  - apply (iv_exposed _ Hinv).
  - apply (iv_trust _ Hinv).
  - by intros ? [= <-].
  - rewrite Hpt. intros x [= <-]. by exists (ns_distribution s).
  - intros _. by rewrite Hpt.
Qed.

(** What the distribution state of a new decision must satisfy. *)
Lemma active_fits d dist s :
  Inv s -> Next c s.(ns_current) d -> s.(ns_distribution).(conflicting) = false -> Ranged dist ->
  s.(ns_distribution).(trustedTimeFloor) <= dist.(trustedTimeFloor) < 2 ^ 62 -> d.(cd_epoch).(validFrom) <= OfUnix dist.(trustedTimeFloor) ->
  s.(ns_storage).(generations) !! hex_EncodeToString d.(cd_epoch).(digest) = Some (MkStored d.(cd_epochBytes) d.(cd_inputs)) ->
  let d' := clearPending d (raiseFloor d dist) in
  Fits s d' /\ (forall current, s.(ns_currentDecision) = Some current -> current.(cd_epoch).(validFrom) <= OfUnix d'.(trustedTimeFloor)) /\
  floorOf d' = (d.(cd_epoch).(number), d.(cd_epoch).(digest)) /\ trustedTimeFloor d' = trustedTimeFloor dist.
Proof.
  intros Hinv Hn Hcf Hr Htr Hv Hst. cbv zeta. destruct (clearPending_keeps d (raiseFloor d dist)) as (K1 & K2 & K3 & K4).
  destruct (number_later _ _ Hinv Hn) as [Hlt Hb]. unfold maximumEpochChain in Hb.
  pose proof (de_epoch _ _ _ _ _ Hn) as He. apply verifyEpoch_ok in He as (Hparse & _ & _).
  assert (OfUnix (trustedTimeFloor (ns_distribution s)) <= OfUnix (trustedTimeFloor dist)) as Hmono.
  { apply OfUnix_mono; [by apply (iv_memory _ Hinv)|lia]. }
  split_and!; [|intros cur Hcur; rewrite K2; by etransitivity; [apply (iv_chain _ Hinv cur Hcur)|]|by rewrite K1|by rewrite K2].
  constructor.
  - apply ranged_clear, ranged_raise; [unfold in_u64; lia|done].
  - rewrite K1. left. exact Hlt.
  - injection K1 as K1 K1'. split; [rewrite K2; cbn; lia|]. intros _. rewrite K1', K2. cbn. by eexists _, _.
  - by rewrite Hcf.
Qed.

Lemma commitActiveDecision_goes d dist s disk s' disk' r :
  Inv s -> Next c s.(ns_current) d -> (forall p, s.(ns_pendingDecision) = Some p -> p.(cd_epoch).(digest) = d.(cd_epoch).(digest)) ->
  s.(ns_distribution).(conflicting) = false -> Ranged dist -> Exposed s.(ns_source) dist -> s.(ns_distribution).(trustedTimeFloor) <= dist.(trustedTimeFloor) < 2 ^ 62 ->
  d.(cd_epoch).(validFrom) <= OfUnix dist.(trustedTimeFloor) ->
  commitActiveDecision d dist s disk = (s', disk', r) -> Goes s s'.
Proof.
  intros Hinv Hn Hp Hcf Hr Hex Htr Hv Hrun. unfold commitActiveDecision in Hrun.
  destruct (next_snapshot _ _ _ Hn) as (En & E1 & E2). destruct (number_later _ _ Hinv Hn) as [Hlt _].
  apply bind_run in Hrun as [([] & s1 & disk1 & Hs1 & Hrun)|(e & Hs1 & ->)];
    (destruct (persistDecision_grown _ _ _ _ _ _ _ Hs1) as [Hg Hst]; [done|]);
    pose proof (inv_grown _ _ Hinv Hg) as Hinv1; pose proof Hg as (Es1 & _ & Hsub & _).
  2:{ apply goes_same; [done|by rewrite Es1..]. }
  specialize (Hst eq_refl). rewrite En in Hst.
  destruct (active_fits d dist s1) as (Hfit & Htime & Hfloor & Htrust); [done|by rewrite Es1|by rewrite Es1|done|by rewrite Es1|done|done|].
  assert (Exposed (ns_source s1) (clearPending d (raiseFloor d dist))) as Hex1.
  { destruct (clearPending_keeps d (raiseFloor d dist)) as (_ & _ & _ & K). unfold Exposed. rewrite K, Es1. exact Hex. }
  apply bind_run in Hrun as [([] & s2 & disk2 & Hs2 & Hrun)|(e & Hs2 & ->)];
    (apply commitDistribution_inv in Hs2 as (Hinv2 & [Er Eo] & Hres); [|done..]).
  2:{ destruct Hres as [(? & _)|[_ Hres]]; [done|]. apply goes_same; [done|by rewrite Er, Es1|by rewrite Hres, Es1]. }
  destruct Hres as [(_ & Hd2 & Hpt)|[? _]]; [|done]. injection Eo as G1 G2 G3.
  apply bind_run in Hrun as [([] & s3 & disk3 & Hs3 & Hrun)|(e & Hs3 & _)]; [|done]. injection Hs3 as <- <-.
  destruct (activated_inv d s2) as [Hinv3 Hshown]; rewrite ?Hd2, ?Hfloor, ?Htrust; try done.
  { rewrite G1. eapply (next_chain _ _ (ns_currentDecision s)); [by rewrite <- (iv_current _ Hinv)| |done].
    intros p Hcur. eapply history_mono; [exact Hsub|by apply iv_chain]. }
  { by rewrite Er, Es1. }
  destruct (persistDecision_grown _ _ _ _ _ _ _ Hrun) as [Hg4 _]; [rewrite settle_keeps; cbn; by rewrite Hpt|].
  pose proof Hg4 as (E4 & _). constructor; [by eapply inv_grown| |by rewrite Hcf].
  assert (shownEpoch s' = shownEpoch (settle d (activate d s2))) as -> by (unfold shownEpoch; by rewrite E4).
  rewrite Hshown, Hd2, Hfloor. by left.
Qed.

(** *** Distribution states that keep the floor *)

Record Derived (info : sourceDetails) (d d' : distributionState) : Prop := {
  dv_ranged : Ranged d /\ Exposed info d -> Ranged d' /\ Exposed info d';
  dv_floor : floorOf d' = floorOf d;
  dv_time : d.(trustedTimeFloor) <= d'.(trustedTimeFloor);
  dv_bound : d.(trustedTimeFloor) < 2 ^ 62 -> d'.(trustedTimeFloor) < 2 ^ 62;
  dv_latch : d.(conflicting) = true -> d'.(conflicting) = true
}.

#[global] Instance Derived_preorder info : PreOrder (Derived info).
Proof.
  split; [by constructor|]. intros x y z [] []. constructor; try tauto; [by etransitivity|by etransitivity; [|eassumption]].
Qed.

Lemma derived_fits s d :
  Inv s -> Derived s.(ns_source) s.(ns_distribution) d ->
  Fits s d /\ Exposed s.(ns_source) d /\ forall current, s.(ns_currentDecision) = Some current -> current.(cd_epoch).(validFrom) <= OfUnix d.(trustedTimeFloor).
Proof.
  intros Hinv []. destruct (iv_memory _ Hinv) as [Hr Hf [Hb Ht] Hl].
  assert (OfUnix (trustedTimeFloor (ns_distribution s)) <= OfUnix (trustedTimeFloor d)) as Hmono by (apply OfUnix_mono; [apply Hr|tauto]).
  destruct (dv_ranged0 (conj Hr (iv_exposed _ Hinv))) as [Hr' Hx'].
  split_and!; [|done|intros cur Hcur; destruct (iv_chain _ Hinv cur Hcur); lia].
  constructor; [done|by rewrite dv_floor0| |by auto]. injection dv_floor0 as E1 E2. split; [tauto|].
  rewrite E1, E2. intros Hne. destruct (Ht Hne) as (value & e & Hv & Hp & Hle). exists value, e. split_and!; [done..|lia].
Qed.

Lemma commit_derived d s disk s' disk' r :
  Inv s -> Derived s.(ns_source) s.(ns_distribution) d -> commitDistribution d s disk = (s', disk', r) ->
  Goes s s' /\ Redistributed s s' /\ Derived s.(ns_source) s.(ns_distribution) s'.(ns_distribution) /\ (r = Ok tt -> s'.(ns_distribution) = d).
Proof.
  intros Hinv Hd Hc. destruct (derived_fits _ _ Hinv Hd) as (Hf & Hx & Ht). apply commitDistribution_inv in Hc as (Hi & Hr & Hres); [|done..].
  assert (Derived (ns_source s) (ns_distribution s) (ns_distribution s')) as Hd' by (by destruct Hres as [(_ & -> & _)|[_ ->]]).
  assert (ns_current s' = ns_current s) as Hcur by (destruct Hr as [-> _]; done).
  split_and!; [|done|done|].
  - constructor; [done|unfold shownEpoch; by rewrite Hcur|]. intros Hcf. destruct Hd'. by rewrite dv_floor0, dv_latch0.
  - destruct Hres as [(_ & E & _)|[He _]]; [done|]. by intros ->.
Qed.

Lemma goes_refl s : Inv s -> Goes s s.
Proof. intros. by apply goes_same. Qed.

Lemma goes_trans s s1 s2 : Goes s s1 -> Goes s1 s2 -> Goes s s2.
Proof.
  intros [I1 L1 C1] [I2 L2 C2]. constructor; [done|by etransitivity|]. intros Hc. destruct (C1 Hc) as [Hc1 <-]. by apply C2.
Qed.

(** Fields that the invariant does not look at. *)
Lemma goes_flags s refreshing closed :
  Inv s -> Goes s (s <| ns_refreshing := refreshing |> <| ns_closed := closed |>).
Proof.
  intros Hinv. apply goes_same; [|done|done]. destruct Hinv. constructor; try done.
  - destruct iv_memory0. by constructor.
  - intros x Hx. destruct (iv_disk0 x Hx) as (d & -> & []). exists d. split; [done|by constructor].
Qed.

(** *** Offline acceptance *)

Lemma unix_range t : in_i64 (unix t).
Proof. apply i64_range. Qed.

Lemma derived_advanced info clock d : Instant clock -> Derived info d (advanced clock d).
Proof.
  intros Hc. unfold Instant in Hc. pose proof (unix_instant _ Hc). pose proof (unix_range clock). constructor; cbn; try done; try lia.
  intros [[] Hx]. split; [|exact Hx]. constructor; cbn; try done; [apply u64_range|]. unfold in_i64 in *. lia.
Qed.

Lemma derived_conflict info d : Derived info d (d <| conflicting := true |>).
Proof. constructor; try done. intros [[] Hx]. split; [by constructor|exact Hx]. Qed.

(** Two decisions next to the same state have the same number. *)
Lemma next_same current d p : Next c current d -> Next c current p -> d.(cd_epoch).(number) = p.(cd_epoch).(number).
Proof.
  intros Hd Hp. pose proof (de_epoch _ _ _ _ _ Hd) as He. apply verifyEpoch_ok in He as (_ & _ & _ & Hx).
  pose proof (de_epoch _ _ _ _ _ Hp) as He'. apply verifyEpoch_ok in He' as (_ & _ & _ & Hx'). destruct current; cbn in *; lia.
Qed.

Lemma allowed s d :
  Inv s -> Next c s.(ns_current) d -> allowCandidateTransition s d = Ok tt ->
  s.(ns_distribution).(conflicting) = false /\ forall p, s.(ns_pendingDecision) = Some p -> p.(cd_epoch).(digest) = d.(cd_epoch).(digest).
Proof.
  intros Hinv Hn Ha. unfold allowCandidateTransition in Ha. inv_ok. split; [done|]. intros p Hp. rewrite Hp in Ha.
  pose proof (next_same _ _ _ Hn (iv_pending _ Hinv p Hp)) as E. rewrite E, Z.eqb_refl in Ha. cbn in Ha.
  destruct (bool_decide_reflect (digest (cd_epoch d) = digest (cd_epoch p))); [by symmetry|done].
Qed.

(** A whole second that has begun is not after the second of the clock. *)
Lemma started_at e input now trusted :
  parseEpoch input = Ok e -> e.(validFrom) <= now -> Instant now -> unix now <= trusted < 2 ^ 62 -> e.(validFrom) <= OfUnix trusted.
Proof.
  intros Hp Hle Hn Ht. rewrite unix_instant in Ht by done. unfold Instant in Hn.
  destruct (parseEpoch_seconds _ _ Hp) as [q Hq].
  rewrite Hq in *. rewrite OfUnix_small by lia. assert (q <= Unix now); [|unfold Second, Millisecond; lia].
  unfold Unix, Second, Millisecond in *. apply Z.div_le_lower_bound; lia.
Qed.

Lemma Accept_goes epoch inputs materials before after clock shown s disk s' disk' r :
  Inv s -> Instant clock -> s.(ns_config).(config_now) <= clock ->
  Accept epoch inputs materials before after clock shown s disk = (s', disk', r) -> Goes s s'.
Proof.
  intros Hinv Hi Hle Ha. unfold Accept in Ha.
  runs Ha ltac:(by apply goes_refl).
  destruct (iv_trust _ Hinv) as [t Et]. match goal with X : verifyDecision _ _ _ _ _ _ = Ok ?x |- _ => rename X into Hv; rename x into d end.
  apply verifyDecision_ok in Hv. rewrite Et in Hv. apply decided_next in Hv as [Hn Hw]. rewrite Et in Hle. cbn in Hle.
  assert (Derived (ns_source s) (ns_distribution s) (advanced clock (ns_distribution s))) as Hadv by (by apply derived_advanced).
  destruct (allowCandidateTransition s d) as [[]|e] eqn:Hal.
  - destruct (allowed _ _ Hinv Hn Hal) as [Hcf Hp]. destruct (iv_memory _ Hinv) as [Hr _ [Hb _] _].
    assert (exists disk1 r1, commitActiveDecision d (advanced clock (ns_distribution s)) s disk = (s', disk1, r1)) as (disk1 & r1 & Hc).
    { apply bind_run in Ha as [(u & s1 & disk1 & Hc & Ha)|(e & Hc & _)]; [injection Ha as <- _ _|]; eauto. }
    eapply commitActiveDecision_goes; [exact Hinv|exact Hn|exact Hp|exact Hcf|apply Hadv; by split; [|apply iv_exposed].. | | |exact Hc]; [by split; apply Hadv|].
    pose proof (de_epoch _ _ _ _ _ Hn) as He. apply verifyEpoch_ok in He as (Hparse & _ & _).
    eapply started_at; [done| |exact Hi|]; [lia|]. split; [cbn; lia|by apply Hadv].
  - assert (exists disk1 r1, (if errors_Is e errPendingEpochConflict
      then commitDistribution ((advanced clock (ns_distribution s)) <| conflicting := true |>) else mret tt) s disk = (s', disk1, r1)) as (disk1 & r1 & Hc).
    { apply bind_run in Ha as [(u & s1 & disk1 & Hc & Ha)|(e' & Hc & _)]; [injection Ha as <- _ _|]; eauto. }
    destruct (errors_Is _ _); [|injection Hc as <- _ _; by apply goes_refl].
    eapply commit_derived; [done| |exact Hc]. etransitivity; [exact Hadv|apply derived_conflict].
Qed.

End Invariant.
