(* ===== verification/NetStateWave.v ===== *)
(** * The running Network State: calls, waves and restarts

    Every call of a node, on a disk that can fail at any step, keeps the facts of
    NetStateProof.v; so does every restart on what the disk holds. *)

From S2P Require Import Prelude Wire GoLib GoTime Merkle StateView NetEpoch NetEpochProof NetEpochDecision NetEpochChain.
From S2P Require Import NetState NetStateCodec NetStateProof.

Import netstate running.

(** ** The distribution states of a wave *)

Section Derivations.
Context (info : sourceDetails).

Lemma derived_next d : Derived info d (next d).
Proof. constructor; try done. intros [[] Hx]. split; [constructor; try done; apply u64_range|exact Hx]. Qed.

Lemma Forall_insert_u8 l i v : Forall in_u8 l -> in_u8 v -> Forall in_u8 (<[i := v]> l).
Proof. intros. by apply Forall_insert. Qed.

Lemma derived_setStatus i v d : in_u8 v -> Derived info d (setStatus i v d).
Proof.
  intros Hv. constructor; try done. intros [[] Hx]. split; [|exact Hx]. constructor; try done. cbn. rewrite length_insert.
  split; [apply ra_attempts|]. apply Forall_insert; [apply ra_attempts|done].
Qed.

Lemma derived_setOutcome i v d : in_u8 v -> Derived info d (setOutcome i v d).
Proof.
  intros Hv. constructor; try done. intros [[] Hx]. split; [|exact Hx]. constructor; try done. cbn. rewrite length_insert.
  split; [apply ra_outcomes|]. apply Forall_insert; [apply ra_outcomes|done].
Qed.

Lemma exposed_history d : length info.(Exposures) = 2%nat -> Exposed info d -> len d.(history) <= 4.
Proof.
  intros Hl (old & new & -> & Ho & Hn & Hs). rewrite len_app. assert (length new <= length (Exposures info))%nat by (by apply submseteq_length, NoDup_submseteq).
  unfold len in *. lia.
Qed.

Lemma derived_expose i d : length info.(Exposures) = 2%nat -> 0 <= i <= 1 -> Derived info d (expose info i d).
Proof.
  intros Hl Hi. unfold expose. destruct (lookup_lt_is_Some_2 (Exposures info) (Z.to_nat i)) as [x Hx]; [lia|]. rewrite Hx. cbn [default from_option id].
  case_bool_decide as Hin; [reflexivity|]. constructor; try done. intros [Hr He].
  assert (Exposed info (d <| history := history d ++ [x] |>)) as He'.
  { destruct He as (old & new & E & Ho & Hn & Hs). exists old, (new ++ [x]). cbn. rewrite E, app_assoc. split_and!; [done|done| |].
    - apply NoDup_app. split_and!; [done| |apply NoDup_singleton]. intros y Hy ->%list_elem_of_singleton. apply Hin. rewrite E. set_solver.
    - apply list_elem_of_lookup_2 in Hx. set_solver. }
  split; [|done]. pose proof (exposed_history _ Hl He') as Hlen. destruct Hr. constructor; try done. cbn in *. lia.
Qed.

Lemma derived_requested i digest d : Derived info d (d <| requestedDigests := <[i := digest]> d.(requestedDigests) |>).
Proof. constructor; try done. intros [[] Hx]. split; [|exact Hx]. constructor; try done. cbn. by rewrite length_insert. Qed.

Lemma derived_inactive d : Derived info d (d <| cycleActive := false |>).
Proof. constructor; try done. intros [[] Hx]. split; [by constructor|exact Hx]. Qed.

Lemma derived_backoff d now seed : Derived info d (applyFailureBackoff d now seed).
Proof.
  unfold applyFailureBackoff. cbv zeta.
  assert (forall v, in_u64 v -> Ranged d -> Ranged (d <| consecutiveFailures := v |>)) as Hc by (intros v Hv []; by constructor).
  destruct (Z.ltb_spec (consecutiveFailures d) (2 ^ 63 - 1)).
  - constructor; try done. intros [Hr Hx]. split; [|exact Hx]. assert (in_u64 (consecutiveFailures d + 1)) as Hf.
    { destruct Hr. unfold in_u64 in *. lia. }
    destruct (Hc _ Hf Hr). constructor; try done; [|apply i64_range]. cbn. unfold in_u8, u64.
    pose proof (Z.mod_pos_bound (consecutiveFailures d + 1 - 1) (2 ^ 64)). destruct (Z.ltb_spec 5 ((consecutiveFailures d + 1 - 1) mod 2 ^ 64)); lia.
  - constructor; try done. intros [Hr Hx]. split; [|exact Hx]. destruct Hr. constructor; try done; [|apply i64_range]. cbn. unfold in_u8, u64.
    pose proof (Z.mod_pos_bound (consecutiveFailures d - 1) (2 ^ 64)). destruct (Z.ltb_spec 5 ((consecutiveFailures d - 1) mod 2 ^ 64)); lia.
Qed.

Lemma derived_interrupt from d : Derived info d (interrupt from d).
Proof.
  unfold interrupt. cbv zeta. constructor; try done. intros [[] Hx]. split; [|exact Hx]. constructor; try done; cbn; rewrite length_imap.
  - split; [apply ra_attempts|]. apply Forall_lookup. intros i x Hi. rewrite list_lookup_imap in Hi.
    destruct (attempts d !! i) as [y|] eqn:Ey; [|done]. injection Hi as <-. destruct (_ && _); [unfold in_u8; lia|].
    destruct ra_attempts as [_ Hf]. by eapply Forall_lookup in Hf.
  - split; [apply ra_outcomes|]. apply Forall_lookup. intros i x Hi. rewrite list_lookup_imap in Hi.
    destruct (outcomes d !! i) as [y|] eqn:Ey; [|done]. injection Hi as <-. destruct (_ && _); [unfold in_u8, sourceOutcomeInterrupted; lia|].
    destruct ra_outcomes as [_ Hf]. by eapply Forall_lookup in Hf.
Qed.

Lemma derived_newCycle now seed d : Instant now -> Derived info d (newCycle now seed d).
Proof.
  intros Hn. unfold Instant in Hn. pose proof (unix_instant _ Hn). pose proof (unix_range now). unfold newCycle. cbv zeta.
  constructor; cbn; try done; try lia. intros [[] Hx]. split; [|exact Hx].
  constructor; cbn; try done; try apply u64_range; try apply unix_range.
  - unfold in_i64 in *. lia.
  - split; [done|]. repeat constructor; unfold in_u8; lia.
  - split; [done|]. repeat constructor; unfold in_u8; lia.
  - split; [done|]. repeat constructor; unfold in_u64; lia.
  - split; [by destruct (_ =? 1)|]. destruct (_ =? 1); repeat constructor; unfold in_u8; lia.
Qed.

(** The evidence of a wave at its width. *)
Definition Measured (outcomes epochs : list Z) (digests : list (array 32)) : Prop :=
  (length outcomes = 4%nat /\ Forall in_u8 outcomes) /\ (length epochs = 4%nat /\ Forall in_u64 epochs) /\ length digests = 4%nat.

Lemma derived_observed epochs digests d :
  length epochs = 4%nat /\ Forall in_u64 epochs -> length digests = 4%nat ->
  Derived info d (d <| observedEpochs := epochs |> <| observedDigests := digests |>).
Proof. intros He Hd. constructor; try done. intros [[] Hx]. split; [|exact Hx]. by constructor. Qed.

Lemma finishedStatus_range status outcome : in_u8 status -> in_u8 (finishedStatus status outcome).
Proof. intros Hs. unfold finishedStatus. destruct (_ =? _); [done|]. destruct (negb _); [done|]. by destruct (_ =? _). Qed.

Lemma derived_ended observed d :
  length observed = 4%nat /\ Forall in_u8 observed ->
  Derived info d ((next d) <| cycleActive := false |> <| outcomes := observed |> <| attempts := zip_with finishedStatus d.(attempts) observed |>).
Proof.
  intros Ho. constructor; try done. intros [[] Hx]. split; [|exact Hx]. constructor; try done; cbn; [apply u64_range|].
  rewrite length_zip_with. split; [lia|]. apply Forall_lookup. intros i x (y & z & -> & Hy & _)%lookup_zip_with_Some.
  apply finishedStatus_range. destruct ra_attempts as [_ Hf]. by eapply Forall_lookup in Hf.
Qed.

Lemma derived_success d : Derived info d (d <| consecutiveFailures := 0 |> <| backoffLevel := 0 |> <| nextAutomatic := 0 |>).
Proof. constructor; try done. intros [[] Hx]. split; [|exact Hx]. by constructor. Qed.

Lemma derived_finished now summary d :
  Measured summary.(summary_outcomes) summary.(summary_epochs) summary.(summary_digests) -> Derived info d (finished now summary d).
Proof.
  intros (Ho & He & Hd). etransitivity; [by apply (derived_observed summary.(summary_epochs) summary.(summary_digests))|].
  unfold finished. generalize (d <| observedEpochs := summary.(summary_epochs) |> <| observedDigests := summary.(summary_digests) |>).
  clear d. intros d. etransitivity; [by apply (derived_ended summary.(summary_outcomes))|].
  unfold finishWaveState. cbv zeta. destruct (existsb _ _); [apply derived_backoff|apply derived_success].
Qed.

End Derivations.

(** ** The calls of a wave *)

Section Calls.
Context `{GoLib} (c : config).

(** A call that changes only the distribution state. *)
Definition Moves (s s' : networkState) : Prop :=
  Goes c s s' /\ Redistributed s s' /\ Derived s.(ns_source) s.(ns_distribution) s'.(ns_distribution).

Lemma moves_refl s : Inv c s -> Moves s s.
Proof. intros Hi. split_and!; [by apply goes_refl|by destruct s|reflexivity]. Qed.

Lemma moves_trans s s1 s2 : Moves s s1 -> Moves s1 s2 -> Moves s s2.
Proof.
  intros (G1 & [E1 O1] & D1) (G2 & [E2 O2] & D2). split_and!; [by eapply goes_trans|split; [|by rewrite O2]|].
  - rewrite E2. rewrite E1. done.
  - etransitivity; [exact D1|]. by rewrite E1 in D2.
Qed.

Lemma commit_moves d s disk s' disk' r :
  Inv c s -> Derived s.(ns_source) s.(ns_distribution) d -> commitDistribution d s disk = (s', disk', r) -> Moves s s'.
Proof. intros Hi Hd Hc. destruct (commit_derived _ _ _ _ _ _ _ Hi Hd Hc) as (? & ? & ? & _). by split. Qed.

(** The last action of a call is a commit of a derived distribution state. *)
Lemma commit_then_moves {A} d (f : unit -> stateM A) s disk s' disk' r :
  Inv c s -> (commitDistribution d ≫= f) s disk = (s', disk', r) -> Derived s.(ns_source) s.(ns_distribution) d ->
  (forall s disk, exists r, f tt s disk = (s, disk, r)) -> Moves s s'.
Proof.
  intros Hi Hrun Hd Hf. apply bind_run in Hrun as [([] & s1 & disk1 & Hc & Hrest)|(e & Hc & _)]; [|by eapply commit_moves].
  destruct (Hf s1 disk1) as [r1 Hr]. rewrite Hr in Hrest. injection Hrest as <- _ _. by eapply commit_moves.
Qed.

Lemma beginLatestAttempt_moves index s disk s' disk' r :
  Inv c s -> beginLatestAttempt index s disk = (s', disk', r) -> Moves s s'.
Proof.
  intros Hi Hb. unfold beginLatestAttempt in Hb. runs Hb ltac:(by apply moves_refl).
  rewrite !orb_false_iff, !Z.ltb_ge in Hq. destruct Hq as [[_ H0] H1].
  destruct (_ =? 1); [eapply commit_then_moves; [done|exact Hb| |by eexists]|].
  { etransitivity; [apply derived_next|]. etransitivity; [by apply (derived_setStatus _ index 3)|by apply derived_setOutcome]. }
  destruct (negb _); [injection Hb as <- _ _; by apply moves_refl|].
  eapply commit_then_moves; [done|exact Hb| |by eexists].
  etransitivity; [apply derived_next|]. etransitivity; [by apply (derived_setStatus _ index 1)|].
  apply derived_expose; [apply Hi|lia].
Qed.

Lemma beginDigestAttempt_moves source digest s disk s' disk' r :
  Inv c s -> 0 <= source <= 1 -> beginDigestAttempt source digest s disk = (s', disk', r) -> Moves s s'.
Proof.
  intros Hi Hs Hb. unfold beginDigestAttempt in Hb. runs Hb ltac:(by apply moves_refl).
  eapply commit_moves; [done| |exact Hb].
  etransitivity; [apply derived_next|]. etransitivity; [by apply (derived_setStatus _ (2 + source) 1)|].
  etransitivity; [apply (derived_requested _ (Z.to_nat source) digest)|]. apply derived_expose; [apply Hi|lia].
Qed.

Lemma finishDigestAttempt_moves source succeeded s disk s' disk' r :
  Inv c s -> finishDigestAttempt source succeeded s disk = (s', disk', r) -> Moves s s'.
Proof.
  intros Hi Hb. unfold finishDigestAttempt in Hb. runs Hb ltac:(by apply moves_refl).
  eapply commit_moves; [done| |exact Hb]. etransitivity; [apply derived_next|]. apply derived_setStatus. by destruct succeeded.
Qed.

Lemma startSourceWave_moves now drawn roles s disk s' disk' r :
  Inv c s -> Instant now -> startSourceWave now drawn roles s disk = (s', disk', r) -> Moves s s'.
Proof.
  intros Hi Hn Hb. unfold startSourceWave in Hb. rewrite run_get in Hb. cbv zeta in Hb.
  assert (forall d, exists r, (_ ← lift roles; mret (sourceOrder d, OfUnix (cycleDeadline d)) : stateM (list Z * Z)) = fun s disk => (s, disk, r)) as Hroles.
  { intros d. destruct roles; by eexists. }
  destruct (cycleActive _).
  - destruct (negb _).
    + eapply commit_then_moves; [done|exact Hb| |by eexists]. etransitivity; [apply (derived_interrupt _ 0)|].
      etransitivity; [apply derived_next|]. etransitivity; [apply derived_inactive|]. apply derived_backoff.
    + destruct (Hroles (ns_distribution s)) as [r1 Hr]. destruct (existsb _ _).
      * eapply commit_then_moves; [done|exact Hb|..]; [|intros; cbv beta; rewrite Hr; by eexists].
        etransitivity; [apply (derived_interrupt _ 2)|]. apply derived_next.
      * cbn [mbind stateM_bind mret stateM_ret] in Hb. rewrite Hr in Hb. injection Hb as <- _ _. by apply moves_refl.
  - apply bind_run in Hb as [(seed & s1 & disk1 & Hs1 & Hb)|(e & Hs1 & _)].
    + assert (s1 = s) as -> by (destruct (_ ==? _) in Hs1; [destruct drawn|]; by injection Hs1).
      destruct (Hroles (newCycle now seed (ns_distribution s))) as [r1 Hr].
      eapply commit_then_moves; [done|exact Hb|..]; [by apply derived_newCycle|intros; cbv beta; rewrite Hr; by eexists].
    + assert (s' = s) as -> by (destruct (_ ==? _) in Hs1; [destruct drawn|]; by injection Hs1). by apply moves_refl.
Qed.

(** *** The end of a wave *)

(** A decision that a wave may have collected: of the current Epoch, or next. *)
Definition Collected (s : networkState) (d : candidateDecision) : Prop :=
  s.(ns_currentDecision) = Some d \/ Next c s.(ns_current) d.

Lemma reverify_ok known bundle changed d : reverify known bundle changed = Ok d -> d = known.
Proof. unfold reverify. intros. by inv_ok. Qed.

Lemma verifyResponse_collected s clock response d :
  Inv c s -> verifyResponse s clock response s.(ns_current) s.(ns_currentDecision) = Ok d -> Collected s d.
Proof.
  intros Hi Hv. unfold verifyResponse in Hv. inv_ok. subst. unfold verifySourceBundle in *.
  destruct (bundle_materials _) as [|m [|]]; [done| |done]. destruct (materializationIndex m); [|done]. inv_ok.
  destruct (iv_trust _ _ Hi) as [t Et].
  assert (forall now e i m, verifyDecision ((ns_config s) <| config_now := now |>) (ns_current s) e i m true = Ok d -> Collected s d) as Hnew.
  { intros now e i m'. rewrite Et. intros Hd%verifyDecision_ok. right. by apply (decided_next c now) in Hd as [? _]. }
  destruct (match ns_current s with Some _ => _ | None => _ end).
  { destruct (ns_currentDecision s) as [known|] eqn:Hk; [|done]. apply reverify_ok in Hok0 as ->. by left. }
  destruct (ns_pendingDecision s) as [known|] eqn:Hk; [|by eapply Hnew]. destruct (_ && _); [|by eapply Hnew]. inv_ok.
  apply reverify_ok in Hok0 as ->. right. by apply (iv_pending _ _ Hi).
Qed.

Lemma collected_number s d : Inv c s -> Collected s d -> 1 <= d.(cd_epoch).(number) <= maximumEpochChain.
Proof.
  intros Hi [Hc|Hn]; [|by apply (number_later c s d)]. destruct (iv_chain _ _ Hi d Hc) as [Hch _]. by apply chain_snapshot in Hch as (_ & _ & ?).
Qed.

(** What a source may have contributed to a wave. *)
Definition Contributed (s : networkState) (r : sourceResult) : Prop :=
  (length r.(sr_observations) = 4%nat /\ Forall in_u8 r.(sr_observations)) /\ forall d, r.(sr_decision) = Ok d -> Collected s d.

Definition Summarized (s : networkState) (sm : sourceWaveSummary) : Prop :=
  Forall (Collected s) sm.(valid) /\ Measured sm.(summary_outcomes) sm.(summary_epochs) sm.(summary_digests).

Lemma observed_outcomes l k :
  length l = 4%nat /\ Forall in_u8 l -> length k = 4%nat /\ Forall in_u8 k ->
  let m := zip_with (fun seen o => if o =? 0 then seen else o) l k in length m = 4%nat /\ Forall in_u8 m.
Proof.
  intros [L1 F1] [L2 F2]. cbv zeta. split; [rewrite length_zip_with; lia|].
  apply Forall_lookup. intros i x (y & z & -> & Hy & Hz)%lookup_zip_with_Some.
  eapply Forall_lookup in F1; [|exact Hy]. eapply Forall_lookup in F2; [|exact Hz]. by destruct (_ =? 0).
Qed.

Lemma summarizeResult_ok s sm r : Inv c s -> Summarized s sm -> Contributed s r -> Summarized s (summarizeResult sm r).
Proof.
  intros Hi (Hv & Ho & (Le & Fe) & Hd) (Hobs & Hdec). pose proof (observed_outcomes _ _ Ho Hobs) as Ho'. unfold summarizeResult. cbv zeta.
  destruct (sr_decision r) as [d|e].
  - specialize (Hdec d eq_refl). pose proof (collected_number _ _ Hi Hdec). split; [by apply Forall_app; split; [|constructor]|].
    split_and!; [apply Ho'|apply Ho'|cbn; by rewrite length_insert|apply Forall_insert; [done|]|cbn; by rewrite length_insert].
    unfold in_u64, maximumEpochChain in *. lia.
  - destruct (collisionErr _); [done|]. by destruct (errors_Is _ _).
Qed.

Lemma summarizeSourceWave_ok s results : Inv c s -> Forall (Contributed s) results -> Summarized s (summarizeSourceWave results).
Proof.
  intros Hi Hr. unfold summarizeSourceWave. assert (Summarized s (MkSummary [] none4 none4 noDigests4 None)) as H0.
  { split; [constructor|]. unfold Measured. cbn. split_and!; [done|by repeat constructor|done|by repeat constructor|done]. }
  revert H0. generalize (MkSummary [] none4 none4 noDigests4 None). induction Hr as [|r results Hr _ IH]; intros sm Hs; [done|].
  cbn [foldl]. by apply IH, summarizeResult_ok.
Qed.

Lemma newest_in selected others : newestSourceDecision selected others ∈ selected :: others.
Proof.
  unfold newestSourceDecision. revert selected. induction others as [|o others IH]; intros selected; cbn [foldl]; [by left|].
  destruct (_ <? _); [right; apply IH|]. specialize (IH selected). set_solver.
Qed.

(** *** Time in a wave *)

Definition Readable (clock : clockReading) : Prop := Instant clock.(wall) /\ Instant clock.(monotonic).

Lemma trustedNow_ok clock d now :
  Readable clock -> in_i64 d.(trustedTimeFloor) -> d.(trustedTimeFloor) < 2 ^ 62 -> trustedNow clock d = Ok now ->
  Instant now /\ d.(trustedTimeFloor) <= unix now /\ OfUnix d.(trustedTimeFloor) <= now.
Proof.
  intros [Hw Hm] Hr Hb Hn. unfold trustedNow in Hn. cbv zeta in Hn. inv_ok.
  set (t := if wall clock <? monotonic clock then monotonic clock else wall clock) in *.
  assert (Instant t) as Ht by (unfold t; by destruct (_ <? _)). clearbody t. rewrite unix_instant in * by done. unfold Instant in Ht.
  destruct (Z.ltb_spec (Unix t) (trustedTimeFloor d)); injection Hn as <-.
  - assert (Unix (OfUnix (trustedTimeFloor d)) = trustedTimeFloor d) as E.
    { rewrite OfUnix_small by lia. unfold Unix. apply Z.div_mul. by unfold Second, Millisecond. }
    assert (Instant (OfUnix (trustedTimeFloor d))) as Hi by (unfold Instant; rewrite E; lia).
    rewrite unix_instant, E by done. split_and!; [done|lia..].
  - rewrite unix_instant by done. split_and!; [done|done|]. unfold OfUnix. rewrite i64_id by (unfold in_i64 in *; lia). unfold Unix in *.
    pose proof (Z.mul_div_le t Second). unfold Second, Millisecond in *. lia.
Qed.

(** *** Pending decisions *)

Lemma inv_pending s pending :
  Inv c s -> (forall p, pending = Some p -> Next c s.(ns_current) p) -> Goes c s (s <| ns_pendingDecision := pending |>).
Proof.
  intros Hi Hp. apply goes_same; [|done|done]. destruct Hi. constructor; try done.
  - by apply (fits_same s).
  - intros x Hx. destruct (iv_disk x Hx) as (d & -> & Hf). exists d. split; [done|]. by apply (fits_same s).
Qed.

Lemma settle_goes d s : Inv c s -> Goes c s (settle d s).
Proof.
  intros Hi. rewrite settle_keeps. apply inv_pending; [done|]. intros p Hp. apply (iv_pending _ _ Hi). revert Hp. unfold settle.
  destruct (ns_pendingDecision s) as [q|] eqn:Hq; [|by rewrite Hq]. case_bool_decide; [done|by rewrite Hq].
Qed.

Lemma derived_pending info d digest' at' : in_i64 at' -> Derived info d (d <| pendingDigest := digest' |> <| pendingValidFrom := at' |>).
Proof. intros Ha. constructor; try done. intros [[] Hx]. split; [|exact Hx]. by constructor. Qed.

Lemma commitPendingSourceWave_goes now selected summary roles s disk s' disk' r :
  Inv c s -> Next c s.(ns_current) selected -> Summarized s summary ->
  commitPendingSourceWave now selected summary roles s disk = (s', disk', r) -> Goes c s s'.
Proof.
  intros Hi Hn [_ Hm] Hrun. unfold commitPendingSourceWave in Hrun. runs Hrun ltac:(by apply goes_refl).
  apply bind_run in Hrun as [([] & s1 & disk1 & Hs1 & Hrun)|(e & Hs1 & _)].
  2:{ destruct (ns_pendingDecision s); [done|]. destruct (persistDecision_grown _ _ _ _ _ _ _ Hs1) as [Hg _]; [done|].
      apply goes_same; [by eapply inv_grown|by rewrite (proj1 Hg)..]. }
  assert (Grown s s1) as Hg.
  { destruct (ns_pendingDecision s); [injection Hs1 as <- _; by split_and!; [destruct s|..|left]|].
    by apply (persistDecision_grown _ _ _ _ _ _ _) in Hs1 as [Hg _]. }
  pose proof (inv_grown _ _ _ Hi Hg) as Hi1. destruct Hg as (Es1 & _).
  assert (Goes c s s1) as Hgo by (apply goes_same; [done|by rewrite Es1..]). eapply goes_trans; [exact Hgo|].
  assert (Derived (ns_source s1) (ns_distribution s1) ((finished now summary (ns_distribution s)) <| pendingDigest := digest (cd_epoch selected) |>
    <| pendingValidFrom := unix (validFrom (cd_epoch selected)) |>)) as Hd.
  { rewrite Es1. cbn [ns_source ns_distribution set update]. etransitivity; [by apply (derived_finished _ now summary)|]. apply derived_pending, unix_range. }
  apply bind_run in Hrun as [([] & s2 & disk2 & Hs2 & Hrun)|(e & Hs2 & _)];
    apply (commit_moves _ _ _ _ _ _ Hi1 Hd) in Hs2 as (Hgo2 & [Es2 _] & _); [|done].
  eapply goes_trans; [exact Hgo2|]. destruct (ns_pendingDecision s).
  - injection Hrun as <- _ _. by apply goes_refl, Hgo2.
  - injection Hrun as <- _ _. apply inv_pending; [apply Hgo2|]. intros p [= <-]. by rewrite Es2, Es1.
Qed.

(** *** Active decisions *)

Lemma chain_stored g d :
  Chain c g d -> exists value, g !! hex_EncodeToString d.(cd_epoch).(digest) = Some value /\ parseEpoch value.(stored_Epoch) = Ok d.(cd_epoch).
Proof.
  unfold Chain. inversion 1 as [name value ? Hg Hname Hd|name value prior ? n Hg Hname Hd]; subst; exists value; (split; [done|]);
    pose proof (de_epoch _ _ _ _ _ Hd) as He; by apply verifyEpoch_ok in He as (Hp & _).
Qed.

Lemma derived_trusted info now d : Instant now -> Derived info d (d <| trustedTimeFloor := Z.max d.(trustedTimeFloor) (unix now) |>).
Proof.
  intros Hn. unfold Instant in Hn. pose proof (unix_instant _ Hn). pose proof (unix_range now). constructor; cbn; try done; try lia.
  intros [[] Hx]. split; [|exact Hx]. constructor; cbn; try done. unfold in_i64 in *. lia.
Qed.

(** The same Epoch once more: the floor keeps its digest. *)
Lemma same_fits s d current selected :
  Inv c s -> s.(ns_distribution).(conflicting) = false -> Derived s.(ns_source) s.(ns_distribution) d -> Collected s selected ->
  s.(ns_current) = Some current -> selected.(cd_epoch).(digest) = current.(state.Digest) ->
  let d' := clearPending selected (raiseFloor selected d) in
  Fits s d' /\ Exposed s.(ns_source) d' /\
  forall p, s.(ns_currentDecision) = Some p -> p.(cd_epoch).(validFrom) <= OfUnix d'.(trustedTimeFloor).
Proof.
  intros Hi Hcf Hd Hsel Hcur Hdig. cbv zeta. destruct (derived_fits _ _ _ Hi Hd) as ([Hr _ [Hb _] _] & Hx & Ht).
  destruct (clearPending_keeps selected (raiseFloor selected d)) as (K1 & K2 & K3 & K4). pose proof (collected_number _ _ Hi Hsel) as Hnum.
  unfold Exposed. rewrite K2, K4. split_and!; [|exact Hx|exact Ht].
  pose proof (iv_current _ _ Hi) as Hcd. rewrite Hcur in Hcd. destruct (ns_currentDecision s) as [p|] eqn:Hp; [|done]. injection Hcd as ->.
  destruct (iv_chain _ _ Hi p Hp) as [Hch _]. destruct (chain_snapshot _ _ _ Hch) as (E1 & E2 & _). rewrite E2 in Hdig.
  constructor.
  - apply ranged_clear, ranged_raise; [unfold in_u64, maximumEpochChain in *; lia|done].
  - rewrite K1. destruct Hsel as [Hs|Hn].
    + rewrite Hp in Hs. injection Hs as ->. right. unfold shownEpoch, floorOf. rewrite Hcur. cbn. by rewrite E1, E2.
    + left. by apply (number_later c s selected).
  - injection K1 as _ K1. split; [by rewrite K2|]. intros _. rewrite K1, K2, Hdig.
    destruct (chain_stored _ _ Hch) as (value & Hv & Hpv). exists value, (cd_epoch p). split_and!; [done..|]. by apply Ht.
  - by rewrite Hcf.
Qed.

Lemma commitActiveSourceWave_goes now selected summary roles s disk s' disk' r :
  Inv c s -> Collected s selected -> allowCandidateTransition s selected = Ok tt -> Summarized s summary ->
  Instant now -> selected.(cd_epoch).(validFrom) <= now ->
  commitActiveSourceWave now selected summary roles s disk = (s', disk', r) -> Goes c s s'.
Proof.
  intros Hi Hsel Hal [_ Hm] Hn Hle Hrun. unfold commitActiveSourceWave in Hrun. runs Hrun ltac:(by apply goes_refl).
  set (base := (finished now summary (ns_distribution s)) <| trustedTimeFloor := Z.max (trustedTimeFloor (finished now summary (ns_distribution s))) (unix now) |>).
  assert (Derived (ns_source s) (ns_distribution s) base) as Hd.
  { etransitivity; [by apply (derived_finished _ now summary)|by apply derived_trusted]. }
  assert (unix now <= trustedTimeFloor base) as Hnow by (cbn; lia).
  match type of Hrun with context [clearPending selected ?x] => change x with (raiseFloor selected base) in Hrun end. clearbody base.
  assert (conflicting (ns_distribution s) = false) as Hcf by (unfold allowCandidateTransition in Hal; by inv_ok).
  assert (forall s1, Goes c s s1 -> Goes c s (settle selected s1)) as Hset by (intros s1 Hg; eapply goes_trans; [exact Hg|apply settle_goes, Hg]).
  assert (exists s1 disk1 r1, (if match ns_current s with Some c => digest (cd_epoch selected) !=? state.Digest c | None => true end
    then commitActiveDecision selected (clearPending selected (raiseFloor selected base))
    else commitDistribution (clearPending selected (raiseFloor selected base))) s disk = (s1, disk1, r1) /\ (s' = s1 \/ s' = settle selected s1))
    as (s1 & disk1 & r1 & Hrun1 & Hs').
  { apply bind_run in Hrun as [([] & s1 & disk1 & Hs1 & Hrun)|(e & Hs1 & _)]; [|by eauto 10]. injection Hrun as <- _ _. by eauto 10. }
  assert (Goes c s s1) as Hgo; [|by destruct Hs' as [-> | ->]; [|apply Hset]]. clear Hrun Hs' Hset.
  destruct (match ns_current s with Some _ => _ | None => _ end) eqn:Hcase.
  - assert (Next c (ns_current s) selected) as Hnext.
    { destruct Hsel as [Hs|?]; [exfalso|done]. rewrite (iv_current _ _ Hi), Hs in Hcase. cbn in Hcase.
      destruct (chain_snapshot _ _ _ (proj1 (iv_chain _ _ Hi _ Hs))) as (_ & E & _). rewrite E in Hcase. by rewrite bool_decide_eq_true_2 in Hcase. }
    destruct (allowed _ _ _ Hi Hnext Hal) as [_ Hpend]. destruct (derived_fits _ _ _ Hi Hd) as ([Hr _ [Hb _] _] & Hx & _).
    destruct (clearPending_keeps selected (raiseFloor selected base)) as (_ & K2 & _ & K4).
    pose proof (collected_number _ _ Hi Hsel) as Hnum. unfold maximumEpochChain in Hnum.
    eapply (commitActiveDecision_goes c selected (clearPending selected (raiseFloor selected base))); try done.
    + apply ranged_clear, ranged_raise; [unfold in_u64; lia|done].
    + unfold Exposed. rewrite K4. exact Hx.
    + rewrite K2. split; [apply Hd|done].
    + rewrite K2. pose proof (de_epoch _ _ _ _ _ Hnext) as He. apply verifyEpoch_ok in He as (Hparse & _ & _).
      eapply started_at; [done|exact Hle|done|]. split; [exact Hnow|exact Hb].
  - destruct (ns_current s) as [current|] eqn:Hcur; [|done]. rewrite negb_false_iff, bool_decide_eq_true in Hcase.
    destruct (same_fits s base current selected) as (Hfit & Hx & Ht); try done.
    apply commitDistribution_inv with (c := c) in Hrun1 as (Hi1 & [Er _] & _); [|done..].
    constructor; [done|unfold shownEpoch; by rewrite Er|by rewrite Hcf].
Qed.

(** *** The choice among the collected decisions *)

Lemma recordSourceConflict_moves now summary s disk s' disk' r :
  Inv c s -> Summarized s summary -> recordSourceConflict now summary s disk = (s', disk', r) -> Moves s s'.
Proof.
  intros Hi [_ Hm] Hrun. eapply commit_moves; [done| |exact Hrun].
  etransitivity; [by apply (derived_finished _ now summary)|apply derived_conflict].
Qed.

Lemma commitSourceFailure_moves now summary s disk s' disk' r :
  Inv c s -> Summarized s summary -> commitSourceFailure now summary s disk = (s', disk', r) -> Moves s s'.
Proof. intros Hi [_ Hm] Hrun. eapply commit_moves; [done| |exact Hrun]. by apply (derived_finished _ now summary). Qed.

(** A call whose result is fixed in advance. *)
Lemma then_lift {A B} (m : stateM A) (r0 : result B) s disk s' disk' r :
  (_ ← m; lift r0) s disk = (s', disk', r) -> exists disk1 r1, m s disk = (s', disk1, r1).
Proof. intros [(a & s1 & disk1 & Hm & Hl)|(e & Hm & _)]%bind_run; [injection Hl as <- _ _|]; eauto. Qed.

Lemma selectSourceWave_goes started results clock roles s disk s' disk' r :
  Inv c s -> Forall (Contributed s) results -> Readable clock ->
  selectSourceWave started results clock roles s disk = (s', disk', r) -> Goes c s s'.
Proof.
  intros Hi Hres Hck Hrun. pose proof (summarizeSourceWave_ok _ _ Hi Hres) as Hsum. unfold selectSourceWave in Hrun. cbv zeta in Hrun.
  set (summary := summarizeSourceWave results) in *. clearbody summary.
  assert (forall e : error, (_ ← recordSourceConflict started summary; lift (Err e)) s disk = (s', disk', r) -> Goes c s s') as Hconf.
  { intros e (disk1 & r1 & H1)%then_lift. by eapply recordSourceConflict_moves in H1 as [? _]. }
  assert (forall now (e : error), (_ ← commitSourceFailure now summary; lift (Err e)) s disk = (s', disk', r) -> Goes c s s') as Hfail.
  { intros now e (disk1 & r1 & H1)%then_lift. by eapply commitSourceFailure_moves in H1 as [? _]. }
  destruct (collisionErr summary); [by eapply Hconf|]. destruct (sourceConflict _); [by eapply Hconf|]. rewrite run_get in Hrun.
  destruct (valid summary) as [|first others] eqn:Hv.
  { run1 Hrun; [by eapply Hfail|]. injection Hrun as <- _ _. by apply goes_refl. }
  set (selected := newestSourceDecision first others) in *.
  assert (Collected s selected) as Hsel.
  { destruct Hsum as [Hf _]. rewrite Hv in Hf. rewrite Forall_forall in Hf. apply Hf, newest_in. }
  clearbody selected. destruct (allowCandidateTransition s selected) as [[]|e] eqn:Hal; [|by eapply Hconf].
  run1 Hrun; [|injection Hrun as <- _ _; by apply goes_refl]. rename a into now.
  destruct (iv_memory _ _ Hi) as [Hr _ [Hb _] _]. destruct (trustedNow_ok _ _ _ Hck (ra_trusted _ Hr) Hb Hq) as (Hn & _ & Hfl).
  destruct (Z.ltb_spec now (validFrom (cd_epoch selected))) as [Hlt|Hge].
  - eapply commitPendingSourceWave_goes; [done| |exact Hsum|exact Hrun]. destruct Hsel as [Hs|?]; [exfalso|done].
    destruct (iv_chain _ _ Hi _ Hs). lia.
  - destruct (negb _); [by eapply Hfail|]. by eapply commitActiveSourceWave_goes.
Qed.

Lemma finally_goes {A} (m : stateM A) s disk s' disk' r :
  (forall s1 disk1 r1, m s disk = (s1, disk1, r1) -> Goes c s s1) -> finally m s disk = (s', disk', r) -> Goes c s s'.
Proof.
  intros Hm Hf. unfold finally in Hf. destruct (m s disk) as [[s1 disk1] r1]. injection Hf as <- _ _. specialize (Hm _ _ _ eq_refl).
  eapply goes_trans; [exact Hm|]. replace (s1 <| ns_refreshing := false |>) with (s1 <| ns_refreshing := false |> <| ns_closed := s1.(ns_closed) |>) by (by destruct s1).
  apply goes_flags, Hm.
Qed.

Lemma completeSourceWave_goes started base results clock roles s disk s' disk' r :
  Inv c s -> Forall (Contributed s) results -> Readable clock ->
  completeSourceWave started base results clock roles s disk = (s', disk', r) -> Goes c s s'.
Proof.
  intros Hi Hres Hck. apply finally_goes. intros s1 disk1 r1 Hrun. runs Hrun ltac:(by apply goes_refl). by eapply selectSourceWave_goes.
Qed.

(** *** The start of a wave *)

Lemma caught_run {A B} (m : stateM A) (f : result A -> stateM B) s disk :
  (caught m ≫= f) s disk = let '(s1, disk1, r) := m s disk in f r s1 disk1.
Proof. unfold mbind, stateM_bind, caught. by destruct (m s disk) as [[s1 disk1] r]. Qed.

Lemma beginRefresh_goes clock drawn roles s disk s' disk' r :
  Inv c s -> Readable clock -> beginRefresh clock drawn roles s disk = (s', disk', r) ->
  Goes c s s' /\
  (is_ok r -> s'.(ns_refreshing) = true /\ s'.(ns_current) = s.(ns_current) /\ s'.(ns_currentDecision) = s.(ns_currentDecision)).
Proof.
  intros Hi Hck Hrun. unfold beginRefresh in Hrun.
  repeat (run1 Hrun; try (lazymatch type of Hrun with (_, _, _) = _ => injection Hrun as <- _ <-; by split; [apply goes_refl|] end)).
  rename a into now. destruct (iv_memory _ _ Hi) as [Hr _ [Hb _] _].
  match goal with X : trustedNow _ _ = Ok _ |- _ => destruct (trustedNow_ok _ _ _ Hck (ra_trusted _ Hr) Hb X) as (Hn & _) end.
  rewrite caught_run in Hrun. destruct (startSourceWave _ _ _ _ _) as [[s1 disk1] r1] eqn:Hs1.
  assert (forall b x, Inv c x -> Goes c x (x <| ns_refreshing := b |>)) as Hflag.
  { intros b x Hx. replace (x <| ns_refreshing := b |>) with (x <| ns_refreshing := b |> <| ns_closed := x.(ns_closed) |>) by (by destruct x).
    by apply goes_flags. }
  pose proof (Hflag true _ Hi) as Hg. apply startSourceWave_moves in Hs1 as (Hg1 & [Er _] & _); [|apply Hg|done].
  pose proof (goes_trans _ _ _ _ Hg Hg1) as Hg2. destruct r1 as [order|e].
  - injection Hrun as <- _ <-. split; [done|]. intros _. by rewrite Er.
  - rewrite run_modify in Hrun. injection Hrun as <- _ <-. split; [|done]. eapply goes_trans; [exact Hg2|]. apply Hflag, Hg2.
Qed.

End Calls.
