(* ===== verification/NetStateMachine.v ===== *)
(** * The running Network State: restarts and histories

    A node in time: the calls of NetState.v in any order, the two fetches of a wave
    interleaved with one another and with other calls, a disk that can fail in each
    of them, crashes, and restarts on what the disk then holds. *)

From S2P Require Import Prelude Wire GoLib GoTime Merkle StateView NetEpoch NetEpochProof NetEpochDecision NetEpochChain.
From S2P Require Import NetState NetStateCodec NetStateProof NetStateWave.

Import netstate running.

Section Restart.
Context `{GoLib} (c : config).

(** ** Reading the disk *)

Lemma loadState_ok root stored : loadState root = Ok stored -> stored.2 = root.(generations) /\ (root.(currentPointer) = None -> stored.1 = []).
Proof. unfold loadState. intros Hl. inv_ok. destruct (currentPointer root) as [name|]; inv_ok; by subst. Qed.

Lemma loadChain_ok t g name d seen : loadChain (c <| config_now := t |>) g name = Some (Ok d, seen) -> Chain c g d /\ name = hex_EncodeToString d.(cd_epoch).(digest).
Proof.
  unfold loadChain. generalize (S (Z.to_nat maximumEpochChain)). intros fuel (n & Hn)%loadGenerationChain_history. rewrite history_now in Hn. split; [by eapply chain_history|].
  by destruct (history_number _ _ _ _ _ Hn) as (_ & _ & -> & _).
Qed.

Lemma loadStoredChain_ok t root name d :
  loadStoredChain (c <| config_now := t |>) root name = Ok d -> Chain c root.(generations) d /\ name = hex_EncodeToString d.(cd_epoch).(digest).
Proof.
  unfold loadStoredChain. intros Hl. inv_ok. match goal with X : loadState _ = Ok _ |- _ => apply loadState_ok in X as [E _]; rewrite E in Hl end.
  destruct (loadChain _ _ _) as [[r seen]|] eqn:Hc; [|done]. cbn in Hl. subst r. by eapply loadChain_ok.
Qed.

Lemma loadCurrent_ok t root r :
  loadCurrent (c <| config_now := t |>) root = Ok r ->
  match r with Some (current, d) => current = d.(cd_snapshot) /\ Chain c root.(generations) d /\ root.(currentPointer) <> None | None => True end.
Proof.
  unfold loadCurrent. intros Hl. inv_ok. match goal with X : loadState _ = Ok _ |- _ => apply loadState_ok in X as [E Ec]; rewrite E in Hl end.
  unfold netstate.loadCurrent in Hl. destruct (bool_decide_reflect (a.1 = [])) as [Hn|Hn].
  { cbn in Hl. inv_ok. by subst. }
  destruct (loadChain _ _ _) as [[[d|] seen]|] eqn:Hc; [|done..]. cbn in Hl. inv_ok. subst r. apply loadChain_ok in Hc as [Hc _]. split_and!; [done..|].
  intros Hp. by apply Hn, Ec.
Qed.

Lemma loadControl_ok root name raw :
  loadControl root = Ok (name, raw) -> name = [] /\ root.(controlPointer) = None \/ name <> [] /\ pointed root = Some (name, raw).
Proof.
  unfold loadControl, pointed. intros Hl. inv_ok. destruct (controlPointer root) as [n|]; inv_ok; [|left; by simplify_eq].
  destruct (controls root !! n) as [r|] eqn:Hr; [|done]. inv_ok. injection Hl as -> ->. right. split; [|cbn; by rewrite Hr].
  intros ->. match goal with X : negb (generationName []) = false |- _ => by vm_compute in X end.
Qed.

(** ** The state just loaded *)

Record Loaded (s : networkState) : Prop := {
  lo_trust : exists t, s.(ns_config) = c <| config_now := t |>;
  lo_sources : length s.(ns_source).(Exposures) = 2%nat;
  lo_current : s.(ns_current) = cd_snapshot <$> s.(ns_currentDecision);
  lo_chain : forall d, s.(ns_currentDecision) = Some d -> Chain c s.(ns_storage).(generations) d;
  lo_pending : s.(ns_pendingDecision) = None
}.

Lemma exposed_few info d : len d.(history) <= 2 -> Exposed info d.
Proof. intros Hl. exists d.(history), []. rewrite app_nil_r. split_and!; [done|done|constructor|set_solver]. Qed.

Lemma shown_positive s : Inv c s -> s.(ns_current) = None /\ shownEpoch s = (0, zero32) \/ 1 <= (shownEpoch s).1.
Proof.
  intros Hi. unfold shownEpoch. rewrite (iv_current _ _ Hi). destruct (ns_currentDecision s) as [p|] eqn:Hp; [right|by left].
  destruct (iv_chain _ _ Hi p Hp) as [Hc _]. destruct (chain_snapshot _ _ _ Hc) as (E & _ & ?). cbn. lia.
Qed.

(** The generation loaded is the one of the floor. *)
Lemma loaded_floor s s0 d :
  Inv c s -> Fits s d -> Loaded s0 -> behind d s0.(ns_current) = false ->
  (forall current, s0.(ns_current) = Some current -> current.(state.Epoch) <= d.(epochFloor)) -> shownEpoch s0 = floorOf d.
Proof.
  intros Hi Hf Hl Hb Ho. unfold shownEpoch. rewrite (lo_current _ Hl) in *. destruct (ns_currentDecision s0) as [p|] eqn:Hp; cbn in *.
  - destruct (chain_snapshot _ _ _ (lo_chain _ Hl p Hp)) as (E1 & E2 & Hn). specialize (Ho _ eq_refl). unfold behind in Hb.
    assert (epochFloor d <> 0) as Hne by lia. rewrite (proj2 (Z.eqb_neq _ _) Hne) in Hb. cbn in Hb. rewrite orb_false_iff, Z.ltb_ge in Hb. destruct Hb as [Hb1 Hb2].
    assert (epochFloor d = state.Epoch (cd_snapshot p)) as Ee by lia. rewrite Ee, Z.eqb_refl in Hb2. cbn in Hb2. rewrite negb_false_iff, bool_decide_eq_true in Hb2.
    unfold floorOf. by rewrite Ee, Hb2.
  - unfold behind in Hb. rewrite andb_true_r, negb_false_iff, Z.eqb_eq in Hb. pose proof (fi_floor _ _ Hf) as Hlater. unfold floorOf in *. rewrite Hb in *.
    destruct (shown_positive _ Hi) as [[_ Hs]|Hs]; [rewrite Hs in Hlater|]; destruct Hlater as [Hx|Hx]; cbn in Hx; [lia|done|lia|]. rewrite Hx in Hs. cbn in Hs. lia.
Qed.

Lemma reopened s s0 d :
  Inv c s -> Fits s d -> s0.(ns_storage) = s.(ns_storage) ->
  pointed s.(ns_storage) = Some (distributionDigest (encodeDistributionState d), encodeDistributionState d) ->
  Loaded s0 -> Consistent d -> behind d s0.(ns_current) = false ->
  (forall current, s0.(ns_current) = Some current -> current.(state.Epoch) <= d.(epochFloor)) -> Goes c s (s0 <| ns_distribution := d |>).
Proof.
  intros Hi Hf Es Hp Hl Hcons Hb Ho. pose proof (loaded_floor _ _ _ Hi Hf Hl Hb Ho) as Hshown.
  assert (shownEpoch (s0 <| ns_distribution := d |>) = floorOf d) as Hshown' by exact Hshown.
  assert (Fits (s0 <| ns_distribution := d |>) d) as Hfit.
  { destruct Hf. constructor; [done|by rewrite Hshown'|by cbn; rewrite Es|done]. }
  constructor; [|rewrite Hshown'; apply (fi_floor _ _ Hf)|exact (fi_latch _ _ Hf)]. destruct Hl. constructor; cbn; try done.
  - apply exposed_few, Hcons.
  - intros p Hcd. split; [by apply lo_chain0|]. destruct (chain_snapshot _ _ _ (lo_chain0 p Hcd)) as (E1 & E2 & Hn).
    unfold shownEpoch in Hshown. rewrite lo_current0, Hcd in Hshown. cbn in Hshown. injection Hshown as F1 F2. rewrite E1 in F1. rewrite E2 in F2.
    destruct (fi_timed _ _ Hf) as [_ Ht]. destruct Ht as (value & e & Hv & Hpe & Hle); [lia|]. rewrite <- F2 in Hv.
    destruct (chain_stored _ _ _ (lo_chain0 p Hcd)) as (value' & Hv' & Hpe'). rewrite Es in Hv'. rewrite Hv in Hv'. injection Hv' as <-. congruence.
  - intros p Hcd. by rewrite lo_pending0 in Hcd.
  - intros x Hx. rewrite Es, Hp in Hx. injection Hx as <-. by exists d.
  - intros _. by rewrite Es, Hp.
Qed.

(** ** Recovery *)

Lemma derived_cleared info d : Derived info d (d <| pendingDigest := zero32 |> <| pendingValidFrom := 0 |> <| sequence := u64 (d.(sequence) + 1) |>).
Proof. constructor; try done. intros [[] Hx]. split; [|exact Hx]. constructor; try done. apply u64_range. Qed.

Lemma recoverPendingState_goes s disk s' disk' r : Inv c s -> recoverPendingState s disk = (s', disk', r) -> Goes c s s'.
Proof.
  intros Hi Hrun. unfold recoverPendingState in Hrun. rewrite run_get in Hrun. cbv zeta in Hrun.
  destruct (_ ==? zero32); [injection Hrun as <- _ _; by apply goes_refl|].
  destruct (ns_current s) as [current|] eqn:Hcur; [|injection Hrun as <- _ _; by apply goes_refl].
  destruct (_ ==? state.Digest current).
  { eapply commit_moves in Hrun as [? _]; [done|done|]. apply derived_cleared. }
  runs Hrun ltac:(by apply goes_refl). injection Hrun as <- _ _. apply inv_pending; [done|]. intros p [= <-]. rewrite Hcur.
  destruct (iv_trust _ _ Hi) as [t Et]. rewrite Et in Hq. unfold wrap, loadNamedGeneration in Hq.
  destruct (loadState _) as [stored|]; [|done]. cbn in Hq. destruct (stored.2 !! _) as [value|]; [|done].
  destruct (loadGeneration _ _ _) as [d|] eqn:Hl; [|done]. injection Hq as <-. apply loadGeneration_ok in Hl as [Hd _]. by apply decided_next in Hd as [? _].
Qed.

(** The storage may have grown, and the generation of the floor is shown. *)
Lemma recoverDistributionActive_ok d s0 disk s' disk' r :
  Loaded s0 -> pointed s0.(ns_storage) <> None -> recoverDistributionActive d s0 disk = (s', disk', r) ->
  Grown s0 (s0 <| ns_storage := s'.(ns_storage) |>) /\
  (r = Ok tt -> Loaded s' /\ s'.(ns_distribution) = s0.(ns_distribution) /\ behind d s'.(ns_current) = false).
Proof.
  intros Hl Hp Hrun. assert (Grown s0 s0) as Hrefl by (by split_and!; [destruct s0|..|left]).
  assert (s0 <| ns_storage := ns_storage s0 |> = s0) as Hsame by (by destruct s0).
  unfold recoverDistributionActive in Hrun. rewrite run_get in Hrun. destruct (lo_trust _ Hl) as [t Et].
  run1 Hrun; [|injection Hrun as <- _ <-; by rewrite Hsame]. run1 Hrun; [injection Hrun as <- _ <-; by rewrite Hsame|].
  rename a into p. unfold wrap in Hq. rewrite Et in Hq. destruct (loadStoredChain _ _ _) as [x|] eqn:Hx; [|done]. injection Hq as ->.
  apply loadStoredChain_ok in Hx as [Hch _]. rewrite orb_false_iff, !negb_false_iff, bool_decide_eq_true, Z.eqb_eq in Hq0. destruct Hq0 as [En Ed].
  assert (exists s1 disk1 r1, persistDecision p true s0 disk = (s1, disk1, r1) /\ (r = Ok tt /\ s' = activate p s1 \/ is_err r /\ s' = s1)) as (s1 & disk1 & r1 & Hs1 & Hres).
  { unfold wrapped in Hrun. unfold mbind, stateM_bind in Hrun. destruct (persistDecision p true s0 disk) as [[s1 disk1] [[]|e]]; injection Hrun as <- _ <-; eauto 10. }
  destruct (persistDecision_grown _ _ _ _ _ _ _ Hs1) as [Hg _]; [done|]. pose proof Hg as (Es1 & _ & Hsub & _).
  assert (Grown s0 (s0 <| ns_storage := ns_storage s' |>)) as Hg' by (destruct Hres as [[_ ->]|[_ ->]]; by rewrite Es1 in Hg).
  split; [done|]. intros ->. destruct Hres as [[_ ->]|[? _]]; [|done]. destruct (chain_snapshot _ _ _ Hch) as (E1 & E2 & Hn).
  split_and!; [|cbn; by rewrite Es1|].
  - destruct Hl. constructor; cbn; [rewrite Es1; by exists t|by rewrite Es1|done| |by rewrite Es1]. intros ? [= <-]. by eapply history_mono.
  - unfold behind. cbn. rewrite E1, E2, En, Ed, Z.ltb_irrefl, Z.eqb_refl, (bool_decide_eq_true_2 (epochDigest d = epochDigest d)) by done. cbn. apply andb_false_r.
Qed.

Lemma grown_goes s s' : Inv c s -> Grown s s' -> Goes c s s'.
Proof. intros Hi Hg. apply goes_same; [by eapply inv_grown|by rewrite (proj1 Hg)..]. Qed.

(** What a restart leaves: a state that the node before it could have reached, in
    memory when it succeeds and on disk in any case. *)
Definition Restarts (s s' : networkState) (r : result unit) : Prop :=
  exists s1, Goes c s s1 /\ s1.(ns_storage) = s'.(ns_storage) /\ (r = Ok tt -> s1 = s').

Lemma restarts_failed s s' e : Inv c s -> s'.(ns_storage) = s.(ns_storage) -> Restarts s s' (Err e).
Proof. intros Hi E. exists s. by split_and!; [apply goes_refl|..]. Qed.

Lemma fresh_restart s s0 :
  Inv c s -> Loaded s0 -> s0.(ns_storage) = s.(ns_storage) -> pointed s.(ns_storage) = None -> s0.(ns_currentDecision) = None ->
  s0.(ns_distribution) = zeroDistribution -> Goes c s s0.
Proof.
  intros Hi Hl Es Hp Hn Hd. destruct (shown_positive _ Hi) as [[Hcur Hshown]|Hshown].
  2:{ exfalso. apply (iv_recorded _ _ Hi); [|done]. left. intros Hx. unfold shownEpoch in Hshown. rewrite Hx in Hshown. cbn in Hshown. lia. }
  pose proof (lo_current _ Hl) as Hcur0. rewrite Hn in Hcur0. cbn in Hcur0.
  assert (shownEpoch s0 = (0, zero32)) as Hshown0 by (unfold shownEpoch; by rewrite Hcur0).
  assert (conflicting (ns_distribution s) = false) as Hcf.
  { destruct (conflicting _) eqn:E; [|done]. exfalso. apply (iv_recorded _ _ Hi); [|done]. by right; left. }
  assert (currentPointer (ns_storage s) = None) as Hcp.
  { destruct (currentPointer _) eqn:E; [|done]. exfalso. apply (iv_recorded _ _ Hi); [|done]. right; right. by rewrite E. }
  constructor; [|by rewrite Hshown, Hshown0|by rewrite Hcf]. destruct Hl. constructor; try done.
  - rewrite Hd. by apply exposed_few.
  - rewrite Hn. done.
  - rewrite lo_pending0. done.
  - rewrite Hd. constructor; [|by rewrite Hshown0|by split|by rewrite Hd]. constructor; try done; (split; [done|]); by repeat constructor.
  - by rewrite Es, Hp.
  - rewrite Hcur0, Hd, Es, Hcp. by intros [?|[?|?]].
Qed.

Lemma loadDistributionState_restarts s s0 disk s' disk' r :
  Inv c s -> Loaded s0 -> s0.(ns_storage) = s.(ns_storage) -> s0.(ns_distribution) = zeroDistribution ->
  (s0.(ns_currentDecision) <> None -> s.(ns_storage).(currentPointer) <> None) ->
  loadDistributionState s0 disk = (s', disk', r) -> Restarts s s' r.
Proof.
  intros Hi Hl Es Hd Hcp Hrun. unfold loadDistributionState in Hrun. rewrite run_get, run_lift in Hrun.
  destruct (loadControl (ns_storage s0)) as [[name raw]|e] eqn:Hc; cbn [wrap] in Hrun; [|injection Hrun as <- _ <-; by apply restarts_failed].
  apply loadControl_ok in Hc. rewrite Es in Hc. cbn [fst snd] in Hrun. destruct Hc as [[-> Hp]|[Hne Hp]].
  - assert (pointed (ns_storage s) = None) as Hpt by (unfold pointed; by rewrite Hp).
    assert (ns_currentDecision s0 = None) as Hn.
    { destruct (ns_currentDecision s0) eqn:E; [|done]. exfalso. apply (iv_recorded _ _ Hi); [|done]. right; right. by apply Hcp. }
    rewrite bool_decide_eq_true_2 in Hrun by done. injection Hrun as <- _ <-. rewrite (lo_current _ Hl), Hn. cbn. exists s0.
    split_and!; [by apply fresh_restart|done|done].
  - rewrite bool_decide_eq_false_2 in Hrun by done. destruct (iv_disk _ _ Hi _ Hp) as (d & [= -> ->] & Hf).
    destruct (decodeDistributionState _) as [d'|e] eqn:Hdec; [|injection Hrun as <- _ <-; by apply restarts_failed].
    pose proof Hdec as (_ & Hcons & _)%decode_ok. apply decode_encode in Hdec as ->; [|by apply Hf].
    run1 Hrun; [injection Hrun as <- _ <-; by apply restarts_failed|].
    assert (exists s1 disk1 r1, (if behind d (ns_current s0) then recoverDistributionActive d else mret tt) s0 disk = (s1, disk1, r1) /\
      Grown s0 (s0 <| ns_storage := ns_storage s1 |>) /\
      (r1 = Ok tt -> Loaded s1 /\ s1.(ns_distribution) = s0.(ns_distribution) /\ behind d s1.(ns_current) = false)) as (s1 & disk1 & r1 & Hs1 & Hg & Hok).
    { destruct (behind d (ns_current s0)) eqn:Hb.
      - destruct (recoverDistributionActive d s0 disk) as [[s1 disk1] r1] eqn:Hr. exists s1, disk1, r1. split; [done|].
        eapply recoverDistributionActive_ok; [done| |exact Hr]. by rewrite Es, Hp.
      - exists s0, disk, (Ok tt). split; [done|]. split; [|done]. split_and!; [by destruct s0|done|done|by left]. }
    assert (Grown s (s <| ns_storage := ns_storage s1 |>)) as Hg'.
    { destruct Hg as (_ & G1 & G2 & G3). cbn in *. rewrite Es in *. by split_and!. }
    assert (Goes c s (s <| ns_storage := ns_storage s1 |>)) as Hgo by (by apply grown_goes).
    unfold mbind at 1, stateM_bind at 1 in Hrun. rewrite Hs1 in Hrun. destruct r1 as [[]|e].
    2:{ injection Hrun as <- _ <-. by exists (s <| ns_storage := ns_storage s1 |>). }
    destruct (Hok eq_refl) as (Hl1 & _ & Hb). rewrite run_get in Hrun.
    run1 Hrun; [injection Hrun as <- _ <-; by exists (s <| ns_storage := ns_storage s1 |>)|]. rewrite run_modify in Hrun.
    assert (Goes c (s <| ns_storage := ns_storage s1 |>) (s1 <| ns_distribution := d |>)) as Hgo1.
    { apply reopened; try done; [apply Hgo|eapply (fits_same s); try done; apply Hg'| |].
      - destruct Hg' as (_ & -> & _). done.
      - intros current Hcur. rewrite Hcur, Z.ltb_ge in Hq0. done. }
    exists s'. split_and!; [|done|done]. eapply goes_trans; [exact Hgo|]. eapply goes_trans; [exact Hgo1|].
    eapply recoverPendingState_goes; [apply Hgo1|exact Hrun].
Qed.

Lemma open_restarts s t info disk s' disk' r :
  Inv c s -> length info.(Exposures) = 2%nat -> open (c <| config_now := t |>) info s.(ns_storage) disk = (s', disk', r) -> Restarts s s' r.
Proof.
  intros Hi Hx Hrun. unfold open in Hrun. cbv zeta in Hrun.
  set (root := (ns_storage s) <| root_closed := false |>) in *. cbn [ns_storage] in Hrun.
  assert (Goes c s (s <| ns_storage := root |>)) as Hgo.
  { apply grown_goes; [done|]. split_and!; [done|done|done|by left]. }
  assert (forall s0, Restarts (s <| ns_storage := root |>) s0 r -> Restarts s s0 r) as Hpre.
  { intros s0 (s1 & Hg & Hs). exists s1. split; [by eapply goes_trans|done]. }
  destruct (loadCurrent (c <| config_now := t |>) root) as [[[current d]|]|e] eqn:Hc.
  - apply loadCurrent_ok in Hc as (-> & Hch & Hcp). apply Hpre. refine (loadDistributionState_restarts _ _ disk _ disk' _ (go_inv _ _ _ Hgo) _ _ _ _ Hrun); [|done|done|intros _; exact Hcp].
    constructor; cbn; try done; [by exists t|]. by intros ? [= <-].
  - apply Hpre. refine (loadDistributionState_restarts _ _ disk _ disk' _ (go_inv _ _ _ Hgo) _ _ _ _ Hrun); [|done..]. constructor; cbn; try done. by exists t.
  - injection Hrun as <- _ <-. apply Hpre, restarts_failed; [apply Hgo|done].
Qed.

End Restart.

(** ** A node in time *)

Lemma chain_generation `{GoLib} c g d : Chain c g d -> d.(cd_snapshot).(state.Generation) = hex_EncodeToString d.(cd_epoch).(digest).
Proof. unfold Chain. inversion 1; subst; by eapply decided_snapshot. Qed.

Section Machine.
Context `{GoLib} (c : config).

(** A refresh between its start and its end: what it started from, and the results
    of its sources so far. *)
Record sourceWave := MkWave {
  wave_started : Z;
  wave_base : option state.Snapshot;
  wave_decision : option candidateDecision;
  wave_results : list sourceResult
}.

Definition contribute (wave : sourceWave) (r : sourceResult) : sourceWave :=
  MkWave wave.(wave_started) wave.(wave_base) wave.(wave_decision) (wave.(wave_results) ++ [r]).

(** A running process, or the disk that a process left behind. *)
Inductive node :=
| Running (s : networkState) (wave : option sourceWave)
| Stopped (root : durableRoot).

(** What a source reports of its requests: four outcomes of one byte. *)
Definition Reported (r : sourceResult) : Prop := length r.(sr_observations) = 4%nat /\ Forall in_u8 r.(sr_observations).

(** One step takes the lock of the node once, or happens outside of it.  Every call
    meets a disk of its own, which may fail at any point of it; a crash during a
    call is a failing call and then [step_stop].

    [Accept] checks an Epoch against the clock reading of the last start and records
    a later reading.  A clock is [Steady] when such a reading is never before that
    of the start, so that it was not set back in between; nothing is asked of an
    [Adjusted] clock, nor of any clock from one start to the next. *)
Inductive hostClock := Steady | Adjusted.

Inductive step (host : hostClock) : node -> node -> Prop :=
| step_accept s w epoch inputs materials before after clock shown disk s' disk' r :
    Instant clock -> (host = Steady -> s.(ns_config).(config_now) <= clock) ->
    Accept epoch inputs materials before after clock shown s disk = (s', disk', r) -> step host (Running s w) (Running s' w)
| step_begin s clock drawn roles disk s' disk' now order :
    Readable clock -> beginRefresh clock drawn roles s disk = (s', disk', Ok (now, order)) ->
    step host (Running s None) (Running s' (Some (MkWave now s.(ns_current) s.(ns_currentDecision) [])))
| step_begin_fails s w clock drawn roles disk s' disk' e :
    Readable clock -> beginRefresh clock drawn roles s disk = (s', disk', Err e) -> step host (Running s w) (Running s' w)
| step_latest s wave index disk s' disk' r :
    beginLatestAttempt index s disk = (s', disk', r) -> step host (Running s (Some wave)) (Running s' (Some wave))
| step_digest s wave source digest disk s' disk' r :
    0 <= source <= 1 -> beginDigestAttempt source digest s disk = (s', disk', r) -> step host (Running s (Some wave)) (Running s' (Some wave))
| step_digest_ends s wave source succeeded disk s' disk' r :
    finishDigestAttempt source succeeded s disk = (s', disk', r) -> step host (Running s (Some wave)) (Running s' (Some wave))
| step_answer s wave clock response r d :
    Reported r -> r.(sr_decision) = Ok d -> verifyResponse s clock response wave.(wave_base) wave.(wave_decision) = Ok d ->
    step host (Running s (Some wave)) (Running s (Some (contribute wave r)))
| step_missed s wave r e :
    Reported r -> r.(sr_decision) = Err e -> step host (Running s (Some wave)) (Running s (Some (contribute wave r)))
| step_complete s wave clock roles disk s' disk' r :
    Readable clock ->
    completeSourceWave wave.(wave_started) wave.(wave_base) wave.(wave_results) clock roles s disk = (s', disk', r) ->
    step host (Running s (Some wave)) (Running s' None)
| step_closing s w : step host (Running s w) (Running (s <| ns_closed := true |>) w)
| step_close s : step host (Running s None) (Running (Close s) None)
| step_stop s w : step host (Running s w) (Stopped s.(ns_storage))
| step_open root t info disk s' disk' :
    length info.(Exposures) = 2%nat -> open (c <| config_now := t |>) info root disk = (s', disk', Ok tt) ->
    step host (Stopped root) (Running s' None)
| step_open_fails root t info disk s' disk' e :
    length info.(Exposures) = 2%nat -> open (c <| config_now := t |>) info root disk = (s', disk', Err e) ->
    step host (Stopped root) (Stopped s'.(ns_storage)).

(** A wave belongs to the state that it started from. *)
Definition Waving (s : networkState) (w : option sourceWave) : Prop :=
  forall wave, w = Some wave ->
    s.(ns_refreshing) = true /\ s.(ns_current) = wave.(wave_base) /\ s.(ns_currentDecision) = wave.(wave_decision) /\
    Forall (Contributed c s) wave.(wave_results).

(** The states that a node with this state may get to. *)
Definition Reaches (s : networkState) (m : node) : Prop :=
  exists s1, Goes c s s1 /\ match m with Running s' w => s1 = s' /\ Waving s' w | Stopped root => s1.(ns_storage) = root end.

Lemma waving_same s s' w :
  s'.(ns_refreshing) = s.(ns_refreshing) -> s'.(ns_current) = s.(ns_current) -> s'.(ns_currentDecision) = s.(ns_currentDecision) ->
  Waving s w -> Waving s' w.
Proof.
  intros E1 E2 E3 Hw wave Hwave. destruct (Hw wave Hwave) as (W1 & W2 & W3 & W4). rewrite E1, E2, E3. split_and!; [done..|].
  eapply Forall_impl; [exact W4|]. intros r [R1 R2]. split; [done|]. intros d Hd. unfold Collected. rewrite E2, E3. by apply R2.
Qed.

Lemma reaches_moves s0 s s' w : Goes c s0 s -> Waving s w -> Moves c s s' -> Reaches s0 (Running s' w).
Proof.
  intros Hg Hw (Hgo & [E _] & _). exists s'. split; [by eapply goes_trans|]. split; [done|]. eapply waving_same; [..|exact Hw]; by rewrite E.
Qed.

(** While a wave runs, its node accepts nothing and starts no other wave. *)
Lemma Accept_refreshing epoch inputs materials before after clock shown s disk s' disk' r :
  s.(ns_refreshing) = true -> Accept epoch inputs materials before after clock shown s disk = (s', disk', r) -> s' = s.
Proof.
  intros Hr Ha. unfold Accept in Ha. run1 Ha; [|by injection Ha]. rewrite run_get in Ha. run1 Ha; [by injection Ha|].
  rewrite run_guard, Hr in Ha. by injection Ha.
Qed.

Lemma beginRefresh_refreshing clock drawn roles s disk s' disk' r :
  s.(ns_refreshing) = true -> beginRefresh clock drawn roles s disk = (s', disk', r) -> s' = s.
Proof.
  intros Hr Ha. unfold beginRefresh in Ha. rewrite run_get in Ha. run1 Ha; [by injection Ha|]. rewrite run_guard, Hr in Ha. by injection Ha.
Qed.

Lemma reaches_waiting s0 s s' w :
  Goes c s0 s -> Goes c s s' -> Waving s w -> (s.(ns_refreshing) = true -> s' = s) -> Reaches s0 (Running s' w).
Proof.
  intros Hg Hg' Hw Hr. exists s'. split; [by eapply goes_trans|]. split; [done|]. destruct w as [wave|]; [|by intros ?].
  destruct (Hw wave eq_refl) as (E & _). by rewrite (Hr E).
Qed.

Lemma waving_contribute s wave r : Waving s (Some wave) -> Contributed c s r -> Waving s (Some (contribute wave r)).
Proof.
  intros Hw Hr ? [= <-]. destruct (Hw wave eq_refl) as (W1 & W2 & W3 & W4). split_and!; [done..|]. apply Forall_app. by split; [|constructor].
Qed.

Lemma goes_closed s b : Inv c s -> Goes c s (s <| ns_closed := b |>).
Proof.
  intros Hi. replace (s <| ns_closed := b |>) with (s <| ns_refreshing := s.(ns_refreshing) |> <| ns_closed := b |>) by (by destruct s).
  by apply goes_flags.
Qed.

Lemma Close_goes s : Inv c s -> Goes c s (Close s).
Proof.
  intros Hi. eapply goes_trans; [by apply (goes_closed s true)|]. unfold Close. apply grown_goes; [by apply goes_closed|].
  split_and!; [done|done|done|by left].
Qed.

(** What can happen with a steady clock can happen with any. *)
Lemma step_adjusted host m m' : step Steady m m' -> step host m m'.
Proof.
  intros Hs. destruct Hs as [? ? ? ? ? ? ? ? ? ? ? ? ? Hi Hc Ha| | | | | | | | | | | | |].
  { eapply step_accept; [exact Hi|intros _; by apply Hc|exact Ha]. }
  - eapply step_begin; eassumption.
  - eapply step_begin_fails; eassumption.
  - eapply step_latest; eassumption.
  - eapply step_digest; eassumption.
  - eapply step_digest_ends; eassumption.
  - eapply step_answer; eassumption.
  - eapply step_missed; eassumption.
  - eapply step_complete; eassumption.
  - apply step_closing.
  - apply step_close.
  - apply step_stop.
  - eapply step_open; eassumption.
  - eapply step_open_fails; eassumption.
Qed.

Lemma reaches_step s0 m m' : Reaches s0 m -> step Steady m m' -> Reaches s0 m'.
Proof.
  intros (s1 & Hg & Hm) Hs. destruct Hs; cbn in Hm; try (lazymatch type of Hm with _ /\ _ => destruct Hm as [-> Hw]; pose proof (go_inv _ _ _ Hg) as Hi end).
  - match goal with X : Steady = Steady -> _ |- _ => specialize (X eq_refl) end.
    eapply reaches_waiting; [exact Hg|by eapply Accept_goes|done|]. intros. by eapply Accept_refreshing.
  - match goal with X : beginRefresh _ _ _ _ _ = _ |- _ => apply beginRefresh_goes with (c := c) in X as [Hgo Hb]; [|done..] end.
    destruct (Hb I) as (B1 & B2 & B3). exists s'. split; [by eapply goes_trans|]. split; [done|]. intros ? [= <-]. by split_and!.
  - match goal with X : beginRefresh _ _ _ _ _ = _ |- _ => rename X into Hrun end.
    eapply reaches_waiting; [exact Hg|by eapply beginRefresh_goes in Hrun as [? _]|done|]. intros. by eapply beginRefresh_refreshing.
  - eapply reaches_moves; [exact Hg|exact Hw|]. by eapply beginLatestAttempt_moves.
  - eapply reaches_moves; [exact Hg|exact Hw|]. by eapply beginDigestAttempt_moves.
  - eapply reaches_moves; [exact Hg|exact Hw|]. by eapply finishDigestAttempt_moves.
  - exists s. split; [done|]. split; [done|]. apply waving_contribute; [done|]. split; [done|]. intros d' Hd'.
    destruct (Hw wave eq_refl) as (_ & W2 & W3 & _). eapply (verifyResponse_collected c s clock response); [done|]. congruence.
  - exists s. split; [done|]. split; [done|]. apply waving_contribute; [done|]. split; [done|]. congruence.
  - exists s'. split; [|split; [done|by intros ?]]. eapply goes_trans; [exact Hg|]. destruct (Hw wave eq_refl) as (_ & _ & _ & Hres).
    by eapply completeSourceWave_goes.
  - eexists. split; [eapply goes_trans; [exact Hg|by apply goes_closed]|]. split; [done|]. by apply (waving_same s).
  - eexists. split; [eapply goes_trans; [exact Hg|by apply Close_goes]|]. split; [done|by intros ?].
  - by exists s.
  - subst root. match goal with X : open _ _ _ _ = _ |- _ => apply open_restarts with (c := c) in X as (s2 & Hgo & _ & E); [|apply Hg|done] end.
    rewrite (E eq_refl) in Hgo. exists s'. split; [by eapply goes_trans|]. split; [done|by intros ?].
  - subst root. match goal with X : open _ _ _ _ = _ |- _ => apply open_restarts with (c := c) in X as (s2 & Hgo & E & _); [|apply Hg|done] end.
    exists s2. split; [by eapply goes_trans|done].
Qed.

Lemma reaches_steps s0 m m' : rtc (step Steady) m m' -> Reaches s0 m -> Reaches s0 m'.
Proof. induction 1 as [|m m1 m' Hs _ IH]; [done|]. intros Hr. by apply IH, (reaches_step _ m). Qed.

(** ** A refresh as steps

    [Refresh] with its sources asked one after the other is one of the histories. *)

Definition contributes (wave : sourceWave) (l : list sourceResult) : sourceWave :=
  MkWave wave.(wave_started) wave.(wave_base) wave.(wave_decision) (wave.(wave_results) ++ l).

Lemma contributes_nil wave : contributes wave [] = wave.
Proof. destruct wave. unfold contributes. cbn. by rewrite app_nil_r. Qed.

Lemma contributes_app wave l k : contributes (contributes wave l) k = contributes wave (l ++ k).
Proof. unfold contributes. cbn. by rewrite app_assoc. Qed.

Section Sequential.
Context (host : hostClock) (classify : error -> Z) (classify_byte : forall e, in_u8 (classify e)).

Lemma reported_insert obs i v x y r :
  length obs = 4%nat /\ Forall in_u8 obs -> in_u8 v -> Reported (MkSourceResult x y r (<[i := v]> obs)).
Proof. intros [Hl Hf] Hv. split; cbn; [by rewrite length_insert|by apply Forall_insert]. Qed.

Lemma none4_bytes : length none4 = 4%nat /\ Forall in_u8 none4.
Proof. split; [done|by repeat constructor]. Qed.

Lemma outcomeAt_byte d i : Ranged d -> in_u8 (outcomeAt d i).
Proof.
  intros [? ? ? ? ? ? ? ? ? ? ? ? [_ Hf]]. unfold outcomeAt. destruct (outcomes d !! Z.to_nat i) as [o|] eqn:Ho; [|done].
  by eapply Forall_lookup in Hf.
Qed.

Lemma beginLatestAttempt_ok index s disk s' disk' started outcome :
  Inv c s -> beginLatestAttempt index s disk = (s', disk', Ok (started, outcome)) -> 0 <= index <= 1 /\ in_u8 outcome.
Proof.
  intros Hi Hb. unfold beginLatestAttempt in Hb. rewrite run_get in Hb. cbv zeta in Hb. run1 Hb; [done|].
  rewrite !orb_false_iff, !Z.ltb_ge in Hq. split; [lia|]. destruct (_ =? 1).
  { apply bind_run in Hb as [(? & ? & ? & _ & [= _ _ _ <-])|(? & _ & ?)]; done. }
  destruct (negb (_ =? 0)); [injection Hb as _ _ _ <-; apply outcomeAt_byte; by apply (iv_memory _ _ Hi)|].
  apply bind_run in Hb as [(? & ? & ? & _ & [= _ _ _ <-])|(? & _ & ?)]; done.
Qed.

Lemma launch_steps order wave s disk s' disk' r :
  Inv c s -> launch classify order s disk = (s', disk', r) ->
  exists l asked, r = Ok (l, asked) /\ rtc (step host) (Running s (Some wave)) (Running s' (Some (contributes wave l))) /\
    Moves c s s' /\ Forall (fun i => 0 <= i <= 1) asked.
Proof.
  revert wave s disk s' disk' r. induction order as [|index order IH]; intros wave s disk s' disk' r Hi Hrun; cbn [launch] in Hrun.
  { injection Hrun as <- _ <-. exists [], []. rewrite contributes_nil. split_and!; [done|apply rtc_refl|by apply moves_refl|constructor]. }
  rewrite caught_run in Hrun. destruct (beginLatestAttempt index s disk) as [[s1 disk1] r1] eqn:Hb. cbv beta iota zeta in Hrun.
  pose proof (beginLatestAttempt_moves _ _ _ _ _ _ _ Hi Hb) as Hm. pose proof (go_inv _ _ _ (proj1 Hm)) as Hi1.
  unfold mbind at 1, stateM_bind at 1 in Hrun. destruct (launch classify order s1 disk1) as [[s2 disk2] r2] eqn:Hl.
  assert (step host (Running s (Some wave)) (Running s1 (Some wave))) as Hstep by (by eapply step_latest).
  assert (forall one, Reported one -> is_err one.(sr_decision) -> exists l asked, r2 = Ok (l, asked) /\
    rtc (step host) (Running s (Some wave)) (Running s2 (Some (contributes wave (one :: l)))) /\ Moves c s s2 /\ Forall (fun i => 0 <= i <= 1) asked) as Hmiss.
  { intros one Hrep Herr. destruct (sr_decision one) eqn:Hdec; [done|].
    destruct (IH (contributes wave [one]) _ _ _ _ _ Hi1 Hl) as (l & asked & -> & Hr & Hm2 & Hf). exists l, asked.
    rewrite contributes_app in Hr. split_and!; [done| |by eapply moves_trans|done].
    eapply rtc_l; [exact Hstep|]. eapply rtc_l; [by eapply step_missed|exact Hr]. }
  destruct r1 as [[[|] outcome]|e].
  - destruct (IH wave _ _ _ _ _ Hi1 Hl) as (l & asked & -> & Hr & Hm2 & Hf). injection Hrun as <- _ <-. exists l, (index :: asked).
    split_and!; [done|by eapply rtc_l|by eapply moves_trans|]. constructor; [|done]. by apply beginLatestAttempt_ok in Hb as [? _].
  - edestruct Hmiss as (l & asked & -> & Hr & Hm2 & Hf); [| |injection Hrun as <- _ <-; by eexists _, _]; [|done].
    apply reported_insert; [apply none4_bytes|by apply beginLatestAttempt_ok in Hb as [_ ?]].
  - edestruct Hmiss as (l & asked & -> & Hr & Hm2 & Hf); [| |injection Hrun as <- _ <-; by eexists _, _]; [|done].
    apply reported_insert; [apply none4_bytes|apply classify_byte].
Qed.

(** The checks on a response do not read what the attempts change. *)
Lemma verifyResponse_moved s s' clock response current decision :
  Moves c s s' -> verifyResponse s' clock response current decision = verifyResponse s clock response current decision.
Proof. intros (_ & [E _] & _). rewrite E. done. Qed.

Lemma verified_step s wave clock response index slot obs :
  length obs = 4%nat /\ Forall in_u8 obs ->
  step host (Running s (Some wave)) (Running s (Some (contribute wave
    (verifiedResult classify index slot obs (verifyResponse s clock response wave.(wave_base) wave.(wave_decision)))))).
Proof.
  intros Hobs. unfold verifiedResult. destruct (verifyResponse _ _ _ _ _) as [d|e] eqn:Hv.
  - eapply step_answer; [by apply reported_insert|done|exact Hv].
  - eapply step_missed; [by apply reported_insert|done].
Qed.

Lemma failed_step s wave index slot obs e :
  length obs = 4%nat /\ Forall in_u8 obs ->
  step host (Running s (Some wave)) (Running s (Some (contribute wave (failedSourceResult classify index slot obs e)))).
Proof. intros Hobs. eapply step_missed; [by apply reported_insert|done]. Qed.

Lemma fetchAndVerify_steps fetch clock index wave s disk s' disk' r :
  Inv c s -> 0 <= index <= 1 ->
  fetchAndVerify classify fetch clock index wave.(wave_base) wave.(wave_decision) s disk = (s', disk', r) ->
  exists one, r = Ok one /\ rtc (step host) (Running s (Some wave)) (Running s' (Some (contribute wave one))) /\ Moves c s s'.
Proof.
  intros Hi Hix Hrun. unfold fetchAndVerify in Hrun. rewrite run_get in Hrun. cbv zeta in Hrun.
  destruct (fetchSource fetch index _) as [response [e|]].
  2:{ injection Hrun as <- _ <-. eexists. split_and!; [done|apply rtc_once, verified_step, none4_bytes|by apply moves_refl]. }
  destruct (_ ==? zero32).
  { injection Hrun as <- _ <-. eexists. split_and!; [done|apply rtc_once, failed_step, none4_bytes|by apply moves_refl]. }
  set (obs := <[Z.to_nat index := classify e]> none4) in *.
  assert (length obs = 4%nat /\ Forall in_u8 obs) as Hobs.
  { split; [by unfold obs; rewrite length_insert|]. apply Forall_insert; [apply none4_bytes|apply classify_byte]. }
  clearbody obs. rewrite caught_run in Hrun. destruct (beginDigestAttempt _ _ s disk) as [[s1 disk1] r1] eqn:Hb. cbv beta iota zeta in Hrun.
  assert (step host (Running s (Some wave)) (Running s1 (Some wave))) as Hs1 by (eapply step_digest; [|exact Hb]; lia).
  apply (beginDigestAttempt_moves c) in Hb as Hm1; [|done|lia]. destruct r1 as [[]|e1].
  2:{ injection Hrun as <- _ <-. eexists. split_and!; [done|eapply rtc_l; [exact Hs1|by apply rtc_once, failed_step]|done]. }
  destruct (fetchSource fetch (1 - index) _) as [second failure].
  rewrite caught_run in Hrun. destruct (finishDigestAttempt _ _ s1 disk1) as [[s2 disk2] r2] eqn:He. cbv beta iota zeta in Hrun.
  assert (step host (Running s1 (Some wave)) (Running s2 (Some wave))) as Hs2 by (by eapply step_digest_ends).
  apply (finishDigestAttempt_moves c) in He as Hm2; [|apply Hm1]. pose proof (moves_trans _ _ _ _ Hm1 Hm2) as Hm.
  assert (forall one, step host (Running s2 (Some wave)) (Running s2 (Some (contribute wave one))) ->
    rtc (step host) (Running s (Some wave)) (Running s2 (Some (contribute wave one)))) as Hall.
  { intros one Hone. eapply rtc_l; [exact Hs1|]. eapply rtc_l; [exact Hs2|]. by apply rtc_once. }
  destruct r2 as [[]|e2]; [|injection Hrun as <- _ <-; eexists; split_and!; [done|by apply Hall, failed_step|done]].
  destruct failure as [e2|]; [injection Hrun as <- _ <-; eexists; split_and!; [done|by apply Hall, failed_step|done]|].
  destruct (validateByDigestResponse _ _) as [e2|]; [injection Hrun as <- _ <-; eexists; split_and!; [done|by apply Hall, failed_step|done]|].
  rewrite <- (verifyResponse_moved s s2) in Hrun by done. injection Hrun as <- _ <-. eexists. split_and!; [done|by apply Hall, verified_step|done].
Qed.

Lemma fetchAll_steps fetch clock indices wave s disk s' disk' r :
  Inv c s -> Forall (fun i => 0 <= i <= 1) indices ->
  fetchAll classify fetch clock indices wave.(wave_base) wave.(wave_decision) s disk = (s', disk', r) ->
  exists l, r = Ok l /\ rtc (step host) (Running s (Some wave)) (Running s' (Some (contributes wave l))).
Proof.
  intros Hi Hf. revert wave s disk s' disk' r Hi. induction Hf as [|index indices Hix _ IH]; intros wave s disk s' disk' r Hi Hrun; cbn [fetchAll] in Hrun.
  { injection Hrun as <- _ <-. exists []. rewrite contributes_nil. split; [done|apply rtc_refl]. }
  unfold mbind at 1, stateM_bind at 1 in Hrun. destruct (fetchAndVerify _ _ _ _ _ _ s disk) as [[s1 disk1] r1] eqn:H1.
  apply fetchAndVerify_steps in H1 as (one & -> & Hr1 & Hm); [|done..].
  unfold mbind at 1, stateM_bind at 1 in Hrun. destruct (fetchAll _ _ _ _ _ _ s1 disk1) as [[s2 disk2] r2] eqn:H2.
  change (wave_base wave) with (wave_base (contribute wave one)) in H2. change (wave_decision wave) with (wave_decision (contribute wave one)) in H2.
  apply IH in H2 as (l & -> & Hr2); [|apply Hm]. injection Hrun as <- _ <-. exists (one :: l). split; [done|].
  change (contribute wave one) with (contributes wave [one]) in *. rewrite contributes_app in Hr2. by etransitivity.
Qed.

Lemma Refresh_steps fetch clock completed fetched drawn roles rolesAfter s disk s' disk' r :
  Inv c s -> Readable clock -> Readable completed ->
  Refresh classify fetch clock completed fetched drawn roles rolesAfter s disk = (s', disk', r) -> rtc (step host) (Running s None) (Running s' None).
Proof.
  intros Hi Hc1 Hc2 Hrun. unfold Refresh in Hrun. rewrite run_get in Hrun. unfold mbind at 1, stateM_bind at 1 in Hrun.
  destruct (beginRefresh clock drawn roles s disk) as [[s1 disk1] [[now order]|e]] eqn:Hb.
  2:{ injection Hrun as <- _ _. apply rtc_once. eapply step_begin_fails; [exact Hc1|exact Hb]. }
  eapply rtc_l; [eapply step_begin; [exact Hc1|exact Hb]|]. apply (beginRefresh_goes c) in Hb as [Hg1 _]; [|done..].
  unfold mbind at 1, stateM_bind at 1 in Hrun. cbn [fst snd] in Hrun. destruct (launch _ _ s1 disk1) as [[s2 disk2] r2] eqn:Hl.
  eapply launch_steps in Hl as (l & asked & -> & Hr2 & Hm2 & Hf); [|apply Hg1]. etransitivity; [exact Hr2|].
  unfold mbind at 1, stateM_bind at 1 in Hrun. cbn [fst snd] in Hrun. destruct (fetchAll _ _ _ _ _ _ s2 disk2) as [[s3 disk3] r3] eqn:Hx.
  match goal with |- rtc (step host) (Running _ (Some ?w)) _ => apply (fetchAll_steps _ _ _ w) in Hx as (k & -> & Hr3); [|apply Hm2|done] end.
  etransitivity; [exact Hr3|]. apply rtc_once. eapply step_complete; [exact Hc2|exact Hrun].
Qed.

End Sequential.

(** A node before its first start. *)
Definition unborn : networkState :=
  MkNetworkState c (MkDetails false zero32 [] [] [] [zero32; zero32]) None None None zeroDistribution emptyRoot false true.

Lemma ranged_zero : Ranged zeroDistribution.
Proof. constructor; try done; (split; [done|]); by repeat constructor. Qed.

Lemma unborn_inv : Inv c unborn.
Proof.
  constructor; try done.
  - by apply exposed_few.
  - exists c.(config_now). change (c = c <| config_now := config_now c |>). generalize c. by intros [].
  - constructor; [apply ranged_zero|by right|by split|done].
  - by intros [?|[?|?]].
Qed.

(** Every state of a node that started on an empty disk. *)
Lemma reached s w : rtc (step Steady) (Stopped emptyRoot) (Running s w) -> Inv c s /\ Waving s w.
Proof.
  intros Hs. apply (reaches_steps unborn) in Hs as (s1 & Hg & -> & Hw); [split; [apply Hg|done]|].
  exists unborn. split; [apply goes_refl, unborn_inv|done].
Qed.

Lemma reached_goes s w s' w' :
  rtc (step Steady) (Stopped emptyRoot) (Running s w) -> rtc (step Steady) (Running s w) (Running s' w') -> Goes c s s'.
Proof.
  intros [Hi Hw]%reached Hs. apply (reaches_steps s) in Hs as (s1 & Hg & -> & _); [done|]. exists s. by split; [apply goes_refl|].
Qed.

(** C5: A node whose clock is steady never goes back.  From the first start on an
    empty disk, through any sequence of offline acceptances, refreshes with whatever
    their sources answer, failing disks, crashes at any point, and restarts with any
    two sources, as long as no offline acceptance reads a clock that was set back
    behind the reading of the last start: the Epoch that the node shows later is the
    same one with the same digest, or one with a higher number; and the Epoch it
    shows is the end of a stored chain from the genesis Epoch in which each was
    decided on its predecessor.  The clock readings of different starts and those of
    refreshes are in any order. *)
Theorem state_never_rolls_back s w s' w' :
  rtc (step Steady) (Stopped emptyRoot) (Running s w) -> rtc (step Steady) (Running s w) (Running s' w') ->
  Later (shownEpoch s) (shownEpoch s') /\
  forall current, s'.(ns_current) = Some current ->
    exists d, s'.(ns_currentDecision) = Some d /\ current = d.(cd_snapshot) /\
      History c s'.(ns_storage).(generations) current.(state.Generation) d current.(state.Epoch).
Proof.
  intros H1 H2. destruct (reached_goes _ _ _ _ H1 H2) as [Hi Hl _]. split; [done|]. intros current Hcur.
  rewrite (iv_current _ _ Hi) in Hcur. destruct (ns_currentDecision s') as [d|] eqn:Hd; [|done]. injection Hcur as <-.
  exists d. split_and!; [done|done|]. destruct (iv_chain _ _ Hi d Hd) as [Hc _]. destruct (chain_snapshot _ _ _ Hc) as (E1 & _).
  rewrite E1, (chain_generation _ _ _ Hc). exact Hc.
Qed.

Lemma conflicting_shown s now : s.(ns_distribution).(conflicting) = true -> s.(ns_current) <> None ->
  (snapshotWithDistribution s now).(state.Conflicting) = true.
Proof.
  intros Hc Hn. unfold snapshotWithDistribution. destruct (ns_current s); [|done]. cbn.
  unfold pendingShown, distributionShown. destruct (ns_pendingDecision s), (_ =? 0), (_ =? 0); exact Hc.
Qed.

(** C8: A conflict is remembered for ever.  Once a node has seen two valid Epochs
    that contradict one another, then whatever happens later with a steady clock,
    restarts included, it keeps its floor, accepts no Epoch, starts no refresh, and
    shows no state from which a name can be resolved: its view names no Epoch. *)
Theorem conflict_latches s w s' w' :
  rtc (step Steady) (Stopped emptyRoot) (Running s w) -> s.(ns_distribution).(conflicting) = true -> rtc (step Steady) (Running s w) (Running s' w') ->
  s'.(ns_distribution).(conflicting) = true /\ floorOf s'.(ns_distribution) = floorOf s.(ns_distribution) /\
  (forall epoch inputs materials before after clock shown disk,
     is_err (Accept epoch inputs materials before after clock shown s' disk).2) /\
  (forall clock drawn roles disk, is_err (beginRefresh clock drawn roles s' disk).2) /\
  (forall health clock snapshot view at_ deadline,
     Current s' health clock = Ok snapshot -> state.Resolution snapshot = Ok view -> state.View_Epoch view at_ deadline = None).
Proof.
  intros H1 Hc H2. destruct (reached_goes _ _ _ _ H1 H2) as [_ _ Hl]. destruct (Hl Hc) as [Hc' Hf]. split_and!; [done|done|..].
  - intros. unfold Accept. rewrite run_lift. destruct before; [|done]. rewrite run_get, run_guard. destruct (ns_closed s'); [done|]. rewrite run_guard.
    destruct (ns_refreshing s'); [done|]. by rewrite run_guard, Hc'.
  - intros. unfold beginRefresh. rewrite run_get, run_guard. destruct (ns_closed s'); [done|]. rewrite run_guard.
    destruct (ns_refreshing s'); [done|]. rewrite run_guard. destruct (negb _); [done|]. by rewrite run_guard, Hc'.
  - intros health clock snapshot view at_ deadline Hcur Hv. unfold state.Resolution in Hv. inv_ok. subst view. unfold state.View_Epoch. cbn.
    assert (state.Conflicting snapshot = true) as ->; [|by rewrite orb_true_r].
    unfold Current in Hcur. inv_ok. assert (ns_current s' <> None) as Hn by (by destruct (ns_current s')).
    destruct (trustedNow _ _); [injection Hcur as <-; by apply conflicting_shown|].
    destruct (Configured _); injection Hcur as <-; by apply conflicting_shown.
Qed.

End Machine.
