(* ===== verification/NetStateServe.v ===== *)
(** * The running Network State: from a source to its client

    What a node serves, another node of the network one Epoch behind accepts; and a
    refresh that reaches an honest source brings its node forward. *)

From S2P Require Import Prelude Wire GoLib GoTime Merkle EpochDisk EpochDurable EpochJournal StateView NetSource NetEpoch NetEpochProof NetEpochDecision NetEpochChain.
From S2P Require Import NetState NetStateCodec NetStateProof NetStateWave NetStateMachine.

Import netstate running.

(** ** The same decision at another node *)

Section Elsewhere.
Context `{GoLib}.









End Elsewhere.

(** ** Bundles *)

Section Bundles.
Context `{GoLib}.








End Bundles.

(** ** A served state is accepted *)

Section Served.
Context `{GoLib}.





End Served.

(** ** Commits on a good disk *)

Section Good.
Context `{GoLib}.





















End Good.

(** ** One honest source is enough *)

Section Honest.
Context `{GoLib} (c : config).













End Honest.
