(* ===== verification/NetStateLoss.v ===== *)
(** * The running Network State: disks that cannot be opened

    Two states that a node writes in normal operation and that no later start can
    read again. *)

From S2P Require Import Prelude Wire GoLib GoTime Merkle StateView NetEpoch NetEpochProof NetEpochDecision NetEpochChain.
From S2P Require Import NetState NetStateCodec NetStateProof NetStateWave NetStateMachine.

Import netstate running.

Section Loss.
Context `{GoLib} (c : config).

(** A disk on which every start fails and changes nothing. *)
Definition Stuck (root : durableRoot) : Prop :=
  forall t info disk, exists s' e, open (c <| config_now := t |>) info root disk = (s', disk, Err e) /\
    s'.(ns_storage) = root <| root_closed := false |>.

Lemma stuck_closed root : Stuck root -> Stuck (root <| root_closed := false |>).
Proof. intros Hs t info disk. exact (Hs t info disk). Qed.

Lemma stuck_stays root m : Stuck root -> rtc (step c Adjusted) (Stopped root) m -> exists root', m = Stopped root'.
Proof.
  intros Hs Hr. remember (Stopped root) as m0 eqn:E. revert root Hs E. induction Hr as [|m0 m1 m Hst _ IH]; intros root Hs ->; [by exists root|].
  inversion Hst as [| | | | | | | | | | | |root1 t info disk s' disk' Hx Ho E1 E2|root1 t info disk s' disk' e Hx Ho E1 E2]; subst;
    destruct (Hs t info disk) as (s2 & e2 & Ho2 & Es); rewrite Ho2 in Ho; [done|].
  injection Ho as <- _ _. eapply IH; [by apply stuck_closed|by rewrite <- Es].
Qed.

(** Generations without a current pointer. *)
Lemma pointerless_stuck root : root.(currentPointer) = None -> root.(generations) <> ∅ -> Stuck root.
Proof.
  intros Hp Hg t info disk. unfold open. cbv zeta. cbn [ns_storage].
  assert (exists e, loadCurrent (c <| config_now := t |>) (root <| root_closed := false |>) = Err e) as [e He].
  { unfold loadCurrent. destruct (loadState _) as [stored|e] eqn:Hl; [|by exists e]. apply loadState_ok in Hl as [E1 E2]. cbn in E1, E2.
    cbn [mbind result_bind]. rewrite (E2 Hp), E1. unfold netstate.loadCurrent. rewrite bool_decide_eq_true_2 by done.
    destruct (Z.eqb_spec (Z.of_nat (size (generations root))) 0) as [Hz|Hz]; [|by eexists]. exfalso. apply Hg, map_size_empty_iff. lia. }
  rewrite He. by eexists _, e.
Qed.

(** A control state with more exposures than the decoder reads. *)
Lemma overexposed_stuck root d :
  pointed root = Some (distributionDigest (encodeDistributionState d), encodeDistributionState d) -> Ranged d -> 2 < len d.(history) -> Stuck root.
Proof.
  intros Hp Hr Hh t info disk. unfold open. cbv zeta. cbn [ns_storage].
  assert (forall s, s.(ns_storage) = root <| root_closed := false |> -> exists e, loadDistributionState s disk = (s, disk, Err e)) as Hload.
  { intros s Es. unfold loadDistributionState. rewrite run_get, run_lift.
    destruct (loadControl (ns_storage s)) as [[name raw]|e] eqn:Hc; cbn [wrap fst snd]; [|by eexists]. apply loadControl_ok in Hc. rewrite Es in Hc.
    destruct Hc as [[_ Hn]|[Hne Hpt]]; [unfold pointed in Hp; cbn in Hn; by rewrite Hn in Hp|].
    change (pointed (root <| root_closed := false |>)) with (pointed root) in Hpt. rewrite Hp in Hpt. injection Hpt as <- <-.
    rewrite bool_decide_eq_false_2 by done. destruct (decodeDistributionState _) as [d'|e] eqn:Hd; [|by eexists].
    pose proof Hd as (_ & Hcons & _)%decode_ok. apply decode_encode in Hd as ->; [|done]. pose proof (co_history _ Hcons). lia. }
  destruct (loadCurrent _ _) as [[[current p]|]|e]; [..|by eexists _, e].
  - match goal with |- context [loadDistributionState ?s disk] => destruct (Hload s eq_refl) as [e ->] end. by eexists _, e.
  - match goal with |- context [loadDistributionState ?s disk] => destruct (Hload s eq_refl) as [e ->] end. by eexists _, e.
Qed.

(** Control generations without a pointer. *)
Lemma orphaned_stuck root : root.(controlPointer) = None -> root.(controls) <> ∅ -> Stuck root.
Proof.
  intros Hp Hc t info disk. unfold open. cbv zeta. cbn [ns_storage].
  assert (forall s, s.(ns_storage) = root <| root_closed := false |> -> exists e, loadDistributionState s disk = (s, disk, Err e)) as Hload.
  { intros s Es. unfold loadDistributionState. rewrite run_get, run_lift, Es. unfold loadControl. cbn. rewrite Hp.
    destruct (Z.eqb_spec (Z.of_nat (size (controls root))) 0) as [Hz|Hz]; [|by eexists]. exfalso. apply Hc, map_size_empty_iff. lia. }
  destruct (loadCurrent _ _) as [[[current p]|]|e]; [..|by eexists _, e].
  - match goal with |- context [loadDistributionState ?s disk] => destruct (Hload s eq_refl) as [e ->] end. by eexists _, e.
  - match goal with |- context [loadDistributionState ?s disk] => destruct (Hload s eq_refl) as [e ->] end. by eexists _, e.
Qed.

(** A crash of the very first control commit, between the publication of its
    generation and that of its pointer, leaves such a disk. *)
Lemma first_control_crash_is_fatal root name raw :
  root.(root_closed) = false -> root.(controlPointer) = None -> root.(controls) = ∅ ->
  generationName name = true -> 0 < len raw <= 4096 ->
  Stuck (runSteps (commitControl root name raw).1 root (Some (1%nat, false))).1.1.
Proof.
  intros Hcl Hp Hc Hn Hl. unfold commitControl, available, pruneSupersededControl, remaining, kept.
  rewrite Hcl, Hn, Hp, Hc, map_size_empty, (proj2 (Z.eqb_neq _ _)), (proj2 (Z.ltb_ge _ _)) by lia.
  apply orphaned_stuck; [exact Hp|]. apply insert_non_empty.
Qed.

(** *** Stored generations are never all removed *)

Definition filled (root : durableRoot) : Prop := root.(generations) <> ∅.

Definition Keeps {A} (m : stateM A) : Prop := forall s disk, filled s.(ns_storage) -> filled (m s disk).1.1.(ns_storage).

Lemma runSteps_filled steps root disk : filled root -> filled (runSteps steps root disk).1.1.
Proof.
  assert (forall step r, filled r -> filled (exec step r)) as Hexec.
  { intros [] r Hr; try exact Hr. apply insert_non_empty. }
  revert root disk. induction steps as [|step steps IH]; intros root disk Hr; [done|]. cbn [runSteps].
  destruct disk as [[[|k] [|]]|]; [by apply Hexec|done|by apply IH, Hexec..].
Qed.

Lemma keeps_store commit : Keeps (store commit).
Proof.
  intros s disk Hs. unfold store. destruct (commit _) as [steps r]. pose proof (runSteps_filled steps _ disk Hs) as Hr.
  by destruct (runSteps _ _ _) as [[? ?] ?].
Qed.

Lemma keeps_lift {A} (r : result A) : Keeps (lift r).
Proof. by intros s disk. Qed.

Lemma keeps_ret {A} (a : A) : Keeps (mret a).
Proof. by intros s disk. Qed.

Lemma keeps_get : Keeps get.
Proof. by intros s disk. Qed.

Lemma keeps_modify f : (forall s, (f s).(ns_storage) = s.(ns_storage)) -> Keeps (modify f).
Proof. intros Hf s disk Hs. cbn. by rewrite Hf. Qed.

Lemma keeps_bind {A B} (m0 : stateM A) (f : A -> stateM B) : Keeps m0 -> (forall a, Keeps (f a)) -> Keeps (m0 ≫= f).
Proof.
  intros Hm Hf s disk Hs. unfold mbind, stateM_bind. specialize (Hm s disk Hs). destruct (m0 s disk) as [[s1 disk1] [a|e]]; [|done].
  by apply Hf.
Qed.

Lemma keeps_wrapped {A} format (m0 : stateM A) : Keeps m0 -> Keeps (wrapped format m0).
Proof. intros Hm s disk Hs. unfold wrapped. specialize (Hm s disk Hs). by destruct (m0 s disk) as [[? ?] []]. Qed.

Lemma keeps_caught {A} (m0 : stateM A) : Keeps m0 -> Keeps (caught m0).
Proof. intros Hm s disk Hs. unfold caught. specialize (Hm s disk Hs). by destruct (m0 s disk) as [[? ?] ?]. Qed.

Lemma keeps_finally {A} (m0 : stateM A) : Keeps m0 -> Keeps (finally m0).
Proof. intros Hm s disk Hs. unfold finally. specialize (Hm s disk Hs). by destruct (m0 s disk) as [[? ?] ?]. Qed.

Create HintDb keeps.
#[local] Hint Resolve keeps_store keeps_lift keeps_ret keeps_get keeps_bind keeps_wrapped keeps_caught keeps_finally : keeps.

(** A handler keeps what its calls keep. *)
Ltac keeping :=
  repeat lazymatch goal with
  | |- forall _, _ => intros ?
  | |- Keeps (_ ≫= _) => apply keeps_bind
  | |- Keeps (let _ := _ in _) => cbv zeta
  | |- Keeps (match ?x with _ => _ end) => destruct x
  | |- Keeps (wrapped _ _) => apply keeps_wrapped
  | |- Keeps (caught _) => apply keeps_caught
  | |- Keeps (finally _) => apply keeps_finally
  | |- Keeps (modify _) => apply keeps_modify
  | |- Keeps _ => solve [auto with keeps]
  | |- ns_storage (match ?x with _ => _ end) = _ => destruct x
  | |- ns_storage _ = _ => reflexivity
  end.

Lemma settle_storage d s : (settle d s).(ns_storage) = s.(ns_storage).
Proof. unfold settle. by repeat case_match. Qed.

Lemma keeps_guard e b : Keeps (guard e b).
Proof. apply keeps_lift. Qed.

Lemma keeps_persistDecision d b : Keeps (persistDecision d b).
Proof. apply keeps_store. Qed.

Lemma keeps_settle d f : (forall s, (f s).(ns_storage) = s.(ns_storage)) -> Keeps (modify (fun s => settle d (f s))).
Proof. intros Hf. apply keeps_modify. intros s. by rewrite settle_storage. Qed.
#[local] Hint Resolve keeps_guard keeps_persistDecision : keeps.

Lemma keeps_commitDistribution d : Keeps (commitDistribution d).
Proof. unfold commitDistribution. keeping. Qed.
#[local] Hint Resolve keeps_commitDistribution : keeps.

Lemma keeps_commitActiveDecision d dist : Keeps (commitActiveDecision d dist).
Proof. unfold commitActiveDecision. repeat (apply keeps_bind; intros); [..|by auto with keeps]; [auto with keeps..|]. by apply keeps_settle. Qed.
#[local] Hint Resolve keeps_commitActiveDecision : keeps.

Lemma keeps_recoverDistributionActive d : Keeps (recoverDistributionActive d).
Proof. unfold recoverDistributionActive. keeping. Qed.
#[local] Hint Resolve keeps_recoverDistributionActive : keeps.

Lemma keeps_recoverPendingState : Keeps recoverPendingState.
Proof. unfold recoverPendingState. keeping. Qed.
#[local] Hint Resolve keeps_recoverPendingState : keeps.

Lemma keeps_loadDistributionState : Keeps loadDistributionState.
Proof. unfold loadDistributionState. keeping. Qed.

Lemma open_filled c' info root disk : filled root -> filled (open c' info root disk).1.1.(ns_storage).
Proof.
  intros Hr. unfold open. cbv zeta. destruct (loadCurrent _ _) as [[[current d]|]|e]; [by apply keeps_loadDistributionState..|done].
Qed.

Lemma keeps_Accept epoch inputs materials before after clock shown : Keeps (Accept epoch inputs materials before after clock shown).
Proof. unfold Accept. keeping. Qed.

Lemma keeps_startSourceWave now drawn roles : Keeps (startSourceWave now drawn roles).
Proof. unfold startSourceWave. keeping. Qed.
#[local] Hint Resolve keeps_startSourceWave : keeps.

Lemma keeps_beginRefresh clock drawn roles : Keeps (beginRefresh clock drawn roles).
Proof. unfold beginRefresh. keeping. Qed.

Lemma keeps_beginLatestAttempt index : Keeps (beginLatestAttempt index).
Proof. unfold beginLatestAttempt. keeping. Qed.

Lemma keeps_beginDigestAttempt source digest : Keeps (beginDigestAttempt source digest).
Proof. unfold beginDigestAttempt. keeping. Qed.

Lemma keeps_finishDigestAttempt source succeeded : Keeps (finishDigestAttempt source succeeded).
Proof. unfold finishDigestAttempt. keeping. Qed.

Lemma keeps_completeSourceWave started base results clock roles : Keeps (completeSourceWave started base results clock roles).
Proof.
  assert (forall summary, Keeps (recordSourceConflict started summary)) by (intros; unfold recordSourceConflict; keeping).
  assert (forall now summary, Keeps (commitSourceFailure now summary)) by (intros; unfold commitSourceFailure; keeping).
  assert (forall now d summary, Keeps (commitPendingSourceWave now d summary roles)).
  { intros. unfold commitPendingSourceWave, stageGeneration. keeping. }
  assert (forall now d summary, Keeps (commitActiveSourceWave now d summary roles)).
  { intros. unfold commitActiveSourceWave. keeping. apply settle_storage. }
  unfold completeSourceWave, selectSourceWave. keeping.
Qed.

(** The disk of a node, running or not. *)
Definition diskOf (m : node) : durableRoot := match m with Running s _ => s.(ns_storage) | Stopped root => root end.

Lemma step_filled m m' : step c Adjusted m m' -> filled (diskOf m) -> filled (diskOf m').
Proof.
  intros Hs Hf. destruct Hs; cbn [diskOf] in *; try exact Hf;
    match goal with
    | X : open ?c' ?i ?r ?d = _ |- _ => pose proof (open_filled c' i r d Hf) as Hk; by rewrite X in Hk
    | X : ?m0 ?s ?d = (?s', _, _) |- filled (ns_storage ?s') =>
        assert (Keeps m0) as Hk by auto using keeps_Accept, keeps_beginRefresh, keeps_beginLatestAttempt, keeps_beginDigestAttempt,
          keeps_finishDigestAttempt, keeps_completeSourceWave; specialize (Hk s d Hf); by rewrite X in Hk
    end.
Qed.

Lemma steps_filled m m' : rtc (step c Adjusted) m m' -> filled (diskOf m) -> filled (diskOf m').
Proof. induction 1; eauto using step_filled. Qed.

(** *** The genesis Epoch before its time *)

Lemma commitPending_stages now selected summary roles s disk s' disk' shown :
  s.(ns_pendingDecision) = None -> commitPendingSourceWave now selected summary roles s disk = (s', disk', Ok shown) ->
  s'.(ns_storage).(currentPointer) = s.(ns_storage).(currentPointer) /\ s'.(ns_storage).(generations) <> ∅.
Proof.
  intros Hp Hrun. unfold commitPendingSourceWave in Hrun. run1 Hrun; [|done]. rewrite run_get, Hp in Hrun. cbv zeta in Hrun.
  apply bind_run in Hrun as [([] & s1 & disk1 & Hs1 & Hrun)|(e & _ & ?)]; [|done].
  apply bind_run in Hrun as [([] & s2 & disk2 & Hs2 & Hrun)|(e & _ & ?)]; [|done].
  injection Hrun as <- _ _. cbn.
  unfold stageGeneration, persistDecision, store in Hs1. destruct (commitState _ _ _ _) as [steps r] eqn:Hc.
  destruct (runSteps steps _ disk) as [[root io0] io] eqn:Hr. injection Hs1 as <- _ Hio.
  destruct (commitState_effect _ _ _ _ _ _ _ _ _ _ Hc Hr) as (_ & _ & E3 & E4). destruct io as [[]|]; [|done]. specialize (E4 eq_refl Hio).
  destruct E3 as [E3|[? _]]; [|done].
  unfold commitDistribution, mbind, stateM_bind, store in Hs2. cbv zeta in Hs2. destruct (commitControl _ _ _) as [steps2 r2] eqn:Hc2.
  destruct (runSteps steps2 _ disk1) as [[root2 io1] io2] eqn:Hr2. destruct (commitControl_effect _ _ _ _ _ _ _ _ _ Hc2 Hr2) as ([= G1 G2 _] & _).
  assert (ns_storage s2 = root2) as -> by (destruct io2 as [[]|], r2 as [[]|]; by injection Hs2 as <- _). cbn in G1, G2.
  rewrite G1, G2, E3. split; [done|]. intros Hg. by rewrite Hg, lookup_empty in E4.
Qed.

Lemma finally_run {A} (m0 : stateM A) s disk s' disk' r :
  finally m0 s disk = (s', disk', r) -> exists s1, m0 s disk = (s1, disk', r) /\ s' = s1 <| ns_refreshing := false |>.
Proof. unfold finally. destruct (m0 s disk) as [[s1 disk1] r1]. intros [= <- -> ->]. by exists s1. Qed.

Lemma never_ok {A B} (m0 : stateM A) e s disk s' disk' (b : B) : (_ ← m0; lift (Err e)) s disk = (s', disk', Ok b) -> False.
Proof. by intros [(? & ? & ? & _ & ?)|(? & _ & ?)]%bind_run. Qed.

Lemma activate_shows d dist s disk s' disk' : commitActiveDecision d dist s disk = (s', disk', Ok tt) -> s'.(ns_current) <> None.
Proof.
  intros Hrun. unfold commitActiveDecision in Hrun.
  apply bind_run in Hrun as [([] & s1 & disk1 & _ & Hrun)|(e & _ & ?)]; [|done].
  apply bind_run in Hrun as [([] & s2 & disk2 & _ & Hrun)|(e & _ & ?)]; [|done]. rewrite run_modify in Hrun.
  unfold persistDecision, store in Hrun. destruct (commitState _ _ _ _), (runSteps _ _ _) as [[? ?] ?]. injection Hrun as <- _ _.
  rewrite settle_keeps. done.
Qed.

Lemma commitActive_shows now selected summary roles s disk s' disk' shown :
  s.(ns_current) = None -> commitActiveSourceWave now selected summary roles s disk = (s', disk', Ok shown) -> s'.(ns_current) <> None.
Proof.
  intros Hn Hrun. unfold commitActiveSourceWave in Hrun. run1 Hrun; [|done]. rewrite run_get, Hn in Hrun. cbv zeta in Hrun.
  apply bind_run in Hrun as [([] & s1 & disk1 & Hs1 & Hrun)|(e & _ & ?)]; [|done]. apply activate_shows in Hs1.
  injection Hrun as <- _ _. by rewrite settle_keeps.
Qed.

(** The first refresh of a node ended well and left its Epoch pending. *)
Lemma early_wave_stages s started base results clock roles disk s' disk' shown :
  s.(ns_current) = None -> s.(ns_pendingDecision) = None ->
  completeSourceWave started base results clock roles s disk = (s', disk', Ok shown) -> s'.(ns_current) = None ->
  s'.(ns_storage).(currentPointer) = s.(ns_storage).(currentPointer) /\ filled s'.(ns_storage).
Proof.
  intros Hn Hp Hrun Hn'. apply finally_run in Hrun as (s1 & Hrun1 & ->). cbn [ns_storage ns_current set update] in *.
  rewrite run_get in Hrun1. run1 Hrun1; [done|]. run1 Hrun1; [done|]. unfold selectSourceWave in Hrun1. cbv zeta in Hrun1.
  destruct (collisionErr _); [by apply never_ok in Hrun1|].
  destruct (sourceConflict _); [by apply never_ok in Hrun1|]. rewrite run_get in Hrun1.
  destruct (valid _) as [|first others]; [run1 Hrun1; [by apply never_ok in Hrun1|done]|].
  destruct (allowCandidateTransition _ _); [|by apply never_ok in Hrun1]. run1 Hrun1; [|done].
  destruct (_ <? validFrom _); [|destruct (negb (_ <? _)); [by apply never_ok in Hrun1|by apply commitActive_shows in Hrun1]].
  by apply commitPending_stages in Hrun1.
Qed.

(** C38: A genesis Epoch fetched before it starts puts the node at risk.  When the
    first refresh of a node ends well and leaves the Epoch pending, its generation
    is stored without a current pointer.  Whenever the node then stops, at once or
    after whatever else happened to it, before a later refresh or acceptance has
    written the pointer, every start fails and the node never runs again. *)
Theorem early_genesis_is_lost s started base results clock roles disk s' disk' shown :
  s.(ns_current) = None -> s.(ns_pendingDecision) = None -> s.(ns_storage).(currentPointer) = None ->
  completeSourceWave started base results clock roles s disk = (s', disk', Ok shown) -> s'.(ns_current) = None ->
  s'.(ns_storage).(generations) <> ∅ /\ s'.(ns_storage).(currentPointer) = None /\
  forall s2 w2 m, rtc (step c Adjusted) (Running s' None) (Running s2 w2) -> s2.(ns_storage).(currentPointer) = None ->
    rtc (step c Adjusted) (Stopped s2.(ns_storage)) m -> exists root, m = Stopped root.
Proof.
  intros Hn Hp Hcp Hrun Hn'. destruct (early_wave_stages _ _ _ _ _ _ _ _ _ _ Hn Hp Hrun Hn') as [E Hf].
  split_and!; [done|by rewrite E|]. intros s2 w2 m Hlater Hcp2. apply stuck_stays, pointerless_stuck; [done|].
  exact (steps_filled _ _ Hlater Hf).
Qed.

(** *** A third source *)

(** C39: Replacing a source twice destroys the node.  When a node that ran
    with a steady clock and whose history has two exposures asks a source with a
    third one, the attempt is recorded and allowed; after the next stop, every start
    fails because the record of the three exposures cannot be decoded, and the node
    never runs again. *)
Theorem third_source_is_fatal s wave index disk s' disk' outcome m :
  rtc (step c Steady) (Stopped emptyRoot) (Running s wave) -> len s.(ns_distribution).(history) = 2 ->
  default zero32 (s.(ns_source).(Exposures) !! Z.to_nat index) ∉ s.(ns_distribution).(history) ->
  beginLatestAttempt index s disk = (s', disk', Ok (true, outcome)) ->
  rtc (step c Adjusted) (Stopped s'.(ns_storage)) m -> exists root, m = Stopped root.
Proof.
  intros [Hi _]%reached Hlen Hnew Hrun. apply stuck_stays.
  unfold beginLatestAttempt in Hrun. rewrite run_get in Hrun. cbv zeta in Hrun. run1 Hrun; [done|].
  destruct (_ =? 1); [by apply bind_run in Hrun as [(? & ? & ? & _ & ?)|(? & _ & ?)]|]. destruct (negb (_ =? 0)); [done|].
  apply bind_run in Hrun as [([] & s1 & disk1 & Hs1 & Hrun)|(e & _ & ?)]; [|done]. injection Hrun as <- _ _.
  set (d := expose _ _ _) in Hs1. rewrite !orb_false_iff, !Z.ltb_ge in Hq. destruct Hq as [[_ H0] H1].
  assert (2 < len d.(history)) as Hh.
  { unfold d, expose. rewrite bool_decide_eq_false_2 by exact Hnew. cbn. autorewrite with len. cbn. lia. }
  assert (Derived (ns_source s) (ns_distribution s) d) as Hd.
  { etransitivity; [apply derived_next|]. etransitivity; [by apply (derived_setStatus _ index 1)|]. apply derived_expose; [apply Hi|lia]. }
  clearbody d. destruct (derived_fits _ _ _ Hi Hd) as (Hf & Hx & Ht).
  apply commitDistribution_inv with (c := c) in Hs1 as (_ & _ & [(_ & _ & Hpt)|[? _]]); [|done..].
  eapply overexposed_stuck; [exact Hpt|apply Hf|done].
Qed.

End Loss.
