(* ===== verification/ResolutionTrust.v ===== *)
(** * Private name resolution on top of the Network State

    What a client trusts when it resolves a name on the state its node accepted:
    the authorities pinned in the configuration, the Epoch they signed, and roles
    that are candidates of the view that this Epoch commits to. *)

From S2P Require Import Prelude Wire GoLib GoTime Json Merkle EpochCodec StateView NetEpoch NetEpochProof NetEpochDecision NetState.
From S2P Require Import NamespaceView Resolution ResolutionEnd.

Import netstate running.

Section Trust.
Context `{GoLib}.

Lemma foldl_insert {K V} `{Countable K} {A} (key : A -> K) (value : A -> V) (f : K -> V) l (m : gmap K V) i :
  (forall a, a ∈ l -> value a = f (key a)) ->
  foldl (fun m a => <[key a := value a]> m) m l !! i = if decide (i ∈ map key l) then Some (f i) else m !! i.
Proof.
  revert m. induction l as [|a l IH]; intros m Hf; cbn [foldl map]; [by rewrite decide_False by apply not_elem_of_nil|].
  rewrite IH by (intros; apply Hf; by right). destruct (decide (i ∈ map key l)) as [Hi|Hi].
  - by rewrite decide_True by (by right).
  - destruct (decide (i = key a)) as [->|Hne].
    + rewrite decide_True by left. rewrite lookup_insert_eq. by rewrite Hf by left.
    + rewrite lookup_insert_ne by done. by rewrite decide_False by (by apply not_elem_of_cons).
Qed.

Lemma checkAuthorities_length pinned id public :
  checkAuthorities pinned = Ok tt -> (id, public) ∈ pinned -> length public = 32%nat.
Proof.
  induction pinned as [|[id' public'] pinned IH]; intros Hc Hin; [by apply elem_of_nil in Hin|]. cbn [checkAuthorities] in Hc. inv_ok.
  apply elem_of_cons in Hin as [[= -> ->]|Hin]; [unfold len in *; lia|by apply IH].
Qed.

(** The authorities that a Snapshot shows are the pinned ones. *)
Lemma shown_authorities (pinned : gmap (array 32) bytes) needed :
  authorityThreshold pinned needed = Ok tt -> checkAuthorities (map_to_list pinned) = Ok tt ->
  let ids := sortBy id (map fst (map_to_list pinned)) in
  let keys := map (fun id => to_array 32 (default [] (pinned !! id))) ids in
  foldl (fun m a => <[a.(state.authority_ID) := (a.(state.authority_PublicKey) : bytes)]> m) ∅
    (take (Z.to_nat (u8 (len ids))) (zip_with state.MkResolutionAuthority ids keys)) = pinned /\
  u8 needed = needed.
Proof.
  intros Ht Hc ids keys. unfold authorityThreshold in Ht. inv_ok.
  assert (length ids = size pinned) as Hlen.
  { unfold ids. by rewrite sortBy_perm, length_map, length_map_to_list. }
  split; [|apply Z.mod_small; lia].
  assert (u8 (len ids) = len ids) as -> by (apply Z.mod_small; unfold len; lia).
  assert (length (zip_with state.MkResolutionAuthority ids keys) = length ids) as Hz.
  { unfold keys. rewrite length_zip_with, length_map. lia. }
  unfold len. rewrite Nat2Z.id, <- Hz, firstn_all. clear Hz.
  assert (zip_with state.MkResolutionAuthority ids keys =
          map (fun id => state.MkResolutionAuthority id (to_array 32 (default [] (pinned !! id)))) ids) as ->.
  { unfold keys. clear. induction ids as [|x l IH]; [done|]. cbn. by rewrite IH. }
  apply map_eq. intros i.
  rewrite (foldl_insert state.authority_ID (fun a => (a.(state.authority_PublicKey) : bytes)) (fun id => default [] (pinned !! id))).
  - rewrite map_map. cbn [state.authority_ID]. rewrite map_id. unfold ids. rewrite lookup_empty.
    destruct (decide (i ∈ sortBy id (map fst (map_to_list pinned)))) as [Hi|Hi].
    + rewrite sortBy_perm in Hi. apply list_elem_of_fmap in Hi as ([k v] & -> & Hi). apply elem_of_map_to_list in Hi. cbn. by rewrite Hi.
    + destruct (pinned !! i) as [v|] eqn:E; [|done]. destruct Hi. rewrite sortBy_perm. apply list_elem_of_fmap.
      exists (i, v). split; [done|]. by apply elem_of_map_to_list.
  - intros a Ha. apply list_elem_of_fmap in Ha as (k & -> & Hk). cbn [state.authority_ID state.authority_PublicKey].
    unfold ids in Hk. rewrite sortBy_perm in Hk. apply list_elem_of_fmap in Hk as ([k' v] & -> & Hk). cbn [fst].
    apply elem_of_map_to_list in Hk as Hv. rewrite Hv. cbn [default from_option id]. apply to_array_bytes.
    by eapply checkAuthorities_length.
Qed.

(** *** The roles are candidates of the view *)

Lemma findCandidate_in l node at_ deadline c :
  state.findCandidate l node at_ deadline = Some c ->
  exists x, x ∈ l /\ c = state.MkResolutionCandidate x.(state.NodeID) x.(state.PublicKey) x.(state.Family) x.(state.Endpoint)
    x.(state.Domain) x.(state.AssignmentNotAfter).
Proof.
  induction l as [|x l IH]; intros Hf; cbn [state.findCandidate] in Hf; [done|]. destruct (negb _) in Hf.
  - destruct (IH Hf) as (y & Hy & ->). exists y. split; [by right|done].
  - destruct (_ && _) in Hf; [|done]. injection Hf as <-. exists x. split; [left|done].
Qed.

Lemma findPosition_in view node at_ deadline p :
  resolution.findPosition view node at_ deadline = Some p ->
  exists x, x ∈ state.candidates view /\ p = resolution.MkPosition x.(state.NodeID) x.(state.PublicKey) x.(state.Family)
    x.(state.Endpoint) x.(state.Domain) x.(state.AssignmentNotAfter).
Proof.
  unfold resolution.findPosition, state.Candidate. destruct (bool_decide _); [done|].
  destruct (state.findCandidate _ _ _ _) as [c|] eqn:Hf; [|done]. apply findCandidate_in in Hf as (x & Hx & ->).
  cbn [state.candidate_Endpoint state.candidate_NodeID state.candidate_PublicKey state.candidate_Family state.candidate_Domain state.candidate_AssignmentNotAfter].
  destruct (resolution.literalEndpoint _); [|done]. intros [= <-]. by exists x.
Qed.

Lemma selectPlan_roles view selection profile p :
  resolution.selectPlan view selection profile = Ok p ->
  Forall (fun role => exists x, x ∈ state.candidates view /\
      role = resolution.MkPosition x.(state.NodeID) x.(state.PublicKey) x.(state.Family) x.(state.Endpoint) x.(state.Domain)
               x.(state.AssignmentNotAfter))
    [p.(resolution.Relay); p.(resolution.Gateway); p.(resolution.ConnectionRendezvous)].
Proof.
  unfold resolution.selectPlan. destruct (state.View_Epoch _ _ _); [|done]. intros Hs. destruct (_ || _) in Hs; [done|].
  destruct (resolution.findPosition _ selection.(resolution.RelayNodeID) _ _) as [relay|] eqn:F1; [|done].
  destruct (resolution.findPosition _ selection.(resolution.GatewayNodeID) _ _) as [gw|] eqn:F2; [|done].
  destruct (resolution.findPosition _ selection.(resolution.ConnectionRendezvousNodeID) _ _) as [rendezvous|] eqn:F3; [|done].
  inv_ok. subst p.
  cbn [resolution.Relay resolution.Gateway resolution.ConnectionRendezvous]. apply findPosition_in in F1, F2, F3. by repeat constructor.
Qed.

(** A role as the signed view describes it. *)
Definition RoleOf (policy : epochPolicy) (e : epochEnvelope) (inputs : list bytes) (role : resolution.position) : Prop :=
  exists node domain, Candidate policy e inputs node /\ Assigned e node.(family) domain /\
    role = resolution.MkPosition node.(nodeID) (to_array 32 node.(publicKey)) node.(family) node.(endpoint) domain e.(validUntil).

Lemma shown_candidates c current epochBytes inputs d x :
  Decided c current epochBytes inputs d ->
  x ∈ (routeCandidates (Some d)).1 ->
  exists node domain proof, Candidate (policyOf c current) d.(cd_epoch) inputs node /\ Assigned d.(cd_epoch) node.(family) domain /\
    x = shownAs d.(cd_epoch) node (domain, proof).
Proof.
  intros [He _ _ _ Hview _ (seats & Hseats & Hshown) _] Hx. rewrite Hshown in Hx. cbn [fst] in Hx.
  apply list_elem_of_lookup in Hx as [k Hx]. rewrite lookup_zip_with in Hx.
  destruct (d.(cd_verified).(accepted) !! k) as [node|] eqn:Hk; [|done]. destruct (seats_at _ _ _ _ _ _ _ Hseats Hk) as ([domain proof] & Hs & Ha & _).
  cbn [mbind option_bind] in Hx. rewrite Hs in Hx. injection Hx as <-. apply list_elem_of_lookup_2 in Hk as Hn. cbn [fst snd] in Ha.
  exists node, domain, proof. apply verifyEpoch_ok in He as (Hp & _ & _). apply parseEpoch_domains in Hp.
  split_and!; [|by apply assignedDomain_lowest|done].
  pose proof (evaluateInputs_view (policyOf c current) d.(cd_epoch) inputs) as Hv. rewrite <- Hview in Hv. by apply (vo_exact _ _ _ _ Hv).
Qed.

(** What the pending Epoch and the distribution state leave alone. *)
Lemma shown_keeps pending d s :
  let s' := pendingShown pending (distributionShown d s) in
  s'.(state.NetworkID) = s.(state.NetworkID) /\ s'.(state.Epoch) = s.(state.Epoch) /\ s'.(state.Digest) = s.(state.Digest) /\
  s'.(state.EpochThreshold) = s.(state.EpochThreshold) /\ state.authorities s' = state.authorities s /\
  s'.(state.CandidateCount) = s.(state.CandidateCount) /\ s'.(state.Candidates) = s.(state.Candidates) /\
  s'.(state.SnapshotValidUntil) = s.(state.SnapshotValidUntil) /\ s'.(state.Conflicting) = d.(conflicting).
Proof. destruct pending; unfold distributionShown; cbv zeta; destruct (_ =? 0), (_ =? 0); split_and!; reflexivity. Qed.

Lemma snapshot_fields s d now :
  s.(ns_current) = Some d.(cd_snapshot) -> s.(ns_currentDecision) = Some d ->
  let sn := snapshotWithDistribution s now in
  let ids := sortBy id (map fst (map_to_list s.(ns_config).(authorities))) in
  let keys := map (fun id => to_array 32 (default [] (s.(ns_config).(authorities) !! id))) ids in
  sn.(state.NetworkID) = d.(cd_snapshot).(state.NetworkID) /\ sn.(state.Epoch) = d.(cd_snapshot).(state.Epoch) /\
  sn.(state.Digest) = d.(cd_snapshot).(state.Digest) /\ sn.(state.EpochThreshold) = u8 s.(ns_config).(threshold) /\
  state.authorities sn = take (Z.to_nat (u8 (len ids))) (zip_with state.MkResolutionAuthority ids keys) /\
  state.candidates (state.MkView sn) ⊆ (routeCandidates (Some d)).1 /\
  (sn.(state.Freshness) = str "fresh" -> d.(cd_epoch).(validFrom) <= now < d.(cd_snapshot).(state.SnapshotValidUntil)).
Proof.
  intros Hcur Hdec. cbv zeta. unfold snapshotWithDistribution. rewrite Hcur, Hdec.
  destruct (shown_keeps (ns_pendingDecision s) (ns_distribution s)
    (candidatesShown (Some d) (authoritiesShown (ns_config s) (cd_snapshot d)))) as (E1 & E2 & E3 & E4 & E5 & E6 & E7 & E8 & E9).
  set (sn := pendingShown _ _) in *. clearbody sn. split_and!; try done.
  - unfold state.candidates. cbn [state.snapshot]. change (take (Z.to_nat (state.CandidateCount sn)) (state.Candidates sn) ⊆ (routeCandidates (Some d)).1).
    rewrite E6, E7. apply halves_subset.
  - cbn [state.Freshness set update]. unfold freshness. rewrite E8. destruct (state.Conflicting sn); [by literals|].
    change (state.SnapshotValidUntil (candidatesShown _ _)) with (state.SnapshotValidUntil (cd_snapshot d)).
    destruct (Z.ltb_spec now (validFrom (cd_epoch d))); [done|]. by destruct (Z.ltb_spec now (state.SnapshotValidUntil (cd_snapshot d))).
Qed.

(** C9: What a resolver trusts.  When a node shows the state it accepted, and a
    client opens a resolver on it, the resolver checks names against exactly the
    authorities and the threshold pinned in the node's configuration, and against
    the digest of the accepted Epoch; that Epoch is signed by a threshold of the
    same authorities and current; and Relay, Gateway and Rendezvous are candidates
    of its committed view in the role domains it assigns. *)
Theorem resolver_trusts_pinned s d now current epochBytes inputs materials required view selection profile isolation base validKey r :
  verifyDecision s.(ns_config) current epochBytes inputs materials required = Ok d ->
  s.(ns_current) = Some d.(cd_snapshot) -> s.(ns_currentDecision) = Some d ->
  authorityThreshold s.(ns_config).(authorities) s.(ns_config).(threshold) = Ok tt ->
  checkAuthorities (map_to_list s.(ns_config).(authorities)) = Ok tt ->
  state.Resolution (snapshotWithDistribution s now) = Ok view ->
  resolution.Open view selection profile isolation base validKey = Ok r ->
  let e := d.(cd_epoch) in
  let c := s.(ns_config) in
  let p := r.(resolution.resolver_plan) in
  p.(resolution.NamespaceVerifier) =
    namespace.MkVerifier (epoch.MkPolicy c.(config_networkID) (str "ardents-namespace-materialization-v1") c.(authorities) c.(threshold))
      e.(number) e.(digest) /\
  e.(validFrom) <= now < e.(validUntil) /\
  SignedEpoch (policyOf c current) epochBytes e /\
  Forall (RoleOf (policyOf c current) e inputs) [p.(resolution.Relay); p.(resolution.Gateway); p.(resolution.ConnectionRendezvous)].
Proof.
  intros Hd Hcur Hdec Ht Hc Hres Ho. cbv zeta. apply verifyDecision_ok in Hd. pose proof (de_epoch _ _ _ _ _ Hd) as He.
  apply verifyEpoch_ok in He as (_ & Hsig & _). pose proof (de_snapshot _ _ _ _ _ Hd) as [Hcore Hsnap].
  unfold resolution.Open in Ho. destruct (resolution.selectPlan _ _ _) as [p|] eqn:Hsel; [|done]. inv_ok. subst r.
  cbn [resolution.resolver_plan]. pose proof (selectPlan_roles _ _ _ _ Hsel) as Hroles.
  apply selectPlan_ok in Hsel as (_ & e & He & _ & Hver & _ & _). rewrite Hver.
  unfold state.Resolution in Hres. inv_ok. subst view. unfold state.View_Epoch in He. cbn [state.snapshot] in *.
  destruct (_ || _) eqn:Hfresh in He; [done|]. injection He as <-. rewrite !orb_false_iff in Hfresh.
  destruct Hfresh as [[[[[Hfresh _] _] _] _] _]. apply negb_false_iff, bool_decide_eq_true in Hfresh.
  destruct (snapshot_fields s d now Hcur Hdec) as (F1 & F2 & F3 & F4 & F5 & F6 & F7). specialize (F7 Hfresh).
  destruct (shown_authorities _ _ Ht Hc) as [Hauth Hthr]. unfold core in Hcore. injection Hcore as Eg En Ee Ed Ev Ep Er.
  assert (state.SnapshotValidUntil (cd_snapshot d) = validUntil (cd_epoch d)) as Hu by (by rewrite Hsnap).
  split_and!; try done; [|lia..|].
  - unfold resolution.namespacePolicy. cbn [state.epoch_NetworkID state.epoch_Authorities state.epoch_Threshold state.epoch_Number state.epoch_Digest].
    rewrite F1, F2, F3, F4, F5, Hauth, Hthr, Hsnap, <- (se_network _ _ _ Hsig : networkID (cd_epoch d) = config_networkID (ns_config s)).
    unfold snapshotFromEpoch. cbn [state.NetworkID state.Epoch state.Digest]. by rewrite En, Ee, Ed.
  - eapply Forall_impl; [exact Hroles|]. intros role (x & Hx & ->). apply F6 in Hx.
    eapply shown_candidates in Hx as (node & domain & proof & Hn & Ha & ->); [|exact Hd]. by exists node, domain.
Qed.

End Trust.
