(* ===== verification/NetEpochWitness.v ===== *)
(** * Network Epochs: a genesis at work

    A genesis Epoch with three Node records and a malformed one, signed by two
    authorities, and a resolver opened on the state of the node that accepted it. *)

From S2P Require Import Prelude Wire GoLib GoTime Json Merkle Recovery Admission EpochCodec EpochProof StateView.
From S2P Require Import NetEpoch NetEpochProof NetEpochDecision NetEpochChain NetState NamespaceView Resolution ResolutionEnd ResolutionTrust.

Import netstate running.

(** A digest that depends on all of its input, so that families spread over the
    role domains. *)
Definition checksum (l : bytes) : Z := foldl (fun sum b => (sum * 31 + byte_val b + 7) mod 2 ^ 64) 1 l.

Definition mixed_digest (l : bytes) : array 32 :=
  to_array 32 ([x00; x00; x00; x01] ++ be_bytes 8 (checksum l) ++ reverse l).

Definition mixed_golib : GoLib := {|
  unicode_ToLower s := s;
  sha256 := mixed_digest;
  hmac_sha256 key message := mixed_digest (key ++ message);
  ed25519_Verify public message signature := bool_decide (signature = public ++ mixed_digest message);
  ed25519_Sign private message := to_array 64 (drop 32 private ++ mixed_digest message)
|}.

#[local] Existing Instance mixed_golib.

(** ** The Epoch *)

Definition pinnedAuthorities : gmap (array 32) bytes :=
  list_to_map (map (fun p : array 32 => (sha256 p, array_bytes p)) sampleAuthorities).

Definition nodeConfig : config := MkConfig sampleNetwork pinnedAuthorities 2 state.interactiveRouteProfile (4000 * Second) 0.

Definition sized (l : bytes) : bytes := byte_of (len l) :: l.

Definition sampleNode (node : Z) (declared address : string) : bytes :=
  let body := str "ARNR" ++ [x01] ++ sampleNetwork ++ recovery.key node ++ be_bytes 8 1 ++ be_bytes 8 1000 ++ be_bytes 8 9000 ++
    sized (str declared) ++ [x02] ++ sized (str address) ++ be_bytes 2 8 ++ recovery.key node in
  body ++ recovery.key node ++ sha256 body.

Definition sampleLog : list bytes :=
  [sampleNode 72 "third" "[2001:db8::1]:443"; str "garbage"; sampleNode 60 "second" "10.0.0.2:443"; sampleNode 70 "first" "10.0.0.1:443"].

Definition sampleRoles : list gostring := [str "initiator"; str "rendezvous"].

Definition draft : epochEnvelope :=
  zeroEnvelope <| networkID := sampleNetwork |> <| number := 1 |> <| validFrom := OfUnix 3000 |> <| validUntil := OfUnix 8000 |>
    <| profile := state.interactiveRouteProfile |> <| assignmentSeed := recovery.key 5 |>
    <| domains := map (fun d => MkDomain d 0 0) sampleRoles |>.

Definition sampleView : list nodeRecord * list rejection := evaluateInputs (policyOf nodeConfig None) draft sampleLog.

Definition belongs (domain : gostring) (r : nodeRecord) : bool :=
  match assignedDomain draft r.(family) with Ok d => d ==? domain | Err _ => false end.

Definition membersOf (domain : gostring) : Z := len (List.filter (belongs domain) sampleView.1).

(** The bytes that are signed, from the view that the log leaves. *)
Definition unsignedEpoch (number : Z) (previous : array 32) (from until : Z) : bytes :=
  let '(view, rejected) := sampleView in
  let leaves := map (fun r => epochRejectionLeaf r.(rej_index) (codeNumber r.(rej_code)) r.(rej_raw)) rejected in
  str "AREP" ++ [x01] ++ sampleNetwork ++ be_bytes 8 number ++ previous ++ be_bytes 8 from ++ be_bytes 8 until ++
  be_bytes 4 (len sampleLog) ++ sized state.interactiveRouteProfile ++
  epochCommitmentRoot sampleLog emptyInputTag ++ epochCommitmentRoot (map raw view) emptyViewTag ++ be_bytes 4 (len view) ++
  epochHashedCommitmentRoot leaves emptyRejectionTag ++ be_bytes 4 (len rejected) ++ recovery.key 5 ++ sized assignmentV1 ++
  be_bytes 4 (len view) ++ be_bytes 4 (8 * len view) ++ be_bytes 2 (len view) ++ be_bytes 2 1 ++ be_bytes 4 8 ++
  [byte_of (len sampleRoles)] ++
  concat (map (fun d => sized d ++ be_bytes 2 (membersOf d) ++ be_bytes 4 (8 * membersOf d)) sampleRoles).

Definition sampleUnsigned : bytes := unsignedEpoch 1 zero32 3000 8000.

(** An authority's identity and signature. *)
Definition signedBy (unsigned : bytes) (public : array 32) : bytes := sha256 public ++ public ++ sha256 (sha256 unsigned).

Definition signedEpoch (unsigned : bytes) : bytes :=
  unsigned ++ [byte_of (len sampleAuthorities)] ++
  concat (map (signedBy unsigned) (sortBy (fun p : array 32 => sha256 p) sampleAuthorities)).

Definition sampleEpoch : bytes := signedEpoch sampleUnsigned.

(** The same Epoch with one signature. *)
Definition oneSigned : bytes := sampleUnsigned ++ [x01] ++ signedBy sampleUnsigned (recovery.key 21).

Definition decisionOf (c : config) (epochBytes : bytes) : candidateDecision :=
  match verifyDecision c None epochBytes sampleLog [] false with
  | Ok d => d
  | Err _ => MkCandidateDecision zeroEnvelope [] [] zeroSnapshot
      (MkDecision [] [] (MkVerified [] zero32 0 zero32 zero32 0 0 [] zero32 0 zero32 0 false zero32 zero32 0 0 0 [] [] [] 0 [] zero32
        zero32 [] 0 zero32 [] 0) [] [] [] [] [] [] [] [] [] [] [] [] [] [] zeroEnvelope [] [])
  end.

Definition sampleDecision : candidateDecision := decisionOf nodeConfig sampleEpoch.

(** A second node: another clock, and one signature is enough for it. *)
Definition otherConfig : config := nodeConfig <| threshold := 1 |> <| config_now := 5000 * Second |>.
Definition otherDecision : candidateDecision := decisionOf otherConfig oneSigned.

Lemma sample_accepted : verifyDecision nodeConfig None sampleEpoch sampleLog [] false = Ok sampleDecision.
Proof. vm_compute. reflexivity. Qed.

Lemma other_accepted : verifyDecision otherConfig None oneSigned sampleLog [] false = Ok otherDecision.
Proof. vm_compute. reflexivity. Qed.

Lemma decision_sound_witness :
  SignedEpoch (policyOf nodeConfig None) sampleEpoch sampleDecision.(cd_epoch) /\
  exists view shown, ViewOf (policyOf nodeConfig None) sampleDecision.(cd_epoch) sampleLog view /\
    routeCandidates (Some sampleDecision) = (shown, len view).
Proof.
  destruct (decision_sound nodeConfig None sampleEpoch sampleLog [] false sampleDecision sample_accepted)
    as (Hs & _ & _ & view & shown & Hv & Hr & _).
  exact (conj Hs (ex_intro _ view (ex_intro _ shown (conj Hv Hr)))).
Defined.

Lemma same_digest : sampleDecision.(cd_epoch).(digest) = otherDecision.(cd_epoch).(digest).
Proof. vm_compute. reflexivity. Qed.

Lemma one_digest_one_view_witness :
  (otherDecision.(cd_epoch) = sampleDecision.(cd_epoch) <| signatures := otherDecision.(cd_epoch).(signatures) |> /\
   sampleLog = sampleLog /\ routeCandidates (Some sampleDecision) = routeCandidates (Some otherDecision) /\
   core sampleDecision.(cd_verified).(vd_Snapshot) = core otherDecision.(cd_verified).(vd_Snapshot)) \/
  Collision sha256 (epochInputs sampleEpoch oneSigned sampleLog sampleLog).
Proof.
  exact (one_digest_one_view nodeConfig otherConfig None None sampleEpoch oneSigned sampleLog sampleLog [] [] false false
    sampleDecision otherDecision sample_accepted other_accepted eq_refl eq_refl same_digest).
Defined.

Lemma third_accepted : 0 <= 2 < len sampleDecision.(cd_verified).(accepted).
Proof. split; [lia|]. apply Z.ltb_lt. vm_compute. reflexivity. Qed.

Lemma materialization_verifies_witness :
  exists proof, Materialization sampleDecision.(cd_verified) 2 = Ok proof /\ verifyDecisionMaterials sampleDecision [proof] = Ok tt.
Proof.
  exact (materialization_verifies nodeConfig None sampleEpoch sampleLog [] false sampleDecision 2 sample_accepted third_accepted).
Defined.

(** ** A resolver on this state *)

Definition noSources : sourceDetails := MkDetails false zero32 [] [] [] [].

Definition sampleState : networkState :=
  MkNetworkState nodeConfig noSources (Some sampleDecision.(cd_snapshot)) (Some sampleDecision) None zeroDistribution emptyRoot false false.

Definition startAt : Z := 4000 * Second.
Definition endAt : Z := 4010 * Second.

Definition shownView : state.ResolutionView := state.MkView (snapshotWithDistribution sampleState startAt).

Definition gate : admission.Admission :=
  admission.MkAdmission (recovery.key 60) sampleNetwork 1 (recovery.key 61) admission.acceptedProfiles admission.freshSurfaces.

Definition challenge : admission.Challenge :=
  match (admission.Issue gate 4000000 (str "resolution") (recovery.key 8) (recovery.key 62) 4020000 (to_array 16 [x07])).2 with
  | Ok c => c
  | Err _ => resolution.zeroChallenge
  end.

Definition gatewayProfile : resolution.GatewayProfile :=
  let unsigned := resolution.MkProfile sampleNetwork (recovery.key 60) [x01; x02] (sha256 [x01; x02]) (OfUnix 8000) [] in
  resolution.MkProfile sampleNetwork (recovery.key 60) [x01; x02] (sha256 [x01; x02]) (OfUnix 8000)
    (resolution.signGatewayProfile unsigned (zero32 ++ recovery.key 60)).

Definition selection : resolution.Selection :=
  resolution.MkSelection startAt endAt (recovery.key 72) (recovery.key 60) (recovery.key 70) [] [] challenge.

Definition openedOn : result resolution.resolver :=
  resolution.Open shownView selection gatewayProfile (recovery.key 62) true (fun _ => true).

Definition or_else {A} (d : A) (r : result A) : A := match r with Ok a => a | Err _ => d end.

Definition noResolver : resolution.resolver :=
  resolution.MkResolver (resolution.MkPlan zero32 [] 0 zero32 zero32 0 0 (resolution.MkPosition zero32 zero32 [] [] [] 0)
    (resolution.MkPosition zero32 zero32 [] [] [] 0) (resolution.MkPosition zero32 zero32 [] [] [] 0) [] zero32 [] []
    resolution.zeroChallenge (namespace.MkVerifier (epoch.MkPolicy zero32 [] ∅ 0) 0 zero32)) true
    (resolution.MkResolverEvidence "" [] zero32 zero32 zero32 zero32 zero32 zero32 zero32 0 "" 0 0).

Definition resolver_ : resolution.resolver := or_else noResolver openedOn.

Lemma sample_opened : resolution.Open shownView selection gatewayProfile (recovery.key 62) true (fun _ => true) = Ok resolver_.
Proof. vm_compute. reflexivity. Qed.

Lemma sample_shown : state.Resolution (snapshotWithDistribution sampleState startAt) = Ok shownView.
Proof. vm_compute. reflexivity. Qed.

Lemma sample_pinned :
  authorityThreshold pinnedAuthorities 2 = Ok tt /\ checkAuthorities (map_to_list pinnedAuthorities) = Ok tt.
Proof. vm_compute. split; reflexivity. Qed.

Lemma resolver_trusts_pinned_witness :
  let e := sampleDecision.(cd_epoch) in
  let c := sampleState.(ns_config) in
  let p := resolver_.(resolution.resolver_plan) in
  p.(resolution.NamespaceVerifier) =
    namespace.MkVerifier (epoch.MkPolicy c.(config_networkID) (str "ardents-namespace-materialization-v1") c.(authorities) c.(threshold))
      e.(number) e.(digest) /\
  e.(validFrom) <= startAt < e.(validUntil) /\
  SignedEpoch (policyOf c None) sampleEpoch e /\
  Forall (RoleOf (policyOf c None) e sampleLog)
    [p.(resolution.Relay); p.(resolution.Gateway); p.(resolution.ConnectionRendezvous)].
Proof.
  simple apply (resolver_trusts_pinned sampleState sampleDecision startAt None sampleEpoch sampleLog [] false shownView selection
    gatewayProfile (recovery.key 62) true (fun _ => true) resolver_).
  - exact sample_accepted.
  - reflexivity.
  - reflexivity.
  - exact (proj1 sample_pinned).
  - exact (proj2 sample_pinned).
  - exact sample_shown.
  - exact sample_opened.
Defined.
