(* ===== verification/NetStateWitness.v ===== *)
(** * The running Network State: a node at work

    A node that opens an empty disk, accepts the genesis Epoch of NetEpochWitness.v
    and is restarted; one that meets a conflict; two that lose their disk; and one that
    catches up with another. *)

From S2P Require Import Prelude Wire GoLib GoTime Recovery Merkle EpochProof StateView NetSource NetEpoch NetEpochProof NetEpochDecision NetEpochChain.
From S2P Require Import NetState NetStateCodec NetStateProof NetStateWave NetStateMachine NetStateLoss NetStateServe NetEpochWitness.

Import netstate running.

#[local] Existing Instance mixed_golib.

(** The outcome of a call decides what the call was. *)
Lemma outcome_run {A} (run : networkState * faults * result A) r : run.2 = r -> run = (run.1.1, run.1.2, r).
Proof. destruct run as [[s disk] r']. by intros <-. Qed.

Definition exposure (n : Z) : array 32 := recovery.key n.

Definition plan (second : Z) : sourceDetails :=
  MkDetails true (recovery.key 0) [recovery.key 90; recovery.key 91] [str "left"; str "right"] [str "left:1"; str "right:1"]
    [exposure 1; exposure second].

Definition clockAt (t : Z) : clockReading := MkClock (t * Second) (t * Second) (t * Second).

(** ** Acceptance and restart *)

Definition opened := open nodeConfig (plan 2) emptyRoot None.
Definition proofZero : bytes := or_else [] (Materialization sampleDecision.(cd_verified) 0).
Definition acceptedRun := Accept sampleEpoch sampleLog [proofZero] (Ok tt) (Ok tt) startAt startAt opened.1.1 None.
Definition reopenedRun := open (nodeConfig <| config_now := 5000 * Second |>) (plan 2) acceptedRun.1.1.(ns_storage) None.

Lemma opened_ok : opened.2 = Ok tt.
Proof. vm_compute. reflexivity. Qed.

Lemma reopened_ok : reopenedRun.2 = Ok tt.
Proof. vm_compute. reflexivity. Qed.

Lemma accepted_shown : shownEpoch acceptedRun.1.1 = (1, sampleDecision.(cd_epoch).(digest)).
Proof. vm_compute. reflexivity. Qed.

Lemma config_same c : c = c <| config_now := c.(config_now) |>.
Proof. by destruct c. Qed.

(** Opening with the pinned trust, at any time. *)
Lemma open_step root t info disk :
  length info.(Exposures) = 2%nat -> (open (nodeConfig <| config_now := t |>) info root disk).2 = Ok tt ->
  step nodeConfig Steady (Stopped root) (Running (open (nodeConfig <| config_now := t |>) info root disk).1.1 None).
Proof. intros Hl Hr. eapply step_open; [exact Hl|]. by apply outcome_run. Qed.

Lemma opened_reached : rtc (step nodeConfig Steady) (Stopped emptyRoot) (Running opened.1.1 None).
Proof. apply rtc_once. exact (open_step emptyRoot nodeConfig.(config_now) (plan 2) None eq_refl opened_ok). Qed.

Lemma accepted_reached : rtc (step nodeConfig Steady) (Stopped emptyRoot) (Running acceptedRun.1.1 None).
Proof.
  eapply rtc_r; [exact opened_reached|].
  apply (step_accept nodeConfig Steady _ None sampleEpoch sampleLog [proofZero] (Ok tt) (Ok tt) startAt startAt None _ acceptedRun.1.2 acceptedRun.2);
    [by split|intros _; by apply Z.leb_le; vm_compute|exact (outcome_run acceptedRun _ eq_refl)].
Qed.

Lemma reopened_later : rtc (step nodeConfig Steady) (Running acceptedRun.1.1 None) (Running reopenedRun.1.1 None).
Proof.
  eapply rtc_l; [apply step_stop|]. apply rtc_once. exact (open_step _ (5000 * Second) (plan 2) None eq_refl reopened_ok).
Qed.

Lemma state_never_rolls_back_witness :
  shownEpoch acceptedRun.1.1 = (1, sampleDecision.(cd_epoch).(digest)) /\ Later (shownEpoch acceptedRun.1.1) (shownEpoch reopenedRun.1.1).
Proof.
  split; [exact accepted_shown|].
  exact (proj1 (state_never_rolls_back nodeConfig acceptedRun.1.1 None reopenedRun.1.1 None accepted_reached reopened_later)).
Defined.

(** ** A conflict *)

Definition refreshAt (t : Z) (s : networkState) := beginRefresh (clockAt t) (Some (recovery.key 7)) (Ok tt) s None.

Definition waveAt (t : Z) (s : networkState) : sourceWave := MkWave (t * Second) s.(ns_current) s.(ns_currentDecision) [].

(** A refresh that starts now, asks in the order of its seed and has 15 seconds. *)
Definition Begins (t : Z) (s : networkState) : Prop := (refreshAt t s).2 = Ok (t * Second, ([0; 1], (t + 15) * Second)).

Lemma begin_step t s :
  - 2 ^ 62 <= t < 2 ^ 62 -> Begins t s ->
  step nodeConfig Steady (Running s None) (Running (refreshAt t s).1.1 (Some (waveAt t s))).
Proof.
  intros Ht Hb. eapply step_begin; [|exact (outcome_run _ _ Hb)]. unfold Readable, Instant, Unix. cbn. rewrite Z.div_mul by done. done.
Qed.

Definition begun := refreshAt 4000 opened.1.1.

Lemma begun_ok : Begins 4000 opened.1.1.
Proof. vm_compute. reflexivity. Qed.

Definition completed (t : Z) (s : networkState) (wave : sourceWave) :=
  completeSourceWave wave.(wave_started) wave.(wave_base) wave.(wave_results) (clockAt t) (Ok tt) s None.

Lemma complete_step t s wave :
  - 2 ^ 62 <= t < 2 ^ 62 -> step nodeConfig Steady (Running s (Some wave)) (Running (completed t s wave).1.1 None).
Proof.
  intros Ht. eapply step_complete; [|exact (outcome_run (completed t s wave) _ eq_refl)].
  unfold Readable, Instant, Unix. cbn. rewrite Z.div_mul by done. done.
Qed.

(** A source that is also a Node of the network. *)
Definition collided : sourceResult := MkSourceResult 0 0 (Err collisionError) none4.
Definition conflicted := completed 4001 begun.1.1 (contribute (waveAt 4000 opened.1.1) collided).
Definition afterConflict := open (nodeConfig <| config_now := 5000 * Second |>) (plan 2) conflicted.1.1.(ns_storage) None.

Lemma conflicted_reached : rtc (step nodeConfig Steady) (Stopped emptyRoot) (Running conflicted.1.1 None).
Proof.
  eapply rtc_r; [eapply rtc_r; [eapply rtc_r; [exact opened_reached|exact (begin_step 4000 _ ltac:(lia) begun_ok)]|]|].
  - apply (step_missed nodeConfig Steady _ _ collided collisionError); [split; [done|by repeat constructor]|done].
  - apply (complete_step 4001). lia.
Qed.

Lemma conflicted_latched : conflicted.1.1.(ns_distribution).(conflicting) = true.
Proof. vm_compute. reflexivity. Qed.

Lemma afterConflict_ok : afterConflict.2 = Ok tt.
Proof. vm_compute. reflexivity. Qed.

Lemma conflict_latches_witness :
  afterConflict.1.1.(ns_distribution).(conflicting) = true /\
  is_err (Accept sampleEpoch sampleLog [proofZero] (Ok tt) (Ok tt) startAt startAt afterConflict.1.1 None).2.
Proof.
  destruct (conflict_latches nodeConfig conflicted.1.1 None afterConflict.1.1 None conflicted_reached conflicted_latched) as (Hc & _ & Ha & _).
  - eapply rtc_l; [apply step_stop|]. apply rtc_once. exact (open_step _ (5000 * Second) (plan 2) None eq_refl afterConflict_ok).
  - exact (conj Hc (Ha sampleEpoch sampleLog [proofZero] (Ok tt) (Ok tt) startAt startAt None)).
Defined.

(** ** The genesis Epoch before its time *)

Definition earlyOpened := open (nodeConfig <| config_now := 2000 * Second |>) (plan 2) emptyRoot None.
Definition earlyBegun := refreshAt 2000 earlyOpened.1.1.
Definition delivered : sourceResult := MkSourceResult 0 0 (Ok sampleDecision) [sourceOutcomeValid; 0; 0; 0].
Definition early := completeSourceWave (2000 * Second) None [delivered] (clockAt 2001) (Ok tt) earlyBegun.1.1 None.

Lemma early_ok : exists shown, early.2 = Ok shown.
Proof. eexists. vm_compute. reflexivity. Qed.

Lemma early_genesis_is_lost_witness :
  early.1.1.(ns_pendingDecision) = Some sampleDecision /\ ~ exists s w, rtc (step nodeConfig Adjusted) (Stopped early.1.1.(ns_storage)) (Running s w).
Proof.
  split; [vm_compute; reflexivity|]. intros (s & w & Hr). destruct early_ok as [shown Hs].
  destruct (early_genesis_is_lost nodeConfig earlyBegun.1.1 (2000 * Second) None [delivered] (clockAt 2001) (Ok tt) None early.1.1 early.1.2 shown)
    as (_ & Hcp & Hlost); [vm_compute; reflexivity..|exact (outcome_run early _ Hs)|vm_compute; reflexivity|].
  destruct (Hlost early.1.1 None (Running s w)) as [root [=]]; [apply rtc_refl|exact Hcp|exact Hr].
Defined.

(** ** A third source *)

Definition latest (index : Z) (s : networkState) := beginLatestAttempt index s None.
Definition askedBoth := latest 1 (latest 0 begun.1.1).1.1.
Definition ended := completed 4001 askedBoth.1.1 (waveAt 4000 opened.1.1).
Definition replaced := open (nodeConfig <| config_now := 5000 * Second |>) (plan 3) ended.1.1.(ns_storage) None.
Definition begunAgain := refreshAt 5000 replaced.1.1.
Definition third := latest 1 begunAgain.1.1.

Lemma replaced_ok : replaced.2 = Ok tt.
Proof. vm_compute. reflexivity. Qed.

Lemma begunAgain_ok : Begins 5000 replaced.1.1.
Proof. vm_compute. reflexivity. Qed.

Lemma third_asked : third.2 = Ok (true, 0).
Proof. vm_compute. reflexivity. Qed.

Lemma latest_step index s wave : step nodeConfig Steady (Running s (Some wave)) (Running (latest index s).1.1 (Some wave)).
Proof. exact (step_latest nodeConfig Steady _ _ index None _ _ _ (outcome_run _ _ eq_refl)). Qed.

Lemma replaced_reached : exists wave, rtc (step nodeConfig Steady) (Stopped emptyRoot) (Running begunAgain.1.1 wave).
Proof.
  eexists. eapply rtc_r; [eapply rtc_r; [eapply rtc_r; [eapply rtc_r; [eapply rtc_r; [eapply rtc_r; [eapply rtc_r; [exact opened_reached|]|]|]|]|]|]|].
  - exact (begin_step 4000 _ ltac:(lia) begun_ok).
  - apply (latest_step 0).
  - apply (latest_step 1).
  - apply (complete_step 4001). lia.
  - apply step_stop.
  - exact (open_step _ (5000 * Second) (plan 3) None eq_refl replaced_ok).
  - exact (begin_step 5000 _ ltac:(lia) begunAgain_ok).
Qed.

Lemma third_source_is_fatal_witness : ~ exists s w, rtc (step nodeConfig Adjusted) (Stopped third.1.1.(ns_storage)) (Running s w).
Proof.
  intros (s & w & Hr). destruct replaced_reached as [wave Hw].
  destruct (third_source_is_fatal nodeConfig begunAgain.1.1 wave 1 None third.1.1 third.1.2 0 (Running s w) Hw) as [root [=]];
    [vm_compute; reflexivity| |exact (outcome_run third _ third_asked)|exact Hr].
  apply (bool_decide_eq_false_1 _). vm_compute. reflexivity.
Defined.

(** ** A refresh from a node that is ahead *)







