(* ===== verification/NetStateClock.v ===== *)
(** * The running Network State: a clock that is set back

    A history that shows why the theorem on a node that never goes back asks for a
    steady clock: an acceptance that reads a clock behind that of the last start
    makes an Epoch current before it begins, and this is enough for sources that
    answer with an old Epoch to bring the node back to it. *)

From S2P Require Import Prelude Wire GoLib GoTime Recovery Merkle EpochProof StateView NetSource NetEpoch NetEpochProof NetEpochDecision NetEpochChain.
From S2P Require Import NetState NetStateCodec NetStateProof NetStateWave NetStateMachine NetEpochWitness NetStateWitness.

Import netstate running.

#[local] Existing Instance mixed_golib.

(** The Epoch after the genesis Epoch, from the same log. *)
Definition nextEpoch : bytes := signedEpoch (unsignedEpoch 2 sampleDecision.(cd_epoch).(digest) 3500 8500).

Definition nextDecision : candidateDecision :=
  or_else sampleDecision (verifyDecision nodeConfig (Some sampleDecision.(cd_snapshot)) nextEpoch sampleLog [] false).

(** What a source that shows [d] answers, and a refresh in which it is the only one
    to answer. *)
Definition answerOf (d : candidateDecision) : source.Message :=
  source.responded (str "ok") d.(cd_epoch).(digest) (or_else [] (encodeSourceBundle d 0)).

Definition answeredAt (t : Z) (d : candidateDecision) (s : networkState) : sourceWave :=
  contribute (waveAt t s)
    (verifiedResult (fun _ => 2) 0 0 none4 (verifyResponse (refreshAt t s).1.1 (t * Second) (answerOf d) s.(ns_current) s.(ns_currentDecision))).

Definition refreshed (t : Z) (d : candidateDecision) (s : networkState) : networkState :=
  (completed (t + 1) (refreshAt t s).1.1 (answeredAt t d s)).1.1.

Lemma refreshed_steps t d s :
  - 2 ^ 61 <= t < 2 ^ 61 -> Begins t s -> rtc (step nodeConfig Adjusted) (Running s None) (Running (refreshed t d s) None).
Proof.
  intros Ht Hb. eapply rtc_l; [apply step_adjusted, (begin_step t); [lia|exact Hb]|].
  eapply rtc_l; [|apply rtc_once, step_adjusted, complete_step; lia].
  apply (verified_step nodeConfig Adjusted (fun _ => 2) ltac:(done)). apply none4_bytes.
Qed.

(** The node starts at 4000; the clock is set back to 2000, and the genesis Epoch,
    which begins at 3000, is accepted offline. *)
Definition rushed := Accept sampleEpoch sampleLog [proofZero] (Ok tt) (Ok tt) (2000 * Second) (2000 * Second) opened.1.1 None.
(** It starts again at 2100, fetches the Epoch it has already, before it begins,
    then the next Epoch, and then sources answer with the genesis Epoch again. *)
Definition restarted := open (nodeConfig <| config_now := 2100 * Second |>) (plan 2) rushed.1.1.(ns_storage) None.
Definition staged : networkState := refreshed 2200 sampleDecision restarted.1.1.
Definition forward : networkState := refreshed 4000 nextDecision staged.
Definition back : networkState := refreshed 4100 sampleDecision forward.

Lemma restarted_ok : restarted.2 = Ok tt.
Proof. vm_compute. reflexivity. Qed.

Lemma staged_begins : Begins 2200 restarted.1.1.
Proof. vm_compute. reflexivity. Qed.

Lemma forward_begins : Begins 4000 staged.
Proof. vm_compute. reflexivity. Qed.

Lemma back_begins : Begins 4100 forward.
Proof. vm_compute. reflexivity. Qed.

Lemma forward_shown : shownEpoch forward = (2, nextDecision.(cd_epoch).(digest)).
Proof. vm_compute. reflexivity. Qed.

Lemma back_shown : shownEpoch back = (1, sampleDecision.(cd_epoch).(digest)).
Proof. vm_compute. reflexivity. Qed.

Lemma rushed_reached : rtc (step nodeConfig Adjusted) (Stopped emptyRoot) (Running rushed.1.1 None).
Proof.
  eapply rtc_l; [apply step_adjusted; exact (open_step emptyRoot nodeConfig.(config_now) (plan 2) None eq_refl opened_ok)|].
  apply rtc_once.
  apply (step_accept nodeConfig Adjusted _ None sampleEpoch sampleLog [proofZero] (Ok tt) (Ok tt) (2000 * Second) (2000 * Second) None _ rushed.1.2 rushed.2);
    [by split|done|exact (outcome_run rushed _ eq_refl)].
Qed.

Lemma forward_reached : rtc (step nodeConfig Adjusted) (Stopped emptyRoot) (Running forward None).
Proof.
  etransitivity; [exact rushed_reached|]. eapply rtc_l; [apply step_stop|].
  eapply rtc_l; [apply step_adjusted; exact (open_step _ (2100 * Second) (plan 2) None eq_refl restarted_ok)|].
  etransitivity; [exact (refreshed_steps 2200 sampleDecision _ ltac:(lia) staged_begins)|].
  exact (refreshed_steps 4000 nextDecision _ ltac:(lia) forward_begins).
Qed.

(** With a clock that was set back, a node goes from the second Epoch back to the
    first. *)
Lemma set_back_clock_rolls_back :
  exists s s', rtc (step nodeConfig Adjusted) (Stopped emptyRoot) (Running s None) /\
    rtc (step nodeConfig Adjusted) (Running s None) (Running s' None) /\ (shownEpoch s).1 = 2 /\ (shownEpoch s').1 = 1.
Proof.
  exists forward, back. split_and!; [exact forward_reached|exact (refreshed_steps 4100 sampleDecision _ ltac:(lia) back_begins)|..].
  - by rewrite forward_shown.
  - by rewrite back_shown.
Qed.
